(** * LaymanDB schema pipeline: normaliser, SQL preprocessing, Mermaid and
    documentation generators.

    A shallow embedding of the JavaScript services of the repository
    (schemaGenerator.service.js, sqlGenerator.service.js, the Mermaid
    generator service, the copy of its class in controllers/ that no module
    loads, and documentation.service.js), of the in-memory schema model and
    of the handlers that generate a schema and export it as SQL, followed
    by the theorems that settle the claims C1 .. C10 of the specification
    and by further properties of the code, X1 .. X28.

    Modelling conventions.
    - JavaScript strings are [string] (sequences of 8-bit characters); the
      character classes [\w], [\s] and [toLowerCase] are the ASCII ones, so
      the statements speak about texts whose letters and white space are
      ASCII.
    - A property that may be absent ([undefined]) or [null] is an [option];
      a property that is only ever read for its truthiness is a [bool].
      Where the code treats [undefined], [null] and values that are no
      strings differently, as the handler of the SQL export does with the
      members of the request body, the cases are kept apart
      ([ExportController.Member]).
    - Arrays are lists; an in-place update of an element found by
      [Array.prototype.find] is an update at the index of the first match.
    - Layout hints ([position]), [assumptionsMade] and time stamps taken from
      the clock are carried through by the code without being inspected and
      are left out of the records. *)

From stdpp Require Import base option list strings gmap.
From Stdlib Require Import Ascii DecimalString DecimalNat.

Open Scope stdpp_scope.

(* ===================================================================== *)
(** * Part I: definitions                                                 *)
(* ===================================================================== *)

(** ** JavaScript strings *)

Module JS.

Definition code (a : ascii) : nat := nat_of_ascii a.

Definition isUpper (a : ascii) : bool := (65 <=? code a) && (code a <=? 90).
Definition isLower (a : ascii) : bool := (97 <=? code a) && (code a <=? 122).
Definition isDigit (a : ascii) : bool := (48 <=? code a) && (code a <=? 57).

  (** [\w] is [A-Za-z0-9_]. *)
Definition isWord (a : ascii) : bool :=
    isUpper a || isLower a || isDigit a || (code a =? 95).

  (** [\s], ASCII part: TAB, LF, VT, FF, CR and SPACE. *)
Definition isSpace (a : ascii) : bool :=
    ((9 <=? code a) && (code a <=? 13)) || (code a =? 32).

Definition isNewline (a : ascii) : bool := (code a =? 10).

  (** The line terminators LF and CR, before which the dollar of a
      multi-line pattern matches. *)
Definition isLineTerminator (a : ascii) : bool :=
    (code a =? 10) || (code a =? 13).

  (** [.] excludes the line terminators LF and CR. *)
Definition isDot (a : ascii) : bool := negb (isLineTerminator a).

Definition lowerChar (a : ascii) : ascii :=
    if isUpper a then ascii_of_nat (code a + 32) else a.
Definition upperChar (a : ascii) : ascii :=
    if isLower a then ascii_of_nat (code a - 32) else a.

Definition chars (s : string) : list ascii := String.list_ascii_of_string s.
Definition str (l : list ascii) : string := String.string_of_list_ascii l.

Definition toLowerCase (s : string) : string := str (lowerChar <$> chars s).
Definition toUpperCase (s : string) : string := str (upperChar <$> chars s).

  (** [xs] is a prefix of [l]. *)
Fixpoint prefixb (xs l : list ascii) : bool :=
    match xs, l with
    | [], _ => true
    | x :: xs', a :: l' => Ascii.eqb x a && prefixb xs' l'
    | _ :: _, [] => false
    end.

Fixpoint infixb (xs l : list ascii) : bool :=
    prefixb xs l || match l with [] => false | _ :: l' => infixb xs l' end.

Definition startsWith (s p : string) : bool := prefixb (chars p) (chars s).
Definition endsWith (s p : string) : bool :=
    prefixb (reverse (chars p)) (reverse (chars s)).
Definition includes (s p : string) : bool := infixb (chars p) (chars s).

Fixpoint trimStart (l : list ascii) : list ascii :=
    match l with
    | a :: l' => if isSpace a then trimStart l' else l
    | [] => []
    end.
Definition trimChars (l : list ascii) : list ascii :=
    reverse (trimStart (reverse (trimStart l))).
Definition trim (s : string) : string := str (trimChars (chars s)).

  (** [text.split('\n')]: always at least one piece. *)
Fixpoint splitLines (l : list ascii) : list (list ascii) :=
    match l with
    | [] => [[]]
    | a :: l' =>
        if isNewline a then [] :: splitLines l'
        else match splitLines l' with
             | [] => [[a]]
             | ln :: lns => (a :: ln) :: lns
             end
    end.

  (** [lines.join('\n')]. *)
Fixpoint joinLines (ls : list (list ascii)) : list ascii :=
    match ls with
    | [] => []
    | [ln] => ln
    | ln :: ls' => ln ++ "010"%char :: joinLines ls'
    end.

  (** [pieces.join(sep)] on strings. *)
Fixpoint join (sep : string) (ls : list string) : string :=
    match ls with
    | [] => ""
    | [x] => x
    | x :: ls' => x +:+ sep +:+ join sep ls'
    end.

  (** Truthiness of an optional string: [undefined], [null] and [''] are falsy. *)
Definition truthy (o : option string) : bool :=
    match o with Some s => negb (String.eqb s "") | None => false end.

  (** [a || d] for an optional string [a] and a string [d]. *)
Definition orElse (o : option string) (d : string) : string :=
    match o with Some s => if String.eqb s "" then d else s | None => d end.

  (** Decimal rendering of an array length in a template string. *)
Definition ofNat (n : nat) : string := NilEmpty.string_of_uint (Nat.to_uint n).

Definition dq : string := String "034"%char EmptyString.
Definition nl : string := String "010"%char EmptyString.

End JS.

(** ** Regular expressions

    A backtracking matcher with the priorities of ECMAScript: alternatives
    left to right, greedy iteration, an iteration that consumes nothing is
    rejected.  Only the constructs that occur in the sources are present. *)

Module Regex.

Inductive regex :=
  | RChr (p : ascii → bool)          (* a literal or a character class *)
  | REps                             (* the empty pattern *)
  | RSeq (r1 r2 : regex)
  | RAlt (r1 r2 : regex)
  | RStar (r : regex)                (* greedy star *)
  | RGroup (i : nat) (r : regex)     (* capture group number i *)
  | REol                             (* dollar under the m flag *)
  | REnd.                            (* dollar without the m flag *)

Definition caps : Type := nat → list ascii.
Definition noCaps : caps := λ _, [].
Definition setCap (i : nat) (v : list ascii) (c : caps) : caps :=
    λ j, if Nat.eqb j i then v else c j.

Fixpoint rmatch {A} (r : regex) (s : list ascii) (c : caps)
      (k : list ascii → caps → option A) {struct r} : option A :=
    match r with
    | RChr p =>
        match s with
        | a :: s' => if p a then k s' c else None
        | [] => None
        end
    | REps => k s c
    | RSeq r1 r2 => rmatch r1 s c (λ s1 c1, rmatch r2 s1 c1 k)
    | RAlt r1 r2 =>
        match rmatch r1 s c k with
        | Some x => Some x
        | None => rmatch r2 s c k
        end
    | RStar r1 =>
        (fix star (n : nat) (s : list ascii) (c : caps) {struct n} : option A :=
           match n with
           | 0 => k s c
           | S n' =>
               match rmatch r1 s c (λ s1 c1,
                       if Nat.ltb (length s1) (length s)
                       then star n' s1 c1 else None) with
               | Some x => Some x
               | None => k s c
               end
           end) (length s) s c
    | RGroup i r1 =>
        rmatch r1 s c (λ s1 c1,
          k s1 (setCap i (take (length s - length s1) s) c1))
    | REol =>
        match s with
        | [] => k s c
        | a :: _ => if JS.isLineTerminator a then k s c else None
        end
    | REnd => match s with [] => k s c | _ :: _ => None end
    end.

  (** A match that starts at the head of [s]: its length and its groups. *)
Definition matchHere (r : regex) (s : list ascii) : option (nat * caps) :=
    rmatch r s noCaps (λ s' c, Some (length s - length s', c)).

  (** [regex.test(s)] for an unanchored pattern: some position matches. *)
Fixpoint search (r : regex) (s : list ascii) : bool :=
    match matchHere r s with
    | Some _ => true
    | None => match s with [] => false | _ :: s' => search r s' end
    end.

  (** [regex.test(s)] for a pattern that starts with the caret (no m flag):
      only position 0 is tried. *)
Definition testAnchored (r : regex) (s : list ascii) : bool :=
    match matchHere r s with Some _ => true | None => false end.

  (** [s.replace(regex, f)] under the g flag.  After a match of length
      [n > 0] the scan resumes behind it ([skip] counts the characters of the
      match still to be dropped); after an empty match one character is
      copied. *)
Fixpoint replaceGo (r : regex) (f : caps → list ascii) (skip : nat)
      (s : list ascii) : list ascii :=
    match skip with
    | S k => match s with [] => [] | _ :: s' => replaceGo r f k s' end
    | 0 =>
        match matchHere r s with
        | Some (n, c) =>
            f c ++ match s with
                   | [] => []
                   | a :: s' =>
                       match n with
                       | 0 => a :: replaceGo r f 0 s'
                       | S n' => replaceGo r f n' s'
                       end
                   end
        | None =>
            match s with [] => [] | a :: s' => a :: replaceGo r f 0 s' end
        end
    end.

Definition replaceAll (r : regex) (f : caps → list ascii) (s : list ascii)
      : list ascii := replaceGo r f 0 s.

  (** [s.replace(/^r/, f)] without the g flag: one attempt, at position 0. *)
Definition replaceAnchored (r : regex) (f : caps → list ascii)
      (s : list ascii) : list ascii :=
    match matchHere r s with
    | Some (n, c) => f c ++ drop n s
    | None => s
    end.

  (** Pattern combinators. *)
Definition chr (a : ascii) : regex := RChr (Ascii.eqb a).
Definition plus (r : regex) : regex := RSeq r (RStar r).
Definition opt (r : regex) : regex := RAlt r REps.
Fixpoint lit (l : list ascii) : regex :=
    match l with
    | [] => REps
    | a :: l' => RSeq (chr a) (lit l')
    end.
Definition word : regex := RChr JS.isWord.
Definition space : regex := RChr JS.isSpace.
Definition dot : regex := RChr JS.isDot.

Definition strReplaceAll (r : regex) (f : caps → list ascii) (s : string)
      : string := JS.str (replaceAll r f (JS.chars s)).

End Regex.

(** ** The data model (spec section 3, as the code reads and writes it) *)

Module Reference.
Record t := mk {
    table : string;
    column : string;
    onDelete : option string;
    onUpdate : option string }.
End Reference.

Module Column.
Record t := mk {
    name : string;
    dataType : option string;
    isPrimaryKey : bool;
    isForeignKey : bool;
    isNullable : option bool;
    isUnique : bool;
    defaultValue : option string;
    references : option Reference.t;
    isMultivalued : bool;
    isDerived : bool;
    isComposite : bool;
    description : option string }.
End Column.

Module Table.
Record t := mk {
    name : string;
    columns : list Column.t;
    description : option string;
    isWeakEntity : bool;
    isLookupTable : bool;
    isJunctionTable : bool }.
End Table.

(** An attribute owned by a relationship, as stored in a schema. *)
Module RelAttr.
Record t := mk {
    name : string;
    dataType : option string;
    isPrimaryKey : bool;
    isForeignKey : bool;
    isNullable : option bool;
    isUnique : bool;
    isMultiValued : bool;
    isDerived : bool;
    description : option string }.
End RelAttr.

(** The optional per-relationship override read by the Mermaid generator. *)
Module Cardinality.
Record t := mk { source : option string; target : option string }.
End Cardinality.

Module Relationship.
Record t := mk {
    name : option string;
    sourceTable : option string;
    sourceEntity : option string;
    targetTable : option string;
    targetEntity : option string;
    sourceColumn : option string;
    targetColumn : option string;
    type : option string;
    isIdentifying : bool;
    description : option string;
    sourceCardinality : option string;
    targetCardinality : option string;
    sourceParticipation : option string;
    targetParticipation : option string;
    attributes : option (list RelAttr.t);
    cardinality : option Cardinality.t }.
End Relationship.

Module Schema.
Record t := mk {
    name : string;
    description : option string;
    tables : list Table.t;
    relationships : list Relationship.t;
    version : option nat;
    createdAt : option string;
    updatedAt : option string }.
End Schema.

(** ** The extraction result consumed by the normaliser (spec section 6) *)

Module Attr.
Record t := mk {
    name : option string;
    dataType : option string;
    isPrimaryKey : bool;
    isForeignKey : bool;
    isNullable : option bool;
    isUnique : bool;
    defaultValue : option string;
    references : option Reference.t;
    isMultivalued : bool;
    isDerived : bool;
    isComposite : bool;
    description : option string }.
End Attr.

Module Entity.
Record t := mk {
    name : option string;
    description : option string;
    isWeakEntity : bool;            (* [entity.isWeakEntity === true] *)
    isLookupTable : bool;           (* [entity.isLookupTable === true] *)
    attributes : option (list Attr.t) }.
End Entity.

Module RelAttrIn.
Record t := mk {
    name : option string;
    dataType : option string;
    isPrimaryKey : bool;
    isForeignKey : bool;
    isNullable : option bool;
    isUnique : bool;
    isMultiValued : bool;
    isMultivalued : bool;
    isDerived : bool;
    description : option string }.
End RelAttrIn.

Module RelIn.
Record t := mk {
    name : option string;
    action : option string;
    verb : option string;
    sourceEntity : option string;
    targetEntity : option string;
    sourceTable : option string;
    targetTable : option string;
    type : option string;
    isIdentifying : bool;           (* truthiness; [=== true] in the output *)
    description : option string;
    sourceCardinality : option string;
    targetCardinality : option string;
    sourceParticipation : option string;
    targetParticipation : option string;
    attributes : option (list RelAttrIn.t) }.
End RelIn.

(** ** Array helpers *)

Module Arr.

  (** [arr.findIndex(p)] *)
Fixpoint findIndex {A} (p : A → bool) (l : list A) : option nat :=
    match l with
    | [] => None
    | x :: l' => if p x then Some 0 else S <$> findIndex p l'
    end.

  (** [arr.find(p)] *)
Fixpoint find {A} (p : A → bool) (l : list A) : option A :=
    match l with
    | [] => None
    | x :: l' => if p x then Some x else find p l'
    end.

  (** [arr.some(p)] *)
Definition some {A} (p : A → bool) (l : list A) : bool := existsb p l.

  (** [arr.splice(i, 0, x)]: insertion before index [i]. *)
Definition insertAt {A} (i : nat) (x : A) (l : list A) : list A :=
    take i l ++ x :: drop i l.

  (** [arr.splice(i, 1, x, y)]: the element at [i] replaced by two. *)
Definition splice1 {A} (i : nat) (x y : A) (l : list A) : list A :=
    take i l ++ x :: y :: drop (S i) l.

  (** [xs.includes(s)] on an array of strings. *)
Definition includes (xs : list string) (s : string) : bool :=
    existsb (String.eqb s) xs.

End Arr.

(** [`${x}`] for a possibly absent string. *)
Definition tmpl (o : option string) : string :=
  match o with Some s => s | None => "undefined" end.

(** [a === b] between a possibly absent string and a string. *)
Definition optStrEq (o : option string) (s : string) : bool :=
  match o with Some x => String.eqb x s | None => false end.

(** [a || b] on possibly absent strings. *)
Definition orOpt (a b : option string) : option string :=
  if JS.truthy a then a else b.

(** ** schemaGenerator.service.js *)

Module SchemaGenerator.
  Import Regex.

  (** [/([a-z])([A-Z])/g] *)
Definition reCamel : regex :=
    RSeq (RGroup 1 (RChr JS.isLower)) (RGroup 2 (RChr JS.isUpper)).
  (** [/\s+/g] *)
Definition reSpaces : regex := plus space.
  (** [/[^a-z0-9_]/g] *)
Definition reNotIdent : regex :=
    RChr (λ a, negb (JS.isLower a || JS.isDigit a || Ascii.eqb a "_")).
  (** [/^[0-9]/], group 0 standing for the whole match *)
Definition reLeadingDigit : regex := RGroup 0 (RChr JS.isDigit).

Definition transformTableName (entityName : option string) : string :=
    match entityName with
    | None => "unnamed_table"
    | Some n =>
        if String.eqb n "" then "unnamed_table" else
        let s1 := replaceAll reCamel (λ c, c 1 ++ "_"%char :: c 2) (JS.chars n) in
        let s2 := JS.lowerChar <$> s1 in
        let s3 := replaceAll reSpaces (λ _, ["_"%char]) s2 in
        let s4 := replaceAll reNotIdent (λ _, []) s3 in
        JS.str (replaceAnchored reLeadingDigit (λ c, "_"%char :: c 0) s4)
    end.

Definition inferDataType (attributeName : string) : string :=
    if String.eqb attributeName "" then "VARCHAR(255)" else
    let name := JS.toLowerCase attributeName in
    let inc := JS.includes name in
    if String.eqb name "id" || JS.endsWith name "_id" || JS.endsWith name "id"
    then "INTEGER"
    else if inc "uuid" || inc "guid" then "VARCHAR(36)"
    else if inc "date" || inc "time" then "TIMESTAMP"
    else if inc "price" || inc "cost" || inc "amount" || inc "fee"
            || inc "salary" || inc "budget" then "DECIMAL(10,2)"
    else if inc "is_" || inc "has_" || String.eqb name "active"
            || String.eqb name "enabled" || String.eqb name "status"
            || inc "_flag" then "BOOLEAN"
    else if inc "description" || inc "content" || inc "text" || inc "comment"
            || inc "notes" then "TEXT"
    else if inc "email" then "VARCHAR(255)"
    else if inc "password" || inc "hash" then "VARCHAR(255)"
    else if inc "phone" || inc "fax" || inc "mobile" then "VARCHAR(20)"
    else if inc "url" || inc "link" || inc "website" then "VARCHAR(512)"
    else if inc "code" || inc "key" then "VARCHAR(50)"
    else if inc "count" || inc "quantity" || inc "number" || inc "total"
            || inc "age" then "INTEGER"
    else if inc "percent" || inc "rate" || inc "ratio" then "DECIMAL(5,2)"
    else if inc "image" || inc "file" || inc "avatar" || inc "picture"
            || inc "photo" then "VARCHAR(512)"
    else if inc "json" || inc "data" then "TEXT"
    else if inc "ip" || inc "ipv4" || inc "ipv6" then "VARCHAR(45)"
    else if inc "color" then "VARCHAR(20)"
    else if inc "currency" || inc "language" then "VARCHAR(10)"
    else "VARCHAR(255)".

Definition idColumn : Column.t :=
    {| Column.name := "id"; Column.dataType := Some "INTEGER";
       Column.isPrimaryKey := true; Column.isForeignKey := false;
       Column.isNullable := Some false; Column.isUnique := true;
       Column.defaultValue := None; Column.references := None;
       Column.isMultivalued := false; Column.isDerived := false;
       Column.isComposite := false;
       Column.description := Some "Primary key" |}.

Definition nameColumn : Column.t :=
    {| Column.name := "name"; Column.dataType := Some "VARCHAR(255)";
       Column.isPrimaryKey := false; Column.isForeignKey := false;
       Column.isNullable := Some false; Column.isUnique := false;
       Column.defaultValue := None; Column.references := None;
       Column.isMultivalued := false; Column.isDerived := false;
       Column.isComposite := false;
       Column.description := Some "Name field" |}.

Definition timestampColumn (name description : string) : Column.t :=
    {| Column.name := name; Column.dataType := Some "TIMESTAMP";
       Column.isPrimaryKey := false; Column.isForeignKey := false;
       Column.isNullable := Some false; Column.isUnique := false;
       Column.defaultValue := Some "CURRENT_TIMESTAMP";
       Column.references := None;
       Column.isMultivalued := false; Column.isDerived := false;
       Column.isComposite := false;
       Column.description := Some description |}.

Definition createdAtColumn : Column.t :=
    timestampColumn "created_at" "Creation timestamp".
Definition updatedAtColumn : Column.t :=
    timestampColumn "updated_at" "Last update timestamp".

  (** [attr.name.toLowerCase().replace(/\s+/g, '_')] *)
Definition columnName (n : string) : string :=
    JS.str (replaceAll reSpaces (λ _, ["_"%char]) (JS.lowerChar <$> JS.chars n)).

Definition columnOfAttribute (attr : Attr.t) : Column.t :=
    {| Column.name :=
         if JS.truthy (Attr.name attr)
         then columnName (tmpl (Attr.name attr)) else "unnamed_column";
       Column.dataType :=
         Some (JS.orElse (Attr.dataType attr)
                 (inferDataType (JS.orElse (Attr.name attr) "")));
       Column.isPrimaryKey := Attr.isPrimaryKey attr;
       Column.isForeignKey := Attr.isForeignKey attr;
       Column.isNullable :=
         Some (match Attr.isNullable attr with Some false => false | _ => true end);
       Column.isUnique := Attr.isUnique attr || Attr.isPrimaryKey attr;
       Column.defaultValue := Attr.defaultValue attr;
       Column.references := Attr.references attr;
       Column.isMultivalued := Attr.isMultivalued attr;
       Column.isDerived := Attr.isDerived attr;
       Column.isComposite := Attr.isComposite attr;
       Column.description :=
         Some (JS.orElse (Attr.description attr)
                 (JS.orElse (Attr.name attr) "Field" +:+ " column")) |}.

Definition generateColumnsFromAttributes (attributes : list Attr.t)
      : list Column.t :=
    match attributes with
    | [] => [idColumn; nameColumn; createdAtColumn; updatedAtColumn]
    | _ :: _ => columnOfAttribute <$> attributes
    end.

Definition hasColumnNamed (n : string) (cols : list Column.t) : bool :=
    Arr.some (λ c, String.eqb (Column.name c) n) cols.

  (** The body of [entities.map(...)] in [generateSchema]. *)
Definition tableOfEntity (entity : Entity.t) : Table.t :=
    let cols0 :=
      generateColumnsFromAttributes (default [] (Entity.attributes entity)) in
    let cols1 :=
      if Arr.some Column.isPrimaryKey cols0 then cols0 else idColumn :: cols0 in
    let cols2 :=
      if hasColumnNamed "created_at" cols1 then cols1
      else cols1 ++ [createdAtColumn] in
    let cols3 :=
      if hasColumnNamed "updated_at" cols2 then cols2
      else cols2 ++ [updatedAtColumn] in
    {| Table.name := transformTableName (Entity.name entity);
       Table.columns := cols3;
       Table.description :=
         Some (JS.orElse (Entity.description entity)
                 ("Table for " +:+ tmpl (Entity.name entity)));
       Table.isWeakEntity := Entity.isWeakEntity entity;
       Table.isLookupTable := Entity.isLookupTable entity;
       Table.isJunctionTable := false |}.

Definition withColumns (t : Table.t) (cols : list Column.t) : Table.t :=
    {| Table.name := Table.name t; Table.columns := cols;
       Table.description := Table.description t;
       Table.isWeakEntity := Table.isWeakEntity t;
       Table.isLookupTable := Table.isLookupTable t;
       Table.isJunctionTable := Table.isJunctionTable t |}.

Definition cascadeReference (table column : string) : Reference.t :=
    {| Reference.table := table; Reference.column := column;
       Reference.onDelete := Some "CASCADE";
       Reference.onUpdate := Some "CASCADE" |}.

  (** The column pushed by [addForeignKey]. *)
Definition foreignKeyColumn (referencedTable : string)
      (referencedColumn : Column.t) : Column.t :=
    {| Column.name := JS.toLowerCase referencedTable +:+ "_id";
       Column.dataType :=
         Some (JS.orElse (Column.dataType referencedColumn) "INTEGER");
       Column.isPrimaryKey := false; Column.isForeignKey := true;
       Column.isNullable := Some true; Column.isUnique := false;
       Column.defaultValue := None;
       Column.references :=
         Some (cascadeReference referencedTable (Column.name referencedColumn));
       Column.isMultivalued := false; Column.isDerived := false;
       Column.isComposite := false;
       Column.description :=
         Some ("Foreign key reference to " +:+ referencedTable) |}.

  (** [addForeignKey(table, referencedTable, referencedColumn)], the table
      being the element of [tables] at index [ti]. *)
Definition addForeignKeyTo (referencedTable : string)
      (referencedColumn : Column.t) (table : Table.t) : Table.t :=
    let fkName := JS.toLowerCase referencedTable +:+ "_id" in
    if hasColumnNamed fkName (Table.columns table) then table
    else withColumns table
           (Table.columns table ++ [foreignKeyColumn referencedTable referencedColumn]).

Definition addForeignKey (ti : nat) (referencedTable : string)
      (referencedColumn : Column.t) (tables : list Table.t) : list Table.t :=
    alter (addForeignKeyTo referencedTable referencedColumn) ti tables.

  (** The object literal [{ name: 'id' }] standing in for a missing primary
      key column. *)
Definition bareIdColumn (dataType : option string) : Column.t :=
    {| Column.name := "id"; Column.dataType := dataType;
       Column.isPrimaryKey := false; Column.isForeignKey := false;
       Column.isNullable := None; Column.isUnique := false;
       Column.defaultValue := None; Column.references := None;
       Column.isMultivalued := false; Column.isDerived := false;
       Column.isComposite := false; Column.description := None |}.

Definition primaryKeyOr (fallback : Column.t) (t : Table.t) : Column.t :=
    default fallback (Arr.find Column.isPrimaryKey (Table.columns t)).

Definition withType (r : RelIn.t) (ty : option string) : RelIn.t :=
    {| RelIn.name := RelIn.name r; RelIn.action := RelIn.action r;
       RelIn.verb := RelIn.verb r;
       RelIn.sourceEntity := RelIn.sourceEntity r;
       RelIn.targetEntity := RelIn.targetEntity r;
       RelIn.sourceTable := RelIn.sourceTable r;
       RelIn.targetTable := RelIn.targetTable r;
       RelIn.type := ty;
       RelIn.isIdentifying := RelIn.isIdentifying r;
       RelIn.description := RelIn.description r;
       RelIn.sourceCardinality := RelIn.sourceCardinality r;
       RelIn.targetCardinality := RelIn.targetCardinality r;
       RelIn.sourceParticipation := RelIn.sourceParticipation r;
       RelIn.targetParticipation := RelIn.targetParticipation r;
       RelIn.attributes := RelIn.attributes r |}.

  (** [setupForeignKeys]: the relationship with its type defaulted in place,
      and the tables after the foreign key has been pushed.  [si] and [ti]
      are the positions of the source and target tables. *)
Definition setupForeignKeys (relationship : RelIn.t) (si ti : nat)
      (sourceTable targetTable : Table.t) (sourceColumn targetColumn : Column.t)
      (tables : list Table.t) : RelIn.t * list Table.t :=
    let relationship :=
      if JS.truthy (RelIn.type relationship) then relationship
      else withType relationship (Some "ONE_TO_MANY") in
    let ty := JS.toUpperCase (tmpl (RelIn.type relationship)) in
    let toTarget := addForeignKey ti (Table.name sourceTable) sourceColumn tables in
    let toSource := addForeignKey si (Table.name targetTable) targetColumn tables in
    (relationship,
     if String.eqb ty "ONE_TO_MANY" then toTarget
     else if String.eqb ty "MANY_TO_ONE" then toSource
     else if String.eqb ty "ONE_TO_ONE" then
       (if RelIn.isIdentifying relationship then toTarget else toTarget)
     else if String.eqb ty "MANY_TO_MANY" then tables
     else toTarget).

Definition getTargetColumnName (relationship : RelIn.t)
      (sourceTable targetTable : Table.t) : string :=
    let fk := JS.toLowerCase (Table.name sourceTable) +:+ "_id" in
    let pk := Column.name (primaryKeyOr (bareIdColumn None) targetTable) in
    if optStrEq (RelIn.type relationship) "ONE_TO_MANY" then fk
    else if optStrEq (RelIn.type relationship) "MANY_TO_ONE" then pk
    else if optStrEq (RelIn.type relationship) "ONE_TO_ONE" then
      (if RelIn.isIdentifying relationship then fk else pk)
    else pk.

  (** [/[^a-z0-9_\s]/g] *)
Definition reNotNameChar : regex :=
    RChr (λ a, negb (JS.isLower a || JS.isDigit a || Ascii.eqb a "_"
                     || JS.isSpace a)).

  (** The name derived from a description in [processRelationshipAttributes]. *)
Definition nameOfDescription (d : string) : string :=
    JS.str (take 30
      (replaceAll reSpaces (λ _, ["_"%char])
         (replaceAll reNotNameChar (λ _, []) (JS.lowerChar <$> JS.chars d)))).

Definition processRelationshipAttribute (attr : RelAttrIn.t) : RelAttr.t :=
    let name :=
      if negb (JS.truthy (RelAttrIn.name attr))
         && JS.truthy (RelAttrIn.description attr)
      then Some (nameOfDescription (tmpl (RelAttrIn.description attr)))
      else RelAttrIn.name attr in
    {| RelAttr.name := JS.orElse name "unnamed_attribute";
       RelAttr.dataType :=
         Some (JS.orElse (RelAttrIn.dataType attr)
                 (inferDataType (JS.orElse name "")));
       RelAttr.isPrimaryKey := RelAttrIn.isPrimaryKey attr;
       RelAttr.isForeignKey := RelAttrIn.isForeignKey attr;
       RelAttr.isNullable :=
         Some (match RelAttrIn.isNullable attr with
               | Some false => false | _ => true end);
       RelAttr.isUnique := RelAttrIn.isUnique attr;
       RelAttr.isMultiValued :=
         RelAttrIn.isMultiValued attr || RelAttrIn.isMultivalued attr;
       RelAttr.isDerived := RelAttrIn.isDerived attr;
       RelAttr.description :=
         Some (JS.orElse (RelAttrIn.description attr)
                 (JS.orElse name "Unnamed" +:+ " attribute")) |}.

Definition processRelationshipAttributes (attributes : list RelAttrIn.t)
      : list RelAttr.t := processRelationshipAttribute <$> attributes.

Definition participation (p : option string) : string :=
    match p with
    | Some s => if String.eqb (JS.toUpperCase s) "TOTAL" then "TOTAL" else "PARTIAL"
    | None => "PARTIAL"
    end.

  (** The table that an entity name resolves to: position of the first table
      whose lower-cased name is the lower-cased transformed entity name. *)
Definition resolve (entityName : option string) (tables : list Table.t)
      : option nat :=
    Arr.findIndex
      (λ t, String.eqb (JS.toLowerCase (Table.name t))
              (JS.toLowerCase (transformTableName entityName)))
      tables.

Definition transformRelationship (relationship : RelIn.t)
      (tables : list Table.t) : option Relationship.t * list Table.t :=
    let sourceEntityName :=
      orOpt (RelIn.sourceEntity relationship) (RelIn.sourceTable relationship) in
    let targetEntityName :=
      orOpt (RelIn.targetEntity relationship) (RelIn.targetTable relationship) in
    if negb (JS.truthy sourceEntityName && JS.truthy targetEntityName)
    then (None, tables)
    else
      match resolve sourceEntityName tables, resolve targetEntityName tables with
      | Some si, Some ti =>
          match tables !! si, tables !! ti with
          | Some sourceTable, Some targetTable =>
              let sourceColumn := primaryKeyOr (bareIdColumn None) sourceTable in
              let targetColumn := primaryKeyOr (bareIdColumn None) targetTable in
              let '(relationship, tables') :=
                setupForeignKeys relationship si ti sourceTable targetTable
                  sourceColumn targetColumn tables in
              let targetTable' := default targetTable (tables' !! ti) in
              (Some
                 {| Relationship.name :=
                      Some (JS.orElse
                              (orOpt (RelIn.name relationship)
                                 (orOpt (RelIn.action relationship)
                                    (RelIn.verb relationship)))
                              (if optStrEq (RelIn.type relationship) "ONE_TO_MANY"
                               then "has" else "relates_to"));
                    Relationship.sourceTable := Some (Table.name sourceTable);
                    Relationship.sourceEntity := sourceEntityName;
                    Relationship.targetTable := Some (Table.name targetTable);
                    Relationship.targetEntity := targetEntityName;
                    Relationship.sourceColumn := Some (Column.name sourceColumn);
                    Relationship.targetColumn :=
                      Some (getTargetColumnName relationship sourceTable targetTable');
                    Relationship.type :=
                      Some (JS.orElse (RelIn.type relationship) "ONE_TO_MANY");
                    Relationship.isIdentifying := RelIn.isIdentifying relationship;
                    Relationship.description :=
                      Some (JS.orElse (RelIn.description relationship)
                              ("Relationship between " +:+ Table.name sourceTable
                               +:+ " and " +:+ Table.name targetTable));
                    Relationship.sourceCardinality :=
                      orOpt (RelIn.sourceCardinality relationship) None;
                    Relationship.targetCardinality :=
                      orOpt (RelIn.targetCardinality relationship) None;
                    Relationship.sourceParticipation :=
                      Some (participation (RelIn.sourceParticipation relationship));
                    Relationship.targetParticipation :=
                      Some (participation (RelIn.targetParticipation relationship));
                    Relationship.attributes :=
                      Some (processRelationshipAttributes
                              (default [] (RelIn.attributes relationship)));
                    Relationship.cardinality := None |},
               tables')
          | _, _ => (None, tables)
          end
      | _, _ => (None, tables)
      end.

  (** [relationships.map(rel => transformRelationship(rel, tables))
        .filter(Boolean)], threading the tables that the calls mutate. *)
Fixpoint transformRelationships (relationships : list RelIn.t)
      (tables : list Table.t) : list Relationship.t * list Table.t :=
    match relationships with
    | [] => ([], tables)
    | rel :: rest =>
        let '(r, tables1) := transformRelationship rel tables in
        let '(rs, tables2) := transformRelationships rest tables1 in
        (match r with Some x => x :: rs | None => rs end, tables2)
    end.

Definition withFlags (t : Table.t) (weak lookup : bool)
      (description : option string) : Table.t :=
    {| Table.name := Table.name t; Table.columns := Table.columns t;
       Table.description := description;
       Table.isWeakEntity := weak; Table.isLookupTable := lookup;
       Table.isJunctionTable := Table.isJunctionTable t |}.

Definition weakDescription (ownerName : string) : string :=
    "Foreign key reference to " +:+ ownerName
    +:+ " (part of composite primary key for weak entity)".

  (** The foreign key created by the identifying post-pass. *)
Definition identifyingKeyColumn (ownerName : string) (ownerPK : Column.t)
      : Column.t :=
    {| Column.name := JS.toLowerCase ownerName +:+ "_id";
       Column.dataType := Column.dataType ownerPK;
       Column.isPrimaryKey := true; Column.isForeignKey := true;
       Column.isNullable := Some false; Column.isUnique := false;
       Column.defaultValue := None;
       Column.references :=
         Some (cascadeReference ownerName (Column.name ownerPK));
       Column.isMultivalued := false; Column.isDerived := false;
       Column.isComposite := false;
       Column.description := Some (weakDescription ownerName) |}.

  (** An existing foreign key made part of the primary key. *)
Definition promoteColumn (ownerName : string) (c : Column.t) : Column.t :=
    {| Column.name := Column.name c; Column.dataType := Column.dataType c;
       Column.isPrimaryKey := true;
       Column.isForeignKey := Column.isForeignKey c;
       Column.isNullable := Some false;
       Column.isUnique := Column.isUnique c;
       Column.defaultValue := Column.defaultValue c;
       Column.references := Column.references c;
       Column.isMultivalued := Column.isMultivalued c;
       Column.isDerived := Column.isDerived c;
       Column.isComposite := Column.isComposite c;
       Column.description :=
         Some (JS.orElse (Column.description c) (weakDescription ownerName)) |}.

Definition partialKey : Column.t :=
    {| Column.name := "partial_id"; Column.dataType := Some "INTEGER";
       Column.isPrimaryKey := true; Column.isForeignKey := false;
       Column.isNullable := Some false; Column.isUnique := false;
       Column.defaultValue := None; Column.references := None;
       Column.isMultivalued := false; Column.isDerived := false;
       Column.isComposite := false;
       Column.description :=
         Some "Partial key for weak entity (forms composite primary key with owner reference)" |}.

  (** What the body of [identifyingRels.forEach] does to the dependent
      table, given the owner as it is when the body starts. *)
Definition makeWeak (ownerTable : Table.t) (dependentTable : Table.t)
      : Table.t :=
    let ownerName := Table.name ownerTable in
    let fkName := JS.toLowerCase ownerName +:+ "_id" in
    let isFk := λ c, String.eqb (Column.name c) fkName in
    let cols := Table.columns dependentTable in
    let cols1 :=
      match Arr.findIndex isFk cols with
      | None =>
          identifyingKeyColumn ownerName
            (primaryKeyOr (bareIdColumn (Some "INTEGER")) ownerTable) :: cols
      | Some i => alter (promoteColumn ownerName) i cols
      end in
    let cols2 :=
      match Arr.find (λ c, Column.isPrimaryKey c && negb (isFk c)) cols1 with
      | Some _ => cols1
      | None =>
          Arr.insertAt
            (match Arr.findIndex isFk cols1 with Some i => S i | None => 0 end)
            partialKey cols1
      end in
    {| Table.name := Table.name dependentTable; Table.columns := cols2;
       Table.description := Table.description dependentTable;
       Table.isWeakEntity := true;
       Table.isLookupTable := Table.isLookupTable dependentTable;
       Table.isJunctionTable := Table.isJunctionTable dependentTable |}.

Definition identifyingStep (tables : list Table.t) (rel : Relationship.t)
      : list Table.t :=
    match Arr.find (λ t, optStrEq (Relationship.sourceTable rel) (Table.name t)) tables,
          Arr.findIndex (λ t, optStrEq (Relationship.targetTable rel) (Table.name t)) tables
    with
    | Some ownerTable, Some di => alter (makeWeak ownerTable) di tables
    | _, _ => tables
    end.

Definition processIdentifyingRelationships
      (relationships : list Relationship.t) (tables : list Table.t)
      : list Table.t :=
    foldl identifyingStep tables
      (List.filter Relationship.isIdentifying relationships).

Definition lookupKeywords : list string :=
    ["status"; "type"; "category"; "state"; "priority"; "role";
     "permission"; "gender"; "country"; "language"].

  (** [/_/g] *)
Definition reUnderscore : regex := chr "_".

Definition detectLookupTable (table : Table.t) : Table.t :=
    if Table.isLookupTable table then table else
    let cols := Table.columns table in
    let lname := λ c, JS.toLowerCase (Column.name c) in
    let hasIdColumn := Arr.some Column.isPrimaryKey cols in
    let hasNameColumn :=
      Arr.some (λ c, Arr.includes ["name"; "title"; "label"; "value"] (lname c)) cols in
    let hasCodeColumn :=
      Arr.some (λ c, Arr.includes ["code"; "key"; "shortname"; "abbreviation"] (lname c)) cols in
    let isLookupByName :=
      Arr.some (λ keyword, JS.includes (JS.toLowerCase (Table.name table)) keyword)
        lookupKeywords in
    let nonSystemColumns :=
      List.filter
        (λ c, negb (Arr.includes ["id"; "created_at"; "updated_at"] (Column.name c)))
        cols in
    if hasIdColumn && (hasNameColumn || hasCodeColumn)
       && (isLookupByName || (length nonSystemColumns <=? 3))
    then
      withFlags table (Table.isWeakEntity table) true
        (if negb (JS.truthy (Table.description table))
            || optStrEq (Table.description table) ("Table for " +:+ Table.name table)
         then Some ("Lookup table for "
                    +:+ strReplaceAll reUnderscore (λ _, [" "%char]) (Table.name table)
                    +:+ " values")
         else Table.description table)
    else table.

Definition detectLookupTables (tables : list Table.t) : list Table.t :=
    detectLookupTable <$> tables.

  (** The [options] argument of [generateSchema]; an absent entry takes the
      default of the destructuring pattern. *)
Record Options := mkOptions {
    optName : option string;
    optDescription : option string }.

  (** [generateSchema(extractedData, options)]; [now] is the value of
      [new Date()]. *)
Definition generateSchema (entities : list Entity.t)
      (relationships : list RelIn.t) (options : Options) (now : string)
      : Schema.t :=
    let tables := tableOfEntity <$> entities in
    let '(transformedRelationships, tables1) :=
      transformRelationships relationships tables in
    let tables2 := processIdentifyingRelationships transformedRelationships tables1 in
    let tables3 := detectLookupTables tables2 in
    {| Schema.name := default "New Schema" (optName options);
       Schema.description := Some (default "" (optDescription options));
       Schema.tables := tables3;
       Schema.relationships := transformedRelationships;
       Schema.version := Some 1;
       Schema.createdAt := Some now;
       Schema.updatedAt := Some now |}.

End SchemaGenerator.

(** [a === b] between two possibly absent strings. *)
Definition optEqb (a b : option string) : bool :=
  match a, b with
  | Some x, Some y => String.eqb x y
  | None, None => true
  | _, _ => false
  end.

(** ** sqlGenerator.service.js: the junction-table rewrite *)

Module SqlPreprocess.
  Import SchemaGenerator.

Definition isManyToMany (rel : Relationship.t) : bool :=
    optStrEq (Relationship.type rel) "MANY_TO_MANY".

Definition junctionKeyColumn (table : Table.t) (pk : Column.t) : Column.t :=
    {| Column.name := Table.name table +:+ "_" +:+ Column.name pk;
       Column.dataType := Column.dataType pk;
       Column.isPrimaryKey := true; Column.isForeignKey := true;
       Column.isNullable := Some false; Column.isUnique := false;
       Column.defaultValue := None;
       Column.references :=
         Some (cascadeReference (Table.name table) (Column.name pk));
       Column.isMultivalued := false; Column.isDerived := false;
       Column.isComposite := false;
       Column.description :=
         Some ("Foreign key reference to " +:+ Table.name table) |}.

Definition junctionAttributeColumn (attr : RelAttr.t) : Column.t :=
    {| Column.name := RelAttr.name attr;
       Column.dataType := Some (JS.orElse (RelAttr.dataType attr) "VARCHAR(255)");
       Column.isPrimaryKey := false; Column.isForeignKey := false;
       Column.isNullable :=
         Some (match RelAttr.isNullable attr with Some false => false | _ => true end);
       Column.isUnique := RelAttr.isUnique attr;
       Column.defaultValue := None; Column.references := None;
       Column.isMultivalued := false; Column.isDerived := false;
       Column.isComposite := false;
       Column.description :=
         Some (JS.orElse (RelAttr.description attr)
                 (RelAttr.name attr +:+ " attribute")) |}.

Definition junctionTableName (sourceTable targetTable : Table.t) : string :=
    Table.name sourceTable +:+ "_" +:+ Table.name targetTable.

Definition junctionTable (relationship : Relationship.t)
      (sourceTable targetTable : Table.t) (sourcePK targetPK : Column.t)
      : Table.t :=
    {| Table.name := junctionTableName sourceTable targetTable;
       Table.description :=
         Some ("Junction table for many-to-many relationship between "
               +:+ Table.name sourceTable +:+ " and " +:+ Table.name targetTable);
       Table.columns :=
         [junctionKeyColumn sourceTable sourcePK;
          junctionKeyColumn targetTable targetPK]
         ++ (junctionAttributeColumn <$> default [] (Relationship.attributes relationship))
         ++ [createdAtColumn; updatedAtColumn];
       Table.isWeakEntity := false; Table.isLookupTable := false;
       Table.isJunctionTable := true |}.

  (** [sourceToJunction] and [targetToJunction]: a one-to-many relationship
      from [table] (one of the two ends) to the junction table. *)
Definition toJunction (suffix : string) (relationship : Relationship.t)
      (entity : option string) (table : Table.t) (pk : Column.t)
      (junctionName : string) : Relationship.t :=
    {| Relationship.name := Some (tmpl (Relationship.name relationship) +:+ suffix);
       Relationship.sourceTable := Some (Table.name table);
       Relationship.sourceEntity := entity;
       Relationship.targetTable := Some junctionName;
       Relationship.targetEntity := Some junctionName;
       Relationship.sourceColumn := Some (Column.name pk);
       Relationship.targetColumn :=
         Some (Table.name table +:+ "_" +:+ Column.name pk);
       Relationship.type := Some "ONE_TO_MANY";
       Relationship.isIdentifying := true;
       Relationship.description :=
         Some ("One-to-many relationship from " +:+ Table.name table
               +:+ " to junction table");
       Relationship.sourceCardinality := Some "1..1";
       Relationship.targetCardinality := Some "0..*";
       Relationship.sourceParticipation := Some "PARTIAL";
       Relationship.targetParticipation := Some "TOTAL";
       Relationship.attributes := None;
       Relationship.cardinality := None |}.

Definition sameManyToMany (relationship rel : Relationship.t) : bool :=
    optEqb (Relationship.sourceTable rel) (Relationship.sourceTable relationship)
    && optEqb (Relationship.targetTable rel) (Relationship.targetTable relationship)
    && isManyToMany rel.

Definition tableNamed (n : option string) (t : Table.t) : bool :=
    optStrEq n (Table.name t).

  (** The body of [manyToManyRelationships.forEach], on the two arrays of the
      working copy. *)
Definition junctionStep (st : list Table.t * list Relationship.t)
      (relationship : Relationship.t) : list Table.t * list Relationship.t :=
    let '(tables, relationships) := st in
    match Arr.find (tableNamed (Relationship.sourceTable relationship)) tables,
          Arr.find (tableNamed (Relationship.targetTable relationship)) tables
    with
    | Some sourceTable, Some targetTable =>
        let sourcePK := primaryKeyOr (bareIdColumn (Some "INTEGER")) sourceTable in
        let targetPK := primaryKeyOr (bareIdColumn (Some "INTEGER")) targetTable in
        let name := junctionTableName sourceTable targetTable in
        if Arr.some (λ t, String.eqb (Table.name t) name) tables then st
        else
          let jt := junctionTable relationship sourceTable targetTable sourcePK targetPK in
          let sourceToJunction :=
            toJunction "_source" relationship
              (Relationship.sourceEntity relationship) sourceTable sourcePK name in
          let targetToJunction :=
            toJunction "_target" relationship
              (Relationship.targetEntity relationship) targetTable targetPK name in
          (tables ++ [jt],
           match Arr.findIndex (sameManyToMany relationship) relationships with
           | Some relIndex =>
               Arr.splice1 relIndex sourceToJunction targetToJunction relationships
           | None => relationships ++ [sourceToJunction; targetToJunction]
           end)
    | _, _ => st
    end.

Definition withArrays (s : Schema.t) (st : list Table.t * list Relationship.t)
      : Schema.t :=
    {| Schema.name := Schema.name s; Schema.description := Schema.description s;
       Schema.tables := st.1; Schema.relationships := st.2;
       Schema.version := Schema.version s;
       Schema.createdAt := Schema.createdAt s;
       Schema.updatedAt := Schema.updatedAt s |}.

  (** The contents of the schema returned by [preprocessSchema]: the loop
      runs over the many-to-many relationships found before it starts. *)
Definition preprocessSchema (schema : Schema.t) : Schema.t :=
    withArrays schema
      (foldl junctionStep (Schema.tables schema, Schema.relationships schema)
         (List.filter isManyToMany (Schema.relationships schema))).

End SqlPreprocess.

(** ** Object identity: the store of schema objects

    [generateSQL] receives the caller's schema by reference, and the loop of
    [preprocessSchema] pushes to and splices arrays in place.  The store
    holds the schema object and its two arrays as separate cells, so that an
    update through one reference is seen through every alias. *)

Module Store.

  Abbreviation loc := positive.

Inductive cell :=
  | SchemaObject (name : string) (description : option string)
      (tables relationships : loc) (version : option nat)
      (createdAt updatedAt : option string)
  | TableArray (ts : list Table.t)
  | RelationshipArray (rs : list Relationship.t).

  Abbreviation heap := (gmap positive cell).

Definition alloc (c : cell) (h : heap) : loc * heap :=
    let l := fresh (dom h) in (l, <[l := c]> h).

Definition tablesAt (h : heap) (l : loc) : option (list Table.t) :=
    match h !! l with Some (TableArray ts) => Some ts | _ => None end.

Definition relationshipsAt (h : heap) (l : loc)
      : option (list Relationship.t) :=
    match h !! l with Some (RelationshipArray rs) => Some rs | _ => None end.

  (** The value of the schema object at [l], arrays included. *)
Definition readSchema (h : heap) (l : loc) : option Schema.t :=
    match h !! l with
    | Some (SchemaObject n d lt lr v c u) =>
        ts ← tablesAt h lt; rs ← relationshipsAt h lr;
        Some (Schema.mk n d ts rs v c u)
    | _ => None
    end.

  (** [JSON.parse(JSON.stringify(schema))]: fresh arrays and a fresh object
      with the same contents. *)
Definition deepCopy (h : heap) (l : loc) : option (loc * heap) :=
    s ← readSchema h l;
    let '(lt, h1) := alloc (TableArray (Schema.tables s)) h in
    let '(lr, h2) := alloc (RelationshipArray (Schema.relationships s)) h1 in
    Some (alloc (SchemaObject (Schema.name s) (Schema.description s) lt lr
                   (Schema.version s) (Schema.createdAt s) (Schema.updatedAt s)) h2).

  (** One iteration of the loop of [preprocessSchema] on the arrays of the
      object [processedSchema]: both arrays are read and updated in place. *)
Definition junctionStepAt (lt lr : loc) (h : heap)
      (relationship : Relationship.t) : heap :=
    match tablesAt h lt, relationshipsAt h lr with
    | Some ts, Some rs =>
        let st := SqlPreprocess.junctionStep (ts, rs) relationship in
        <[lr := RelationshipArray st.2]> (<[lt := TableArray st.1]> h)
    | _, _ => h
    end.

  (** [preprocessSchema(schema, dialect)]: the location of the processed
      schema and the store after the call; [None] when the call throws. *)
Definition preprocessSchema (h : heap) (l : loc) : option (loc * heap) :=
    '(l', h1) ← deepCopy h l;
    match h1 !! l' with
    | Some (SchemaObject _ _ lt lr _ _ _) =>
        rs ← relationshipsAt h1 lr;
        Some (l', foldl (junctionStepAt lt lr) h1
                    (List.filter SqlPreprocess.isManyToMany rs))
    | _ => None
    end.

End Store.

(** ** sqlGenerator.service.js: dialect dispatch and statement assembly *)

Module SqlGenerator.

  (** The constraint objects produced by [getForeignKeyConstraints]. *)
Record ForeignKey := mkForeignKey {
    columnName : string;
    referenceTable : string;
    referenceColumn : string;
    onDelete : string;
    onUpdate : string;
    constraintName : string }.

  (** The capability interface of a dialect backend.  The four backends
      ([./dialects/*.generator]) are not part of the sources at hand and are
      parameters of the development; a capability that a backend does not
      define is [None].  Backends only read the schema they are given. *)
Record Generator := mkGenerator {
    headerComment : Schema.t → string;
    generateDropStatements : option (Schema.t → list string);
    generateEnumTypes : option (Schema.t → list string);
    createTableStatement : Table.t → Schema.t → string;
    addForeignKeyStatement : string → ForeignKey → string;
    createIndexStatements : Table.t → Schema.t → list string;
    createViewStatements : option (Schema.t → list string);
    createStoredProcedures : option (Schema.t → list string);
    createTriggerStatements : option (Schema.t → list string);
    generateSeedData : option (Table.t → list string);
    footerComment : option (Schema.t → string) }.

Definition getForeignKeyConstraints (table : Table.t) : list ForeignKey :=
    omap (λ column,
            if Column.isForeignKey column then
              ref ← Column.references column;
              Some {| columnName := Column.name column;
                      referenceTable := Reference.table ref;
                      referenceColumn := Reference.column ref;
                      onDelete := JS.orElse (Reference.onDelete ref) "NO ACTION";
                      onUpdate := JS.orElse (Reference.onUpdate ref) "NO ACTION";
                      constraintName :=
                        "fk_" +:+ Table.name table +:+ "_" +:+ Column.name column |}
            else None)
         (Table.columns table).

  (** The property names that every object literal inherits from
      [Object.prototype]; each of them holds a function or an object, hence
      a truthy value. *)
Definition objectPrototypeKeys : list string :=
    ["constructor"; "__defineGetter__"; "__defineSetter__"; "hasOwnProperty";
     "__lookupGetter__"; "__lookupSetter__"; "isPrototypeOf";
     "propertyIsEnumerable"; "toString"; "valueOf"; "__proto__";
     "toLocaleString"].

  (** What a property read on the object literal [generators] yields. *)
Inductive Property :=
  | Backend (g : Generator)          (* one of the four own properties *)
  | Inherited (key : string).        (* a member of [Object.prototype] *)

  (** Why the promise returned by [generateSQL] is rejected. *)
Inductive Failure :=
  | InvalidSchema                    (* the schema argument has no arrays *)
  | NotAFunction (key method : string).
                                     (* [generator.method] is not callable *)

  Section WithBackends.

    Variables mysql postgresql sqlite sqlserver : Generator.

    (** [format(sql, { language, ... })] of the sql-formatter package:
        [None] when it throws. *)
    Variable format : string → string → option string.

    (** [generators[key]] *)
Definition generatorsGet (key : string) : option Property :=
      if String.eqb key "mysql" then Some (Backend mysql)
      else if String.eqb key "postgresql" then Some (Backend postgresql)
      else if String.eqb key "sqlite" then Some (Backend sqlite)
      else if String.eqb key "sqlserver" then Some (Backend sqlserver)
      else if Arr.includes objectPrototypeKeys key then Some (Inherited key)
      else None.

Definition getDialectGenerator (dialect : string) : Property :=
      let normalizedDialect := JS.toLowerCase dialect in
      default (Backend mysql) (generatorsGet normalizedDialect).

Definition optional {A} (f : option (A → list string)) (x : A) : list string :=
      match f with Some g => g x | None => [] end.

    (** The statements pushed by [generateSQL], in order. *)
Definition statements (generator : Generator) (dialect : string)
        (schema processedSchema : Schema.t) : list string :=
      let tables := Schema.tables processedSchema in
      [headerComment generator schema]
      ++ optional (generateDropStatements generator) processedSchema
      ++ (if String.eqb dialect "postgresql"
          then optional (generateEnumTypes generator) processedSchema else [])
      ++ ((λ table, createTableStatement generator table processedSchema) <$> tables)
      ++ (if String.eqb dialect "sqlserver" || String.eqb dialect "sqlite"
          then tables ≫= (λ table,
                 addForeignKeyStatement generator (Table.name table)
                   <$> getForeignKeyConstraints table)
          else [])
      ++ (tables ≫= (λ table, createIndexStatements generator table processedSchema))
      ++ optional (createViewStatements generator) processedSchema
      ++ optional (createStoredProcedures generator) processedSchema
      ++ optional (createTriggerStatements generator) processedSchema
      ++ (List.filter Table.isLookupTable tables
            ≫= optional (generateSeedData generator))
      ++ match footerComment generator with
         | Some f => [f processedSchema]
         | None => []
         end.

    (** The formatted script, or the plain concatenation when the
        formatter throws. *)
Definition render (dialect : string) (stmts : list string) : string :=
      let formatterDialect :=
        if String.eqb (JS.toLowerCase dialect) "sqlserver" then "tsql" else dialect in
      let joinedSql := JS.join (JS.nl +:+ JS.nl) stmts in
      default joinedSql (format joinedSql formatterDialect).

    (** [generateSQL(schema, dialect)], the schema being the object at
        location [l] of the store [h]: the store after the call and the
        script, or the reason of the rejection. *)
Definition generateSQL (h : Store.heap) (l : Store.loc) (dialect : string)
        : Store.heap * (string + Failure) :=
      match Store.readSchema h l with
      | None => (h, inr InvalidSchema)
      | Some schema =>
          match getDialectGenerator dialect with
          | Inherited key => (h, inr (NotAFunction key "headerComment"))
          | Backend generator =>
              match Store.preprocessSchema h l with
              | None => (h, inr InvalidSchema)
              | Some (l', h') =>
                  match Store.readSchema h' l' with
                  | None => (h', inr InvalidSchema)
                  | Some processedSchema =>
                      (h', inl (render dialect
                                  (statements generator dialect schema processedSchema)))
                  end
              end
          end
      end.

  End WithBackends.

End SqlGenerator.

(** ** services/mermaidGenerator.service.js (the generator that the export
    controller loads) *)

Module MermaidGeneratorService.
  Import Regex.

Definition cardinalitySymbol : regex :=
    RAlt (lit (JS.chars "||")) (RAlt (lit (JS.chars "}o")) (lit (JS.chars "o{"))).

  (** [/(\w+\s+\w+\s+\w+)\s*}(\w+)/g] *)
Definition reMissingNewline : regex :=
    RSeq (RGroup 1 (RSeq (plus word) (RSeq (plus space) (RSeq (plus word)
                      (RSeq (plus space) (plus word))))))
      (RSeq (RStar space) (RSeq (chr "}") (RGroup 2 (plus word)))).

  (** [/}\s*(\w+)\s*{/g] *)
Definition reAdjacentBlocks : regex :=
    RSeq (chr "}") (RSeq (RStar space) (RSeq (RGroup 1 (plus word))
      (RSeq (RStar space) (chr "{")))).

  (** [/(\|\||\}o|o\{)SEP(\|\||\}o|o\{)/g] for a separator [sep] *)
Definition reOperator (sep : list ascii) : regex :=
    RSeq (RGroup 1 cardinalitySymbol) (RSeq (lit sep) (RGroup 2 cardinalitySymbol)).

Definition doubleDash : list ascii := JS.chars "--".
Definition singleDash : list ascii := JS.chars "-".
  (** The em dash U+2014, as its three bytes. *)
Definition emDash : list ascii := ["226"; "128"; "148"]%char.

Definition spacedOperator (c : caps) : list ascii :=
    c 1 ++ JS.chars " -- " ++ c 2.

  (** [/:\s*([^Q\n]+)$/gm], writing Q for the double quote *)
Definition reBareLabel : regex :=
    RSeq (chr ":") (RSeq (RStar space)
      (RSeq (RGroup 1 (plus (RChr (λ a, negb (Ascii.eqb a "034" || JS.isNewline a)))))
         REol)).

  (** The pattern of the second label substitution (m and g flags): a
      colon, white space, and up to the end of the line a double quote, a
      captured run of characters other than the double quote, and a double
      quote. *)
Definition reQuotedLabel : regex :=
    RSeq (chr ":") (RSeq (RStar space) (RSeq (chr "034")
      (RSeq (RGroup 1 (RStar (RChr (λ a, negb (Ascii.eqb a "034")))))
         (RSeq (chr "034") REol)))).

Definition quotedLabel (c : caps) : list ascii :=
    JS.chars ": " ++ "034"%char :: c 1 ++ ["034"%char].

  (** [/^\s*\w+\s+{$/] *)
Definition reEntityHeader : regex :=
    RSeq (RStar space) (RSeq (plus word) (RSeq (plus space) (RSeq (chr "{") REnd))).

  (** [/^\s*\w+\s+\w+/] *)
Definition reAttribute : regex :=
    RSeq (RStar space) (RSeq (plus word) (RSeq (plus space) (plus word))).

  (** [/{\s*$/] *)
Definition reOpenBraceAtEnd : regex :=
    RSeq (chr "{") (RSeq (RStar space) REnd).

  (** [/^\s*\w+\s+(\|\||\}o|o\{).*--.*(\|\||\}o|o\{)\s+\w+/] *)
Definition reRelationship : regex :=
    RSeq (RStar space) (RSeq (plus word) (RSeq (plus space)
      (RSeq (RGroup 1 cardinalitySymbol) (RSeq (RStar dot) (RSeq (lit doubleDash)
        (RSeq (RStar dot) (RSeq (RGroup 2 cardinalitySymbol)
          (RSeq (plus space) (plus word))))))))).

Definition indent4 : list ascii := JS.chars "    ".
Definition indent8 : list ascii := JS.chars "        ".

Definition spaceOperators (s : list ascii) : list ascii :=
    replaceAll (reOperator emDash) spacedOperator
      (replaceAll (reOperator singleDash) spacedOperator
         (replaceAll (reOperator doubleDash) spacedOperator s)).

  (** The body of the loop over [lines]; [prev] is [lines[i-1]] as the loop
      has left it, absent for the first line. *)
Definition formatLine (prev : option (list ascii)) (line : list ascii)
      : list ascii :=
    let line1 :=
      if testAnchored reEntityHeader (JS.trimChars line)
         && negb (JS.prefixb indent4 line)
      then indent4 ++ JS.trimChars line else line in
    let line2 :=
      if bool_decide (JS.trimChars line1 = ["}"%char])
         && negb (JS.prefixb indent4 line1)
      then indent4 ++ JS.trimChars line1 else line1 in
    let line3 :=
      if testAnchored reAttribute (JS.trimChars line2)
         && negb (JS.prefixb indent8 line2)
      then match prev with
           | Some p =>
               if search reOpenBraceAtEnd p
               then indent8 ++ JS.trimChars line2 else line2
           | None => line2
           end
      else line2 in
    if testAnchored reRelationship (JS.trimChars line3)
    then spaceOperators
           (if negb (JS.prefixb indent4 line3)
            then indent4 ++ JS.trimChars line3 else line3)
    else line3.

Fixpoint formatLines (prev : option (list ascii)) (lines : list (list ascii))
      : list (list ascii) :=
    match lines with
    | [] => []
    | line :: rest =>
        let line' := formatLine prev line in
        line' :: formatLines (Some line') rest
    end.

  (** The substitution passes 1 to 5. *)
Definition substitute (s : list ascii) : list ascii :=
    let s1 := replaceAll reMissingNewline
                (λ c, c 1 ++ JS.chars (JS.nl +:+ "    }" +:+ JS.nl +:+ JS.nl +:+ "    ") ++ c 2) s in
    let s2 := replaceAll reAdjacentBlocks
                (λ c, JS.chars ("}" +:+ JS.nl +:+ JS.nl +:+ "    ") ++ c 1 ++ JS.chars " {") s1 in
    let s3 := spaceOperators s2 in
    let s4 := replaceAll reQuotedLabel quotedLabel
                (replaceAll reBareLabel quotedLabel s3) in
    replaceAll (lit (JS.chars "o{")) (λ _, JS.chars "o{")
      (replaceAll (lit (JS.chars "}o")) (λ _, JS.chars "}o") s4).

Definition autoFormatChars (s : list ascii) : list ascii :=
    match s with
    | [] => []
    | _ :: _ => JS.joinLines (formatLines None (JS.splitLines (substitute s)))
    end.

Definition autoFormatMermaidSyntax (mermaidSyntax : string) : string :=
    JS.str (autoFormatChars (JS.chars mermaidSyntax)).

Definition reservedKeywords : list string :=
    ["class"; "break"; "case"; "catch"; "const"; "continue"; "debugger";
     "default"; "delete"; "do"; "else"; "export"; "extends"; "finally";
     "for"; "function"; "if"; "import"; "in"; "instanceof"; "new"; "return";
     "super"; "switch"; "this"; "throw"; "try"; "typeof"; "var"; "void";
     "while"; "with"; "yield"].

Definition sanitizeName (name : option string) : string :=
    if negb (JS.truthy name) then "unnamed" else
    let s1 := replaceAll (RChr (λ a, negb (JS.isWord a))) (λ _, ["_"%char])
                (JS.chars (tmpl name)) in
    let s2 :=
      if search (RChr JS.isUpper) s1
      then replaceAnchored (chr "_") (λ _, [])
             (replaceAll (RGroup 1 (RChr JS.isUpper))
                (λ c, "_"%char :: (JS.lowerChar <$> c 1)) s1)
      else s1 in
    let sanitized := JS.str s2 in
    if Arr.includes reservedKeywords (JS.toLowerCase sanitized)
    then sanitized +:+ "_entity" else sanitized.

  (** The two symbols chosen by [generateRelationshipDefinition]. *)
Definition cardinalities (relationship : Relationship.t) : string * string :=
    match Relationship.cardinality relationship with
    | Some c =>
        (if optStrEq (Cardinality.source c) "many" then "}o" else "||",
         if optStrEq (Cardinality.target c) "many" then "o{" else "||")
    | None =>
        if JS.truthy (Relationship.type relationship) then
          let ty := Relationship.type relationship in
          if optStrEq ty "one-to-many" || optStrEq ty "ONE_TO_MANY" then ("||", "o{")
          else if optStrEq ty "many-to-one" || optStrEq ty "MANY_TO_ONE" then ("}o", "||")
          else if optStrEq ty "many-to-many" || optStrEq ty "MANY_TO_MANY" then ("}o", "o{")
          else ("||", "||")
        else ("||", "||")
    end.

Definition generateRelationshipDefinition (relationship : Relationship.t)
      : string :=
    if negb (JS.truthy (Relationship.sourceEntity relationship))
       || negb (JS.truthy (Relationship.targetEntity relationship))
    then ""
    else
      let sourceEntity :=
        sanitizeName (orOpt (Relationship.sourceEntity relationship)
                        (Relationship.sourceTable relationship)) in
      let targetEntity :=
        sanitizeName (orOpt (Relationship.targetEntity relationship)
                        (Relationship.targetTable relationship)) in
      let relationshipName :=
        strReplaceAll (chr "034") (λ _, ["\"%char; "034"%char])
          (JS.orElse (Relationship.name relationship) "relates") in
      let '(sourceCardinality, targetCardinality) := cardinalities relationship in
      "    " +:+ JS.toLowerCase sourceEntity +:+ " " +:+ sourceCardinality
      +:+ " -- " +:+ targetCardinality +:+ " " +:+ JS.toLowerCase targetEntity
      +:+ " : " +:+ JS.dq +:+ relationshipName +:+ JS.dq +:+ JS.nl.

Definition mapDataType (dataType : option string) : string :=
    if negb (JS.truthy dataType) then "string" else
    let inc := JS.includes (JS.toLowerCase (tmpl dataType)) in
    if inc "int" || inc "number" || inc "decimal" || inc "float" || inc "double"
       || inc "bigint" || inc "smallint" then "number"
    else if inc "char" || inc "text" || inc "string" || inc "uuid" || inc "json"
            || inc "varchar" then "string"
    else if inc "date" || inc "time" || inc "timestamp" then "date"
    else if inc "bool" then "boolean"
    else if inc "blob" || inc "binary" || inc "image" then "binary"
    else "string".

  (** An attribute line; [suffix] is [PK], [FK] or empty. *)
Definition attributeLine (dataType name suffix : string) : string :=
    "        " +:+ dataType +:+ " " +:+ name +:+ " " +:+ suffix +:+ JS.nl.

  (** [generateEntityDefinition(table)].  The columns of a schema carry
      [isPrimaryKey] and [isForeignKey]; the alternative spellings
      [primaryKey] and [foreignKey] that the function also reads are absent
      from them. *)
Definition generateEntityDefinition (table : Table.t) : string :=
    if String.eqb (Table.name table) "" then "" else
    let cols := Table.columns table in
    let line := λ suffix (c : Column.t),
      attributeLine (mapDataType (Column.dataType c))
        (sanitizeName (Some (Column.name c))) suffix in
    let primaryKeys := List.filter Column.isPrimaryKey cols in
    let foreignKeys :=
      List.filter (λ c, negb (Column.isPrimaryKey c) && Column.isForeignKey c) cols in
    let regularAttributes :=
      List.filter (λ c, negb (Column.isPrimaryKey c) && negb (Column.isForeignKey c)) cols in
    "    " +:+ JS.toLowerCase (sanitizeName (Some (Table.name table))) +:+ " {" +:+ JS.nl
    +:+ (match primaryKeys with
         | [] => attributeLine "number" (sanitizeName (Some "id")) "PK"
         | _ :: _ => String.concat "" (line "PK" <$> primaryKeys)
         end)
    +:+ String.concat "" (line "FK" <$> foreignKeys)
    +:+ String.concat "" (line "" <$> regularAttributes)
    +:+ "    }" +:+ JS.nl +:+ JS.nl.

  (** The text that [generateMermaidERD] hands to the auto-formatter. *)
Definition emitDiagram (schema : Schema.t) : string :=
    "erDiagram" +:+ JS.nl
    +:+ String.concat "" (generateEntityDefinition <$> Schema.tables schema)
    +:+ String.concat "" (generateRelationshipDefinition <$> Schema.relationships schema).

End MermaidGeneratorService.

(** ** controllers/export.controller.mermaid.js (a second copy of the
    Mermaid generator class) *)

Module ExportControllerMermaid.
  Import Regex.

  (** [/\s+required/g] *)
Definition reRequired : regex := RSeq (plus space) (lit (JS.chars "required")).

  (** The pattern of the first block repair (g flag): group 1 is a word,
      white space, a word, optional white space, an optional [PK] or [FK]
      and optional white space; then optional white space, a closing brace
      and group 2, a word. *)
Definition reMissingNewline : regex :=
    RSeq (RGroup 1 (RSeq (plus word) (RSeq (plus space) (RSeq (plus word)
            (RSeq (RStar space)
               (RSeq (opt (RAlt (lit (JS.chars "PK")) (lit (JS.chars "FK"))))
                  (RStar space)))))))
      (RSeq (RStar space) (RSeq (chr "}") (RGroup 2 (plus word)))).

  (** [/}\s*(\w+)\s*{/g] *)
Definition reAdjacentBlocks : regex :=
    RSeq (chr "}") (RSeq (RStar space) (RSeq (RGroup 1 (plus word))
      (RSeq (RStar space) (chr "{")))).

  (** [/^\w+\s*{$/] *)
Definition reEntityHeader : regex :=
    RSeq (plus word) (RSeq (RStar space) (RSeq (chr "{") REnd)).

  (** [/^\w+\s+\w+/] *)
Definition reAttribute : regex :=
    RSeq (plus word) (RSeq (plus space) (plus word)).

Definition indent4 : list ascii := JS.chars "    ".
Definition indent8 : list ascii := JS.chars "        ".

  (** The body of the loop over [lines]: the line pushed to [result]. *)
Definition formatLine (line : list ascii) : list ascii :=
    let trimmed := JS.trimChars line in
    match trimmed with
    | [] => []
    | _ :: _ =>
        if bool_decide (trimmed = JS.chars "erDiagram") then trimmed
        else if testAnchored reEntityHeader trimmed then indent4 ++ trimmed
        else if bool_decide (trimmed = ["}"%char]) then JS.chars "    }"
        else if testAnchored reAttribute trimmed
                && negb (JS.infixb (JS.chars "--") trimmed)
        then indent8 ++ replaceAll reRequired (λ _, []) trimmed
        else if JS.infixb (JS.chars "--") trimmed then indent4 ++ trimmed
        else if JS.prefixb (JS.chars "%%") trimmed then indent4 ++ trimmed
        else line
    end.

Definition substitute (s : list ascii) : list ascii :=
    let s1 := replaceAll reRequired (λ _, []) s in
    let s2 := replaceAll reMissingNewline
                (λ c, c 1 ++ JS.chars (JS.nl +:+ "    }" +:+ JS.nl +:+ JS.nl +:+ "    ") ++ c 2) s1 in
    replaceAll reAdjacentBlocks
      (λ c, JS.chars ("}" +:+ JS.nl +:+ JS.nl +:+ "    ") ++ c 1 ++ JS.chars " {") s2.

Definition autoFormatChars (s : list ascii) : list ascii :=
    match s with
    | [] => []
    | _ :: _ => JS.joinLines (formatLine <$> JS.splitLines (substitute s))
    end.

Definition autoFormatMermaidSyntax (mermaidSyntax : string) : string :=
    JS.str (autoFormatChars (JS.chars mermaidSyntax)).

  (** [/_{2,}/g] *)
Definition reUnderscores : regex :=
    RSeq (chr "_") (RSeq (chr "_") (RStar (chr "_"))).

Definition sanitizeName (name : option string) : string :=
    if negb (JS.truthy name) then "unnamed" else
    JS.str (replaceAll reUnderscores (λ _, ["_"%char])
              (replaceAll (RChr (λ a, negb (JS.isWord a))) (λ _, ["_"%char])
                 (JS.chars (tmpl name)))).

Definition cardinalities (relationship : Relationship.t) : string * string :=
    match Relationship.cardinality relationship with
    | Some c =>
        (if optStrEq (Cardinality.source c) "many" then "}o"
         else if optStrEq (Cardinality.source c) "one" then "||"
         else if optStrEq (Cardinality.source c) "zero-or-one" then "|o"
         else "||",
         if optStrEq (Cardinality.target c) "many" then "o{"
         else if optStrEq (Cardinality.target c) "one" then "||"
         else if optStrEq (Cardinality.target c) "zero-or-one" then "o|"
         else "||")
    | None =>
        if JS.truthy (Relationship.type relationship) then
          let ty := Relationship.type relationship in
          if optStrEq ty "one-to-many" then ("||", "o{")
          else if optStrEq ty "many-to-one" then ("}o", "||")
          else if optStrEq ty "many-to-many" then ("}o", "o{")
          else if optStrEq ty "one-to-one" then ("||", "||")
          else ("||", "||")
        else ("||", "||")
    end.

Definition generateRelationshipDefinition (relationship : Relationship.t)
      : string :=
    if negb (JS.truthy (Relationship.sourceEntity relationship))
       || negb (JS.truthy (Relationship.targetEntity relationship))
    then ""
    else
      let sourceEntity :=
        JS.toLowerCase
          (sanitizeName (orOpt (Relationship.sourceEntity relationship)
                           (Relationship.sourceTable relationship))) in
      let targetEntity :=
        JS.toLowerCase
          (sanitizeName (orOpt (Relationship.targetEntity relationship)
                           (Relationship.targetTable relationship))) in
      let relationshipName := JS.orElse (Relationship.name relationship) "relates" in
      let '(sourceCardinality, targetCardinality) := cardinalities relationship in
      "    " +:+ sourceEntity +:+ " " +:+ sourceCardinality
      +:+ "--" +:+ targetCardinality +:+ " " +:+ targetEntity
      +:+ " : " +:+ JS.dq +:+ relationshipName +:+ JS.dq +:+ JS.nl.

End ExportControllerMermaid.

(** ** services/documentation.service.js *)

Module Documentation.
  Import Regex.

Definition q : string := JS.dq.
Definition nl : string := JS.nl.

Inductive Side := Source | Target.

Definition formatRelationshipType (type : option string) : string :=
    if negb (JS.truthy type) then "Undefined" else
    let ty := JS.toUpperCase (tmpl type) in
    if String.eqb ty "ONE_TO_ONE" then "One-to-One (1:1)"
    else if String.eqb ty "ONE_TO_MANY" then "One-to-Many (1:N)"
    else if String.eqb ty "MANY_TO_ONE" then "Many-to-One (N:1)"
    else if String.eqb ty "MANY_TO_MANY" then "Many-to-Many (N:M)"
    else tmpl type.

Definition getCardinalityFromType (type : option string) (side : Side)
      : string :=
    if negb (JS.truthy type) then "1" else
    let ty := JS.toUpperCase (tmpl type) in
    if String.eqb ty "ONE_TO_ONE" then "1"
    else if String.eqb ty "ONE_TO_MANY" then
      match side with Source => "1" | Target => "N" end
    else if String.eqb ty "MANY_TO_ONE" then
      match side with Source => "N" | Target => "1" end
    else if String.eqb ty "MANY_TO_MANY" then
      match side with Source => "M" | Target => "N" end
    else "1".

  (** [table.name.toLowerCase().replace(/\s+/g, '-')] *)
Definition anchor (name : string) : string :=
    strReplaceAll (plus space) (λ _, ["-"%char]) (JS.toLowerCase name).

  (** [column.isNullable !== false] *)
Definition nullable (column : Column.t) : bool :=
    match Column.isNullable column with Some false => false | _ => true end.

Definition sourceEntityOf (relationship : Relationship.t) : string :=
    tmpl (orOpt (Relationship.sourceEntity relationship)
            (Relationship.sourceTable relationship)).
Definition targetEntityOf (relationship : Relationship.t) : string :=
    tmpl (orOpt (Relationship.targetEntity relationship)
            (Relationship.targetTable relationship)).

  (** [schema.version || 1] *)
Definition versionOf (schema : Schema.t) : nat :=
    match Schema.version schema with Some (S n) => S n | _ => 1 end.

  (** [table.columns.filter(col => col.isForeignKey && col.references)] *)
Definition foreignKeyColumns (table : Table.t) : list Column.t :=
    List.filter
      (λ col, Column.isForeignKey col && bool_decide (is_Some (Column.references col)))
      (Table.columns table).

  (** [rel.attributes && Array.isArray(rel.attributes)
        && rel.attributes.length > 0] *)
Definition hasAttributes (rel : Relationship.t) : bool :=
    match Relationship.attributes rel with Some (_ :: _) => true | _ => false end.

Definition mdCheck (b : bool) : string := if b then "✓" else "".
Definition htmlCheck (b : bool) : string :=
    if b then "<span class=" +:+ q +:+ "text-success" +:+ q +:+ ">✓</span>" else "".

Definition htmlLines (lines : list string) : string := JS.join nl lines.

  (** The style sheet and the opening of the body. *)
Definition htmlStyle : list string :=
    ["  <style>";
     "    body {";
     "      font-family: -apple-system, BlinkMacSystemFont, " +:+ q +:+ "Segoe UI" +:+ q +:+ ", Roboto, Helvetica, Arial, sans-serif;";
     "      line-height: 1.6;";
     "      color: #333;";
     "      max-width: 1200px;";
     "      margin: 0 auto;";
     "      padding: 20px;";
     "    }";
     "    h1, h2, h3, h4 {";
     "      color: #2c3e50;";
     "      margin-top: 1.5em;";
     "    }";
     "    table {";
     "      border-collapse: collapse;";
     "      width: 100%;";
     "      margin-bottom: 20px;";
     "      font-size: 0.9em;";
     "    }";
     "    th, td {";
     "      border: 1px solid #ddd;";
     "      padding: 8px;";
     "      text-align: left;";
     "    }";
     "    th {";
     "      background-color: #f2f2f2;";
     "      font-weight: 600;";
     "    }";
     "    tr:nth-child(even) {";
     "      background-color: #f9f9f9;";
     "    }";
     "    .table-container {";
     "      margin-bottom: 30px;";
     "      padding: 15px;";
     "      border-radius: 5px;";
     "      box-shadow: 0 2px 4px rgba(0,0,0,0.1);";
     "      background-color: #ffffff;";
     "    }";
     "    .toc {";
     "      background-color: #f8f9fa;";
     "      padding: 15px;";
     "      border-radius: 5px;";
     "      margin-bottom: 30px;";
     "      box-shadow: 0 2px 4px rgba(0,0,0,0.05);";
     "    }";
     "    .toc ul {";
     "      list-style-type: none;";
     "      padding-left: 20px;";
     "    }";
     "    .toc a {";
     "      color: #3b82f6;";
     "      text-decoration: none;";
     "    }";
     "    .toc a:hover {";
     "      text-decoration: underline;";
     "    }";
     "    .primary-key {";
     "      background-color: #e8f4f8;";
     "    }";
     "    .foreign-key {";
     "      background-color: #f8f4e8;";
     "    }";
     "    .weak-entity {";
     "      border-left: 4px solid #f59e0b;";
     "      padding-left: 15px;";
     "    }";
     "    .lookup-table {";
     "      border-left: 4px solid #10b981;";
     "      padding-left: 15px;";
     "    }";
     "    .strong-entity {";
     "      border-left: 4px solid #3b82f6;";
     "      padding-left: 15px;";
     "    }";
     "    .relationship-type {";
     "      display: inline-block;";
     "      padding: 4px 8px;";
     "      border-radius: 4px;";
     "      background-color: #dbeafe;";
     "      color: #1e40af;";
     "      font-size: 0.8em;";
     "      font-weight: 600;";
     "    }";
     "    .identifying-relationship {";
     "      background-color: #fef3c7;";
     "      color: #92400e;";
     "    }";
     "    .entity-type-badge {";
     "      display: inline-block;";
     "      padding: 3px 8px;";
     "      border-radius: 4px;";
     "      margin-left: 10px;";
     "      font-size: 0.8em;";
     "      font-weight: 600;";
     "    }";
     "    .weak-entity-badge {";
     "      background-color: #fef3c7;";
     "      color: #92400e;";
     "    }";
     "    .lookup-entity-badge {";
     "      background-color: #d1fae5;";
     "      color: #065f46;";
     "    }";
     "    .strong-entity-badge {";
     "      background-color: #dbeafe;";
     "      color: #1e40af;";
     "    }";
     "    .center-text {";
     "      text-align: center;";
     "    }";
     "    .text-success {";
     "      color: #22c55e;";
     "      font-weight: bold;";
     "    }";
     "    .timestamp {";
     "      font-size: 0.9em;";
     "      color: #6b7280;";
     "      margin-top: 30px;";
     "      padding-top: 10px;";
     "      border-top: 1px solid #e5e7eb;";
     "    }";
     "    .note {";
     "      background-color: #f9fafb;";
     "      padding: 15px;";
     "      border-radius: 5px;";
     "      border-left: 4px solid #3b82f6;";
     "      margin: 20px 0;";
     "    }";
     "  </style>";
     "</head>";
     "<body>"].
  (** The opening of the table of contents. *)
Definition htmlTocHead : list string :=
    ["  ";
     "  <div class=" +:+ q +:+ "toc" +:+ q +:+ ">";
     "    <h2>Table of Contents</h2>";
     "    <ul>";
     "      <li><a href=" +:+ q +:+ "#tables" +:+ q +:+ ">Tables</a>";
     "        <ul>"].
  (** The end of the table of contents and the tables heading. *)
Definition htmlTocEnd : list string :=
    ["        </ul>";
     "      </li>";
     "      <li><a href=" +:+ q +:+ "#relationships" +:+ q +:+ ">Relationships</a></li>";
     "      <li><a href=" +:+ q +:+ "#er-diagram" +:+ q +:+ ">ER Diagram</a></li>";
     "      <li><a href=" +:+ q +:+ "#notes" +:+ q +:+ ">Notes</a></li>";
     "    </ul>";
     "  </div>";
     "  ";
     "  <h2 id=" +:+ q +:+ "tables" +:+ q +:+ ">Tables</h2>"].
  (** The head of a columns table. *)
Definition htmlColumnsHead : list string :=
    ["    ";
     "    <h4>Columns</h4>";
     "    <table>";
     "      <thead>";
     "        <tr>";
     "          <th>Name</th>";
     "          <th>Data Type</th>";
     "          <th class=" +:+ q +:+ "center-text" +:+ q +:+ ">Primary Key</th>";
     "          <th class=" +:+ q +:+ "center-text" +:+ q +:+ ">Foreign Key</th>";
     "          <th class=" +:+ q +:+ "center-text" +:+ q +:+ ">Nullable</th>";
     "          <th class=" +:+ q +:+ "center-text" +:+ q +:+ ">Unique</th>";
     "          <th>Default</th>";
     "          <th>Description</th>";
     "        </tr>";
     "      </thead>";
     "      <tbody>"].
  (** The head of a foreign-key references table. *)
Definition htmlReferencesHead : list string :=
    ["    <h4>Foreign Key References</h4>";
     "    <table>";
     "      <thead>";
     "        <tr>";
     "          <th>Column</th>";
     "          <th>References</th>";
     "          <th>On Delete</th>";
     "          <th>On Update</th>";
     "        </tr>";
     "      </thead>";
     "      <tbody>"].
  (** The head of the relationships table. *)
Definition htmlRelationshipsHead : list string :=
    ["  <h2 id=" +:+ q +:+ "relationships" +:+ q +:+ ">Relationships</h2>";
     "  <div class=" +:+ q +:+ "table-container" +:+ q +:+ ">";
     "    <table>";
     "      <thead>";
     "        <tr>";
     "          <th>Source Entity</th>";
     "          <th>Relationship</th>";
     "          <th>Target Entity</th>";
     "          <th>Type</th>";
     "          <th>Source Cardinality</th>";
     "          <th>Target Cardinality</th>";
     "          <th class=" +:+ q +:+ "center-text" +:+ q +:+ ">Identifying</th>";
     "          <th>Description</th>";
     "        </tr>";
     "      </thead>";
     "      <tbody>"].
  (** The head of a relationship-attributes table. *)
Definition htmlAttributesHead : list string :=
    ["    <table>";
     "      <thead>";
     "        <tr>";
     "          <th>Attribute</th>";
     "          <th>Data Type</th>";
     "          <th>Description</th>";
     "        </tr>";
     "      </thead>";
     "      <tbody>"].
  (** The diagram section and the opening of the notes. *)
Definition htmlDiagramSection : list string :=
    ["  <h2 id=" +:+ q +:+ "er-diagram" +:+ q +:+ ">ER Diagram</h2>";
     "  <div class=" +:+ q +:+ "table-container" +:+ q +:+ ">";
     "    <p>The Entity-Relationship Diagram for this schema can be visualized using the ERD Diagram viewer in the application. The diagram represents:</p>";
     "    <ul>";
     "      <li>Entities (tables) as rectangles</li>";
     "      <li>Attributes as ellipses connected to their entities</li>";
     "      <li>Relationships as diamonds connecting entities</li>";
     "      <li>Cardinality constraints shown on the connection lines</li>";
     "      <li>Primary keys indicated with underlined attribute names</li>";
     "      <li>Foreign keys shown with references to their target entities</li>";
     "      <li>Weak entities displayed with double-bordered rectangles</li>";
     "    </ul>";
     "  </div>";
     "  ";
     "  <h2 id=" +:+ q +:+ "notes" +:+ q +:+ ">Notes</h2>";
     "  <div class=" +:+ q +:+ "note" +:+ q +:+ ">";
     "    <p>This documentation was automatically generated by LaymanDB.</p>"].

  Section WithClock.

    (** [formatDate(date)] renders a date in the en-US locale; it is a
        parameter, as is the value [now] of [new Date()]. *)
    Variable formatDate : option string → string.
    Variable now : string.

    (** **** [generateMarkdownDocumentation] *)

Definition mdColumnRow (column : Column.t) : string :=
      "| " +:+ (Column.name column) +:+ " | " +:+ (tmpl (Column.dataType column)) +:+ " | " +:+ (mdCheck (Column.isPrimaryKey column)) +:+ " | " +:+ (mdCheck (Column.isForeignKey column)) +:+ " | " +:+ (mdCheck (nullable column)) +:+ " | " +:+ (mdCheck (Column.isUnique column)) +:+ " | " +:+ (JS.orElse (Column.defaultValue column) "") +:+ " | " +:+ (JS.orElse (Column.description column) "") +:+ " |" +:+ nl.

Definition mdReferenceRow (column : Column.t) : string :=
      match Column.references column with
      | Some ref =>
          "| " +:+ (Column.name column) +:+ " | " +:+ (Reference.table ref +:+ "." +:+ Reference.column ref) +:+ " | " +:+ (JS.orElse (Reference.onDelete ref) "NO ACTION") +:+ " | " +:+ (JS.orElse (Reference.onUpdate ref) "NO ACTION") +:+ " |" +:+ nl
      | None => ""
      end.

Definition mdTable (table : Table.t) : string :=
      "### " +:+ (Table.name table) +:+ nl +:+ nl
      +:+ (if JS.truthy (Table.description table) then (tmpl (Table.description table)) +:+ nl +:+ nl else "")
      +:+ (if Table.isWeakEntity table then "**Entity Type:** Weak Entity *(depends on another entity for identification)*" +:+ nl +:+ nl
         else if Table.isLookupTable table then "**Entity Type:** Lookup/Reference Table" +:+ nl +:+ nl
         else "**Entity Type:** Strong Entity" +:+ nl +:+ nl)
      +:+ "#### Columns" +:+ nl +:+ nl
      +:+ "| Name | Data Type | Primary Key | Foreign Key | Nullable | Unique | Default | Description |" +:+ nl
      +:+ "| ---- | --------- | :---------: | :---------: | :------: | :----: | ------- | ----------- |" +:+ nl
      +:+ String.concat "" (mdColumnRow <$> Table.columns table)
      +:+ (if 0 <? length (foreignKeyColumns table) then nl +:+ "#### Foreign Key References" +:+ nl +:+ nl +:+ "| Column | References | On Delete | On Update |" +:+ nl +:+ "| ------ | ---------- | --------- | --------- |" +:+ nl +:+ String.concat "" (mdReferenceRow <$> foreignKeyColumns table) else "")
      +:+ nl.

Definition mdRelationshipRow (relationship : Relationship.t) : string :=
      "| " +:+ (sourceEntityOf relationship) +:+ " | " +:+ (JS.orElse (Relationship.name relationship) "relates to") +:+ " | " +:+ (targetEntityOf relationship) +:+ " | " +:+ (formatRelationshipType (Relationship.type relationship)) +:+ " | " +:+ (JS.orElse (Relationship.sourceCardinality relationship) (getCardinalityFromType (Relationship.type relationship) Source)) +:+ " | " +:+ (JS.orElse (Relationship.targetCardinality relationship) (getCardinalityFromType (Relationship.type relationship) Target)) +:+ " | " +:+ (mdCheck (Relationship.isIdentifying relationship)) +:+ " | " +:+ (JS.orElse (Relationship.description relationship) "") +:+ " |" +:+ nl.

Definition mdAttributeRow (attr : RelAttr.t) : string :=
      "| " +:+ (RelAttr.name attr) +:+ " | " +:+ (JS.orElse (RelAttr.dataType attr) "") +:+ " | " +:+ (JS.orElse (RelAttr.description attr) "") +:+ " |" +:+ nl.

Definition mdRelationshipAttributes (relationship : Relationship.t) : string :=
      "#### " +:+ (JS.orElse (Relationship.name relationship) "Relationship") +:+ " (" +:+ (sourceEntityOf relationship) +:+ " to " +:+ (targetEntityOf relationship) +:+ ")" +:+ nl +:+ nl
      +:+ "| Attribute | Data Type | Description |" +:+ nl
      +:+ "| --------- | --------- | ----------- |" +:+ nl
      +:+ String.concat "" (mdAttributeRow <$> default [] (Relationship.attributes relationship))
      +:+ nl.

Definition generateMarkdownDocumentation (schema : Schema.t) : string :=
      "# Database Schema: " +:+ (Schema.name schema) +:+ nl +:+ nl
      +:+ (if JS.truthy (Schema.description schema) then (tmpl (Schema.description schema)) +:+ nl +:+ nl else "")
      +:+ "## Overview" +:+ nl +:+ nl
      +:+ "This schema contains " +:+ (JS.ofNat (length (Schema.tables schema))) +:+ " tables and " +:+ (JS.ofNat (length (Schema.relationships schema))) +:+ " relationships." +:+ nl +:+ nl
      +:+ "## Table of Contents" +:+ nl +:+ nl
      +:+ "- [Tables](#tables)" +:+ nl
      +:+ String.concat "" ((λ table, "  - [" +:+ (Table.name table) +:+ "](#" +:+ (anchor (Table.name table)) +:+ ")" +:+ nl) <$> Schema.tables schema)
      +:+ "- [Relationships](#relationships)" +:+ nl
      +:+ "- [ER Diagram](#er-diagram)" +:+ nl +:+ nl
      +:+ "## Tables" +:+ nl +:+ nl
      +:+ String.concat "" (mdTable <$> Schema.tables schema)
      +:+ "## Relationships" +:+ nl +:+ nl
      +:+ "| Source Entity | Relationship | Target Entity | Type | Source Cardinality | Target Cardinality | Identifying | Description |" +:+ nl
      +:+ "| ------------- | ------------ | ------------- | ---- | ----------------- | ----------------- | :---------: | ----------- |" +:+ nl
      +:+ String.concat "" (mdRelationshipRow <$> Schema.relationships schema)
      +:+ (if 0 <? length (List.filter hasAttributes (Schema.relationships schema)) then nl +:+ "### Relationship Attributes" +:+ nl +:+ nl +:+ String.concat "" (mdRelationshipAttributes <$> List.filter hasAttributes (Schema.relationships schema)) else "")
      +:+ "## ER Diagram" +:+ nl +:+ nl
      +:+ "The Entity-Relationship Diagram for this schema can be visualized using the ERD Diagram viewer in the application. The diagram represents:" +:+ nl +:+ nl
      +:+ "- Entities (tables) as rectangles" +:+ nl
      +:+ "- Attributes as ellipses connected to their entities" +:+ nl
      +:+ "- Relationships as diamonds connecting entities" +:+ nl
      +:+ "- Cardinality constraints shown on the connection lines" +:+ nl
      +:+ "- Primary keys indicated with underlined attribute names" +:+ nl
      +:+ "- Foreign keys shown with references to their target entities" +:+ nl
      +:+ "- Weak entities displayed with double-bordered rectangles" +:+ nl +:+ nl
      +:+ nl +:+ "## Notes" +:+ nl +:+ nl
      +:+ "- This documentation was automatically generated by LaymanDB." +:+ nl
      +:+ "- Schema creation date: " +:+ (formatDate (Schema.createdAt schema)) +:+ nl
      +:+ "- Last updated: " +:+ (formatDate (Schema.updatedAt schema)) +:+ nl
      +:+ "- Schema version: " +:+ (JS.ofNat (versionOf schema)) +:+ nl +:+ nl.

    (** **** [generateHtmlDocumentation] *)

Definition htmlColumnRow (column : Column.t) : string :=
      htmlLines
        (["<tr class=" +:+ q +:+ (if Column.isPrimaryKey column then "primary-key" else if Column.isForeignKey column then "foreign-key" else "") +:+ q +:+ ">";
          "          <td>" +:+ (Column.name column) +:+ "</td>";
          "          <td>" +:+ (tmpl (Column.dataType column)) +:+ "</td>";
          "          <td class=" +:+ q +:+ "center-text" +:+ q +:+ ">" +:+ (htmlCheck (Column.isPrimaryKey column)) +:+ "</td>";
          "          <td class=" +:+ q +:+ "center-text" +:+ q +:+ ">" +:+ (htmlCheck (Column.isForeignKey column)) +:+ "</td>";
          "          <td class=" +:+ q +:+ "center-text" +:+ q +:+ ">" +:+ (htmlCheck (nullable column)) +:+ "</td>";
          "          <td class=" +:+ q +:+ "center-text" +:+ q +:+ ">" +:+ (htmlCheck (Column.isUnique column)) +:+ "</td>";
          "          <td>" +:+ (JS.orElse (Column.defaultValue column) "") +:+ "</td>";
          "          <td>" +:+ (JS.orElse (Column.description column) "") +:+ "</td>";
          "        </tr>"]).

Definition htmlReferenceRow (column : Column.t) : string :=
      match Column.references column with
      | Some ref =>
          htmlLines
            (["<tr>";
              "            <td>" +:+ (Column.name column) +:+ "</td>";
              "            <td>" +:+ (Reference.table ref +:+ "." +:+ Reference.column ref) +:+ "</td>";
              "            <td>" +:+ (JS.orElse (Reference.onDelete ref) "NO ACTION") +:+ "</td>";
              "            <td>" +:+ (JS.orElse (Reference.onUpdate ref) "NO ACTION") +:+ "</td>";
              "          </tr>"])
      | None => ""
      end.

Definition htmlTable (table : Table.t) : string :=
      htmlLines
        (["";
          "  <div class=" +:+ q +:+ "table-container " +:+ (if Table.isWeakEntity table then "weak-entity"
             else if Table.isLookupTable table then "lookup-table"
             else "strong-entity") +:+ q +:+ ">";
          "    <h3 id=" +:+ q +:+ (anchor (Table.name table)) +:+ q +:+ ">" +:+ (Table.name table) +:+ " " +:+ (if Table.isWeakEntity table then "<span class=" +:+ q +:+ "entity-type-badge weak-entity-badge" +:+ q +:+ ">Weak Entity</span>"
             else if Table.isLookupTable table then "<span class=" +:+ q +:+ "entity-type-badge lookup-entity-badge" +:+ q +:+ ">Lookup Table</span>"
             else "<span class=" +:+ q +:+ "entity-type-badge strong-entity-badge" +:+ q +:+ ">Strong Entity</span>") +:+ "</h3>";
          "    ";
          "    " +:+ (if JS.truthy (Table.description table) then "<p>" +:+ tmpl (Table.description table) +:+ "</p>" else "")]
         ++ htmlColumnsHead
         ++ ["        " +:+ (JS.join (JS.nl +:+ "        ") (htmlColumnRow <$> Table.columns table));
          "      </tbody>";
          "    </table>"])
      +:+ (if 0 <? length (foreignKeyColumns table)
           then htmlLines
                  ([""]
                   ++ htmlReferencesHead
                   ++ ["        " +:+ (JS.join (JS.nl +:+ "        ") (htmlReferenceRow <$> foreignKeyColumns table));
                    "      </tbody>";
                    "    </table>"])
           else "")
      +:+ htmlLines ["";  "  </div>"].

Definition htmlRelationshipRow (relationship : Relationship.t) : string :=
      htmlLines
        (["<tr>";
          "          <td>" +:+ (sourceEntityOf relationship) +:+ "</td>";
          "          <td>" +:+ (JS.orElse (Relationship.name relationship) "relates to") +:+ "</td>";
          "          <td>" +:+ (targetEntityOf relationship) +:+ "</td>";
          "          <td><span class=" +:+ q +:+ "relationship-type " +:+ (if Relationship.isIdentifying relationship then "identifying-relationship" else "") +:+ q +:+ ">" +:+ (formatRelationshipType (Relationship.type relationship)) +:+ "</span></td>";
          "          <td>" +:+ (JS.orElse (Relationship.sourceCardinality relationship) (getCardinalityFromType (Relationship.type relationship) Source)) +:+ "</td>";
          "          <td>" +:+ (JS.orElse (Relationship.targetCardinality relationship) (getCardinalityFromType (Relationship.type relationship) Target)) +:+ "</td>";
          "          <td class=" +:+ q +:+ "center-text" +:+ q +:+ ">" +:+ (htmlCheck (Relationship.isIdentifying relationship)) +:+ "</td>";
          "          <td>" +:+ (JS.orElse (Relationship.description relationship) "") +:+ "</td>";
          "        </tr>"]).

Definition htmlAttributeRow (attr : RelAttr.t) : string :=
      htmlLines
        (["<tr>";
          "          <td>" +:+ (RelAttr.name attr) +:+ "</td>";
          "          <td>" +:+ (JS.orElse (RelAttr.dataType attr) "") +:+ "</td>";
          "          <td>" +:+ (JS.orElse (RelAttr.description attr) "") +:+ "</td>";
          "        </tr>"]).

Definition htmlRelationshipAttributes (relationship : Relationship.t) : string :=
      htmlLines
        (["";
          "  <div class=" +:+ q +:+ "table-container" +:+ q +:+ ">";
          "    <h4>" +:+ (JS.orElse (Relationship.name relationship) "Relationship") +:+ " (" +:+ (sourceEntityOf relationship) +:+ " to " +:+ (targetEntityOf relationship) +:+ ")</h4>"]
         ++ htmlAttributesHead
         ++ ["        " +:+ (JS.join (JS.nl +:+ "        ") (htmlAttributeRow <$> default [] (Relationship.attributes relationship)));
          "      </tbody>";
          "    </table>";
          "  </div>"]).

Definition generateHtmlDocumentation (schema : Schema.t) : string :=
      htmlLines
        (["<!DOCTYPE html>";
          "<html lang=" +:+ q +:+ "en" +:+ q +:+ ">";
          "<head>";
          "  <meta charset=" +:+ q +:+ "UTF-8" +:+ q +:+ ">";
          "  <meta name=" +:+ q +:+ "viewport" +:+ q +:+ " content=" +:+ q +:+ "width=device-width, initial-scale=1.0" +:+ q +:+ ">";
          "  <title>Database Schema: " +:+ (Schema.name schema) +:+ "</title>"]
         ++ htmlStyle
         ++ ["  <h1>Database Schema: " +:+ (Schema.name schema) +:+ "</h1>";
          "  ";
          "  " +:+ (if JS.truthy (Schema.description schema) then "<p>" +:+ tmpl (Schema.description schema) +:+ "</p>" else "");
          "  ";
          "  <h2>Overview</h2>";
          "  <p>This schema contains " +:+ (JS.ofNat (length (Schema.tables schema))) +:+ " tables and " +:+ (JS.ofNat (length (Schema.relationships schema))) +:+ " relationships.</p>"]
         ++ htmlTocHead
         ++ ["          " +:+ (JS.join (JS.nl +:+ "          ") ((λ table, "<li><a href=" +:+ q +:+ "#" +:+ (anchor (Table.name table)) +:+ q +:+ ">" +:+ (Table.name table) +:+ "</a></li>") <$> Schema.tables schema))]
         ++ htmlTocEnd)
      +:+ String.concat "" (htmlTable <$> Schema.tables schema)
      +:+ htmlLines
        ([""]
         ++ htmlRelationshipsHead
         ++ ["        " +:+ (JS.join (JS.nl +:+ "        ") (htmlRelationshipRow <$> Schema.relationships schema));
          "      </tbody>";
          "    </table>";
          "  </div>"])
      +:+ (if 0 <? length (List.filter hasAttributes (Schema.relationships schema))
           then htmlLines ["";  "  <h3>Relationship Attributes</h3>"]
                +:+ String.concat ""
                      (htmlRelationshipAttributes
                         <$> List.filter hasAttributes (Schema.relationships schema))
           else "")
      +:+ htmlLines
        ([""]
         ++ htmlDiagramSection
         ++ ["    <p>Schema creation date: " +:+ (formatDate (Schema.createdAt schema)) +:+ "</p>";
          "    <p>Last updated: " +:+ (formatDate (Schema.updatedAt schema)) +:+ "</p>";
          "    <p>Schema version: " +:+ (JS.ofNat (versionOf schema)) +:+ "</p>";
          "  </div>";
          "  ";
          "  <div class=" +:+ q +:+ "timestamp" +:+ q +:+ ">";
          "    <p>Generated on: " +:+ (formatDate (Some now)) +:+ "</p>";
          "  </div>";
          "</body>";
          "</html>"]).

    (** [generateDocumentation(schema, format)]: [pdf] and every unknown
        format produce Markdown. *)
Definition generateDocumentation (schema : Schema.t) (format : string)
        : string :=
      if String.eqb (JS.toLowerCase format) "html"
      then generateHtmlDocumentation schema
      else generateMarkdownDocumentation schema.

  End WithClock.

End Documentation.

(** ** models/schema.model.js: the schemas kept in memory *)

Module SchemaModel.

  (** The map [schemas]: from the id of a schema to the place of its object
      in the store.  Ids are strings. *)
  Abbreviation schemas := (gmap string positive).

  (** [Schema.findById(id)], that is [schemas.get(id) || null]. *)
Definition findById (stored : schemas) (id : string) : option Store.loc :=
    stored !! id.

  (** The state of the module: the map and the counter [nextId]. *)
Record state := mkState {
    stored : schemas;
    nextId : nat }.

  (** The members of the object that [new Schema(data)] builds and [save]
      stamps, for a [data] without [_id]; [built] and [saved] are the values
      of [new Date()] in the constructor and in [save].  The constructor
      copies no [version]. *)
Definition construct (data : Schema.t) (built saved : string) : Schema.t :=
    {| Schema.name := if String.eqb (Schema.name data) "" then "New Schema"
                      else Schema.name data;
       Schema.description := Some (JS.orElse (Schema.description data) "");
       Schema.tables := Schema.tables data;
       Schema.relationships := Schema.relationships data;
       Schema.version := None;
       Schema.createdAt := orOpt (Schema.createdAt data) (Some built);
       Schema.updatedAt := Some saved |}.

  (** [new Schema(data)] followed by [save()], for a [data] without [_id]
      whose arrays nothing else refers to: the id taken from the counter,
      the place of the new object, and the state and the store after the
      two calls. *)
Definition create (data : Schema.t) (built saved : string) (st : state)
      (h : Store.heap) : string * Store.loc * state * Store.heap :=
    let id := JS.ofNat (nextId st) in
    let s := construct data built saved in
    let '(lt, h1) := Store.alloc (Store.TableArray (Schema.tables s)) h in
    let '(lr, h2) :=
      Store.alloc (Store.RelationshipArray (Schema.relationships s)) h1 in
    let '(l, h3) :=
      Store.alloc (Store.SchemaObject (Schema.name s) (Schema.description s)
                     lt lr (Schema.version s) (Schema.createdAt s)
                     (Schema.updatedAt s)) h2 in
    (id, l, mkState (<[id := l]> (stored st)) (S (nextId st)), h3).

End SchemaModel.

(** ** controllers/schema.controller.js: the handler that generates a
    schema

    The members of the request body are strings or absent.  The language
    service is a parameter: [extractEntities(prompt)] returns entities and
    relationships or throws an error whose message may be absent. *)

Module SchemaController.

Inductive Extraction :=
  | Extracted (entities : list Entity.t) (relationships : list RelIn.t)
  | Thrown (message : option string).

Inductive Body :=
  | Error (error : string)
  | Failed (error : string) (details : option string) (code : string)
  | Created (message : string) (id : string) (schema : Store.loc).

Record Response := mkResponse { status : nat; body : Body }.

  (** The message and the code of the answer to an error of the language
      service. *)
Definition classify (message : option string) : string * string :=
    let has := λ part, JS.truthy message && JS.includes (tmpl message) part in
    if has "JSON" || has "Unexpected" || has "token" || has "position"
       || has "parse"
    then ("The AI response contained invalid JSON. Please try again with a simpler prompt.",
          "JSON_PARSE_ERROR")
    else if has "timeout"
    then ("The request timed out. Please try again with a simpler prompt.",
          "TIMEOUT_ERROR")
    else (JS.orElse message "Error in AI processing", "NLP_ERROR").

  Section WithService.

    Variable extractEntities : string → Extraction.

    (** [exports.generateSchema(req, res)]; [now], [built] and [saved] are
        the values of [new Date()] in the generator, in the constructor of
        the model and in [save]. *)
Definition generateSchema (now built saved : string) (st : SchemaModel.state)
        (h : Store.heap) (prompt name description : option string)
        : SchemaModel.state * Store.heap * Response :=
      if negb (JS.truthy prompt)
      then (st, h, mkResponse 400 (Error "Prompt is required"))
      else
        match extractEntities (tmpl prompt) with
        | Thrown message =>
            let '(errorMessage, errorCode) := classify message in
            (st, h, mkResponse 500 (Failed errorMessage message errorCode))
        | Extracted entities relationships =>
            let schema :=
              SchemaGenerator.generateSchema entities relationships
                (SchemaGenerator.mkOptions (Some (default "New Schema" name))
                   (Some (default "" description))) now in
            let '(id, l, st', h') := SchemaModel.create schema built saved st h in
            (st', h', mkResponse 201 (Created "Schema generated successfully" id l))
        end.

  End WithService.

End SchemaController.

(** ** controllers/export.controller.js: the handler of the SQL export

    The request body is an object parsed from JSON.  A member of it is
    absent, [null], a string, or a value of another kind (a number, a
    boolean, an array or an object), of which only the truthiness matters
    here.  A response is the status passed to [res.status] and the object
    passed to [json]. *)

Module ExportController.

Inductive Member :=
  | Absent
  | Null
  | Text (s : string)
  | Other (truthy : bool).

  (** [!!member] *)
Definition truthy (m : Member) : bool :=
    match m with
    | Absent | Null => false
    | Text s => negb (String.eqb s "")
    | Other b => b
    end.

  (** What [error.message] reports in the answer with status 500. *)
Inductive Details :=
  | Rejected (failure : SqlGenerator.Failure)   (* the service has rejected *)
  | NoToLowerCase.            (* [dialect.toLowerCase] is not a function *)

Inductive Body :=
  | Error (error : string)
  | Unsupported (error : string) (supportedDialects : list string)
  | Script (message sql dialect : string)
  | Failed (error : string) (details : Details).

Record Response := mkResponse { status : nat; body : Body }.

Definition supportedDialects : list string :=
    ["mysql"; "postgresql"; "sqlite"; "sqlserver"].

  (** [Schema.findById(schemaId)]: the keys of the map are strings, so that
      a value of another kind finds nothing. *)
Definition findSchema (stored : SchemaModel.schemas) (schemaId : Member)
      : option Store.loc :=
    match schemaId with
    | Text id => SchemaModel.findById stored id
    | _ => None
    end.

  Section WithBackends.

    Variables mysql postgresql sqlite sqlserver : SqlGenerator.Generator.
    Variable format : string → string → option string.

    (** [exports.generateSQL(req, res)]: the store after the call and the
        response.  The default of the destructuring pattern replaces an
        absent [dialect] only; on [null] and on a value that is no string
        the call [dialect.toLowerCase()] throws, and the handler answers
        from its [catch] block. *)
Definition generateSQL (stored : SchemaModel.schemas) (h : Store.heap)
        (schemaId dialect : Member) : Store.heap * Response :=
      let dialect := match dialect with Absent => Text "mysql" | d => d end in
      if negb (truthy schemaId)
      then (h, mkResponse 400 (Error "Schema ID is required"))
      else
        match findSchema stored schemaId with
        | None => (h, mkResponse 404 (Error "Schema not found"))
        | Some schema =>
            match dialect with
            | Text dialect =>
                if negb (Arr.includes supportedDialects (JS.toLowerCase dialect))
                then (h, mkResponse 400
                           (Unsupported "Unsupported SQL dialect" supportedDialects))
                else
                  match SqlGenerator.generateSQL mysql postgresql sqlite sqlserver
                          format h schema dialect with
                  | (h', inl sql) =>
                      (h', mkResponse 200
                             (Script "SQL script generated successfully" sql dialect))
                  | (h', inr failure) =>
                      (h', mkResponse 500
                             (Failed "Failed to generate SQL script"
                                (Rejected failure)))
                  end
            | _ =>
                (h, mkResponse 500
                      (Failed "Failed to generate SQL script" NoToLowerCase))
            end
        end.

  End WithBackends.

End ExportController.

(** ** Sample inputs used by the worked examples *)

Module Samples.

Definition attr (name : string) (dataType : option string) : Attr.t :=
    {| Attr.name := Some name; Attr.dataType := dataType;
       Attr.isPrimaryKey := false; Attr.isForeignKey := false;
       Attr.isNullable := None; Attr.isUnique := false;
       Attr.defaultValue := None; Attr.references := None;
       Attr.isMultivalued := false; Attr.isDerived := false;
       Attr.isComposite := false; Attr.description := None |}.

Definition entity (name : string) (attributes : list Attr.t) : Entity.t :=
    {| Entity.name := Some name; Entity.description := None;
       Entity.isWeakEntity := false; Entity.isLookupTable := false;
       Entity.attributes := Some attributes |}.

  (** [{name: 'Book', attributes: [{name: 'title', dataType: 'VARCHAR(255)'}]}] *)
Definition book : Entity.t :=
    entity "Book" [attr "title" (Some "VARCHAR(255)")].

Definition author : Entity.t :=
    entity "Author" [attr "name" (Some "VARCHAR(255)")].

Definition titleColumn : Column.t :=
    {| Column.name := "title"; Column.dataType := Some "VARCHAR(255)";
       Column.isPrimaryKey := false; Column.isForeignKey := false;
       Column.isNullable := Some true; Column.isUnique := false;
       Column.defaultValue := None; Column.references := None;
       Column.isMultivalued := false; Column.isDerived := false;
       Column.isComposite := false;
       Column.description := Some "title column" |}.

  (** A relationship of the extraction result between two entities. *)
Definition relIn (source target : string) (type : option string)
      (identifying : bool) : RelIn.t :=
    {| RelIn.name := None; RelIn.action := None; RelIn.verb := None;
       RelIn.sourceEntity := Some source; RelIn.targetEntity := Some target;
       RelIn.sourceTable := None; RelIn.targetTable := None;
       RelIn.type := type; RelIn.isIdentifying := identifying;
       RelIn.description := None;
       RelIn.sourceCardinality := None; RelIn.targetCardinality := None;
       RelIn.sourceParticipation := None; RelIn.targetParticipation := None;
       RelIn.attributes := None |}.

  (** A relationship of a schema, given by its entities, tables and type. *)
Definition rel (sourceEntity targetEntity sourceTable targetTable : option string)
      (type : option string) : Relationship.t :=
    {| Relationship.name := None;
       Relationship.sourceTable := sourceTable;
       Relationship.sourceEntity := sourceEntity;
       Relationship.targetTable := targetTable;
       Relationship.targetEntity := targetEntity;
       Relationship.sourceColumn := None; Relationship.targetColumn := None;
       Relationship.type := type; Relationship.isIdentifying := false;
       Relationship.description := None;
       Relationship.sourceCardinality := None;
       Relationship.targetCardinality := None;
       Relationship.sourceParticipation := None;
       Relationship.targetParticipation := None;
       Relationship.attributes := None; Relationship.cardinality := None |}.

Definition noOptions : SchemaGenerator.Options :=
    SchemaGenerator.mkOptions None None.

End Samples.

(** The four relationship types that the normaliser produces, and the
    Mermaid symbols that the specification assigns to them. *)
Module CardinalityTable.

Definition symbols (type : string) : option (string * string) :=
    if String.eqb type "ONE_TO_ONE" then Some ("||", "||")
    else if String.eqb type "ONE_TO_MANY" then Some ("||", "o{")
    else if String.eqb type "MANY_TO_ONE" then Some ("}o", "||")
    else if String.eqb type "MANY_TO_MANY" then Some ("}o", "o{")
    else None.

End CardinalityTable.

Module SampleBackends.
  Import SqlGenerator.

  (** A backend whose statements only name the dialect and the table. *)
Definition backend (dialect : string) : Generator :=
    {| headerComment := λ s, "-- " +:+ dialect +:+ ": " +:+ Schema.name s;
       generateDropStatements := None;
       generateEnumTypes := None;
       createTableStatement := λ t _, "CREATE TABLE " +:+ Table.name t +:+ ";";
       addForeignKeyStatement := λ t fk, "ALTER TABLE " +:+ t +:+ ";";
       createIndexStatements := λ _ _, [];
       createViewStatements := None;
       createStoredProcedures := None;
       createTriggerStatements := None;
       generateSeedData := None;
       footerComment := None |}.

  (** A formatter that knows the four dialect names of the package and
      throws on every other language. *)
Definition format (sql language : string) : option string :=
    if Arr.includes ["mysql"; "postgresql"; "sqlite"; "tsql"] language
    then Some sql else None.

Definition emptySchema : Schema.t :=
    {| Schema.name := "shop"; Schema.description := None;
       Schema.tables := []; Schema.relationships := [];
       Schema.version := Some 1;
       Schema.createdAt := None; Schema.updatedAt := None |}.

  (** A store that holds [emptySchema] at location 3, its arrays at 1 and 2. *)
Definition store : Store.heap :=
    <[3%positive := Store.SchemaObject "shop" None 1%positive 2%positive (Some 1) None None]>
      (<[2%positive := Store.RelationshipArray []]>
         (<[1%positive := Store.TableArray []]> ∅)).

Definition run (dialect : string) : Store.heap * (string + Failure) :=
    generateSQL (backend "mysql") (backend "postgresql") (backend "sqlite")
      (backend "sqlserver") format store 3%positive dialect.

End SampleBackends.

(** ** What the junction-table rewrite is expected to achieve *)

Module JunctionSpec.
  Import SchemaGenerator SqlPreprocess.

Definition named (n : string) (t : Table.t) : bool := String.eqb (Table.name t) n.

  (** The columns of a table that are part of its primary key. *)
Definition primaryKeyGroup (t : Table.t) : list Column.t :=
    List.filter Column.isPrimaryKey (Table.columns t).

Definition primaryKeyOf (t : Table.t) : Column.t :=
    primaryKeyOr (bareIdColumn (Some "INTEGER")) t.

  (** The name of the junction table that the rewrite derives from the two
      table names of a relationship. *)
Definition junctionNameOf (r : Relationship.t) : option string :=
    a ← Relationship.sourceTable r;
    b ← Relationship.targetTable r;
    Some (a +:+ "_" +:+ b).

  (** The primary key of a table as the rewrite reads it: the first column
      flagged as primary key; a table without one is taken to have the key
      [id] of type INTEGER. *)
Definition keyName (t : Table.t) : string :=
    match List.find Column.isPrimaryKey (Table.columns t) with
    | Some c => Column.name c
    | None => "id"
    end.

Definition keyType (t : Table.t) : option string :=
    match List.find Column.isPrimaryKey (Table.columns t) with
    | Some c => Column.dataType c
    | None => Some "INTEGER"
    end.

  (** The column [c] is a foreign key to the primary key of the table [t]
      that is part of a primary key: it is named after the table and its
      key, has the type of the key, is not nullable, and refers to the key
      with cascading deletes and updates. *)
Definition foreignKeyTo (t : Table.t) (c : Column.t) : Prop :=
    Column.name c = Table.name t +:+ "_" +:+ keyName t
    ∧ Column.dataType c = keyType t
    ∧ Column.isPrimaryKey c = true
    ∧ Column.isForeignKey c = true
    ∧ Column.isNullable c = Some false
    ∧ Column.references c
      = Some {| Reference.table := Table.name t;
                Reference.column := keyName t;
                Reference.onDelete := Some "CASCADE";
                Reference.onUpdate := Some "CASCADE" |}.

  (** The relationship [x] is a one-to-many relationship from the table [t]
      to the table named [J], from the key of [t] to the column of [J] that
      refers to it. *)
Definition oneToManyInto (J : string) (t : Table.t) (x : Relationship.t)
      : Prop :=
    Relationship.type x = Some "ONE_TO_MANY"
    ∧ Relationship.sourceTable x = Some (Table.name t)
    ∧ Relationship.targetTable x = Some J
    ∧ Relationship.sourceColumn x = Some (keyName t)
    ∧ Relationship.targetColumn x = Some (Table.name t +:+ "_" +:+ keyName t).

  (** The many-to-many relationship [r] between the tables [S] and [T] of
      [schema], followed in the schema by the relationships [post], has
      been rewritten.  The processed schema has exactly one table of the
      junction name; it is a junction table whose primary key is a pair of
      columns, a foreign key to the primary key of [S] and a foreign key to
      the primary key of [T].  The tables of the schema are still there,
      unchanged and in front.  In the place of [r] there are two one-to-many
      relationships, from [S] and from [T] to the junction table: [r] does
      not occur before them, and what follows them are relationships that
      followed [r] in the schema and one-to-many relationships; so [r] is
      gone unless the schema repeats it after its first occurrence. *)
Definition rewritten (schema : Schema.t) (r : Relationship.t)
      (post : list Relationship.t) (S T : Table.t) : Prop :=
    let processed := preprocessSchema schema in
    let J := Table.name S +:+ "_" +:+ Table.name T in
    (∃ jt a b,
        List.filter (named J) (Schema.tables processed) = [jt]
        ∧ Table.isJunctionTable jt = true
        ∧ primaryKeyGroup jt = [a; b]
        ∧ foreignKeyTo S a ∧ foreignKeyTo T b)
    ∧ (∃ added, Schema.tables processed = Schema.tables schema ++ added)
    ∧ (∃ A sj tj B,
          Schema.relationships processed = A ++ [sj; tj] ++ B
          ∧ oneToManyInto J S sj ∧ oneToManyInto J T tj
          ∧ (r ∉ A)
          ∧ (∀ x, x ∈ B → x ∈ post ∨ Relationship.type x = Some "ONE_TO_MANY"))
    ∧ (r ∉ post → r ∉ Schema.relationships processed).

  (** The relationship [r] is a many-to-many relationship of [schema]
      between two of its tables, [S] and [T]. *)
Definition manyToManyBetween (schema : Schema.t) (r : Relationship.t)
      (S T : Table.t) : Prop :=
    (r ∈ Schema.relationships schema)
    ∧ isManyToMany r = true
    ∧ Arr.find (tableNamed (Relationship.sourceTable r)) (Schema.tables schema) = Some S
    ∧ Arr.find (tableNamed (Relationship.targetTable r)) (Schema.tables schema) = Some T.

  (** Invariants of the loop of [preprocessSchema], relative to the tables
      [base] of the schema and a junction name [J]: the working tables are
      [base] followed by added tables, of which those named [J] are
      [extra]; the working relationships contain the block [mid], before it
      no many-to-many relationship maps to [J], and after it there are
      relationships of [post] and one-to-many relationships. *)
Definition tablesInvariant (base : list Table.t) (J : string)
      (extra ts : list Table.t) : Prop :=
    ∃ added, ts = base ++ added ∧ List.filter (named J) added = extra.

Definition relationshipsInvariant (J : string)
      (post mid rs : list Relationship.t) : Prop :=
    ∃ A B, rs = A ++ mid ++ B
           ∧ (∀ x, x ∈ A → isManyToMany x = true → junctionNameOf x ≠ Some J)
           ∧ (∀ x, x ∈ B → x ∈ post ∨ Relationship.type x = Some "ONE_TO_MANY").

Definition plainTable (name : string) : Table.t :=
    {| Table.name := name; Table.columns := [idColumn; createdAtColumn; updatedAtColumn];
       Table.description := None; Table.isWeakEntity := false;
       Table.isLookupTable := false; Table.isJunctionTable := false |}.

Definition student : Table.t := plainTable "student".
Definition course : Table.t := plainTable "course".

Definition enrolment : Relationship.t :=
    Samples.rel (Some "Student") (Some "Course") (Some "student") (Some "course")
      (Some "MANY_TO_MANY").

Definition schemaOf (tables : list Table.t) (rels : list Relationship.t) : Schema.t :=
    {| Schema.name := "school"; Schema.description := None;
       Schema.tables := tables; Schema.relationships := rels;
       Schema.version := Some 1; Schema.createdAt := None; Schema.updatedAt := None |}.

  (** Student and Course with one many-to-many relationship. *)
Definition school : Schema.t := schemaOf [student; course] [enrolment].

  (** The same, with an entity that already occupies the junction name. *)
Definition schoolWithClash : Schema.t :=
    schemaOf [student; course; plainTable "student_course"] [enrolment].

End JunctionSpec.

(** The dialect names that [generateSQL] is documented to accept. *)
Definition supportedDialects : list string :=
  ["mysql"; "postgresql"; "sqlite"; "sqlserver"].

(** ** What the normaliser is expected to achieve *)

Module NormalizerSpec.
  Import SchemaGenerator.


(** The tables built from the entities, before any relationship is
    processed, and after the relationships [pre] have been processed. *)
Definition initialTables (entities : list Entity.t) : list Table.t :=
  tableOfEntity <$> entities.

Definition tablesAfter (entities : list Entity.t) (pre : list RelIn.t)
    : list Table.t :=
  (transformRelationships pre (initialTables entities)).2.

Definition sourceName (r : RelIn.t) : option string :=
  orOpt (RelIn.sourceEntity r) (RelIn.sourceTable r).
Definition targetName (r : RelIn.t) : option string :=
  orOpt (RelIn.targetEntity r) (RelIn.targetTable r).

(** The relationship [r] resolves to the tables at positions [si] and [ti]
    of [tables]. *)
Definition resolvesTo (r : RelIn.t) (tables : list Table.t) (si ti : nat)
    : Prop :=
  JS.truthy (sourceName r) = true ∧ JS.truthy (targetName r) = true
  ∧ resolve (sourceName r) tables = Some si
  ∧ resolve (targetName r) tables = Some ti.

(** The foreign key that a one-to-many relationship from [S] adds. *)
Definition expectedForeignKey (S : Table.t) : Column.t :=
  foreignKeyColumn (Table.name S) (primaryKeyOr (bareIdColumn None) S).

(** The claim about one-to-many relationships, for the relationship [r]
    that follows [pre] in the input: if [r] resolves to the tables [S] and
    [T] and [T] has no column of the name of the foreign key when [r] is
    processed, the table at the position of [T] in the returned schema has
    the nullable, non-key foreign key to [S]. *)
Definition gainsForeignKey (entities : list Entity.t)
    (pre : list RelIn.t) (r : RelIn.t) (post : list RelIn.t)
    (options : Options) (now : string) : Prop :=
  ∀ si ti S T,
    resolvesTo r (tablesAfter entities pre) si ti →
    tablesAfter entities pre !! si = Some S →
    tablesAfter entities pre !! ti = Some T →
    hasColumnNamed (Column.name (expectedForeignKey S)) (Table.columns T) = false →
    ∃ T', Schema.tables (generateSchema entities (pre ++ r :: post) options now) !! ti
          = Some T'
          ∧ expectedForeignKey S ∈ Table.columns T'.

(** The characters that [transformTableName] lets through. *)
Definition identChar (a : ascii) : bool :=
  JS.isLower a || JS.isDigit a || Ascii.eqb a "_".

(** A column with a data type, and a table whose columns all have one and
    include a primary key. *)
Definition typed (c : Column.t) : Prop := JS.truthy (Column.dataType c) = true.

Definition keyed (t : Table.t) : Prop :=
  Arr.some Column.isPrimaryKey (Table.columns t) = true
  ∧ Forall typed (Table.columns t).

(** [t'] is [t] with typed columns pushed at the end. *)
Definition extends (t t' : Table.t) : Prop :=
  Table.name t' = Table.name t
  ∧ ∃ extra, Table.columns t' = Table.columns t ++ extra ∧ Forall typed extra.

Definition namesOf (ts : list Table.t) : list string := Table.name <$> ts.

(** [resolve] reads the names of the tables only. *)
Definition resolveIn (names : list string) (entityName : option string)
    : option nat :=
  Arr.findIndex
    (λ n, String.eqb (JS.toLowerCase n)
            (JS.toLowerCase (transformTableName entityName)))
    names.

(** The relationship [y] of the schema was made from the input [x], whose
    ends resolve to the positions [si] and [ti] of the tables named
    [names]. *)
Definition tracedTo (names : list string) (y : Relationship.t) (x : RelIn.t)
    (si ti : nat) : Prop :=
  JS.truthy (sourceName x) = true ∧ JS.truthy (targetName x) = true
  ∧ resolveIn names (sourceName x) = Some si
  ∧ resolveIn names (targetName x) = Some ti
  ∧ Relationship.sourceTable y = names !! si
  ∧ Relationship.targetTable y = names !! ti
  ∧ Relationship.isIdentifying y = RelIn.isIdentifying x.








(** Author owns Book through an identifying one-to-many relationship. *)
Definition writes (identifying : bool) : RelIn.t :=
  Samples.relIn "Author" "Book" (Some "ONE_TO_MANY") identifying.

End NormalizerSpec.

(** ** What a pattern matches

    [matches r s c s' c']: the pattern [r] can consume a prefix of [s] and
    leave [s'], turning the groups [c] into [c'].  The matcher of module
    [Regex] returns one of these matches, the one that the priorities of
    backtracking select. *)

Module RegexSemantics.
  Import Regex.

Inductive matches : regex → list ascii → caps → list ascii → caps → Prop :=
  | MChr p a s c : p a = true → matches (RChr p) (a :: s) c s c
  | MEps s c : matches REps s c s c
  | MSeq r1 r2 s c s1 c1 s2 c2 :
      matches r1 s c s1 c1 → matches r2 s1 c1 s2 c2 →
      matches (RSeq r1 r2) s c s2 c2
  | MAltL r1 r2 s c s1 c1 : matches r1 s c s1 c1 → matches (RAlt r1 r2) s c s1 c1
  | MAltR r1 r2 s c s1 c1 : matches r2 s c s1 c1 → matches (RAlt r1 r2) s c s1 c1
  | MStarStop r s c : matches (RStar r) s c s c
  | MStarStep r s c s1 c1 s2 c2 :
      matches r s c s1 c1 → length s1 < length s →
      matches (RStar r) s1 c1 s2 c2 → matches (RStar r) s c s2 c2
  | MGroup i r s c s1 c1 :
      matches r s c s1 c1 →
      matches (RGroup i r) s c s1 (setCap i (take (length s - length s1) s) c1)
  | MEolEnd c : matches REol [] c [] c
  | MEolBreak a s c :
      JS.isLineTerminator a = true → matches REol (a :: s) c (a :: s) c
  | MEnd c : matches REnd [] c [] c.

(** A replacement leaves the text [s] alone where the pattern starts: every
    match of [r] at the head of [s] is replaced by the matched text. *)
Definition quiet (r : regex) (f : caps → list ascii) (s : list ascii) : Prop :=
  ∀ s' c', matches r s noCaps s' c' → f c' = take (length s - length s') s.

(** ... and at every position of [s]. *)
Definition allQuiet (r : regex) (f : caps → list ascii) (s : list ascii) : Prop :=
  ∀ u v, s = u ++ v → quiet r f v.

(** ... and at every position inside the piece [u] of the text [u ++ rest]. *)
Definition quietIn (r : regex) (f : caps → list ascii) (u rest : list ascii)
    : Prop :=
  ∀ u1 u2, u = u1 ++ u2 → u2 ≠ [] → quiet r f (u2 ++ rest).

(** The text without its leading characters of a class. *)
Fixpoint dropClass (p : ascii → bool) (s : list ascii) : list ascii :=
  match s with
  | a :: s' => if p a then dropClass p s' else s
  | [] => []
  end.

Definition headIs (p : ascii → bool) (s : list ascii) : bool :=
  match s with a :: _ => p a | [] => false end.

(** Whether a pattern can match without consuming a character, and the
    characters that a match that consumes something can start with. *)
Fixpoint nullable (r : regex) : bool :=
  match r with
  | RChr _ => false
  | REps | RStar _ | REol | REnd => true
  | RSeq r1 r2 => nullable r1 && nullable r2
  | RAlt r1 r2 => nullable r1 || nullable r2
  | RGroup _ r1 => nullable r1
  end.

Fixpoint first (r : regex) (a : ascii) : bool :=
  match r with
  | RChr p => p a
  | REps | REol | REnd => false
  | RSeq r1 r2 => first r1 a || (nullable r1 && first r2 a)
  | RAlt r1 r2 => first r1 a || first r2 a
  | RStar r1 => first r1 a
  | RGroup _ r1 => first r1 a
  end.

(** A pattern without the dollar. *)
Fixpoint anchorFree (r : regex) : bool :=
  match r with
  | RChr _ | REps => true
  | REol | REnd => false
  | RSeq r1 r2 | RAlt r1 r2 => anchorFree r1 && anchorFree r2
  | RStar r1 | RGroup _ r1 => anchorFree r1
  end.

End RegexSemantics.

(** ** Diagram texts

    The texts of the form that [generateMermaidERD] builds: the line
    [erDiagram], entity blocks (a header, attribute lines, a closing brace
    and an empty line), and relationship lines. *)

Module DiagramText.
  Import Regex RegexSemantics.

Definition isWordRun (w : list ascii) : Prop :=
  w ≠ [] ∧ Forall (λ a, JS.isWord a = true) w.

(** The characters of a label: any but the double quote, the colon, the
    bar, the braces and the line terminators. *)
Definition labelChar (a : ascii) : bool :=
  negb (Ascii.eqb a "034" || Ascii.eqb a ":" || Ascii.eqb a "|"
        || Ascii.eqb a "{" || Ascii.eqb a "}" || JS.isLineTerminator a).

Record attribute := mkAttribute {
  attrType : list ascii;
  attrName : list ascii;
  attrKey : list ascii }.

Record entity := mkEntity {
  entName : list ascii;
  entAttributes : list attribute }.

Record relationship := mkRelationship {
  relSource : list ascii;
  relSourceSymbol : list ascii;
  relTargetSymbol : list ascii;
  relTarget : list ascii;
  relLabel : list ascii }.

Record diagram := mkDiagram {
  entities : list entity;
  relationships : list relationship }.

Definition titleLine : list ascii := JS.chars "erDiagram" ++ ["010"%char].
Definition closingLines : list ascii := JS.chars "    }" ++ ["010"; "010"]%char.

Definition attributeText (a : attribute) : list ascii :=
  JS.chars "        " ++ attrType a ++ JS.chars " " ++ attrName a
  ++ JS.chars " " ++ attrKey a ++ ["010"%char].

Definition attributesText (attrs : list attribute) : list ascii :=
  concat (attributeText <$> attrs).

Definition headerText (name : list ascii) : list ascii :=
  JS.chars "    " ++ name ++ [" "; "{"; "010"]%char.

Definition entityText (e : entity) : list ascii :=
  headerText (entName e) ++ attributesText (entAttributes e) ++ closingLines.

Definition relationshipText (r : relationship) : list ascii :=
  JS.chars "    " ++ relSource r ++ JS.chars " " ++ relSourceSymbol r
  ++ JS.chars " -- " ++ relTargetSymbol r ++ JS.chars " " ++ relTarget r
  ++ [" "; ":"; " "; "034"]%char ++ relLabel r ++ ["034"; "010"]%char.

Definition relationshipsText (rs : list relationship) : list ascii :=
  concat (relationshipText <$> rs).

Definition bodyText (es : list entity) (rs : list relationship) : list ascii :=
  concat (entityText <$> es) ++ relationshipsText rs.

Definition diagramChars (d : diagram) : list ascii :=
  titleLine ++ bodyText (entities d) (relationships d).

Definition diagramText (d : diagram) : string := JS.str (diagramChars d).

Definition wfAttribute (a : attribute) : Prop :=
  isWordRun (attrType a) ∧ isWordRun (attrName a)
  ∧ (attrKey a = JS.chars "PK" ∨ attrKey a = JS.chars "FK" ∨ attrKey a = []).

Definition wfEntity (e : entity) : Prop :=
  isWordRun (entName e) ∧ Forall wfAttribute (entAttributes e).

Definition wfRelationship (r : relationship) : Prop :=
  isWordRun (relSource r) ∧ isWordRun (relTarget r)
  ∧ (relSourceSymbol r = JS.chars "||" ∨ relSourceSymbol r = JS.chars "}o")
  ∧ (relTargetSymbol r = JS.chars "||" ∨ relTargetSymbol r = JS.chars "o{")
  ∧ Forall (λ a, labelChar a = true) (relLabel r).

Definition wfDiagram (d : diagram) : Prop :=
  Forall wfEntity (entities d) ∧ Forall wfRelationship (relationships d).

(** The lines of a diagram text. *)
Definition headerLine (name : list ascii) : list ascii :=
  JS.chars "    " ++ name ++ [" "; "{"]%char.

Definition attributeLine (a : attribute) : list ascii :=
  JS.chars "        " ++ attrType a ++ JS.chars " " ++ attrName a
  ++ JS.chars " " ++ attrKey a.

Definition relationshipLine (r : relationship) : list ascii :=
  JS.chars "    " ++ relSource r ++ JS.chars " " ++ relSourceSymbol r
  ++ JS.chars " -- " ++ relTargetSymbol r ++ JS.chars " " ++ relTarget r
  ++ [" "; ":"; " "; "034"]%char ++ relLabel r ++ ["034"%char].

Inductive diagramLine : list ascii → Prop :=
  | TitleLine : diagramLine (JS.chars "erDiagram")
  | EmptyLine : diagramLine []
  | ClosingLine : diagramLine (JS.chars "    }")
  | HeaderLine name : isWordRun name → diagramLine (headerLine name)
  | AttributeLine a : wfAttribute a → diagramLine (attributeLine a)
  | RelationshipLine r : wfRelationship r → diagramLine (relationshipLine r).

(** What can follow a relationship line, an entity block (or the title),
    and a header or an attribute line. *)
Definition afterRelationship (rest : list ascii) : Prop :=
  ∃ rs, Forall wfRelationship rs ∧ rest = relationshipsText rs.

Definition afterEntity (rest : list ascii) : Prop :=
  ∃ es rs, Forall wfEntity es ∧ Forall wfRelationship rs ∧ rest = bodyText es rs.

Definition afterAttribute (rest : list ascii) : Prop :=
  ∃ attrs rest', Forall wfAttribute attrs ∧ afterEntity rest'
                 ∧ rest = attributesText attrs ++ closingLines ++ rest'.

(** A diagram of one entity and one relationship. *)
Definition sampleDiagram : diagram :=
  mkDiagram
    [mkEntity (JS.chars "book")
       [mkAttribute (JS.chars "number") (JS.chars "id") (JS.chars "PK");
        mkAttribute (JS.chars "string") (JS.chars "title") []]]
    [mkRelationship (JS.chars "author") (JS.chars "}o") (JS.chars "o{")
       (JS.chars "book") (JS.chars "is written by")].

(** After a word, [k] more words separated by white space, optional white
    space, and a closing brace followed by a word character. *)
Fixpoint tailWords (k : nat) (s : list ascii) : bool :=
  match k with
  | 0 =>
      match dropClass JS.isSpace s with
      | a :: b :: _ => Ascii.eqb a "}" && JS.isWord b
      | _ => false
      end
  | S k' =>
      headIs JS.isSpace s
      && headIs JS.isWord (dropClass JS.isSpace s)
      && tailWords k' (dropClass JS.isWord (dropClass JS.isSpace s))
  end.

Definition threeWords (s : list ascii) : bool :=
  headIs JS.isWord s && tailWords 2 (dropClass JS.isWord s).

(** A closing brace, white space, a word, white space, an opening brace. *)
Definition adjacentBlocks (s : list ascii) : bool :=
  match s with
  | a :: t =>
      Ascii.eqb a "}"
      && headIs JS.isWord (dropClass JS.isSpace t)
      && headIs (Ascii.eqb "{")
           (dropClass JS.isSpace (dropClass JS.isWord (dropClass JS.isSpace t)))
  | [] => false
  end.

(** A cardinality symbol followed by a dash or by the first byte of the em
    dash. *)
Definition operatorStart (s : list ascii) : bool :=
  match s with
  | a :: b :: t =>
      ((Ascii.eqb a "|" && Ascii.eqb b "|") || (Ascii.eqb a "}" && Ascii.eqb b "o")
       || (Ascii.eqb a "o" && Ascii.eqb b "{"))
      && headIs (λ c, Ascii.eqb c "-" || Ascii.eqb c "226") t
  | _ => false
  end.

(** The three separators that the operator substitutions look for. *)
Definition isSeparator (sep : list ascii) : Prop :=
  sep = MermaidGeneratorService.doubleDash
  ∨ sep = MermaidGeneratorService.singleDash
  ∨ sep = MermaidGeneratorService.emDash.

Definition notQuote (a : ascii) : bool := negb (Ascii.eqb a "034").

Definition wordOrSpace (a : ascii) : bool := JS.isWord a || JS.isSpace a.

(** The replacement of the substitution before a closing brace. *)
Definition closed (c : caps) : list ascii :=
  c 1 ++ JS.chars (JS.nl +:+ "    }" +:+ JS.nl +:+ JS.nl +:+ "    ") ++ c 2.

(** The replacement of the substitution between adjacent blocks. *)
Definition separated (c : caps) : list ascii :=
  JS.chars ("}" +:+ JS.nl +:+ JS.nl +:+ "    ") ++ c 1 ++ JS.chars " {".

(** White space, a word, white space, a word character. *)
Definition attributeStart (s : list ascii) : bool :=
  headIs JS.isWord (dropClass JS.isSpace s)
  && headIs JS.isSpace (dropClass JS.isWord (dropClass JS.isSpace s))
  && headIs JS.isWord
       (dropClass JS.isSpace (dropClass JS.isWord (dropClass JS.isSpace s))).

End DiagramText.

(** ** The diagram that the generator writes

    The entity blocks and relationship lines of [generateMermaidERD], read
    off [generateEntityDefinition] and [generateRelationshipDefinition]. *)

Module GeneratedDiagram.
  Import DiagramText MermaidGeneratorService.

Definition attributeOf (suffix : string) (c : Column.t) : attribute :=
  mkAttribute (JS.chars (mapDataType (Column.dataType c)))
    (JS.chars (sanitizeName (Some (Column.name c)))) (JS.chars suffix).

Definition defaultKey : attribute :=
  mkAttribute (JS.chars "number") (JS.chars (sanitizeName (Some "id")))
    (JS.chars "PK").

Definition attributesOf (cols : list Column.t) : list attribute :=
  (match List.filter Column.isPrimaryKey cols with
   | [] => [defaultKey]
   | c :: cs => attributeOf "PK" <$> c :: cs
   end)
  ++ (attributeOf "FK"
        <$> List.filter (λ c, negb (Column.isPrimaryKey c) && Column.isForeignKey c) cols)
  ++ (attributeOf ""
        <$> List.filter (λ c, negb (Column.isPrimaryKey c) && negb (Column.isForeignKey c)) cols).

Definition entityOf (t : Table.t) : option entity :=
  if String.eqb (Table.name t) "" then None
  else Some (mkEntity
               (JS.chars (JS.toLowerCase (sanitizeName (Some (Table.name t)))))
               (attributesOf (Table.columns t))).

Definition drawn (r : Relationship.t) : bool :=
  JS.truthy (Relationship.sourceEntity r) && JS.truthy (Relationship.targetEntity r).

Definition labelOf (r : Relationship.t) : string :=
  JS.orElse (Relationship.name r) "relates".

Definition relationshipOf (r : Relationship.t) : option relationship :=
  if drawn r then
    Some (mkRelationship
            (JS.chars (JS.toLowerCase
               (sanitizeName (orOpt (Relationship.sourceEntity r)
                                (Relationship.sourceTable r)))))
            (JS.chars (cardinalities r).1) (JS.chars (cardinalities r).2)
            (JS.chars (JS.toLowerCase
               (sanitizeName (orOpt (Relationship.targetEntity r)
                                (Relationship.targetTable r)))))
            (JS.chars (labelOf r)))
  else None.

Definition diagramOf (schema : Schema.t) : diagram :=
  mkDiagram (omap entityOf (Schema.tables schema))
    (omap relationshipOf (Schema.relationships schema)).

(** The names of the relationships that are drawn contain no double quote,
    colon, bar, brace or line break. *)
Definition plainLabels (schema : Schema.t) : Prop :=
  ∀ r, r ∈ Schema.relationships schema → drawn r = true →
       Forall (λ a, labelChar a = true) (JS.chars (labelOf r)).

End GeneratedDiagram.

(** The claim of idempotence: formatting the output of the formatter
    returns it unchanged. *)
Definition fixesItsOutput (format : string → string) : Prop :=
  ∀ s, format (format s) = format s.

(** ** Further sample inputs *)

Module MoreSamples.
  Import SchemaGenerator.

(** The tables of the entities Author and Book. *)
Definition library : list Table.t :=
  NormalizerSpec.initialTables [Samples.author; Samples.book].

(** The identifying relationship from the table [author] to the table
    [book], as the normaliser returns it for [NormalizerSpec.writes true]. *)
Definition ownedBy : Relationship.t :=
  {| Relationship.name := Some "has";
     Relationship.sourceTable := Some "author";
     Relationship.sourceEntity := Some "Author";
     Relationship.targetTable := Some "book";
     Relationship.targetEntity := Some "Book";
     Relationship.sourceColumn := Some "id";
     Relationship.targetColumn := Some "author_id";
     Relationship.type := Some "ONE_TO_MANY";
     Relationship.isIdentifying := true;
     Relationship.description := Some "Relationship between author and book";
     Relationship.sourceCardinality := None;
     Relationship.targetCardinality := None;
     Relationship.sourceParticipation := Some "PARTIAL";
     Relationship.targetParticipation := Some "PARTIAL";
     Relationship.attributes := Some [];
     Relationship.cardinality := None |}.

(** A relationship attribute that has a description but no name. *)
Definition unnamedAttribute : RelAttrIn.t :=
  {| RelAttrIn.name := None; RelAttrIn.dataType := None;
     RelAttrIn.isPrimaryKey := false; RelAttrIn.isForeignKey := false;
     RelAttrIn.isNullable := None; RelAttrIn.isUnique := false;
     RelAttrIn.isMultiValued := false; RelAttrIn.isMultivalued := false;
     RelAttrIn.isDerived := false;
     RelAttrIn.description := Some "Date on which the Book was  borrowed (UTC)" |}.

End MoreSamples.

(** ** Columns that a relationship names *)

Module SchemaIntegrity.

(** The table [t] has a column of the name [n]. *)
Definition hasColumn (t : Table.t) (n : string) : Prop :=
  ∃ c, c ∈ Table.columns t ∧ Column.name c = n.

(** [t'] is the table [t] at a later point: the same name, and a column for
    every name that [t] has a column for. *)
Definition keepsColumns (t t' : Table.t) : Prop :=
  Table.name t' = Table.name t ∧ ∀ n, hasColumn t n → hasColumn t' n.

(** The relationship [y] joins the tables [S] and [T] through columns that
    they have. *)
Definition joins (y : Relationship.t) (S T : Table.t) : Prop :=
  Relationship.sourceTable y = Some (Table.name S)
  ∧ Relationship.targetTable y = Some (Table.name T)
  ∧ (∃ sc, Relationship.sourceColumn y = Some sc ∧ hasColumn S sc)
  ∧ (∃ tc, Relationship.targetColumn y = Some tc ∧ hasColumn T tc).

End SchemaIntegrity.

(** ** The statements of a script *)

Module SqlSpec.
  Import SqlGenerator.

(** The statements that [generateSQL] pushes for every dialect: the header,
    the drops, the tables, the indexes, the views, the procedures, the
    triggers, the seed data and the footer. *)
Definition commonStatements (generator : Generator)
    (schema processedSchema : Schema.t) : list string :=
  let tables := Schema.tables processedSchema in
  [headerComment generator schema]
  ++ optional (generateDropStatements generator) processedSchema
  ++ ((λ table, createTableStatement generator table processedSchema) <$> tables)
  ++ (tables ≫= (λ table, createIndexStatements generator table processedSchema))
  ++ optional (createViewStatements generator) processedSchema
  ++ optional (createStoredProcedures generator) processedSchema
  ++ optional (createTriggerStatements generator) processedSchema
  ++ (List.filter Table.isLookupTable tables
        ≫= optional (generateSeedData generator))
  ++ match footerComment generator with
     | Some f => [f processedSchema]
     | None => []
     end.

(** The schemas of the map are readable objects of the store. *)
Definition allReadable (stored : SchemaModel.schemas) (h : Store.heap) : Prop :=
  ∀ id l, SchemaModel.findById stored id = Some l →
          is_Some (Store.readSchema h l).

(** A table of the name [n] that holds a foreign key to itself, and the
    schema that holds this table only. *)
Definition selfReferring (n : string) : Table.t :=
  {| Table.name := n;
     Table.columns :=
       [SchemaGenerator.idColumn;
        SchemaGenerator.foreignKeyColumn n SchemaGenerator.idColumn];
     Table.description := None; Table.isWeakEntity := false;
     Table.isLookupTable := false; Table.isJunctionTable := false |}.

Definition tree : Schema.t :=
  {| Schema.name := "tree"; Schema.description := None;
     Schema.tables := [selfReferring "node"]; Schema.relationships := [];
     Schema.version := Some 1;
     Schema.createdAt := None; Schema.updatedAt := None |}.

(** A store that holds the schema [tree] at location 3, its arrays at 1 and
    2, and the map that files it under the id [7]. *)
Definition store : Store.heap :=
  <[3%positive := Store.SchemaObject "tree" None 1%positive 2%positive (Some 1) None None]>
    (<[2%positive := Store.RelationshipArray []]>
       (<[1%positive := Store.TableArray [selfReferring "node"]]> ∅)).

Definition stored : SchemaModel.schemas := {[ "7" := 3%positive ]}.

(** A relationship between Author and Book whose type is spelled in lower
    case. *)
Definition lowerCaseWrites : RelIn.t :=
  Samples.relIn "Author" "Book" (Some "many_to_many") false.

End SqlSpec.

(** ** The attribute lines of an entity block *)

Module BlockSpec.
  Import MermaidGeneratorService.

(** The key marker of a column: a primary key is marked as such whether or
    not it is a foreign key as well. *)
Definition keyOf (c : Column.t) : string :=
  if Column.isPrimaryKey c then "PK"
  else if Column.isForeignKey c then "FK" else "".

(** The attribute line of a column: eight spaces, the mapped type, the
    sanitised name and the key marker, separated by single spaces. *)
Definition lineOf (c : Column.t) : string :=
  "        " +:+ mapDataType (Column.dataType c) +:+ " "
  +:+ sanitizeName (Some (Column.name c)) +:+ " " +:+ keyOf c +:+ JS.nl.

(** The order in which the columns of a table are listed: the primary keys,
    then the foreign keys that are no primary keys, then the other columns,
    each group in the order of the table. *)
Definition order (cols : list Column.t) : list Column.t :=
  List.filter Column.isPrimaryKey cols
  ++ List.filter (λ c, negb (Column.isPrimaryKey c) && Column.isForeignKey c) cols
  ++ List.filter (λ c, negb (Column.isPrimaryKey c) && negb (Column.isForeignKey c)) cols.

End BlockSpec.

(** ** Names without doubled underscores *)

Module NameSpec.

(** No two underscores in a row. *)
Fixpoint noDoubleUnderscore (s : list ascii) : bool :=
  match s with
  | a :: t =>
      negb (Ascii.eqb "_" a && RegexSemantics.headIs (Ascii.eqb "_") t)
      && noDoubleUnderscore t
  | [] => true
  end.

(** A column is a source of a constraint when it is flagged as a foreign
    key and carries a reference. *)
Definition constrained (c : Column.t) : bool :=
  Column.isForeignKey c
  && (if Column.references c is Some _ then true else false).

End NameSpec.

(** ** References that hold *)

Module ReferenceSpec.
  Import SchemaIntegrity.

(** The reference [ref] points to a column of a table of [ts]. *)
Definition satisfied (ts : list Table.t) (ref : Reference.t) : Prop :=
  ∃ S, S ∈ ts ∧ Table.name S = Reference.table ref
       ∧ hasColumn S (Reference.column ref).

(** Every reference that a column of [ts] carries points to a column of a
    table of [ts]. *)
Definition referencesHold (ts : list Table.t) : Prop :=
  ∀ t c ref, t ∈ ts → c ∈ Table.columns t → Column.references c = Some ref →
             satisfied ts ref.

(** The attributes of the entities carry no reference of their own. *)
Definition plainAttributes (entities : list Entity.t) : Prop :=
  ∀ e attrs a, e ∈ entities → Entity.attributes e = Some attrs → a ∈ attrs →
               Attr.references a = None.

(** The constraint of the foreign key that [writes] adds to [book]. *)
Definition bookToAuthor : SqlGenerator.ForeignKey :=
  {| SqlGenerator.columnName := "author_id";
     SqlGenerator.referenceTable := "author";
     SqlGenerator.referenceColumn := "id";
     SqlGenerator.onDelete := "CASCADE";
     SqlGenerator.onUpdate := "CASCADE";
     SqlGenerator.constraintName := "fk_book_author_id" |}.

End ReferenceSpec.

(** ** The schemas kept by the model *)

Module ModelSpec.

(** Every id of the map was taken from the counter: it is the decimal form
    of a number below [nextId]. *)
Definition idsBelowCounter (st : SchemaModel.state) : Prop :=
  ∀ id l, SchemaModel.findById (SchemaModel.stored st) id = Some l →
          ∃ k, k < SchemaModel.nextId st ∧ id = JS.ofNat k.

(** A language service that answers every prompt with Author and Book and
    the relationship between them. *)
Definition library (prompt : string) : SchemaController.Extraction :=
  SchemaController.Extracted [Samples.author; Samples.book]
    [NormalizerSpec.writes false].

(** The model before the first schema is saved. *)
Definition initial : SchemaModel.state := SchemaModel.mkState ∅ 1.

End ModelSpec.

(** ** The content of the documentation and its two renderings *)

Module DocumentationSpec.
  Import Documentation.

(** *** The content of a document, independent of its rendering: what the
    claim about the two formats calls the factual content. *)

Inductive EntityType := WeakEntity | LookupTable | StrongEntity.

Record ColumnFact := mkColumnFact {
    cName : string; cDataType : string;
    cPrimaryKey : bool; cForeignKey : bool; cNullable : bool; cUnique : bool;
    cDefault : string; cDescription : string }.

Record ReferenceFact := mkReferenceFact {
    fColumn : string; fReferences : string;
    fOnDelete : string; fOnUpdate : string }.

Record TableFact := mkTableFact {
    tName : string; tDescription : option string; tEntityType : EntityType;
    tColumns : list ColumnFact; tReferences : list ReferenceFact }.

Record RelationshipFact := mkRelationshipFact {
    rSource : string; rName : string; rTarget : string; rType : string;
    rSourceCardinality : string; rTargetCardinality : string;
    rIdentifying : bool; rDescription : string }.

Record AttributeFact := mkAttributeFact {
    aName : string; aDataType : string; aDescription : string }.

Record AttributeGroupFact := mkAttributeGroupFact {
    raName : string; raSource : string; raTarget : string;
    raRows : list AttributeFact }.

Record Facts := mkFacts {
    schemaName : string; schemaDescription : option string;
    tableFacts : list TableFact;
    relationshipFacts : list RelationshipFact;
    attributeGroupFacts : list AttributeGroupFact;
    createdAt : string; updatedAt : string; version : nat }.

Definition shown (o : option string) : option string :=
    if JS.truthy o then o else None.

Definition entityTypeOf (table : Table.t) : EntityType :=
    if Table.isWeakEntity table then WeakEntity
    else if Table.isLookupTable table then LookupTable
    else StrongEntity.

Definition columnFact (column : Column.t) : ColumnFact :=
    {| cName := Column.name column; cDataType := tmpl (Column.dataType column);
       cPrimaryKey := Column.isPrimaryKey column;
       cForeignKey := Column.isForeignKey column;
       cNullable := nullable column; cUnique := Column.isUnique column;
       cDefault := JS.orElse (Column.defaultValue column) "";
       cDescription := JS.orElse (Column.description column) "" |}.

Definition referenceFact (column : Column.t) : option ReferenceFact :=
    if Column.isForeignKey column then
      ref ← Column.references column;
      Some {| fColumn := Column.name column;
              fReferences := Reference.table ref +:+ "." +:+ Reference.column ref;
              fOnDelete := JS.orElse (Reference.onDelete ref) "NO ACTION";
              fOnUpdate := JS.orElse (Reference.onUpdate ref) "NO ACTION" |}
    else None.

Definition tableFact (table : Table.t) : TableFact :=
    {| tName := Table.name table; tDescription := shown (Table.description table);
       tEntityType := entityTypeOf table;
       tColumns := columnFact <$> Table.columns table;
       tReferences := omap referenceFact (Table.columns table) |}.

Definition relationshipFact (relationship : Relationship.t) : RelationshipFact :=
    {| rSource := sourceEntityOf relationship;
       rName := JS.orElse (Relationship.name relationship) "relates to";
       rTarget := targetEntityOf relationship;
       rType := formatRelationshipType (Relationship.type relationship);
       rSourceCardinality :=
         JS.orElse (Relationship.sourceCardinality relationship)
           (getCardinalityFromType (Relationship.type relationship) Source);
       rTargetCardinality :=
         JS.orElse (Relationship.targetCardinality relationship)
           (getCardinalityFromType (Relationship.type relationship) Target);
       rIdentifying := Relationship.isIdentifying relationship;
       rDescription := JS.orElse (Relationship.description relationship) "" |}.

Definition attributeFact (attr : RelAttr.t) : AttributeFact :=
    {| aName := RelAttr.name attr;
       aDataType := JS.orElse (RelAttr.dataType attr) "";
       aDescription := JS.orElse (RelAttr.description attr) "" |}.

Definition attributeGroupFact (relationship : Relationship.t)
      : option AttributeGroupFact :=
    match Relationship.attributes relationship with
    | Some (a :: attrs) =>
        Some {| raName := JS.orElse (Relationship.name relationship) "Relationship";
                raSource := sourceEntityOf relationship;
                raTarget := targetEntityOf relationship;
                raRows := attributeFact <$> (a :: attrs) |}
    | _ => None
    end.

(** *** Rendering of the content in the two formats

    The renderings are written out on their own: the mark of a flag, the
    joining of lines and of rows are defined here and not taken from the
    model of the service. *)

(** A flag that holds is shown by a check mark, in HTML inside a span. *)
Definition mark (b : bool) : string := if b then "✓" else "".
Definition htmlMark (b : bool) : string :=
  if b then "<span class=" +:+ q +:+ "text-success" +:+ q +:+ ">✓</span>" else "".

(** The pieces of a list with [sep] between them. *)
Fixpoint joined (sep : string) (pieces : list string) : string :=
  match pieces with
  | [] => ""
  | [x] => x
  | x :: rest => x +:+ sep +:+ joined sep rest
  end.

(** The lines of a page, one below the other. *)
Definition lines (ls : list string) : string := joined nl ls.


Definition mdEntityType (e : EntityType) : string :=
    match e with
    | WeakEntity => "**Entity Type:** Weak Entity *(depends on another entity for identification)*" +:+ nl +:+ nl
    | LookupTable => "**Entity Type:** Lookup/Reference Table" +:+ nl +:+ nl
    | StrongEntity => "**Entity Type:** Strong Entity" +:+ nl +:+ nl
    end.

Definition htmlEntityClass (e : EntityType) : string :=
    match e with
    | WeakEntity => "weak-entity"
    | LookupTable => "lookup-table"
    | StrongEntity => "strong-entity"
    end.

Definition htmlEntityBadge (e : EntityType) : string :=
    match e with
    | WeakEntity => "<span class=" +:+ q +:+ "entity-type-badge weak-entity-badge" +:+ q +:+ ">Weak Entity</span>"
    | LookupTable => "<span class=" +:+ q +:+ "entity-type-badge lookup-entity-badge" +:+ q +:+ ">Lookup Table</span>"
    | StrongEntity => "<span class=" +:+ q +:+ "entity-type-badge strong-entity-badge" +:+ q +:+ ">Strong Entity</span>"
    end.

Definition renderMdColumn (column : ColumnFact) : string :=
    "| " +:+ (cName column) +:+ " | " +:+ (cDataType column) +:+ " | " +:+ (mark (cPrimaryKey column)) +:+ " | " +:+ (mark (cForeignKey column)) +:+ " | " +:+ (mark (cNullable column)) +:+ " | " +:+ (mark (cUnique column)) +:+ " | " +:+ (cDefault column) +:+ " | " +:+ (cDescription column) +:+ " |" +:+ nl.

Definition renderMdReference (row : ReferenceFact) : string :=
    "| " +:+ (fColumn row) +:+ " | " +:+ (fReferences row) +:+ " | " +:+ (fOnDelete row) +:+ " | " +:+ (fOnUpdate row) +:+ " |" +:+ nl.

Definition renderMdTable (table : TableFact) : string :=
    "### " +:+ (tName table) +:+ nl +:+ nl
      +:+ (if bool_decide (is_Some (tDescription table)) then (default "" (tDescription table)) +:+ nl +:+ nl else "")
      +:+ mdEntityType (tEntityType table)
      +:+ "#### Columns" +:+ nl +:+ nl
      +:+ "| Name | Data Type | Primary Key | Foreign Key | Nullable | Unique | Default | Description |" +:+ nl
      +:+ "| ---- | --------- | :---------: | :---------: | :------: | :----: | ------- | ----------- |" +:+ nl
      +:+ String.concat "" (renderMdColumn <$> tColumns table)
      +:+ (if negb (bool_decide (tReferences table = [])) then nl +:+ "#### Foreign Key References" +:+ nl +:+ nl +:+ "| Column | References | On Delete | On Update |" +:+ nl +:+ "| ------ | ---------- | --------- | --------- |" +:+ nl +:+ String.concat "" (renderMdReference <$> tReferences table) else "")
      +:+ nl.

Definition renderMdRelationship (row : RelationshipFact) : string :=
    "| " +:+ (rSource row) +:+ " | " +:+ (rName row) +:+ " | " +:+ (rTarget row) +:+ " | " +:+ (rType row) +:+ " | " +:+ (rSourceCardinality row) +:+ " | " +:+ (rTargetCardinality row) +:+ " | " +:+ (mark (rIdentifying row)) +:+ " | " +:+ (rDescription row) +:+ " |" +:+ nl.

Definition renderMdAttribute (attr : AttributeFact) : string :=
    "| " +:+ (aName attr) +:+ " | " +:+ (aDataType attr) +:+ " | " +:+ (aDescription attr) +:+ " |" +:+ nl.

Definition renderMdAttributeGroup (group : AttributeGroupFact) : string :=
    "#### " +:+ (raName group) +:+ " (" +:+ (raSource group) +:+ " to " +:+ (raTarget group) +:+ ")" +:+ nl +:+ nl
      +:+ "| Attribute | Data Type | Description |" +:+ nl
      +:+ "| --------- | --------- | ----------- |" +:+ nl
      +:+ String.concat "" (renderMdAttribute <$> raRows group)
      +:+ nl.

Definition renderHtmlColumn (column : ColumnFact) : string :=
    lines
      (["<tr class=" +:+ q +:+ (if cPrimaryKey column then "primary-key" else if cForeignKey column then "foreign-key" else "") +:+ q +:+ ">";
        "          <td>" +:+ (cName column) +:+ "</td>";
        "          <td>" +:+ (cDataType column) +:+ "</td>";
        "          <td class=" +:+ q +:+ "center-text" +:+ q +:+ ">" +:+ (htmlMark (cPrimaryKey column)) +:+ "</td>";
        "          <td class=" +:+ q +:+ "center-text" +:+ q +:+ ">" +:+ (htmlMark (cForeignKey column)) +:+ "</td>";
        "          <td class=" +:+ q +:+ "center-text" +:+ q +:+ ">" +:+ (htmlMark (cNullable column)) +:+ "</td>";
        "          <td class=" +:+ q +:+ "center-text" +:+ q +:+ ">" +:+ (htmlMark (cUnique column)) +:+ "</td>";
        "          <td>" +:+ (cDefault column) +:+ "</td>";
        "          <td>" +:+ (cDescription column) +:+ "</td>";
        "        </tr>"]).

Definition renderHtmlReference (row : ReferenceFact) : string :=
    lines
      (["<tr>";
        "            <td>" +:+ (fColumn row) +:+ "</td>";
        "            <td>" +:+ (fReferences row) +:+ "</td>";
        "            <td>" +:+ (fOnDelete row) +:+ "</td>";
        "            <td>" +:+ (fOnUpdate row) +:+ "</td>";
        "          </tr>"]).

Definition renderHtmlTable (table : TableFact) : string :=
    lines
      (["";
        "  <div class=" +:+ q +:+ "table-container " +:+ (htmlEntityClass (tEntityType table)) +:+ q +:+ ">";
        "    <h3 id=" +:+ q +:+ (anchor (tName table)) +:+ q +:+ ">" +:+ (tName table) +:+ " " +:+ (htmlEntityBadge (tEntityType table)) +:+ "</h3>";
        "    ";
        "    " +:+ (if bool_decide (is_Some (tDescription table)) then "<p>" +:+ default "" (tDescription table) +:+ "</p>" else "")]
       ++ htmlColumnsHead
       ++ ["        " +:+ (joined (JS.nl +:+ "        ") (renderHtmlColumn <$> tColumns table));
        "      </tbody>";
        "    </table>"])
    +:+ (if bool_decide (tReferences table = []) then ""
         else lines
                ([""]
                 ++ htmlReferencesHead
                 ++ ["        " +:+ (joined (JS.nl +:+ "        ") (renderHtmlReference <$> tReferences table));
                  "      </tbody>";
                  "    </table>"]))
    +:+ lines ["";  "  </div>"].

Definition renderHtmlRelationship (row : RelationshipFact) : string :=
    lines
      (["<tr>";
        "          <td>" +:+ (rSource row) +:+ "</td>";
        "          <td>" +:+ (rName row) +:+ "</td>";
        "          <td>" +:+ (rTarget row) +:+ "</td>";
        "          <td><span class=" +:+ q +:+ "relationship-type " +:+ (if rIdentifying row then "identifying-relationship" else "") +:+ q +:+ ">" +:+ (rType row) +:+ "</span></td>";
        "          <td>" +:+ (rSourceCardinality row) +:+ "</td>";
        "          <td>" +:+ (rTargetCardinality row) +:+ "</td>";
        "          <td class=" +:+ q +:+ "center-text" +:+ q +:+ ">" +:+ (htmlMark (rIdentifying row)) +:+ "</td>";
        "          <td>" +:+ (rDescription row) +:+ "</td>";
        "        </tr>"]).

Definition renderHtmlAttribute (attr : AttributeFact) : string :=
    lines
      (["<tr>";
        "          <td>" +:+ (aName attr) +:+ "</td>";
        "          <td>" +:+ (aDataType attr) +:+ "</td>";
        "          <td>" +:+ (aDescription attr) +:+ "</td>";
        "        </tr>"]).

Definition renderHtmlAttributeGroup (group : AttributeGroupFact) : string :=
    lines
      (["";
        "  <div class=" +:+ q +:+ "table-container" +:+ q +:+ ">";
        "    <h4>" +:+ (raName group) +:+ " (" +:+ (raSource group) +:+ " to " +:+ (raTarget group) +:+ ")</h4>"]
       ++ htmlAttributesHead
       ++ ["        " +:+ (joined (JS.nl +:+ "        ") (renderHtmlAttribute <$> raRows group));
        "      </tbody>";
        "    </table>";
        "  </div>"]).

Definition renderMarkdown (facts : Facts) : string :=
    "# Database Schema: " +:+ (schemaName facts) +:+ nl +:+ nl
      +:+ (if bool_decide (is_Some (schemaDescription facts)) then (default "" (schemaDescription facts)) +:+ nl +:+ nl else "")
      +:+ "## Overview" +:+ nl +:+ nl
      +:+ "This schema contains " +:+ (JS.ofNat (length (tableFacts facts))) +:+ " tables and " +:+ (JS.ofNat (length (relationshipFacts facts))) +:+ " relationships." +:+ nl +:+ nl
      +:+ "## Table of Contents" +:+ nl +:+ nl
      +:+ "- [Tables](#tables)" +:+ nl
      +:+ String.concat "" ((λ table, "  - [" +:+ (tName table) +:+ "](#" +:+ (anchor (tName table)) +:+ ")" +:+ nl) <$> tableFacts facts)
      +:+ "- [Relationships](#relationships)" +:+ nl
      +:+ "- [ER Diagram](#er-diagram)" +:+ nl +:+ nl
      +:+ "## Tables" +:+ nl +:+ nl
      +:+ String.concat "" (renderMdTable <$> tableFacts facts)
      +:+ "## Relationships" +:+ nl +:+ nl
      +:+ "| Source Entity | Relationship | Target Entity | Type | Source Cardinality | Target Cardinality | Identifying | Description |" +:+ nl
      +:+ "| ------------- | ------------ | ------------- | ---- | ----------------- | ----------------- | :---------: | ----------- |" +:+ nl
      +:+ String.concat "" (renderMdRelationship <$> relationshipFacts facts)
      +:+ (if negb (bool_decide (attributeGroupFacts facts = [])) then nl +:+ "### Relationship Attributes" +:+ nl +:+ nl +:+ String.concat "" (renderMdAttributeGroup <$> attributeGroupFacts facts) else "")
      +:+ "## ER Diagram" +:+ nl +:+ nl
      +:+ "The Entity-Relationship Diagram for this schema can be visualized using the ERD Diagram viewer in the application. The diagram represents:" +:+ nl +:+ nl
      +:+ "- Entities (tables) as rectangles" +:+ nl
      +:+ "- Attributes as ellipses connected to their entities" +:+ nl
      +:+ "- Relationships as diamonds connecting entities" +:+ nl
      +:+ "- Cardinality constraints shown on the connection lines" +:+ nl
      +:+ "- Primary keys indicated with underlined attribute names" +:+ nl
      +:+ "- Foreign keys shown with references to their target entities" +:+ nl
      +:+ "- Weak entities displayed with double-bordered rectangles" +:+ nl +:+ nl
      +:+ nl +:+ "## Notes" +:+ nl +:+ nl
      +:+ "- This documentation was automatically generated by LaymanDB." +:+ nl
      +:+ "- Schema creation date: " +:+ (createdAt facts) +:+ nl
      +:+ "- Last updated: " +:+ (updatedAt facts) +:+ nl
      +:+ "- Schema version: " +:+ (JS.ofNat (version facts)) +:+ nl +:+ nl.

  (** [generated] is the rendering of the moment of generation, which the
      page shows besides the content of the schema. *)
Definition renderHtml (generated : string) (facts : Facts) : string :=
    lines
      (["<!DOCTYPE html>";
        "<html lang=" +:+ q +:+ "en" +:+ q +:+ ">";
        "<head>";
        "  <meta charset=" +:+ q +:+ "UTF-8" +:+ q +:+ ">";
        "  <meta name=" +:+ q +:+ "viewport" +:+ q +:+ " content=" +:+ q +:+ "width=device-width, initial-scale=1.0" +:+ q +:+ ">";
        "  <title>Database Schema: " +:+ (schemaName facts) +:+ "</title>"]
       ++ htmlStyle
       ++ ["  <h1>Database Schema: " +:+ (schemaName facts) +:+ "</h1>";
        "  ";
        "  " +:+ (if bool_decide (is_Some (schemaDescription facts)) then "<p>" +:+ default "" (schemaDescription facts) +:+ "</p>" else "");
        "  ";
        "  <h2>Overview</h2>";
        "  <p>This schema contains " +:+ (JS.ofNat (length (tableFacts facts))) +:+ " tables and " +:+ (JS.ofNat (length (relationshipFacts facts))) +:+ " relationships.</p>"]
       ++ htmlTocHead
       ++ ["          " +:+ (joined (JS.nl +:+ "          ") ((λ table, "<li><a href=" +:+ q +:+ "#" +:+ (anchor (tName table)) +:+ q +:+ ">" +:+ (tName table) +:+ "</a></li>") <$> tableFacts facts))]
       ++ htmlTocEnd)
    +:+ String.concat "" (renderHtmlTable <$> tableFacts facts)
    +:+ lines
      ([""]
       ++ htmlRelationshipsHead
       ++ ["        " +:+ (joined (JS.nl +:+ "        ") (renderHtmlRelationship <$> relationshipFacts facts));
        "      </tbody>";
        "    </table>";
        "  </div>"])
    +:+ (if bool_decide (attributeGroupFacts facts = []) then ""
         else lines ["";  "  <h3>Relationship Attributes</h3>"]
              +:+ String.concat "" (renderHtmlAttributeGroup <$> attributeGroupFacts facts))
    +:+ lines
      ([""]
       ++ htmlDiagramSection
       ++ ["    <p>Schema creation date: " +:+ (createdAt facts) +:+ "</p>";
        "    <p>Last updated: " +:+ (updatedAt facts) +:+ "</p>";
        "    <p>Schema version: " +:+ (JS.ofNat (version facts)) +:+ "</p>";
        "  </div>";
        "  ";
        "  <div class=" +:+ q +:+ "timestamp" +:+ q +:+ ">";
        "    <p>Generated on: " +:+ generated +:+ "</p>";
        "  </div>";
        "</body>";
        "</html>"]).

  (** [formatDate] renders a date; the content holds the two dates of the
      schema as rendered. *)
Definition facts (formatDate : option string → string) (schema : Schema.t)
    : Facts :=
      {| schemaName := Schema.name schema;
         schemaDescription := shown (Schema.description schema);
         tableFacts := tableFact <$> Schema.tables schema;
         relationshipFacts := relationshipFact <$> Schema.relationships schema;
         attributeGroupFacts := omap attributeGroupFact (Schema.relationships schema);
         createdAt := formatDate (Schema.createdAt schema);
         updatedAt := formatDate (Schema.updatedAt schema);
         version := versionOf schema |}.

(** The text [part] occurs in the text [whole]. *)
Definition occursIn (part whole : string) : Prop :=
  ∃ before after, whole = before +:+ part +:+ after.

(** The two documents [md] and [html] show the table [t]: each contains the
    block of the table in its format, and the block contains a row for
    every column and for every foreign-key reference of the table. *)
Definition tableShown (md html : string) (t : TableFact) : Prop :=
  occursIn (renderMdTable t) md
  ∧ occursIn (renderHtmlTable t) html
  ∧ (∀ c, c ∈ tColumns t →
          occursIn (renderMdColumn c) (renderMdTable t)
          ∧ occursIn (renderHtmlColumn c) (renderHtmlTable t))
  ∧ (∀ f, f ∈ tReferences t →
          occursIn (renderMdReference f) (renderMdTable t)
          ∧ occursIn (renderHtmlReference f) (renderHtmlTable t)).

(** The two documents contain the row of the relationship [r]. *)
Definition relationshipShown (md html : string) (r : RelationshipFact) : Prop :=
  occursIn (renderMdRelationship r) md
  ∧ occursIn (renderHtmlRelationship r) html.

(** The two documents contain the block of the attributes of a
    relationship, and the block contains a row for every attribute. *)
Definition attributeGroupShown (md html : string) (g : AttributeGroupFact)
    : Prop :=
  occursIn (renderMdAttributeGroup g) md
  ∧ occursIn (renderHtmlAttributeGroup g) html
  ∧ (∀ a, a ∈ raRows g →
          occursIn (renderMdAttribute a) (renderMdAttributeGroup g)
          ∧ occursIn (renderHtmlAttribute a) (renderHtmlAttributeGroup g)).

(** A rendering of dates for the examples: the date as it is stored. *)
Definition plainDate (date : option string) : string := default "" date.

End DocumentationSpec.

(* ===================================================================== *)
(** * Part II: properties                                                 *)
(* ===================================================================== *)

(** ** Strings *)

Lemma str_chars (s : string) : JS.str (JS.chars s) = s.
Proof. apply String.string_of_list_ascii_of_string. Qed.

Lemma chars_str (l : list ascii) : JS.chars (JS.str l) = l.
Proof. apply String.list_ascii_of_string_of_list_ascii. Qed.

Lemma chars_inj (s t : string) : JS.chars s = JS.chars t → s = t.
Proof. intros H. by rewrite <- (str_chars s), <- (str_chars t), H. Qed.

Lemma chars_app (s t : string) : JS.chars (s +:+ t) = JS.chars s ++ JS.chars t.
Proof. induction s as [|a s IH]; simpl; [done|]. unfold JS.chars in *. simpl. by rewrite IH. Qed.

(** ** The normaliser on a single entity *)

(** C4.  Normalising the single entity [Book] with the attribute [title] of
    type [VARCHAR(255)] and no relationships yields exactly one table, named
    [book], with exactly four columns, in this order: [id] (INTEGER, primary
    key), [title] (VARCHAR(255)), [created_at] and [updated_at] (TIMESTAMP,
    default CURRENT_TIMESTAMP); only [id] is a primary key and none is a
    foreign key. *)
Theorem book_normalises_to_four_columns (options : SchemaGenerator.Options)
    (now : string) :
  ∃ table id title created updated,
    Schema.tables (SchemaGenerator.generateSchema [Samples.book] [] options now)
      = [table]
    ∧ Table.name table = "book"
    ∧ Table.columns table = [id; title; created; updated]
    ∧ (Column.name id = "id" ∧ Column.dataType id = Some "INTEGER"
       ∧ Column.isPrimaryKey id = true ∧ Column.isForeignKey id = false)
    ∧ (Column.name title = "title" ∧ Column.dataType title = Some "VARCHAR(255)"
       ∧ Column.isPrimaryKey title = false ∧ Column.isForeignKey title = false)
    ∧ (Column.name created = "created_at"
       ∧ Column.dataType created = Some "TIMESTAMP"
       ∧ Column.defaultValue created = Some "CURRENT_TIMESTAMP"
       ∧ Column.isPrimaryKey created = false ∧ Column.isForeignKey created = false)
    ∧ (Column.name updated = "updated_at"
       ∧ Column.dataType updated = Some "TIMESTAMP"
       ∧ Column.defaultValue updated = Some "CURRENT_TIMESTAMP"
       ∧ Column.isPrimaryKey updated = false ∧ Column.isForeignKey updated = false).
Proof.
  eexists _, _, _, _, _. split; [vm_compute; reflexivity|].
  split; [reflexivity|]. split; [reflexivity|].
  repeat split.
Qed.

(** ** Mermaid relationship lines *)

(** C10.  The generator emits a line for a relationship only when its
    [sourceEntity] and its [targetEntity] are both present and truthy.  When
    one of the two is absent or the empty string, the definition is the
    empty string, also when [sourceTable] and [targetTable] are set, so that
    the fall-back to the table names in the body is never reached; when both
    are non-empty strings, a line is written.  This holds for the generator
    service and for the copy of the class in [controllers/]. *)
Theorem relationship_without_entities_is_omitted (r : Relationship.t) :
  (MermaidGeneratorService.generateRelationshipDefinition r = ""
   ↔ Relationship.sourceEntity r = None ∨ Relationship.sourceEntity r = Some ""
     ∨ Relationship.targetEntity r = None ∨ Relationship.targetEntity r = Some "")
  ∧ (ExportControllerMermaid.generateRelationshipDefinition r = ""
     ↔ Relationship.sourceEntity r = None ∨ Relationship.sourceEntity r = Some ""
       ∨ Relationship.targetEntity r = None ∨ Relationship.targetEntity r = Some "").
Proof.
  unfold MermaidGeneratorService.generateRelationshipDefinition,
    ExportControllerMermaid.generateRelationshipDefinition.
  destruct (MermaidGeneratorService.cardinalities r) as [sc tc].
  destruct (ExportControllerMermaid.cardinalities r) as [sc' tc'].
  destruct (Relationship.sourceEntity r) as [s|]; cbn [JS.truthy negb orb];
    [|split; (split; [auto|done])].
  destruct (String.eqb_spec s "") as [->|Hs]; cbn [negb orb];
    [split; (split; [auto|done])|].
  destruct (Relationship.targetEntity r) as [t|]; cbn [JS.truthy negb orb];
    [|split; (split; [auto|done])].
  destruct (String.eqb_spec t "") as [->|Ht]; cbn [negb orb];
    [split; (split; [auto|done])|].
  split; (split; [intros E; discriminate E|]);
    intros [H|[H|[H|H]]]; congruence.
Qed.

(** A relationship between the tables [author] and [book] whose entity
    names are empty strings is left out. *)
Lemma relationship_without_entities_is_omitted_witness :
  MermaidGeneratorService.generateRelationshipDefinition
    (Samples.rel (Some "") (Some "Book") (Some "author") (Some "book")
       (Some "ONE_TO_MANY")) = "".
Proof.
  apply (relationship_without_entities_is_omitted
           (Samples.rel (Some "") (Some "Book") (Some "author") (Some "book")
              (Some "ONE_TO_MANY"))).
  right. left. reflexivity.
Defined.

(** Whenever a line is emitted, the names in it come from the entity fields. *)
Lemma emitted_relationship_uses_entity_fields (r : Relationship.t) :
  MermaidGeneratorService.generateRelationshipDefinition r ≠ "" →
  orOpt (Relationship.sourceEntity r) (Relationship.sourceTable r)
    = Relationship.sourceEntity r
  ∧ orOpt (Relationship.targetEntity r) (Relationship.targetTable r)
    = Relationship.targetEntity r.
Proof.
  unfold MermaidGeneratorService.generateRelationshipDefinition, orOpt.
  destruct (JS.truthy (Relationship.sourceEntity r)),
    (JS.truthy (Relationship.targetEntity r)); simpl; intros H; done.
Qed.

(** The two symbols that the generator service chooses for a relationship
    without an override whose type is one of the four normalised names. *)
Lemma service_relationship_symbols (r : Relationship.t) (ty sc tc : string) :
  Relationship.cardinality r = None →
  Relationship.type r = Some ty →
  CardinalityTable.symbols ty = Some (sc, tc) →
  MermaidGeneratorService.cardinalities r = (sc, tc).
Proof.
  intros Hc Hty Hsym.
  unfold MermaidGeneratorService.cardinalities. rewrite Hc, Hty.
  unfold CardinalityTable.symbols in Hsym. simpl.
  destruct (String.eqb_spec ty "ONE_TO_ONE") as [->|]; [by inversion Hsym|].
  destruct (String.eqb_spec ty "ONE_TO_MANY") as [->|]; [by inversion Hsym|].
  destruct (String.eqb_spec ty "MANY_TO_ONE") as [->|]; [by inversion Hsym|].
  destruct (String.eqb_spec ty "MANY_TO_MANY") as [->|]; [by inversion Hsym|].
  discriminate.
Qed.

(** The line of a relationship that is drawn, given its two symbols. *)
Lemma service_relationship_line (r : Relationship.t) (s t sc tc : string) :
  Relationship.sourceEntity r = Some s → s ≠ "" →
  Relationship.targetEntity r = Some t → t ≠ "" →
  MermaidGeneratorService.cardinalities r = (sc, tc) →
  ∃ label,
    MermaidGeneratorService.generateRelationshipDefinition r
    = "    " +:+ JS.toLowerCase (MermaidGeneratorService.sanitizeName (Some s))
      +:+ " " +:+ sc +:+ " -- " +:+ tc +:+ " "
      +:+ JS.toLowerCase (MermaidGeneratorService.sanitizeName (Some t))
      +:+ " : " +:+ JS.dq +:+ label +:+ JS.dq +:+ JS.nl.
Proof.
  intros Es Hs Et Ht Hcard.
  unfold MermaidGeneratorService.generateRelationshipDefinition.
  rewrite Es, Et, Hcard. unfold orOpt. cbn [JS.truthy].
  rewrite !(proj2 (String.eqb_neq _ _) Hs), !(proj2 (String.eqb_neq _ _) Ht).
  cbn [negb orb]. eauto.
Qed.

(** C7.  In the generator service, which is the generator that the export
    controller loads, the line of a relationship without a cardinality
    override carries the two symbols of its type: [||] and [||] for
    ONE_TO_ONE, [||] and [o{] for ONE_TO_MANY, [}o] and [||] for
    MANY_TO_ONE, [}o] and [o{] for MANY_TO_MANY.  The line is the one of a
    relationship that is drawn, that is, whose two entity names are
    non-empty; it shows these names sanitised and in lower case, and the
    label between double quotes. *)
Theorem relationship_symbols_follow_type (r : Relationship.t) (s t : string) :
  Relationship.cardinality r = None →
  Relationship.sourceEntity r = Some s → s ≠ "" →
  Relationship.targetEntity r = Some t → t ≠ "" →
  ∃ label,
    let source := JS.toLowerCase (MermaidGeneratorService.sanitizeName (Some s)) in
    let target := JS.toLowerCase (MermaidGeneratorService.sanitizeName (Some t)) in
    let tail := " : " +:+ JS.dq +:+ label +:+ JS.dq +:+ JS.nl in
    (Relationship.type r = Some "ONE_TO_ONE" →
     MermaidGeneratorService.generateRelationshipDefinition r
     = "    " +:+ source +:+ " || -- || " +:+ target +:+ tail)
    ∧ (Relationship.type r = Some "ONE_TO_MANY" →
       MermaidGeneratorService.generateRelationshipDefinition r
       = "    " +:+ source +:+ " || -- o{ " +:+ target +:+ tail)
    ∧ (Relationship.type r = Some "MANY_TO_ONE" →
       MermaidGeneratorService.generateRelationshipDefinition r
       = "    " +:+ source +:+ " }o -- || " +:+ target +:+ tail)
    ∧ (Relationship.type r = Some "MANY_TO_MANY" →
       MermaidGeneratorService.generateRelationshipDefinition r
       = "    " +:+ source +:+ " }o -- o{ " +:+ target +:+ tail).
Proof.
  intros Hc Es Hs Et Ht.
  destruct (MermaidGeneratorService.cardinalities r) as [sc tc] eqn:Hcard.
  destruct (service_relationship_line r s t sc tc Es Hs Et Ht Hcard)
    as [label Hline].
  exists label. cbv zeta. rewrite Hline.
  repeat split; intros Hty;
    rewrite (service_relationship_symbols r _ _ _ Hc Hty eq_refl) in Hcard;
    injection Hcard as <- <-; apply chars_inj; rewrite !chars_app;
    cbn [JS.chars String.list_ascii_of_string app]; by rewrite <- ?app_assoc.
Qed.

(** Author has many Books: the line carries [||] and [o{]. *)
Lemma relationship_symbols_follow_type_witness :
  ∃ label,
    MermaidGeneratorService.generateRelationshipDefinition
      (Samples.rel (Some "Author") (Some "Book") (Some "author") (Some "book")
         (Some "ONE_TO_MANY"))
    = "    author || -- o{ book : " +:+ JS.dq +:+ label +:+ JS.dq +:+ JS.nl.
Proof.
  destruct (relationship_symbols_follow_type
              (Samples.rel (Some "Author") (Some "Book") (Some "author")
                 (Some "book") (Some "ONE_TO_MANY"))
              "Author" "Book")
    as (label & _ & H & _); [reflexivity|reflexivity|done|reflexivity|done|].
  exists label. cbv zeta in H. rewrite (H eq_refl). by vm_compute.
Defined.

(** The class in [controllers/export.controller.mermaid.js], which no module
    of the program loads, is written for the lower-case hyphenated
    spellings of the types: called on the type [ONE_TO_MANY] it would write
    the symbols of a one-to-one relationship. *)
Lemma controller_copy_ignores_normalised_type :
  ExportControllerMermaid.generateRelationshipDefinition
    (Samples.rel (Some "Author") (Some "Book") (Some "author") (Some "book")
       (Some "ONE_TO_MANY"))
  = "    author ||--|| book : " +:+ JS.dq +:+ "relates" +:+ JS.dq +:+ JS.nl.
Proof. by vm_compute. Qed.

(** In the copy of [controllers/] no normalised type other than
    [ONE_TO_ONE] receives its symbols. *)
Lemma controller_copy_symbols (r : Relationship.t) (ty : string) :
  Relationship.cardinality r = None →
  Relationship.type r = Some ty →
  is_Some (CardinalityTable.symbols ty) →
  ExportControllerMermaid.cardinalities r = ("||", "||").
Proof.
  intros Hc Hty [p Hsym].
  unfold ExportControllerMermaid.cardinalities. rewrite Hc, Hty.
  unfold CardinalityTable.symbols in Hsym.
  destruct (String.eqb_spec ty "ONE_TO_ONE") as [->|]; [done|].
  destruct (String.eqb_spec ty "ONE_TO_MANY") as [->|]; [done|].
  destruct (String.eqb_spec ty "MANY_TO_ONE") as [->|]; [done|].
  destruct (String.eqb_spec ty "MANY_TO_MANY") as [->|]; [done|].
  discriminate.
Qed.

(** ** The store: what [generateSQL] can change *)

Lemma foldl_cons_eq {A B} (f : A → B → A) (a : A) (x : B) (l : list B) :
  foldl f a (x :: l) = foldl f (f a x) l.
Proof. reflexivity. Qed.

Section StoreFrame.
  Import Store.

Lemma alloc_spec (c : cell) (h h1 : heap) (l : loc) :
    alloc c h = (l, h1) → h !! l = None ∧ h1 = <[l := c]> h.
  Proof.
    unfold alloc. intros [= <- <-]. split; [|done].
    apply not_elem_of_dom, is_fresh.
  Qed.

Lemma junctionStepAt_frame (lt lr l0 : loc) (h : heap) (r : Relationship.t) :
    l0 ≠ lt → l0 ≠ lr → junctionStepAt lt lr h r !! l0 = h !! l0.
  Proof.
    intros Ht Hr. unfold junctionStepAt.
    destruct (tablesAt h lt), (relationshipsAt h lr); try done.
    by rewrite !lookup_insert_ne.
  Qed.

Lemma junctionLoop_frame (lt lr l0 : loc) (rs : list Relationship.t) (h : heap) :
    l0 ≠ lt → l0 ≠ lr → foldl (junctionStepAt lt lr) h rs !! l0 = h !! l0.
  Proof.
    intros Ht Hr. revert h.
    induction rs as [|r rs IH]; intros h; simpl; [done|].
    by rewrite IH, junctionStepAt_frame.
  Qed.

  (** The arrays of the working copy evolve as the pure loop says. *)
Lemma junctionLoop_arrays (lt lr : loc) (rs : list Relationship.t) :
    lt ≠ lr →
    ∀ (h : heap) ts0 rs0,
      tablesAt h lt = Some ts0 → relationshipsAt h lr = Some rs0 →
      let st := foldl SqlPreprocess.junctionStep (ts0, rs0) rs in
      tablesAt (foldl (junctionStepAt lt lr) h rs) lt = Some st.1
      ∧ relationshipsAt (foldl (junctionStepAt lt lr) h rs) lr = Some st.2.
  Proof.
    intros Hne. induction rs as [|r rs IH]; intros h ts0 rs0 Hts Hrs.
    { done. }
    rewrite !foldl_cons_eq.
    rewrite (surjective_pairing (SqlPreprocess.junctionStep (ts0, rs0) r)).
    apply IH.
    - unfold junctionStepAt. rewrite Hts, Hrs. unfold tablesAt.
      by rewrite lookup_insert_ne, lookup_insert_eq.
    - unfold junctionStepAt. rewrite Hts, Hrs. unfold relationshipsAt.
      by rewrite lookup_insert_eq.
  Qed.

Lemma deepCopy_spec (h h1 : heap) (l l' : loc) :
    deepCopy h l = Some (l', h1) →
    ∃ s lt lr,
      readSchema h l = Some s
      ∧ h !! lt = None ∧ h !! lr = None ∧ h !! l' = None
      ∧ lt ≠ lr ∧ lt ≠ l' ∧ lr ≠ l'
      ∧ h1 = <[l' := SchemaObject (Schema.name s) (Schema.description s) lt lr
                        (Schema.version s) (Schema.createdAt s) (Schema.updatedAt s)]>
               (<[lr := RelationshipArray (Schema.relationships s)]>
                  (<[lt := TableArray (Schema.tables s)]> h)).
  Proof.
    unfold deepCopy. destruct (readSchema h l) as [s|] eqn:Hs; simpl; [|done].
    unfold alloc.
    set (lt := fresh (dom h)).
    set (h2 := <[lt := TableArray (Schema.tables s)]> h).
    set (lr := fresh (dom h2)).
    set (h3 := <[lr := RelationshipArray (Schema.relationships s)]> h2).
    set (lo := fresh (dom h3)).
    intros [= <- <-].
    assert (F1 : h !! lt = None) by apply not_elem_of_dom, is_fresh.
    assert (F2 : h2 !! lr = None) by apply not_elem_of_dom, is_fresh.
    assert (F3 : h3 !! lo = None) by apply not_elem_of_dom, is_fresh.
    unfold h3, h2 in *.
    assert (lt ≠ lr) by (intros E; rewrite <- E, lookup_insert_eq in F2; done).
    assert (lr ≠ lo) by (intros E; rewrite <- E, lookup_insert_eq in F3; done).
    assert (lt ≠ lo).
    { intros E. rewrite <- E, lookup_insert_ne, lookup_insert_eq in F3; done. }
    rewrite lookup_insert_ne in F2 by done.
    rewrite !lookup_insert_ne in F3 by done.
    exists s, lt, lr. done.
  Qed.

  (** The processed schema lives at three fresh locations; every cell of
      the store of the caller is as before, and the fresh object holds the
      result of the pure rewrite. *)
Lemma preprocessSchema_spec (h h' : heap) (l l' : loc) :
    preprocessSchema h l = Some (l', h') →
    ∃ s, readSchema h l = Some s
         ∧ h !! l' = None
         ∧ h ⊆ h'
         ∧ readSchema h' l' = Some (SqlPreprocess.preprocessSchema s).
  Proof.
    unfold preprocessSchema.
    destruct (deepCopy h l) as [[lo h1]|] eqn:Hc; simpl; [|done].
    apply deepCopy_spec in Hc
      as (s & lt & lr & Hs & Ft & Fr & Fo & Htr & Hto & Hro & ->).
    rewrite lookup_insert_eq. unfold relationshipsAt at 1.
    rewrite lookup_insert_ne, lookup_insert_eq by done. simpl.
    intros [= <- <-]. exists s. split; [done|]. split; [done|].
    set (h1 := <[lo := _]> _).
    set (m2m := List.filter SqlPreprocess.isManyToMany (Schema.relationships s)).
    split.
    - apply map_subseteq_spec. intros l0 c Hl0.
      assert (l0 ≠ lt) by (intros ->; congruence).
      assert (l0 ≠ lr) by (intros ->; congruence).
      assert (l0 ≠ lo) by (intros ->; congruence).
      rewrite junctionLoop_frame by done. unfold h1.
      by rewrite !lookup_insert_ne.
    - destruct (junctionLoop_arrays lt lr m2m Htr h1
                  (Schema.tables s) (Schema.relationships s)) as [Hts Hrs].
      { unfold tablesAt, h1.
        rewrite lookup_insert_ne by done. rewrite lookup_insert_ne by done.
        by rewrite lookup_insert_eq. }
      { unfold relationshipsAt, h1.
        rewrite lookup_insert_ne by done. by rewrite lookup_insert_eq. }
      unfold readSchema. rewrite junctionLoop_frame by done.
      unfold h1 at 1. rewrite lookup_insert_eq.
      rewrite Hts, Hrs. simpl. reflexivity.
  Qed.

Lemma readSchema_subseteq (h h' : heap) (l : loc) (s : Schema.t) :
    h ⊆ h' → readSchema h l = Some s → readSchema h' l = Some s.
  Proof.
    intros Hsub. unfold readSchema, tablesAt, relationshipsAt.
    destruct (h !! l) as [[n d lt lr v c u| |]|] eqn:Hl; try done.
    destruct (h !! lt) as [[|ts|]|] eqn:Ht; try done.
    destruct (h !! lr) as [[| |rs]|] eqn:Hr; try done.
    simpl. intros [= <-].
    rewrite (lookup_weaken _ _ _ _ Hl Hsub), (lookup_weaken _ _ _ _ Ht Hsub),
      (lookup_weaken _ _ _ _ Hr Hsub). done.
  Qed.

End StoreFrame.

(** C5.  Whatever the backends, the formatter, the store, the schema and
    the dialect, every cell that the store held before a call of
    [generateSQL] holds the same value after it; in particular the schema
    of the caller reads as before.  The junction-table rewrite works on
    cells allocated by the call. *)
Theorem generateSQL_leaves_caller_schema_unchanged
    (mysql postgresql sqlite sqlserver : SqlGenerator.Generator)
    (format : string → string → option string)
    (h : Store.heap) (l : Store.loc) (dialect : string) :
  let h' := (SqlGenerator.generateSQL mysql postgresql sqlite sqlserver format
               h l dialect).1 in
  h ⊆ h' ∧ Store.readSchema h' l = Store.readSchema h l.
Proof.
  unfold SqlGenerator.generateSQL.
  destruct (Store.readSchema h l) as [s|] eqn:Hs; [|done].
  destruct (SqlGenerator.getDialectGenerator _ _ _ _ _) as [g|key]; [|done].
  destruct (Store.preprocessSchema h l) as [[l' h']|] eqn:Hp; [|done].
  apply preprocessSchema_spec in Hp as (s' & Hs' & Fl & Hsub & Hr).
  assert (Hgoal : h ⊆ h' ∧ Store.readSchema h' l = Some s).
  { split; [done|]. by apply (readSchema_subseteq h). }
  destruct (Store.readSchema h' l'); simpl; exact Hgoal.
Qed.

(** The script is assembled from the rewritten working copy, which is the
    pure rewrite of the schema of the caller. *)
Lemma generateSQL_uses_rewritten_copy
    (mysql postgresql sqlite sqlserver g : SqlGenerator.Generator)
    (format : string → string → option string)
    (h : Store.heap) (l : Store.loc) (dialect : string) (s : Schema.t) :
  Store.readSchema h l = Some s →
  SqlGenerator.getDialectGenerator mysql postgresql sqlite sqlserver dialect
    = SqlGenerator.Backend g →
  (SqlGenerator.generateSQL mysql postgresql sqlite sqlserver format h l dialect).2
  = inl (SqlGenerator.render format dialect
           (SqlGenerator.statements g dialect s (SqlPreprocess.preprocessSchema s))).
Proof.
  intros Hs Hg. unfold SqlGenerator.generateSQL. rewrite Hs, Hg.
  destruct (Store.preprocessSchema h l) as [[l' h']|] eqn:Hp.
  - apply preprocessSchema_spec in Hp as (s' & Hs' & Fl & Hsub & Hr).
    rewrite Hr. simpl. congruence.
  - exfalso. unfold Store.preprocessSchema, Store.deepCopy in Hp.
    rewrite Hs in Hp. simpl in Hp.
    unfold Store.alloc in Hp. simpl in Hp.
    rewrite lookup_insert_eq in Hp.
    unfold Store.relationshipsAt in Hp.
    set (lt := fresh (dom h)) in *.
    set (h2 := <[lt := _]> h) in *.
    set (lr := fresh (dom h2)) in *.
    set (h3 := <[lr := _]> h2) in *.
    set (lo := fresh (dom h3)) in *.
    assert (lr ≠ lo).
    { intros E. pose proof (is_fresh (dom h3)) as F. fold lo in F.
      apply F. rewrite <- E. unfold h3. rewrite dom_insert. set_solver. }
    rewrite lookup_insert_ne in Hp by done.
    unfold h3 in Hp. rewrite lookup_insert_eq in Hp. simpl in Hp. done.
Qed.

(** ** Characters *)

Lemma lowerChar_not_upper (a : ascii) : JS.isUpper (JS.lowerChar a) = false.
Proof. destruct a as [[] [] [] [] [] [] [] []]; vm_compute; reflexivity. Qed.

Lemma lowerChar_idemp (a : ascii) : JS.lowerChar (JS.lowerChar a) = JS.lowerChar a.
Proof. unfold JS.lowerChar at 1. by rewrite lowerChar_not_upper. Qed.

Lemma lowerChar_fixed (a : ascii) : JS.isUpper a = false → JS.lowerChar a = a.
Proof. unfold JS.lowerChar. by intros ->. Qed.

Lemma toLowerCase_chars (s : string) :
  JS.chars (JS.toLowerCase s) = JS.lowerChar <$> JS.chars s.
Proof. unfold JS.toLowerCase. by rewrite chars_str. Qed.

Lemma toLowerCase_no_upper (s : string) :
  Forall (λ a, JS.isUpper a = false) (JS.chars (JS.toLowerCase s)).
Proof.
  rewrite toLowerCase_chars. apply Forall_fmap, Forall_true.
  intros a. apply lowerChar_not_upper.
Qed.

Lemma lowerChars_fixed (l : list ascii) :
  Forall (λ a, JS.isUpper a = false) l → JS.lowerChar <$> l = l.
Proof.
  induction 1 as [|a l Ha Hl IH]; csimpl; [done|].
  by rewrite IH, lowerChar_fixed.
Qed.

Lemma toLowerCase_fixed (s : string) :
  Forall (λ a, JS.isUpper a = false) (JS.chars s) → JS.toLowerCase s = s.
Proof.
  intros H. apply chars_inj. rewrite toLowerCase_chars.
  by apply lowerChars_fixed.
Qed.

Lemma toLowerCase_idemp (s : string) :
  JS.toLowerCase (JS.toLowerCase s) = JS.toLowerCase s.
Proof. apply toLowerCase_fixed, toLowerCase_no_upper. Qed.

Lemma includes_true (xs : list string) (s : string) :
  Arr.includes xs s = true ↔ s ∈ xs.
Proof.
  unfold Arr.includes. rewrite existsb_exists. split.
  - intros (x & Hx & E). apply String.eqb_eq in E as ->. by apply list_elem_of_In.
  - intros H. exists s. split; [by apply list_elem_of_In|apply String.eqb_refl].
Qed.

(** ** Dialect dispatch *)

Section Dispatch.
  Import SqlGenerator.
  Variables mysql postgresql sqlite sqlserver : Generator.
  Variable format : string → string → option string.

  (** The only keys of [Object.prototype] that a lower-cased string can
      spell. *)
Lemma inherited_lowercase_keys (dialect : string) :
    JS.toLowerCase dialect ∈ objectPrototypeKeys →
    JS.toLowerCase dialect = "constructor" ∨ JS.toLowerCase dialect = "__proto__".
Proof.
  intros H. pose proof (toLowerCase_no_upper dialect) as U.
  set (k := JS.toLowerCase dialect) in *.
  set (lower := λ s : string, forallb (λ a, negb (JS.isUpper a)) (JS.chars s)).
  assert (Hk : In k (List.filter lower objectPrototypeKeys)).
  { apply List.filter_In. split; [by apply list_elem_of_In|].
    unfold lower. apply forallb_forall. intros a Ha.
    rewrite Forall_forall in U. rewrite (U a); [done|by apply list_elem_of_In]. }
  clearbody k. vm_compute in Hk. destruct Hk as [<-|[<-|[]]]; auto.
Qed.

(** An unknown dialect that spells no inherited key selects the MySQL
      backend. *)
Lemma getDialectGenerator_fallback (dialect : string) :
    JS.toLowerCase dialect ∉ supportedDialects →
    JS.toLowerCase dialect ≠ "constructor" →
    JS.toLowerCase dialect ≠ "__proto__" →
    getDialectGenerator mysql postgresql sqlite sqlserver dialect = Backend mysql.
  Proof.
    intros Hs Hc Hp. unfold getDialectGenerator, generatorsGet.
    set (k := JS.toLowerCase dialect) in *.
    destruct (String.eqb_spec k "mysql") as [E|_]; [done|].
    destruct (String.eqb_spec k "postgresql") as [E|_].
    { exfalso. apply Hs. rewrite E. set_solver. }
    destruct (String.eqb_spec k "sqlite") as [E|_].
    { exfalso. apply Hs. rewrite E. set_solver. }
    destruct (String.eqb_spec k "sqlserver") as [E|_].
    { exfalso. apply Hs. rewrite E. set_solver. }
    destruct (Arr.includes objectPrototypeKeys k) eqn:I; [|done].
    apply includes_true, inherited_lowercase_keys in I. by destruct I.
  Qed.

  (** For such a dialect the script is the one of the MySQL backend, and
      the call does not fail. *)
Lemma generateSQL_falls_back_to_mysql (h : Store.heap) (l : Store.loc)
      (dialect : string) (s : Schema.t) :
    Store.readSchema h l = Some s →
    JS.toLowerCase dialect ∉ supportedDialects →
    JS.toLowerCase dialect ≠ "constructor" →
    JS.toLowerCase dialect ≠ "__proto__" →
    (generateSQL mysql postgresql sqlite sqlserver format h l dialect).2
    = inl (render format dialect
             (statements mysql dialect s (SqlPreprocess.preprocessSchema s))).
  Proof.
    intros Hs H1 H2 H3.
    apply generateSQL_uses_rewritten_copy; [done|].
    by apply getDialectGenerator_fallback.
  Qed.

Lemma oracle_selects_mysql :
    getDialectGenerator mysql postgresql sqlite sqlserver "oracle" = Backend mysql.
  Proof. reflexivity. Qed.

Lemma constructor_selects_inherited :
    getDialectGenerator mysql postgresql sqlite sqlserver "constructor"
    = Inherited "constructor".
  Proof. reflexivity. Qed.

End Dispatch.

(** C6.  The dialect [constructor] is none of the four supported names, yet
    the lookup [generators[normalizedDialect]] finds the member of that name
    that every object inherits, the fall-back to MySQL is not taken, and the
    call of [headerComment] on the value found fails: [generateSQL] is
    rejected on account of the dialect, on every schema. *)
Theorem generateSQL_rejects_dialect_constructor
    (mysql postgresql sqlite sqlserver : SqlGenerator.Generator)
    (format : string → string → option string)
    (h : Store.heap) (l : Store.loc) (s : Schema.t) :
  Store.readSchema h l = Some s →
  (JS.toLowerCase "constructor" ∉ supportedDialects)
  ∧ SqlGenerator.generateSQL mysql postgresql sqlite sqlserver format h l "constructor"
    = (h, inr (SqlGenerator.NotAFunction "constructor" "headerComment")).
Proof.
  intros Hs. split.
  - vm_compute. intros H. repeat (apply elem_of_cons in H as [H|H]; [discriminate|]).
    by apply elem_of_nil in H.
  - unfold SqlGenerator.generateSQL. rewrite Hs. reflexivity.
Qed.

Lemma generateSQL_rejects_dialect_constructor_witness :
  (JS.toLowerCase "constructor" ∉ supportedDialects)
  ∧ SampleBackends.run "constructor"
    = (SampleBackends.store,
       inr (SqlGenerator.NotAFunction "constructor" "headerComment")).
Proof.
  apply (generateSQL_rejects_dialect_constructor _ _ _ _ _
           SampleBackends.store 3%positive SampleBackends.emptySchema).
  vm_compute. reflexivity.
Defined.

(** With the sample backends, [oracle] yields the script of the MySQL
    backend, unformatted because the formatter rejects the language. *)
Lemma oracle_uses_mysql_backend :
  (SampleBackends.run "oracle").2 = inl "-- mysql: shop".
Proof. vm_compute. reflexivity. Qed.

(** ** Arrays *)

Lemma find_app_Some {A} (p : A → bool) (l1 l2 : list A) (x : A) :
  Arr.find p l1 = Some x → Arr.find p (l1 ++ l2) = Some x.
Proof.
  induction l1 as [|a l1 IH]; simpl; [done|].
  destruct (p a); [done|]. apply IH.
Qed.

Lemma find_Some {A} (p : A → bool) (l : list A) (x : A) :
  Arr.find p l = Some x → x ∈ l ∧ p x = true.
Proof.
  induction l as [|a l IH]; simpl; [done|].
  destruct (p a) eqn:E.
  - intros [= ->]. split; [left|done].
  - intros H. destruct (IH H). split; [by right|done].
Qed.

Lemma some_false {A} (p : A → bool) (l : list A) :
  Arr.some p l = false ↔ Forall (λ x, p x = false) l.
Proof.
  unfold Arr.some. induction l as [|a l IH]; simpl.
  - split; [constructor|done].
  - rewrite orb_false_iff, IH, Forall_cons. done.
Qed.

Lemma some_app {A} (p : A → bool) (l1 l2 : list A) :
  Arr.some p (l1 ++ l2) = Arr.some p l1 || Arr.some p l2.
Proof. apply existsb_app. Qed.

(** The first element that satisfies [p] splits the array. *)
Lemma findIndex_Some {A} (p : A → bool) (l : list A) (i : nat) :
  Arr.findIndex p l = Some i →
  ∃ before x after,
    l = before ++ x :: after ∧ length before = i ∧ p x = true
    ∧ Forall (λ y, p y = false) before.
Proof.
  revert i. induction l as [|a l IH]; intros i; simpl; [done|].
  destruct (p a) eqn:E.
  - intros [= <-]. exists [], a, l. done.
  - destruct (Arr.findIndex p l) as [j|]; simpl; [|done].
    intros [= <-]. destruct (IH j eq_refl) as (b & x & af & -> & <- & Hx & Hb).
    exists (a :: b), x, af. repeat split; [done|]. by constructor.
Qed.

Lemma findIndex_None {A} (p : A → bool) (l : list A) :
  Arr.findIndex p l = None → Forall (λ y, p y = false) l.
Proof.
  induction l as [|a l IH]; simpl; [constructor|].
  destruct (p a) eqn:E; [done|].
  destruct (Arr.findIndex p l); simpl; [done|]. intros _. constructor; auto.
Qed.

Lemma findIndex_app_first {A} (p : A → bool) (before after : list A) (x : A) :
  Forall (λ y, p y = false) before → p x = true →
  Arr.findIndex p (before ++ x :: after) = Some (length before).
Proof.
  induction 1 as [|a l Ha Hl IH]; simpl; intros Hx.
  - by rewrite Hx.
  - rewrite Ha, IH by done. done.
Qed.

Lemma splice1_app {A} (before after : list A) (x a b : A) :
  Arr.splice1 (length before) a b (before ++ x :: after) = before ++ a :: b :: after.
Proof.
  unfold Arr.splice1.
  rewrite take_app_length.
  replace (S (length before)) with (length (before ++ [x])) by (rewrite length_app; simpl; lia).
  rewrite (cons_middle x before after), app_assoc, drop_app_length. done.
Qed.

(** An element outside [mid] of [A ++ mid ++ B] lies in [A] or in [B]. *)
Lemma split_after {A} (p : A → bool) (mid B0 before after : list A) (x : A) :
  mid ++ B0 = before ++ x :: after →
  Forall (λ m, p m = false) mid → p x = true →
  ∃ B1, B0 = B1 ++ x :: after ∧ before = mid ++ B1.
Proof.
  revert before. induction mid as [|m mid IH]; intros before E Hmid Hx.
  - exists before. done.
  - apply Forall_cons in Hmid as [Hm Hmid].
    destruct before as [|b before]; simpl in E.
    + injection E as -> _. congruence.
    + injection E as <- E. destruct (IH before E Hmid Hx) as (B1 & -> & ->).
      exists B1. done.
Qed.

Lemma split_around {A} (p : A → bool) (A0 mid B0 before after : list A) (x : A) :
  A0 ++ mid ++ B0 = before ++ x :: after →
  Forall (λ m, p m = false) mid → p x = true →
  (∃ A1, A0 = before ++ x :: A1 ∧ after = A1 ++ mid ++ B0)
  ∨ (∃ B1, B0 = B1 ++ x :: after ∧ before = A0 ++ mid ++ B1).
Proof.
  revert before. induction A0 as [|a A0 IH]; intros before E Hmid Hx.
  - right. simpl in *. by apply (split_after p).
  - destruct before as [|b before]; simpl in E.
    + injection E as -> <-. left. exists A0. done.
    + injection E as <- E.
      destruct (IH before E Hmid Hx) as [(A1 & -> & ->)|(B1 & -> & ->)].
      * left. exists A1. done.
      * right. exists B1. done.
Qed.

(** ** The junction-table rewrite *)

Section JunctionLoop.
  Import SchemaGenerator SqlPreprocess JunctionSpec.

Lemma optEqb_eq (a b : option string) : optEqb a b = true ↔ a = b.
  Proof.
    destruct a as [x|], b as [y|]; simpl; try (split; done).
    rewrite String.eqb_eq. split; congruence.
  Qed.

Lemma optStrEq_eq (o : option string) (s : string) :
    optStrEq o s = true ↔ o = Some s.
  Proof.
    destruct o as [x|]; simpl; [|split; done].
    rewrite String.eqb_eq. split; congruence.
  Qed.

Lemma sameManyToMany_name (r x : Relationship.t) :
    sameManyToMany r x = true →
    isManyToMany x = true ∧ junctionNameOf x = junctionNameOf r.
  Proof.
    unfold sameManyToMany. rewrite !andb_true_iff, !optEqb_eq.
    intros [[E1 E2] M]. split; [done|]. unfold junctionNameOf. by rewrite E1, E2.
  Qed.

Lemma sameManyToMany_refl (r : Relationship.t) :
    isManyToMany r = true → sameManyToMany r r = true.
  Proof.
    intros M. unfold sameManyToMany. rewrite M, !andb_true_r.
    apply andb_true_iff. split; by apply optEqb_eq.
  Qed.

Lemma found_tables_name (r : Relationship.t) (ts : list Table.t) (S T : Table.t) :
    Arr.find (tableNamed (Relationship.sourceTable r)) ts = Some S →
    Arr.find (tableNamed (Relationship.targetTable r)) ts = Some T →
    junctionNameOf r = Some (junctionTableName S T).
  Proof.
    intros HS HT. apply find_Some in HS as [_ HS], HT as [_ HT].
    apply optStrEq_eq in HS, HT. unfold junctionNameOf. by rewrite HS, HT.
  Qed.

Lemma filter_named_nil (J : string) (ts : list Table.t) :
    List.filter (named J) ts = [] ↔ Arr.some (named J) ts = false.
  Proof.
    unfold Arr.some. induction ts as [|t ts IH]; simpl; [done|].
    destruct (named J t); simpl; [split; done|done].
  Qed.

Lemma toJunction_not_many_to_many suffix r e t pk n :
    isManyToMany (toJunction suffix r e t pk n) = false.
  Proof. reflexivity. Qed.

  Variable base : list Table.t.
  Variable J : string.
  Variable post : list Relationship.t.

  (** A relationship that maps to another junction name leaves both
      invariants intact. *)
Lemma junctionStep_other (r' : Relationship.t)
      (mid : list Relationship.t) (extra ts : list Table.t)
      (rs : list Relationship.t) :
    junctionNameOf r' ≠ Some J →
    Forall (λ m, sameManyToMany r' m = false) mid →
    tablesInvariant base J extra ts → relationshipsInvariant J post mid rs →
    tablesInvariant base J extra (junctionStep (ts, rs) r').1
    ∧ relationshipsInvariant J post mid (junctionStep (ts, rs) r').2.
  Proof.
    intros Hname Hmid HT HR. unfold junctionStep.
    destruct (Arr.find _ ts) as [S'|] eqn:FS; [|done].
    destruct (Arr.find (tableNamed (Relationship.targetTable r')) ts)
      as [T'|] eqn:FT; [|done].
    destruct (Arr.some _ ts) eqn:Ex; [done|].
    pose proof (found_tables_name _ _ _ _ FS FT) as HJ.
    assert (junctionTableName S' T' ≠ J) as Hne by congruence.
    simpl. split.
    - destruct HT as (added & -> & Hf). exists (added ++ [junctionTable r' S' T'
        (primaryKeyOr (bareIdColumn (Some "INTEGER")) S')
        (primaryKeyOr (bareIdColumn (Some "INTEGER")) T')]).
      split; [by rewrite app_assoc|].
      rewrite List.filter_app, Hf. simpl. unfold named at 1. simpl.
      destruct (String.eqb_spec (junctionTableName S' T') J); [done|].
      by rewrite app_nil_r.
    - destruct HR as (A & B & -> & HA & HB).
      set (a := toJunction "_source" _ _ _ _ _).
      set (b := toJunction "_target" _ _ _ _ _).
      destruct (Arr.findIndex _ _) as [i|] eqn:FI.
      + apply findIndex_Some in FI as (before & x & after & E & <- & Hx & _).
        rewrite E, splice1_app.
        destruct (split_around _ _ _ _ _ _ _ E Hmid Hx)
          as [(A1 & -> & ->)|(B1 & -> & ->)].
        * exists (before ++ a :: b :: A1), B. split.
          { by rewrite <- !app_assoc. }
          split; [|done].
          intros y Hy My. apply HA; [|done].
          rewrite !elem_of_app, !elem_of_cons in Hy.
          rewrite !elem_of_app, !elem_of_cons.
          destruct Hy as [Hy|[->|[->|Hy]]]; try done; auto.
        * exists A, (B1 ++ a :: b :: after). split.
          { by rewrite <- !app_assoc. }
          split; [done|].
          intros y Hy.
          rewrite !elem_of_app, !elem_of_cons in Hy.
          destruct Hy as [Hy|[->|[->|Hy]]]; try (by right);
            apply HB; rewrite !elem_of_app, !elem_of_cons; auto.
      + exists A, (B ++ [a; b]). split.
        { by rewrite <- !app_assoc. }
        split; [done|].
        intros y Hy.
        rewrite !elem_of_app, !elem_of_cons in Hy.
        destruct Hy as [Hy|[->|[->|Hy]]]; try (by right); [by apply HB|].
        by apply elem_of_nil in Hy.
  Qed.

  (** Once a table of the name [J] is there, a relationship that maps to
      [J] is skipped. *)
Lemma junctionStep_skipped (r' : Relationship.t) (jt : Table.t)
      (extra ts : list Table.t) (rs : list Relationship.t) :
    junctionNameOf r' = Some J →
    tablesInvariant base J (jt :: extra) ts →
    junctionStep (ts, rs) r' = (ts, rs).
  Proof.
    intros Hname (added & -> & Hf). unfold junctionStep.
    destruct (Arr.find _ _) as [S'|] eqn:FS; [|done].
    destruct (Arr.find (tableNamed (Relationship.targetTable r')) _)
      as [T'|] eqn:FT; [|done].
    pose proof (found_tables_name _ _ _ _ FS FT) as HJ.
    assert (junctionTableName S' T' = J) as -> by congruence.
    change (λ t : Table.t, String.eqb (Table.name t) J) with (named J).
    rewrite some_app.
    assert (Arr.some (named J) added = true) as ->; [|by rewrite orb_true_r].
    destruct (Arr.some (named J) added) eqn:E; [done|].
    apply filter_named_nil in E. congruence.
  Qed.

Lemma junctionLoop_other (ms mid : list Relationship.t) (extra : list Table.t) :
    Forall (λ r', junctionNameOf r' ≠ Some J ∨ extra ≠ []) ms →
    (∀ r', junctionNameOf r' ≠ Some J → Forall (λ m, sameManyToMany r' m = false) mid) →
    ∀ ts rs,
      tablesInvariant base J extra ts → relationshipsInvariant J post mid rs →
      tablesInvariant base J extra (foldl junctionStep (ts, rs) ms).1
      ∧ relationshipsInvariant J post mid (foldl junctionStep (ts, rs) ms).2.
  Proof.
    intros Hms Hmid. induction Hms as [|r' ms Hr' _ IH]; intros ts rs HT HR.
    { done. }
    rewrite foldl_cons_eq.
    destruct (decide (junctionNameOf r' = Some J)) as [Eq|Hne].
    - destruct Hr' as [Hr'|Hr']; [done|].
      destruct extra as [|jt extra']; [done|].
      rewrite (junctionStep_skipped r' jt extra' ts rs Eq HT). by apply IH.
    - destruct (junctionStep_other r' mid extra ts rs Hne (Hmid r' Hne) HT HR)
        as [HT' HR'].
      destruct (junctionStep (ts, rs) r') as [ts' rs']. by apply IH.
  Qed.

  (** The relationship that maps to [J], when no table is named [J] yet. *)
Lemma junctionStep_self (r : Relationship.t) (S T : Table.t)
      (ts : list Table.t) (rs : list Relationship.t) :
    Arr.find (tableNamed (Relationship.sourceTable r)) base = Some S →
    Arr.find (tableNamed (Relationship.targetTable r)) base = Some T →
    J = junctionTableName S T →
    isManyToMany r = true →
    Arr.some (named J) base = false →
    tablesInvariant base J [] ts → relationshipsInvariant J post [r] rs →
    tablesInvariant base J
      [junctionTable r S T (primaryKeyOf S) (primaryKeyOf T)]
      (junctionStep (ts, rs) r).1
    ∧ relationshipsInvariant J post
        [toJunction "_source" r (Relationship.sourceEntity r) S (primaryKeyOf S) J;
         toJunction "_target" r (Relationship.targetEntity r) T (primaryKeyOf T) J]
        (junctionStep (ts, rs) r).2.
  Proof.
    intros FS FT EJ M Hbase (added & -> & Hf) (A & B & -> & HA & HB).
    pose proof (found_tables_name _ _ _ _ FS FT) as HJ. rewrite <- EJ in HJ.
    unfold junctionStep.
    rewrite (find_app_Some _ _ added _ FS), (find_app_Some _ _ added _ FT).
    rewrite <- EJ.
    change (λ t : Table.t, String.eqb (Table.name t) J) with (named J).
    rewrite some_app, Hbase. apply filter_named_nil in Hf. rewrite Hf. simpl.
    fold (primaryKeyOf S). fold (primaryKeyOf T).
    rewrite findIndex_app_first.
    - rewrite splice1_app. split.
      + eexists. split; [by rewrite <- app_assoc|].
        rewrite List.filter_app. apply filter_named_nil in Hf. rewrite Hf. simpl.
        unfold named at 1. simpl. rewrite <- EJ, String.eqb_refl. done.
      + exists A, B. split; [done|]. done.
    - apply Forall_forall. intros y Hy.
      destruct (sameManyToMany r y) eqn:E; [|done].
      apply sameManyToMany_name in E as [My Ny]. exfalso.
      apply (HA y); [done|done|congruence].
    - by apply sameManyToMany_refl.
  Qed.

End JunctionLoop.

Lemma junction_attribute_columns_not_keys (attrs : list RelAttr.t) :
  List.filter Column.isPrimaryKey (SqlPreprocess.junctionAttributeColumn <$> attrs) = [].
Proof. induction attrs as [|a attrs IH]; [done|]. csimpl. exact IH. Qed.

Lemma junctionTable_primaryKeyGroup r S T pkS pkT :
  JunctionSpec.primaryKeyGroup (SqlPreprocess.junctionTable r S T pkS pkT)
  = [SqlPreprocess.junctionKeyColumn S pkS; SqlPreprocess.junctionKeyColumn T pkT].
Proof.
  unfold JunctionSpec.primaryKeyGroup. simpl.
  rewrite List.filter_app, junction_attribute_columns_not_keys. done.
Qed.

Lemma filter_many_to_many_other (J : string) (l : list Relationship.t) :
  (∀ r', r' ∈ l → SqlPreprocess.isManyToMany r' = true →
         JunctionSpec.junctionNameOf r' ≠ Some J) →
  Forall (λ r', JunctionSpec.junctionNameOf r' ≠ Some J)
    (List.filter SqlPreprocess.isManyToMany l).
Proof.
  intros H. apply Forall_forall. intros x Hx.
  apply list_elem_of_In, List.filter_In in Hx as [Hx Mx].
  apply H; [by apply list_elem_of_In|done].
Qed.

Lemma find_is_find {A} (p : A → bool) (l : list A) : Arr.find p l = List.find p l.
Proof. induction l as [|x l IH]; [done|]. simpl. by rewrite IH. Qed.

(** The key column of a junction table is a foreign key to the primary key
    of its table, and the relationship made for one end of a many-to-many
    relationship is a one-to-many relationship to the junction table. *)
Lemma junctionKeyColumn_foreignKeyTo (t : Table.t) :
  JunctionSpec.foreignKeyTo t
    (SqlPreprocess.junctionKeyColumn t (JunctionSpec.primaryKeyOf t)).
Proof.
  unfold JunctionSpec.foreignKeyTo, JunctionSpec.keyName, JunctionSpec.keyType,
    JunctionSpec.primaryKeyOf, SchemaGenerator.primaryKeyOr.
  rewrite find_is_find.
  destruct (List.find Column.isPrimaryKey (Table.columns t)); by repeat split.
Qed.

Lemma toJunction_oneToManyInto suffix r e (t : Table.t) (J : string) :
  JunctionSpec.oneToManyInto J t
    (SqlPreprocess.toJunction suffix r e t (JunctionSpec.primaryKeyOf t) J).
Proof.
  unfold JunctionSpec.oneToManyInto, JunctionSpec.keyName,
    JunctionSpec.primaryKeyOf, SchemaGenerator.primaryKeyOr.
  rewrite find_is_find.
  destruct (List.find Column.isPrimaryKey (Table.columns t)); by repeat split.
Qed.

Lemma isManyToMany_type (x : Relationship.t) :
  SqlPreprocess.isManyToMany x = true ↔ Relationship.type x = Some "MANY_TO_MANY".
Proof. apply optStrEq_eq. Qed.

(** C1 (as amended).  A many-to-many relationship [r] between two tables
    [S] and [T] of a schema is rewritten by the preprocessing of SQL
    generation, provided that no table of the schema already has the
    junction name and that no many-to-many relationship before [r] in the
    schema maps to this name.  Exactly one table of that name results, a
    junction table whose primary key is the pair of the foreign key to the
    primary key of [S] and the foreign key to the primary key of [T]: two
    columns that are named after the table and its key, are not nullable
    and refer to that key with cascading deletes and updates.  The tables of
    the schema are kept unchanged, so that no foreign key is added to [S]
    or [T].  In the place of [r] there are two relationships of type
    ONE_TO_MANY, from [S] and from [T] to the junction table.  A later
    many-to-many relationship on the same pair of tables does not prevent
    this: it is the first one that is rewritten. *)
Theorem many_to_many_becomes_junction_table
    (schema : Schema.t) (r : Relationship.t) (S T : Table.t)
    (pre post : list Relationship.t) :
  Schema.relationships schema = pre ++ r :: post →
  Relationship.type r = Some "MANY_TO_MANY" →
  Arr.find (SqlPreprocess.tableNamed (Relationship.sourceTable r))
    (Schema.tables schema) = Some S →
  Arr.find (SqlPreprocess.tableNamed (Relationship.targetTable r))
    (Schema.tables schema) = Some T →
  (∀ t, t ∈ Schema.tables schema →
        Table.name t ≠ Table.name S +:+ "_" +:+ Table.name T) →
  (∀ r', r' ∈ pre → Relationship.type r' = Some "MANY_TO_MANY" →
         JunctionSpec.junctionNameOf r'
         ≠ Some (Table.name S +:+ "_" +:+ Table.name T)) →
  JunctionSpec.rewritten schema r post S T.
Proof.
  intros Hrels M%isManyToMany_type FS FT Hbase Hother.
  change (Table.name S +:+ "_" +:+ Table.name T)
    with (SqlPreprocess.junctionTableName S T) in *.
  set (J := SqlPreprocess.junctionTableName S T) in *.
  set (base := Schema.tables schema) in *.
  assert (Hbase' : Arr.some (JunctionSpec.named J) base = false).
  { apply filter_named_nil.
    destruct (List.filter (JunctionSpec.named J) base) as [|t l] eqn:E; [done|].
    assert (In t (List.filter (JunctionSpec.named J) base)) as Hin
      by (rewrite E; by left).
    apply List.filter_In in Hin as [Hin Hn]. apply String.eqb_eq in Hn.
    by apply list_elem_of_In, Hbase in Hin. }
  pose proof (found_tables_name _ _ _ _ FS FT) as HJ. fold J in HJ.
  assert (Hmid1 : ∀ r', JunctionSpec.junctionNameOf r' ≠ Some J →
                        Forall (λ m, SqlPreprocess.sameManyToMany r' m = false) [r]).
  { intros r' Hr'. constructor; [|constructor].
    destruct (SqlPreprocess.sameManyToMany r' r) eqn:E; [|done].
    apply sameManyToMany_name in E as [_ E]. congruence. }
  unfold JunctionSpec.rewritten, SqlPreprocess.preprocessSchema. cbv zeta.
  cbn [Schema.tables Schema.relationships SqlPreprocess.withArrays].
  fold base.
  change (Table.name S +:+ "_" +:+ Table.name T) with J.
  rewrite Hrels, List.filter_app. cbn [List.filter]. rewrite M.
  rewrite foldl_app, foldl_cons_eq.
  (* before r *)
  destruct (junctionLoop_other base J post
              (List.filter SqlPreprocess.isManyToMany pre) [r] []
              ltac:(eapply Forall_impl;
                    [apply (filter_many_to_many_other J pre);
                     intros r' Hr' Mr'; apply Hother;
                     [done|by apply isManyToMany_type]
                    |intros; by left])
              Hmid1 base (pre ++ r :: post))
    as [HT1 HR1].
  { exists []. by rewrite app_nil_r. }
  { exists pre, post. split; [done|]. split.
    - intros x Hx Mx. apply Hother; [done|by apply isManyToMany_type].
    - intros x Hx. by left. }
  destruct (foldl SqlPreprocess.junctionStep (base, pre ++ r :: post) _)
    as [ts1 rs1]. cbn [fst snd] in HT1, HR1.
  (* r itself *)
  destruct (junctionStep_self base J post r S T ts1 rs1 FS FT eq_refl M Hbase' HT1 HR1)
    as [HT2 HR2].
  destruct (SqlPreprocess.junctionStep (ts1, rs1) r) as [ts2 rs2].
  cbn [fst snd] in HT2, HR2.
  (* after r *)
  assert (Hmid2 : ∀ r', JunctionSpec.junctionNameOf r' ≠ Some J →
            Forall (λ m, SqlPreprocess.sameManyToMany r' m = false)
              [SqlPreprocess.toJunction "_source" r (Relationship.sourceEntity r) S
                 (JunctionSpec.primaryKeyOf S) J;
               SqlPreprocess.toJunction "_target" r (Relationship.targetEntity r) T
                 (JunctionSpec.primaryKeyOf T) J]).
  { intros r' _. repeat constructor; unfold SqlPreprocess.sameManyToMany;
      apply andb_false_r. }
  destruct (junctionLoop_other base J post
              (List.filter SqlPreprocess.isManyToMany post) _
              [SqlPreprocess.junctionTable r S T (JunctionSpec.primaryKeyOf S)
                 (JunctionSpec.primaryKeyOf T)]
              ltac:(apply Forall_forall; intros; by right)
              Hmid2 ts2 rs2 HT2 HR2)
    as [(added & Hts & Hadded) (A & B & Hrs & HA & HB)].
  rewrite Hts, Hrs. cbn [fst snd].
  assert (HrA : r ∉ A).
  { intros Hr. by apply (HA r Hr M). }
  split; [|split; [|split]].
  - eexists _, _, _. split; [|split; [|split; [|split]]].
    + rewrite List.filter_app, Hadded.
      apply filter_named_nil in Hbase'. rewrite Hbase'. reflexivity.
    + reflexivity.
    + apply junctionTable_primaryKeyGroup.
    + apply junctionKeyColumn_foreignKeyTo.
    + apply junctionKeyColumn_foreignKeyTo.
  - by exists added.
  - eexists A, _, _, B. split; [reflexivity|].
    split; [apply toJunction_oneToManyInto|].
    split; [apply toJunction_oneToManyInto|].
    split; [done|exact HB].
  - intros Hpost Hr. rewrite !elem_of_app, !elem_of_cons in Hr.
    destruct Hr as [Hr|[[E|[E|Hr]]|Hr]].
    + done.
    + by rewrite E in M.
    + by rewrite E in M.
    + by apply elem_of_nil in Hr.
    + destruct (HB r Hr) as [?|E]; [done|].
      apply isManyToMany_type in M. congruence.
Qed.

(** Of two many-to-many relationships between Student and Course it is the
    first that is rewritten; the second stays in the working copy. *)
Lemma many_to_many_becomes_junction_table_witness :
  JunctionSpec.rewritten
    (JunctionSpec.schemaOf [JunctionSpec.student; JunctionSpec.course]
       [JunctionSpec.enrolment; JunctionSpec.enrolment])
    JunctionSpec.enrolment [JunctionSpec.enrolment]
    JunctionSpec.student JunctionSpec.course
  ∧ JunctionSpec.enrolment
    ∈ Schema.relationships
        (SqlPreprocess.preprocessSchema
           (JunctionSpec.schemaOf [JunctionSpec.student; JunctionSpec.course]
              [JunctionSpec.enrolment; JunctionSpec.enrolment])).
Proof.
  split.
  - apply (many_to_many_becomes_junction_table _ _ _ _ [] [JunctionSpec.enrolment]);
      try reflexivity.
    + intros t Ht. cbn in Ht.
      repeat (apply elem_of_cons in Ht as [->|Ht]; [by vm_compute|]).
      by apply elem_of_nil in Ht.
    + intros r' Hr'. by apply elem_of_nil in Hr'.
  - vm_compute. right. right. left.
Defined.

(** C1 as stated fails when an entity already occupies the junction name:
    the guard of the loop then skips the relationship, which stays in the
    working copy, and the table of that name is not a junction table. *)
Lemma junction_name_clash_blocks_rewrite :
  JunctionSpec.manyToManyBetween JunctionSpec.schoolWithClash
    JunctionSpec.enrolment JunctionSpec.student JunctionSpec.course
  ∧ ¬ JunctionSpec.rewritten JunctionSpec.schoolWithClash
        JunctionSpec.enrolment [] JunctionSpec.student JunctionSpec.course
  ∧ JunctionSpec.enrolment
    ∈ Schema.relationships
        (SqlPreprocess.preprocessSchema JunctionSpec.schoolWithClash)
  ∧ List.filter (JunctionSpec.named "student_course")
      (Schema.tables (SqlPreprocess.preprocessSchema JunctionSpec.schoolWithClash))
    = [JunctionSpec.plainTable "student_course"].
Proof.
  split; [|split; [|split]].
  - repeat split. unfold JunctionSpec.schoolWithClash. simpl. left.
  - intros (_ & _ & _ & Hr). apply Hr; [by intros ?%elem_of_nil|].
    vm_compute. left.
  - vm_compute. left.
  - by vm_compute.
Qed.

(** The normaliser adds no foreign key for a many-to-many relationship. *)
Lemma setupForeignKeys_many_to_many (relationship : RelIn.t) (si ti : nat)
    (S T : Table.t) (sc tc : Column.t) (tables : list Table.t) (ty : string) :
  RelIn.type relationship = Some ty →
  JS.toUpperCase ty = "MANY_TO_MANY" →
  (SchemaGenerator.setupForeignKeys relationship si ti S T sc tc tables).2 = tables.
Proof.
  intros Hty Hup. unfold SchemaGenerator.setupForeignKeys.
  assert (JS.truthy (RelIn.type relationship) = true) as ->.
  { rewrite Hty. simpl. destruct (String.eqb_spec ty ""); [by subst|done]. }
  rewrite Hty. simpl. rewrite Hup. reflexivity.
Qed.

(** ** Documentation: the two formats render the same content *)

Section DocumentationContent.
  Import Documentation DocumentationSpec.
  Variable formatDate : option string → string.
  Variable now : string.

Lemma shown_truthy (o : option string) :
  bool_decide (is_Some (shown o)) = JS.truthy o
  ∧ (JS.truthy o = true → default "" (shown o) = tmpl o).
Proof.
  unfold shown. destruct (JS.truthy o) eqn:E.
  - destruct o as [s|]; [|done]. split; [|done].
    apply bool_decide_eq_true. by eexists.
  - split; [|done]. apply bool_decide_eq_false. by intros [? ?].
Qed.

Lemma md_columns (cols : list Column.t) :
  mdColumnRow <$> cols = renderMdColumn <$> (columnFact <$> cols).
Proof. by rewrite <- list_fmap_compose. Qed.

Lemma html_columns (cols : list Column.t) :
  htmlColumnRow <$> cols = renderHtmlColumn <$> (columnFact <$> cols).
Proof. by rewrite <- list_fmap_compose. Qed.

Lemma filter_cons_eq {A} (p : A → bool) (x : A) (l : list A) :
  List.filter p (x :: l) = if p x then x :: List.filter p l else List.filter p l.
Proof. reflexivity. Qed.

Lemma omap_cons_eq {A B} (f : A → option B) (x : A) (l : list A) :
  omap f (x :: l) = match f x with Some y => y :: omap f l | None => omap f l end.
Proof. reflexivity. Qed.

Lemma referenceFact_cases (c : Column.t) :
  (Column.isForeignKey c && bool_decide (is_Some (Column.references c)) = false
   ∧ referenceFact c = None)
  ∨ (∃ ref fact,
       Column.isForeignKey c && bool_decide (is_Some (Column.references c)) = true
       ∧ Column.references c = Some ref
       ∧ referenceFact c = Some fact
       ∧ mdReferenceRow c = renderMdReference fact
       ∧ htmlReferenceRow c = renderHtmlReference fact).
Proof.
  unfold referenceFact, mdReferenceRow, htmlReferenceRow.
  destruct (Column.isForeignKey c); [|by left].
  destruct (Column.references c) as [ref|].
  - right. eexists _, _. split; [|split; [|split; [|split]]].
    + apply andb_true_iff. split; [done|]. apply bool_decide_eq_true. by eexists.
    + reflexivity.
    + reflexivity.
    + reflexivity.
    + reflexivity.
  - left. split; [|done]. apply andb_false_iff. right.
    apply bool_decide_eq_false. by intros [? ?].
Qed.

Lemma md_references (cols : list Column.t) :
  mdReferenceRow
    <$> List.filter (λ col, Column.isForeignKey col
                            && bool_decide (is_Some (Column.references col))) cols
  = renderMdReference <$> omap referenceFact cols.
Proof.
  induction cols as [|c cols IH]; [done|].
  rewrite filter_cons_eq, omap_cons_eq.
  destruct (referenceFact_cases c) as [[-> ->]|(ref & fact & -> & _ & -> & E & _)].
  - exact IH.
  - rewrite !fmap_cons, IH, E. done.
Qed.

Lemma html_references (cols : list Column.t) :
  htmlReferenceRow
    <$> List.filter (λ col, Column.isForeignKey col
                            && bool_decide (is_Some (Column.references col))) cols
  = renderHtmlReference <$> omap referenceFact cols.
Proof.
  induction cols as [|c cols IH]; [done|].
  rewrite filter_cons_eq, omap_cons_eq.
  destruct (referenceFact_cases c) as [[-> ->]|(ref & fact & -> & _ & -> & _ & E)].
  - exact IH.
  - rewrite !fmap_cons, IH, E. done.
Qed.

Lemma references_present (cols : list Column.t) :
  (0 <? length (List.filter (λ col, Column.isForeignKey col
                  && bool_decide (is_Some (Column.references col))) cols))
  = negb (bool_decide (omap referenceFact cols = [])).
Proof.
  rewrite <- (length_fmap mdReferenceRow), md_references, length_fmap.
  destruct (omap referenceFact cols); done.
Qed.

Lemma md_table (table : Table.t) :
  mdTable table = renderMdTable (tableFact table).
Proof.
  unfold mdTable, renderMdTable, tableFact, foreignKeyColumns. cbn [tName tDescription tEntityType tColumns tReferences].
  destruct (shown_truthy (Table.description table)) as [-> Hd].
  rewrite md_columns, md_references, references_present.
  unfold entityTypeOf, mdEntityType.
  destruct (JS.truthy (Table.description table)); [rewrite Hd by done|];
    destruct (Table.isWeakEntity table), (Table.isLookupTable table); reflexivity.
Qed.

Lemma html_table (table : Table.t) :
  htmlTable table = renderHtmlTable (tableFact table).
Proof.
  unfold htmlTable, renderHtmlTable, tableFact, foreignKeyColumns. cbn [tName tDescription tEntityType tColumns tReferences].
  destruct (shown_truthy (Table.description table)) as [-> Hd].
  rewrite html_columns, html_references, references_present.
  unfold entityTypeOf, htmlEntityClass, htmlEntityBadge.
  destruct (bool_decide (omap referenceFact (Table.columns table) = [])); cbn [negb];
  (destruct (JS.truthy (Table.description table)); [rewrite Hd by done|];
    destruct (Table.isWeakEntity table), (Table.isLookupTable table); reflexivity).
Qed.

Lemma attributeGroupFact_cases (r : Relationship.t) :
  (hasAttributes r = false ∧ attributeGroupFact r = None)
  ∨ (∃ group,
       hasAttributes r = true
       ∧ attributeGroupFact r = Some group
       ∧ mdRelationshipAttributes r = renderMdAttributeGroup group
       ∧ htmlRelationshipAttributes r = renderHtmlAttributeGroup group).
Proof.
  unfold hasAttributes, attributeGroupFact, mdRelationshipAttributes,
    htmlRelationshipAttributes.
  destruct (Relationship.attributes r) as [[|a attrs]|]; [by left| |by left].
  right. eexists. repeat split.
  - unfold renderMdAttributeGroup. cbn [raName raSource raTarget raRows default].
    by rewrite <- list_fmap_compose.
  - unfold renderHtmlAttributeGroup. cbn [raName raSource raTarget raRows default].
    by rewrite <- list_fmap_compose.
Qed.

Lemma md_attribute_groups (rels : list Relationship.t) :
  mdRelationshipAttributes <$> List.filter hasAttributes rels
  = renderMdAttributeGroup <$> omap attributeGroupFact rels.
Proof.
  induction rels as [|r rels IH]; [done|].
  rewrite filter_cons_eq, omap_cons_eq.
  destruct (attributeGroupFact_cases r) as [[-> ->]|(group & -> & -> & E & _)].
  - exact IH.
  - rewrite !fmap_cons, IH, E. done.
Qed.

Lemma html_attribute_groups (rels : list Relationship.t) :
  htmlRelationshipAttributes <$> List.filter hasAttributes rels
  = renderHtmlAttributeGroup <$> omap attributeGroupFact rels.
Proof.
  induction rels as [|r rels IH]; [done|].
  rewrite filter_cons_eq, omap_cons_eq.
  destruct (attributeGroupFact_cases r) as [[-> ->]|(group & -> & -> & _ & E)].
  - exact IH.
  - rewrite !fmap_cons, IH, E. done.
Qed.

Lemma attribute_groups_present (rels : list Relationship.t) :
  (0 <? length (List.filter hasAttributes rels))
  = negb (bool_decide (omap attributeGroupFact rels = [])).
Proof.
  rewrite <- (length_fmap mdRelationshipAttributes), md_attribute_groups, length_fmap.
  destruct (omap attributeGroupFact rels); done.
Qed.

Lemma md_document (schema : Schema.t) :
  generateMarkdownDocumentation formatDate schema
  = renderMarkdown (facts formatDate schema).
Proof.
  unfold generateMarkdownDocumentation, renderMarkdown, facts.
  cbn [schemaName schemaDescription tableFacts relationshipFacts
       attributeGroupFacts createdAt updatedAt version].
  destruct (shown_truthy (Schema.description schema)) as [-> Hd].
  rewrite !length_fmap, md_attribute_groups, attribute_groups_present.
  rewrite <- !list_fmap_compose.
  rewrite (list_fmap_ext mdTable (renderMdTable ∘ tableFact) (Schema.tables schema))
    by (intros; apply md_table).
  destruct (JS.truthy (Schema.description schema)); [rewrite Hd by done|]; reflexivity.
Qed.

Lemma html_document (schema : Schema.t) :
  generateHtmlDocumentation formatDate now schema
  = renderHtml (formatDate (Some now)) (facts formatDate schema).
Proof.
  unfold generateHtmlDocumentation, renderHtml, facts.
  cbn [schemaName schemaDescription tableFacts relationshipFacts
       attributeGroupFacts createdAt updatedAt version].
  destruct (shown_truthy (Schema.description schema)) as [-> Hd].
  rewrite !length_fmap, html_attribute_groups, attribute_groups_present.
  rewrite <- !list_fmap_compose.
  rewrite (list_fmap_ext htmlTable (renderHtmlTable ∘ tableFact) (Schema.tables schema))
    by (intros; apply html_table).
  destruct (bool_decide (omap attributeGroupFact (Schema.relationships schema) = []));
    cbn [negb];
    (destruct (JS.truthy (Schema.description schema)); [rewrite Hd by done|]; reflexivity).
Qed.

End DocumentationContent.

Section Occurrences.
  Import Documentation DocumentationSpec.

Lemma string_app_assoc (a b c : string) : (a +:+ b) +:+ c = a +:+ (b +:+ c).
Proof.
  induction a as [|x a IH]; [done|].
  change (String x ((a +:+ b) +:+ c) = String x (a +:+ (b +:+ c))).
  by rewrite IH.
Qed.

Lemma string_app_nil_r (a : string) : a +:+ "" = a.
Proof.
  induction a as [|x a IH]; [done|].
  change (String x (a +:+ "") = String x a). by rewrite IH.
Qed.

Lemma occursIn_refl (a : string) : occursIn a a.
Proof. exists "", "". by rewrite string_app_nil_r. Qed.

Lemma occursIn_app_l (p a b : string) : occursIn p a → occursIn p (a +:+ b).
Proof.
  intros (x & y & ->). exists x, (y +:+ b). by rewrite !string_app_assoc.
Qed.

Lemma occursIn_app_r (p a b : string) : occursIn p b → occursIn p (a +:+ b).
Proof.
  intros (x & y & ->). exists (a +:+ x), y. by rewrite !string_app_assoc.
Qed.

Lemma occursIn_trans (p q w : string) : occursIn p q → occursIn q w → occursIn p w.
Proof.
  intros (x & y & ->) (x' & y' & ->).
  exists (x' +:+ x), (y +:+ y'). by rewrite !string_app_assoc.
Qed.

Lemma occursIn_concat (sep p x : string) (l : list string) :
  x ∈ l → occursIn p x → occursIn p (String.concat sep l).
Proof.
  intros Hx Hp. induction l as [|a l IH]; [by apply elem_of_nil in Hx|].
  apply elem_of_cons in Hx as [<-|Hx].
  - destruct l as [|b l]; [done|].
    change (String.concat sep (x :: b :: l))
      with (x +:+ sep +:+ String.concat sep (b :: l)).
    by apply occursIn_app_l.
  - destruct l as [|b l]; [by apply elem_of_nil in Hx|].
    change (String.concat sep (a :: b :: l))
      with (a +:+ sep +:+ String.concat sep (b :: l)).
    apply occursIn_app_r, occursIn_app_r. by apply IH.
Qed.

Lemma occursIn_joined (sep p x : string) (l : list string) :
  x ∈ l → occursIn p x → occursIn p (joined sep l).
Proof.
  intros Hx Hp. induction l as [|a l IH]; [by apply elem_of_nil in Hx|].
  apply elem_of_cons in Hx as [<-|Hx].
  - destruct l as [|b l]; [done|].
    change (joined sep (x :: b :: l)) with (x +:+ sep +:+ joined sep (b :: l)).
    by apply occursIn_app_l.
  - destruct l as [|b l]; [by apply elem_of_nil in Hx|].
    change (joined sep (a :: b :: l)) with (a +:+ sep +:+ joined sep (b :: l)).
    apply occursIn_app_r, occursIn_app_r. by apply IH.
Qed.

(** A row of a list of rows occurs in the list as a page shows it: indented
    and joined. *)
Lemma occursIn_rows {A} (render : A → string) (indent sep : string)
    (rows : list A) (row : A) :
  row ∈ rows →
  occursIn (render row) (indent +:+ joined sep (render <$> rows)).
Proof.
  intros H. apply occursIn_app_r.
  apply (occursIn_joined sep _ (render row)); [|apply occursIn_refl].
  by apply list_elem_of_fmap_2.
Qed.

Lemma occursIn_blocks {A} (render : A → string) (blocks : list A) (block : A) :
  block ∈ blocks →
  occursIn (render block) (String.concat "" (render <$> blocks)).
Proof.
  intros H. apply (occursIn_concat "" _ (render block)); [|apply occursIn_refl].
  by apply list_elem_of_fmap_2.
Qed.

Lemma occursIn_lines (p x : string) (l : list string) :
  x ∈ l → occursIn p x → occursIn p (lines l).
Proof. apply occursIn_joined. Qed.

(** The search for a part in a text that is a chain of pieces: [tac] proves
    that the part occurs in the right piece. *)
Ltac occurs_in_piece tac :=
  first [ solve [tac]
        | apply occursIn_app_l; occurs_in_piece tac
        | apply occursIn_app_r; occurs_in_piece tac ].

Lemma elem_not_nil {A} (x : A) (l : list A) : x ∈ l → l ≠ [].
Proof. intros H E. rewrite E in H. by apply elem_of_nil in H. Qed.

(** *** Rows in their blocks *)

Lemma md_column_in_table (t : TableFact) (c : ColumnFact) :
  c ∈ tColumns t → occursIn (renderMdColumn c) (renderMdTable t).
Proof.
  intros H. unfold renderMdTable.
  occurs_in_piece ltac:(by apply (occursIn_blocks renderMdColumn)).
Qed.

Lemma md_reference_in_table (t : TableFact) (f : ReferenceFact) :
  f ∈ tReferences t → occursIn (renderMdReference f) (renderMdTable t).
Proof.
  intros H. unfold renderMdTable.
  rewrite (bool_decide_eq_false_2 _ (elem_not_nil _ _ H)).
  cbn [negb].
  occurs_in_piece ltac:(by apply (occursIn_blocks renderMdReference)).
Qed.

Lemma elem_of_middle {A} (x : A) (l1 l2 : list A) : x ∈ l1 ++ x :: l2.
Proof. apply elem_of_app. right. by left. Qed.

Lemma html_column_in_table (t : TableFact) (c : ColumnFact) :
  c ∈ tColumns t → occursIn (renderHtmlColumn c) (renderHtmlTable t).
Proof.
  intros H. unfold renderHtmlTable.
  apply occursIn_app_l.
  eapply occursIn_lines;
    [rewrite app_assoc; apply elem_of_middle
    |by apply (occursIn_rows renderHtmlColumn)].
Qed.

Lemma html_reference_in_table (t : TableFact) (f : ReferenceFact) :
  f ∈ tReferences t → occursIn (renderHtmlReference f) (renderHtmlTable t).
Proof.
  intros H. unfold renderHtmlTable.
  rewrite (bool_decide_eq_false_2 _ (elem_not_nil _ _ H)).
  apply occursIn_app_r, occursIn_app_l.
  eapply occursIn_lines;
    [rewrite app_assoc; apply elem_of_middle
    |by apply (occursIn_rows renderHtmlReference)].
Qed.

Lemma md_attribute_in_group (g : AttributeGroupFact) (a : AttributeFact) :
  a ∈ raRows g → occursIn (renderMdAttribute a) (renderMdAttributeGroup g).
Proof.
  intros H. unfold renderMdAttributeGroup.
  occurs_in_piece ltac:(by apply (occursIn_blocks renderMdAttribute)).
Qed.

Lemma html_attribute_in_group (g : AttributeGroupFact) (a : AttributeFact) :
  a ∈ raRows g → occursIn (renderHtmlAttribute a) (renderHtmlAttributeGroup g).
Proof.
  intros H. unfold renderHtmlAttributeGroup.
  eapply occursIn_lines;
    [rewrite app_assoc; apply elem_of_middle
    |by apply (occursIn_rows renderHtmlAttribute)].
Qed.

(** *** Blocks and rows in the documents *)

Lemma md_table_in_document (content : Facts) (t : TableFact) :
  t ∈ tableFacts content → occursIn (renderMdTable t) (renderMarkdown content).
Proof.
  intros H. unfold renderMarkdown.
  occurs_in_piece ltac:(by apply (occursIn_blocks renderMdTable)).
Qed.

Lemma md_relationship_in_document (content : Facts) (r : RelationshipFact) :
  r ∈ relationshipFacts content →
  occursIn (renderMdRelationship r) (renderMarkdown content).
Proof.
  intros H. unfold renderMarkdown.
  occurs_in_piece ltac:(by apply (occursIn_blocks renderMdRelationship)).
Qed.

Lemma md_group_in_document (content : Facts) (g : AttributeGroupFact) :
  g ∈ attributeGroupFacts content →
  occursIn (renderMdAttributeGroup g) (renderMarkdown content).
Proof.
  intros H. unfold renderMarkdown.
  rewrite (bool_decide_eq_false_2 _ (elem_not_nil _ _ H)).
  cbn [negb].
  occurs_in_piece ltac:(by apply (occursIn_blocks renderMdAttributeGroup)).
Qed.

Lemma html_table_in_document (generated : string) (content : Facts)
    (t : TableFact) :
  t ∈ tableFacts content →
  occursIn (renderHtmlTable t) (renderHtml generated content).
Proof.
  intros H. unfold renderHtml.
  occurs_in_piece ltac:(by apply (occursIn_blocks renderHtmlTable)).
Qed.

Lemma html_relationship_in_document (generated : string) (content : Facts)
    (r : RelationshipFact) :
  r ∈ relationshipFacts content →
  occursIn (renderHtmlRelationship r) (renderHtml generated content).
Proof.
  intros H. unfold renderHtml.
  do 2 apply occursIn_app_r. apply occursIn_app_l.
  eapply occursIn_lines;
    [rewrite app_assoc; apply elem_of_middle
    |by apply (occursIn_rows renderHtmlRelationship)].
Qed.

Lemma html_group_in_document (generated : string) (content : Facts)
    (g : AttributeGroupFact) :
  g ∈ attributeGroupFacts content →
  occursIn (renderHtmlAttributeGroup g) (renderHtml generated content).
Proof.
  intros H. unfold renderHtml.
  rewrite (bool_decide_eq_false_2 _ (elem_not_nil _ _ H)).
  occurs_in_piece ltac:(by apply (occursIn_blocks renderHtmlAttributeGroup)).
Qed.

End Occurrences.

(** C9.  For every schema, the Markdown and the HTML documentation show one
    and the same content, computed from the schema independently of the
    format.  Each document is the rendering of this content in its format;
    and each of them contains, for every table of the schema, the block of
    the table with its name and its entity type, in which there is a row
    for every column (name, data type, the four flags, default and
    description) and for every foreign-key reference; for every
    relationship its row (source, name, target, type, the two
    cardinalities, the identifying flag and the description); and for every
    relationship with attributes the block of its attribute rows.  A flag
    that holds is shown by a check mark in both formats.  The HTML page
    shows in addition the moment of its generation, which is no part of the
    schema. *)
Theorem documentation_formats_share_content
    (formatDate : option string → string) (now : string) (schema : Schema.t) :
  let md := Documentation.generateMarkdownDocumentation formatDate schema in
  let html := Documentation.generateHtmlDocumentation formatDate now schema in
  let content := DocumentationSpec.facts formatDate schema in
  md = DocumentationSpec.renderMarkdown content
  ∧ html = DocumentationSpec.renderHtml (formatDate (Some now)) content
  ∧ (∀ table, table ∈ Schema.tables schema →
       DocumentationSpec.tableShown md html (DocumentationSpec.tableFact table))
  ∧ (∀ r, r ∈ Schema.relationships schema →
       DocumentationSpec.relationshipShown md html
         (DocumentationSpec.relationshipFact r))
  ∧ (∀ r group, r ∈ Schema.relationships schema →
       DocumentationSpec.attributeGroupFact r = Some group →
       DocumentationSpec.attributeGroupShown md html group).
Proof.
  cbv zeta. rewrite md_document, (html_document formatDate now).
  split; [done|]. split; [done|]. split; [|split].
  - intros table Ht.
    assert (DocumentationSpec.tableFact table
            ∈ DocumentationSpec.tableFacts (DocumentationSpec.facts formatDate schema))
      as Hin by (by apply list_elem_of_fmap_2).
    split; [by apply md_table_in_document|].
    split; [by apply html_table_in_document|].
    split.
    + intros c Hc. split; [by apply md_column_in_table|by apply html_column_in_table].
    + intros f Hf.
      split; [by apply md_reference_in_table|by apply html_reference_in_table].
  - intros r Hr.
    assert (DocumentationSpec.relationshipFact r
            ∈ DocumentationSpec.relationshipFacts
                (DocumentationSpec.facts formatDate schema))
      as Hin by (by apply list_elem_of_fmap_2).
    split; [by apply md_relationship_in_document
           |by apply html_relationship_in_document].
  - intros r group Hr Hg.
    assert (group ∈ DocumentationSpec.attributeGroupFacts
                      (DocumentationSpec.facts formatDate schema)) as Hin.
    { apply list_elem_of_omap. by exists r. }
    split; [by apply md_group_in_document|].
    split; [by apply html_group_in_document|].
    intros a Ha.
    split; [by apply md_attribute_in_group|by apply html_attribute_in_group].
Qed.

(** The documents of the schema [tree], whose table [node] refers to itself:
    both show the row of the column [node_id], a foreign key that is
    nullable and neither a primary key nor unique. *)
Lemma documentation_formats_share_content_witness :
  DocumentationSpec.occursIn
    ("| node_id | INTEGER |  | ✓ | ✓ |  |  | Foreign key reference to node |"
     +:+ JS.nl)
    (Documentation.generateMarkdownDocumentation DocumentationSpec.plainDate
       SqlSpec.tree)
  ∧ DocumentationSpec.occursIn
      ("<td>node_id</td>" +:+ JS.nl
       +:+ "          <td>INTEGER</td>" +:+ JS.nl
       +:+ "          <td class=" +:+ JS.dq +:+ "center-text" +:+ JS.dq +:+ "></td>" +:+ JS.nl
       +:+ "          <td class=" +:+ JS.dq +:+ "center-text" +:+ JS.dq
       +:+ "><span class=" +:+ JS.dq +:+ "text-success" +:+ JS.dq +:+ ">✓</span></td>"
       +:+ JS.nl
       +:+ "          <td class=" +:+ JS.dq +:+ "center-text" +:+ JS.dq
       +:+ "><span class=" +:+ JS.dq +:+ "text-success" +:+ JS.dq +:+ ">✓</span></td>"
       +:+ JS.nl
       +:+ "          <td class=" +:+ JS.dq +:+ "center-text" +:+ JS.dq +:+ "></td>" +:+ JS.nl
       +:+ "          <td></td>" +:+ JS.nl
       +:+ "          <td>Foreign key reference to node</td>")
      (Documentation.generateHtmlDocumentation DocumentationSpec.plainDate "now"
         SqlSpec.tree).
Proof.
  destruct (documentation_formats_share_content DocumentationSpec.plainDate "now"
              SqlSpec.tree) as (_ & _ & Htables & _).
  destruct (Htables (SqlSpec.selfReferring "node")) as (Hmd & Hhtml & Hcols & _);
    [by left|].
  destruct (Hcols (DocumentationSpec.columnFact
                     (SchemaGenerator.foreignKeyColumn "node"
                        SchemaGenerator.idColumn))) as [Hc Hc'].
  { right. left. }
  split.
  - eapply occursIn_trans; [|exact Hmd].
    eapply occursIn_trans; [|exact Hc].
    exists "", "". by vm_compute.
  - eapply occursIn_trans; [|exact Hhtml].
    eapply occursIn_trans; [|exact Hc'].
    exists ("<tr class=" +:+ JS.dq +:+ "foreign-key" +:+ JS.dq +:+ ">" +:+ JS.nl
            +:+ "          "),
      (JS.nl +:+ "        </tr>").
    by vm_compute.
Defined.

(** ** The normaliser: audit columns *)

Section AuditColumns.
  Import SchemaGenerator NormalizerSpec.






Lemma eqb_false_of_ne (a b : string) : a ≠ b → String.eqb a b = false.
Proof. intros H. by destruct (String.eqb_spec a b). Qed.



(** *** Passes that leave the number of audit columns of every table alone *)












Lemma detectLookupTable_columns (t : Table.t) :
  Table.columns (detectLookupTable t) = Table.columns t
  ∧ Table.name (detectLookupTable t) = Table.name t.
Proof.
  unfold detectLookupTable.
  destruct (Table.isLookupTable t); [done|].
  match goal with |- context [if ?b then _ else _] => destruct b end; done.
Qed.



End AuditColumns.

Section AuditShape.
  Import SchemaGenerator NormalizerSpec.



















End AuditShape.




(** ** Regular expressions: a class replaced character by character *)

Section CharacterClass.
  Import Regex.

Lemma matchHere_class (p : ascii → bool) (s : list ascii) :
  matchHere (RChr p) s
  = match s with
    | a :: _ => if p a then Some (1, noCaps) else None
    | [] => None
    end.
Proof.
  unfold matchHere. simpl. destruct s as [|a s]; [done|].
  destruct (p a); [|done]. f_equal. f_equal. simpl. lia.
Qed.

(** Deleting the characters of a class is a filter. *)
Lemma replaceAll_class_delete (p : ascii → bool) (s : list ascii) :
  replaceAll (RChr p) (λ _, []) s = List.filter (λ a, negb (p a)) s.
Proof.
  unfold replaceAll. induction s as [|a s IH]; [done|].
  cbn [replaceGo]. rewrite matchHere_class.
  simpl. destruct (p a); simpl; by rewrite IH.
Qed.

(** Replacing the characters of a class by one character is a map. *)
Lemma replaceAll_class_map (p : ascii → bool) (b : ascii) (s : list ascii) :
  replaceAll (RChr p) (λ _, [b]) s = (λ a, if p a then b else a) <$> s.
Proof.
  unfold replaceAll. induction s as [|a s IH]; [done|].
  cbn [replaceGo]. rewrite matchHere_class.
  csimpl. destruct (p a); simpl; by rewrite IH.
Qed.

End CharacterClass.

(** ** Table names *)

Section TableNames.
  Import Regex SchemaGenerator NormalizerSpec.

Lemma identChar_not_upper (a : ascii) : identChar a = true → JS.isUpper a = false.
Proof. destruct a as [[] [] [] [] [] [] [] []]; vm_compute; done. Qed.

Lemma replaceAnchored_chars (P : ascii → Prop) (s : list ascii) :
  Forall P s → P "_"%char →
  Forall P (replaceAnchored reLeadingDigit (λ c, "_"%char :: c 0) s).
Proof.
  intros Hs Hu. unfold replaceAnchored, reLeadingDigit, matchHere.
  cbn [rmatch]. destruct s as [|a s]; [done|].
  destruct (JS.isDigit a); [|done].
  unfold setCap. cbn [Nat.eqb]. constructor; [done|].
  apply Forall_app. split.
  - by apply Forall_take.
  - by apply Forall_drop.
Qed.

(** A table name consists of lower-case letters, digits and underscores. *)
Lemma transformTableName_chars (e : option string) :
  Forall (λ a, identChar a = true) (JS.chars (transformTableName e)).
Proof.
  unfold transformTableName.
  destruct e as [n|]; [|by vm_compute; repeat constructor].
  destruct (String.eqb n ""); [by vm_compute; repeat constructor|].
  rewrite chars_str. apply replaceAnchored_chars; [|done].
  change reNotIdent with (RChr (λ a, negb (identChar a))).
  rewrite replaceAll_class_delete.
  apply Forall_forall. intros a Ha.
  apply list_elem_of_In, List.filter_In in Ha as [_ Ha].
  by rewrite negb_involutive in Ha.
Qed.

Lemma transformTableName_lower (e : option string) :
  JS.toLowerCase (transformTableName e) = transformTableName e.
Proof.
  apply toLowerCase_fixed. eapply Forall_impl; [apply transformTableName_chars|].
  intros a. apply identChar_not_upper.
Qed.

End TableNames.

(** ** Foreign keys of one-to-many relationships *)

Lemma findIndex_fmap {A B} (g : A → B) (p : B → bool) (l : list A) :
  Arr.findIndex p (g <$> l) = Arr.findIndex (λ x, p (g x)) l.
Proof.
  induction l as [|a l IH]; [done|].
  rewrite fmap_cons. simpl. by rewrite IH.
Qed.

Lemma findIndex_lookup {A} (p : A → bool) (l : list A) (i : nat) :
  Arr.findIndex p l = Some i →
  ∃ x, l !! i = Some x ∧ p x = true.
Proof.
  intros (before & x & after & -> & <- & Hx & _)%findIndex_Some.
  exists x. split; [|done].
  by rewrite lookup_app_r, Nat.sub_diag by lia.
Qed.

(** A finer test that holds at the first hit of [p] has its first hit there. *)
Lemma findIndex_refine {A} (p q : A → bool) (l : list A) (i : nat) (x : A) :
  Arr.findIndex p l = Some i → l !! i = Some x → q x = true →
  (∀ y, q y = true → p y = true) →
  Arr.findIndex q l = Some i.
Proof.
  intros (before & x' & after & -> & <- & Hx' & Hb)%findIndex_Some Hi Hq Hqp.
  rewrite lookup_app_r, Nat.sub_diag in Hi by lia. injection Hi as ->.
  apply findIndex_app_first; [|done].
  eapply Forall_impl; [exact Hb|]. intros y Hy. simpl in Hy.
  destruct (q y) eqn:E; [|done]. apply Hqp in E. congruence.
Qed.

Lemma find_findIndex {A} (p : A → bool) (l : list A) :
  Arr.find p l = Arr.findIndex p l ≫= (l !!.).
Proof.
  induction l as [|a l IH]; [done|]. simpl.
  destruct (p a); [done|]. rewrite IH.
  by destruct (Arr.findIndex p l).
Qed.

Lemma alter_insert {A} (f : A → A) (i : nat) (l : list A) (x : A) :
  l !! i = Some x → alter f i l = <[i := f x]> l.
Proof.
  revert i. induction l as [|a l IH]; intros [|i]; try done.
  - by intros [= ->].
  - intros H. change (alter f (S i) (a :: l)) with (a :: alter f i l).
    simpl. by rewrite IH.
Qed.

Lemma fmap_alter_same {A B} (g : A → B) (f : A → A) (i : nat) (l : list A) :
  (∀ x, g (f x) = g x) → g <$> alter f i l = g <$> l.
Proof.
  intros Hf. revert i. induction l as [|a l IH]; intros [|i]; try done.
  - change (alter f 0 (a :: l)) with (f a :: l). by rewrite !fmap_cons, Hf.
  - change (alter f (S i) (a :: l)) with (a :: alter f i l).
    by rewrite !fmap_cons, IH.
Qed.

Section ForeignKeys.
  Import SchemaGenerator NormalizerSpec.

Lemma resolve_names (e : option string) (ts : list Table.t) :
  resolve e ts = resolveIn (namesOf ts) e.
Proof. unfold resolve, resolveIn, namesOf. by rewrite findIndex_fmap. Qed.

Lemma namesOf_lookup (ts : list Table.t) (i : nat) :
  namesOf ts !! i = Table.name <$> ts !! i.
Proof. apply list_lookup_fmap. Qed.

#[local] Instance extends_refl : Reflexive extends.
Proof.
  intros t. split; [done|]. exists []. by rewrite app_nil_r.
Qed.

#[local] Instance extends_trans : Transitive extends.
Proof.
  intros t1 t2 t3 [Hn1 (e1 & Hc1 & He1)] [Hn2 (e2 & Hc2 & He2)].
  split; [congruence|]. exists (e1 ++ e2).
  rewrite Hc2, Hc1, app_assoc. split; [done|]. by apply Forall_app.
Qed.

Lemma extends_keyed (t t' : Table.t) : extends t t' → keyed t → keyed t'.
Proof.
  intros [_ (extra & Hc & He)] [Hk Ht]. unfold keyed. rewrite Hc. split.
  - by rewrite some_app, Hk.
  - by apply Forall_app.
Qed.

Lemma extends_elem (t t' : Table.t) (c : Column.t) :
  extends t t' → c ∈ Table.columns t → c ∈ Table.columns t'.
Proof.
  intros [_ (extra & Hc & _)] H. rewrite Hc. apply elem_of_app. by left.
Qed.

Lemma orElse_truthy (o : option string) (d : string) :
  d ≠ "" → JS.truthy (Some (JS.orElse o d)) = true.
Proof.
  intros Hd. unfold JS.orElse, JS.truthy.
  destruct o as [s|].
  - destruct (String.eqb s "") eqn:E; [|by rewrite E].
    by rewrite eqb_false_of_ne.
  - by rewrite eqb_false_of_ne.
Qed.

Lemma foreignKeyColumn_typed (n : string) (c : Column.t) :
  typed (foreignKeyColumn n c).
Proof. by apply orElse_truthy. Qed.

Lemma addForeignKeyTo_extends (n : string) (c : Column.t) (t : Table.t) :
  extends t (addForeignKeyTo n c t).
Proof.
  unfold addForeignKeyTo. destruct (hasColumnNamed _ _); [done|].
  split; [done|]. eexists. split; [done|].
  repeat constructor. apply foreignKeyColumn_typed.
Qed.

Lemma alter_extends (f : Table.t → Table.t) (i : nat) (ts : list Table.t) :
  (∀ t, extends t (f t)) → Forall2 extends ts (alter f i ts).
Proof.
  intros Hf. revert i. induction ts as [|t ts IH]; intros [|i].
  - constructor.
  - constructor.
  - change (alter f 0 (t :: ts)) with (f t :: ts).
    constructor; [apply Hf|]. by apply Forall_Forall2_diag, Forall_true.
  - change (alter f (S i) (t :: ts)) with (t :: alter f i ts).
    constructor; [done|apply IH].
Qed.

Lemma extends_all_refl (ts : list Table.t) : Forall2 extends ts ts.
Proof. by apply Forall_Forall2_diag, Forall_true. Qed.

Lemma extends_all_trans (ts1 ts2 ts3 : list Table.t) :
  Forall2 extends ts1 ts2 → Forall2 extends ts2 ts3 → Forall2 extends ts1 ts3.
Proof.
  intros H12 H23. eapply Forall2_trans; [| exact H12 | exact H23].
  intros x y z. apply extends_trans.
Qed.

Lemma extends_names (ts ts' : list Table.t) :
  Forall2 extends ts ts' → namesOf ts' = namesOf ts.
Proof.
  unfold namesOf. induction 1 as [|t t' ts ts' [Hn _] _ IH]; [done|].
  by rewrite !fmap_cons, Hn, IH.
Qed.

Lemma setupForeignKeys_extends r si ti S T sc tc (ts : list Table.t) :
  Forall2 extends ts (setupForeignKeys r si ti S T sc tc ts).2.
Proof.
  unfold setupForeignKeys, addForeignKey. cbn [snd].
  repeat match goal with
         | |- context [if ?b then _ else _] => destruct b
         end;
    first [apply extends_all_refl
          | apply alter_extends; intros; apply addForeignKeyTo_extends].
Qed.

Lemma transformRelationship_extends (r : RelIn.t) (ts : list Table.t) :
  Forall2 extends ts (transformRelationship r ts).2.
Proof.
  unfold transformRelationship.
  destruct (negb _); [apply extends_all_refl|].
  destruct (resolve _ ts) as [si|]; [|apply extends_all_refl].
  destruct (resolve (orOpt (RelIn.targetEntity r) _) ts) as [ti|];
    [|apply extends_all_refl].
  destruct (ts !! si) as [S|]; [|apply extends_all_refl].
  destruct (ts !! ti) as [T|]; [|apply extends_all_refl].
  pose proof (setupForeignKeys_extends r si ti S T
                (primaryKeyOr (bareIdColumn None) S)
                (primaryKeyOr (bareIdColumn None) T) ts) as H.
  by destruct (setupForeignKeys _ _ _ _ _ _ _ _) as [r' ts'].
Qed.

Lemma transformRelationships_extends (rs : list RelIn.t) (ts : list Table.t) :
  Forall2 extends ts (transformRelationships rs ts).2.
Proof.
  revert ts. induction rs as [|r rs IH]; intros ts; [apply extends_all_refl|].
  cbn [transformRelationships].
  pose proof (transformRelationship_extends r ts) as H1.
  destruct (transformRelationship r ts) as [y ts1].
  pose proof (IH ts1) as H2.
  destruct (transformRelationships rs ts1) as [ys ts2].
  by eapply extends_all_trans.
Qed.

Lemma transformRelationships_app (rs1 rs2 : list RelIn.t) (ts : list Table.t) :
  transformRelationships (rs1 ++ rs2) ts
  = ((transformRelationships rs1 ts).1
       ++ (transformRelationships rs2 (transformRelationships rs1 ts).2).1,
     (transformRelationships rs2 (transformRelationships rs1 ts).2).2).
Proof.
  revert ts. induction rs1 as [|r rs1 IH]; intros ts.
  - simpl. by destruct (transformRelationships rs2 ts).
  - rewrite <- app_comm_cons. cbn [transformRelationships].
    destruct (transformRelationship r ts) as [y ts1].
    rewrite IH.
    destruct (transformRelationships rs1 ts1) as [ys ts2]. cbn [fst snd].
    destruct (transformRelationships rs2 ts2) as [zs ts3]. cbn [fst snd].
    by destruct y.
Qed.

Lemma inferDataType_nonempty (n : string) : inferDataType n ≠ "".
Proof.
  unfold inferDataType.
  repeat match goal with
         | |- context [if ?b then _ else _] => destruct b
         end; done.
Qed.

Lemma columnOfAttribute_typed (a : Attr.t) : typed (columnOfAttribute a).
Proof. apply orElse_truthy, inferDataType_nonempty. Qed.

Lemma generateColumnsFromAttributes_typed (attrs : list Attr.t) :
  Forall typed (generateColumnsFromAttributes attrs).
Proof.
  destruct attrs as [|a attrs]; [by repeat constructor|].
  unfold generateColumnsFromAttributes. apply Forall_fmap, Forall_true.
  apply columnOfAttribute_typed.
Qed.

Lemma ensure_column_keyed (col : Column.t) (cols : list Column.t) :
  typed col →
  Arr.some Column.isPrimaryKey cols = true ∧ Forall typed cols →
  let cols' := if hasColumnNamed (Column.name col) cols then cols
               else cols ++ [col] in
  Arr.some Column.isPrimaryKey cols' = true ∧ Forall typed cols'.
Proof.
  intros Hc [Hk Ht]. simpl. destruct (hasColumnNamed _ _); [done|].
  rewrite some_app, Hk. split; [done|].
  apply Forall_app. split; [done|]. by repeat constructor.
Qed.

Lemma tableOfEntity_keyed (e : Entity.t) : keyed (tableOfEntity e).
Proof.
  unfold keyed, tableOfEntity. cbn [Table.columns].
  apply (ensure_column_keyed updatedAtColumn); [done|].
  apply (ensure_column_keyed createdAtColumn); [done|].
  pose proof (generateColumnsFromAttributes_typed
                (default [] (Entity.attributes e))) as Ht.
  destruct (Arr.some Column.isPrimaryKey (generateColumnsFromAttributes _))
    eqn:E; [by split|].
  split; [done|]. by constructor.
Qed.

Lemma tablesAfter_extends (entities : list Entity.t) (pre : list RelIn.t) :
  Forall2 extends (initialTables entities) (tablesAfter entities pre).
Proof. apply transformRelationships_extends. Qed.

Lemma tablesAfter_keyed (entities : list Entity.t) (pre : list RelIn.t)
    (i : nat) (t : Table.t) :
  tablesAfter entities pre !! i = Some t → keyed t.
Proof.
  intros Hi.
  destruct (Forall2_lookup_r _ _ _ _ _ (tablesAfter_extends entities pre) Hi)
    as (t0 & Ht0 & Hext).
  eapply extends_keyed; [exact Hext|].
  unfold initialTables in Ht0. rewrite list_lookup_fmap in Ht0.
  destruct (entities !! i) as [e|]; [|done].
  injection Ht0 as <-. apply tableOfEntity_keyed.
Qed.

Lemma tablesAfter_name (entities : list Entity.t) (pre : list RelIn.t)
    (i : nat) (t : Table.t) :
  tablesAfter entities pre !! i = Some t →
  ∃ e, entities !! i = Some e ∧ Table.name t = transformTableName (Entity.name e).
Proof.
  intros Hi.
  destruct (Forall2_lookup_r _ _ _ _ _ (tablesAfter_extends entities pre) Hi)
    as (t0 & Ht0 & [Hn _]).
  unfold initialTables in Ht0. rewrite list_lookup_fmap in Ht0.
  destruct (entities !! i) as [e|]; [|done].
  injection Ht0 as <-. by exists e.
Qed.

(** The primary key that a foreign key to a keyed table refers to. *)
Lemma primaryKeyOr_keyed (fallback : Column.t) (t : Table.t) :
  keyed t →
  let pk := primaryKeyOr fallback t in
  pk ∈ Table.columns t ∧ Column.isPrimaryKey pk = true ∧ typed pk.
Proof.
  intros [Hk Ht]. unfold primaryKeyOr. simpl.
  destruct (Arr.find Column.isPrimaryKey (Table.columns t)) as [pk|] eqn:E.
  - apply find_Some in E as [Hin Hpk]. simpl. split; [done|]. split; [done|].
    by eapply Forall_forall in Ht.
  - exfalso. rewrite find_findIndex in E.
    destruct (Arr.findIndex _ _) as [i|] eqn:Ei.
    + apply findIndex_lookup in Ei as (x & Hx & _). simpl in E. congruence.
    + apply findIndex_None, some_false in Ei. congruence.
Qed.

Lemma expectedForeignKey_dataType (t : Table.t) :
  keyed t →
  Column.dataType (expectedForeignKey t)
  = Column.dataType (primaryKeyOr (bareIdColumn None) t).
Proof.
  intros Hk. destruct (primaryKeyOr_keyed (bareIdColumn None) t Hk) as (_ & _ & Ht).
  unfold expectedForeignKey, foreignKeyColumn. cbn [Column.dataType].
  unfold typed, JS.truthy in Ht. unfold JS.orElse.
  destruct (Column.dataType _) as [d|]; [|done].
  by destruct (String.eqb d "").
Qed.

(** What processing a one-to-many relationship does to the tables. *)
Lemma transformRelationship_one_to_many (r : RelIn.t) (ts : list Table.t)
    (si ti : nat) (S T : Table.t) :
  RelIn.type r = Some "ONE_TO_MANY" →
  resolvesTo r ts si ti →
  ts !! si = Some S → ts !! ti = Some T →
  hasColumnNamed (Column.name (expectedForeignKey S)) (Table.columns T) = false →
  (transformRelationship r ts).2
  = <[ti := withColumns T (Table.columns T ++ [expectedForeignKey S])]> ts.
Proof.
  intros Hty (Hs & Ht & Hsi & Hti) HS HT Hno.
  unfold sourceName, targetName in *.
  unfold transformRelationship. rewrite Hs, Ht, Hsi, Hti, HS, HT.
  cbn [andb negb]. unfold setupForeignKeys.
  rewrite Hty. cbn [JS.truthy]. cbn [String.eqb Ascii.eqb Bool.eqb negb].
  rewrite Hty. cbn [snd].
  change (String.eqb (JS.toUpperCase (tmpl (Some "ONE_TO_MANY"))) "ONE_TO_MANY")
    with true. cbn iota.
  unfold addForeignKey. rewrite (alter_insert _ _ _ _ HT).
  unfold addForeignKeyTo.
  change (JS.toLowerCase (Table.name S) +:+ "_id")
    with (Column.name (expectedForeignKey S)).
  by rewrite Hno.
Qed.

(** Where a relationship of the schema comes from. *)
Lemma transformRelationship_origin (x : RelIn.t) (ts ts' : list Table.t)
    (y : Relationship.t) :
  transformRelationship x ts = (Some y, ts') →
  ∃ si ti, tracedTo (namesOf ts) y x si ti.
Proof.
  unfold transformRelationship.
  fold (sourceName x) (targetName x).
  destruct (JS.truthy (sourceName x)) eqn:Hs; [|done].
  destruct (JS.truthy (targetName x)) eqn:Ht; [|done].
  cbn [andb negb].
  destruct (resolve (sourceName x) ts) as [si|] eqn:Hsi; [|done].
  destruct (resolve (targetName x) ts) as [ti|] eqn:Hti; [|done].
  destruct (ts !! si) as [S|] eqn:HS; [|done].
  destruct (ts !! ti) as [T|] eqn:HT; [|done].
  unfold setupForeignKeys.
  intros [= <- _]. exists si, ti.
  unfold tracedTo. rewrite <- !resolve_names, !namesOf_lookup, HS, HT.
  cbn [Relationship.sourceTable Relationship.targetTable
         Relationship.isIdentifying].
  repeat split; try done.
  by destruct (JS.truthy (RelIn.type x)).
Qed.

Lemma transformRelationships_origin (rs : list RelIn.t) (ts : list Table.t)
    (y : Relationship.t) :
  y ∈ (transformRelationships rs ts).1 →
  ∃ x si ti, x ∈ rs ∧ tracedTo (namesOf ts) y x si ti.
Proof.
  revert ts. induction rs as [|r rs IH]; intros ts.
  - simpl. by intros ?%elem_of_nil.
  - cbn [transformRelationships].
    pose proof (transformRelationship_origin r ts) as H1.
    pose proof (transformRelationship_extends r ts) as Hn%extends_names.
    destruct (transformRelationship r ts) as [o ts1].
    pose proof (IH ts1) as H2.
    destruct (transformRelationships rs ts1) as [ys ts2].
    cbn [fst snd] in *. rewrite Hn in H2.
    assert (y ∈ ys → ∃ x si ti, x ∈ r :: rs ∧ tracedTo (namesOf ts) y x si ti)
      as Hrest.
    { intros (x & si & ti & Hx & Htr)%H2. exists x, si, ti.
      split; [by right|done]. }
    destruct o as [y0|]; [|done].
    intros [->|Hy]%elem_of_cons; [|auto].
    destruct (H1 ts1 y0 eq_refl) as (si & ti & Htr).
    exists r, si, ti. split; [left|done].
Qed.

(** The identifying post-pass keeps the names of the tables. *)
Lemma identifyingStep_names (ts : list Table.t) (y : Relationship.t) :
  namesOf (identifyingStep ts y) = namesOf ts.
Proof.
  unfold identifyingStep.
  destruct (Arr.find _ ts) as [owner|]; [|done].
  destruct (Arr.findIndex _ ts) as [di|]; [|done].
  by apply fmap_alter_same.
Qed.

(** The name test of the post-pass finds the table that [resolve] found. *)
Lemma resolveIn_exact (names : list string) (e : option string) (i : nat) :
  resolveIn names e = Some i →
  Arr.findIndex (λ n, optStrEq (names !! i) n) names = Some i.
Proof.
  intros Hi. destruct (findIndex_lookup _ _ _ Hi) as (n & Hn & Hp).
  eapply findIndex_refine; [exact Hi|exact Hn| |].
  - rewrite Hn. simpl. apply String.eqb_refl.
  - intros m Hm. rewrite Hn in Hm. simpl in Hm.
    apply String.eqb_eq in Hm as <-. exact Hp.
Qed.

Lemma identifyingStep_traced (ts : list Table.t) (y : Relationship.t)
    (x : RelIn.t) (si ti : nat) :
  tracedTo (namesOf ts) y x si ti →
  ∃ owner, ts !! si = Some owner
           ∧ identifyingStep ts y = alter (makeWeak owner) ti ts.
Proof.
  intros (_ & _ & Hsi & Hti & Hst & Htt & _).
  pose proof (resolveIn_exact _ _ _ Hsi) as Hs.
  pose proof (resolveIn_exact _ _ _ Hti) as Ht.
  unfold namesOf in Hs, Ht. rewrite findIndex_fmap in Hs, Ht.
  unfold identifyingStep. rewrite find_findIndex, Hst, Htt.
  unfold namesOf. rewrite Hs, Ht. simpl.
  apply findIndex_lookup in Hs as (owner & Ho & _).
  exists owner. by rewrite Ho.
Qed.

Lemma str_app_inv_tail (a b c : string) : a +:+ c = b +:+ c → a = b.
Proof.
  intros H. apply chars_inj.
  apply (f_equal JS.chars) in H. rewrite !chars_app in H.
  by apply app_inv_tail in H.
Qed.

(** A column of another name is left alone when a table is made weak. *)
Lemma makeWeak_keeps (owner T : Table.t) (c : Column.t) :
  c ∈ Table.columns T →
  Column.name c ≠ JS.toLowerCase (Table.name owner) +:+ "_id" →
  c ∈ Table.columns (makeWeak owner T).
Proof.
  intros Hc Hne. unfold makeWeak. cbn [Table.columns].
  set (isFk := λ c : Column.t, String.eqb (Column.name c) _).
  assert (c ∈ match Arr.findIndex isFk (Table.columns T) with
              | Some i => alter (promoteColumn (Table.name owner)) i (Table.columns T)
              | None => identifyingKeyColumn (Table.name owner)
                          (primaryKeyOr (bareIdColumn (Some "INTEGER")) owner)
                          :: Table.columns T
              end) as H1.
  { destruct (Arr.findIndex isFk (Table.columns T)) as [i|] eqn:Ei; [|by right].
    apply findIndex_lookup in Ei as (c' & Hc' & Hfk).
    apply list_elem_of_lookup in Hc as [j Hj].
    apply list_elem_of_lookup. exists j.
    rewrite list_lookup_alter_ne; [done|].
    intros ->. rewrite Hj in Hc'. injection Hc' as ->.
    unfold isFk in Hfk. by apply String.eqb_eq in Hfk. }
  match type of H1 with
  | c ∈ ?l => set (cols1 := l) in *
  end.
  destruct (Arr.find _ cols1); [exact H1|].
  unfold Arr.insertAt.
  match goal with
  | |- c ∈ take ?k cols1 ++ _ => rewrite <- (take_drop k cols1) in H1
  end.
  apply elem_of_app. apply elem_of_app in H1 as [H1|H1]; [by left|].
  right. by right.
Qed.

(** A column added for the tables at [si] and [ti] survives the identifying
    post-pass when no identifying relationship joins these two tables. *)
Lemma identifying_pass_keeps (names : list string) (er : option string)
    (si ti : nat) (sn : string) (c : Column.t) (ys : list Relationship.t) :
  resolveIn names er = Some si → names !! si = Some sn →
  Column.name c = JS.toLowerCase sn +:+ "_id" →
  (∀ y, y ∈ ys → Relationship.isIdentifying y = true →
        ∃ x siy tiy, tracedTo names y x siy tiy ∧ ¬ (siy = si ∧ tiy = ti)) →
  ∀ (ts : list Table.t) (T : Table.t),
    namesOf ts = names → ts !! ti = Some T → c ∈ Table.columns T →
    ∃ T', processIdentifyingRelationships ys ts !! ti = Some T'
          ∧ c ∈ Table.columns T'.
Proof.
  intros Hsi Hsn Hc. unfold processIdentifyingRelationships.
  induction ys as [|y ys IH]; intros Hys ts T Hnames HT HcT.
  - simpl. by exists T.
  - assert (∀ y', y' ∈ ys → Relationship.isIdentifying y' = true →
            ∃ x siy tiy, tracedTo names y' x siy tiy ∧ ¬ (siy = si ∧ tiy = ti))
      as Hys' by (intros y' Hy'; apply Hys; by right).
    cbn [List.filter].
    destruct (Relationship.isIdentifying y) eqn:Hy; [|by eapply IH].
    rewrite foldl_cons_eq.
    destruct (Hys y) as (x & siy & tiy & Htr & Hne); [left|done|].
    rewrite <- Hnames in Htr.
    destruct (identifyingStep_traced _ _ _ _ _ Htr) as (owner & Ho & ->).
    destruct (decide (tiy = ti)) as [->|Hti].
    + eapply (IH Hys' _ (makeWeak owner T)).
      * rewrite <- Hnames. by apply fmap_alter_same.
      * by rewrite list_lookup_alter_eq, HT.
      * apply makeWeak_keeps; [done|]. rewrite Hc.
        intros Heq%str_app_inv_tail. apply Hne. split; [|done].
        destruct Htr as (_ & _ & Hsiy & _). rewrite Hnames in Hsiy.
        assert (names !! siy = Some (Table.name owner)) as Hsny.
        { by rewrite <- Hnames, namesOf_lookup, Ho. }
        unfold resolveIn in Hsi, Hsiy.
        destruct (findIndex_lookup _ _ _ Hsi) as (n1 & Hn1 & Hk1).
        destruct (findIndex_lookup _ _ _ Hsiy) as (n2 & Hn2 & Hk2).
        rewrite Hsn in Hn1. injection Hn1 as <-.
        rewrite Hsny in Hn2. injection Hn2 as <-.
        apply String.eqb_eq in Hk1, Hk2.
        rewrite <- Hk2, <- Heq, Hk1, Hsi in Hsiy. congruence.
    + eapply (IH Hys' _ T).
      * rewrite <- Hnames. by apply fmap_alter_same.
      * by rewrite list_lookup_alter_ne.
      * done.
Qed.

Lemma detectLookupTables_lookup (ts : list Table.t) (i : nat) (t : Table.t) :
  ts !! i = Some t →
  ∃ t', detectLookupTables ts !! i = Some t'
        ∧ Table.columns t' = Table.columns t.
Proof.
  intros Hi. exists (detectLookupTable t).
  unfold detectLookupTables. rewrite list_lookup_fmap, Hi.
  split; [done|]. apply detectLookupTable_columns.
Qed.

Lemma generateSchema_tables (entities : list Entity.t) (rels : list RelIn.t)
    (options : Options) (now : string) :
  Schema.tables (generateSchema entities rels options now)
  = detectLookupTables
      (processIdentifyingRelationships
         (transformRelationships rels (initialTables entities)).1
         (tablesAfter entities rels)).
Proof.
  unfold generateSchema, tablesAfter, initialTables.
  by destruct (transformRelationships rels _).
Qed.

Lemma tablesAfter_snoc (entities : list Entity.t) (pre : list RelIn.t)
    (r : RelIn.t) :
  tablesAfter entities (pre ++ [r])
  = (transformRelationship r (tablesAfter entities pre)).2.
Proof.
  unfold tablesAfter. rewrite transformRelationships_app. cbn [snd].
  cbn [transformRelationships].
  by destruct (transformRelationship r _).
Qed.

Lemma tablesAfter_app (entities : list Entity.t) (rs1 rs2 : list RelIn.t) :
  tablesAfter entities (rs1 ++ rs2)
  = (transformRelationships rs2 (tablesAfter entities rs1)).2.
Proof. unfold tablesAfter. by rewrite transformRelationships_app. Qed.

(** A foreign key added by a one-to-many relationship is in the returned
    schema unless an identifying relationship joins the same two tables. *)
Lemma foreign_key_survives (entities : list Entity.t)
    (pre : list RelIn.t) (r : RelIn.t) (post : list RelIn.t)
    (options : Options) (now : string) (si ti : nat) (S T : Table.t) :
  RelIn.type r = Some "ONE_TO_MANY" →
  resolvesTo r (tablesAfter entities pre) si ti →
  tablesAfter entities pre !! si = Some S →
  tablesAfter entities pre !! ti = Some T →
  hasColumnNamed (Column.name (expectedForeignKey S)) (Table.columns T) = false →
  (∀ x, x ∈ pre ++ r :: post → RelIn.isIdentifying x = true →
        ¬ resolvesTo x (initialTables entities) si ti) →
  ∃ T', Schema.tables (generateSchema entities (pre ++ r :: post) options now) !! ti
        = Some T'
        ∧ expectedForeignKey S ∈ Table.columns T'.
Proof.
  intros Hty Hres HS HT Hno Hid.
  set (rels := pre ++ r :: post).
  set (names := namesOf (initialTables entities)).
  assert (∀ rs, namesOf (tablesAfter entities rs) = names) as Hnames.
  { intros rs. apply extends_names, tablesAfter_extends. }
  (* the tables after the relationship itself *)
  pose proof (transformRelationship_one_to_many r _ si ti S T Hty Hres HS HT Hno)
    as Hstep.
  rewrite <- tablesAfter_snoc in Hstep.
  assert (tablesAfter entities (pre ++ [r]) !! ti
          = Some (withColumns T (Table.columns T ++ [expectedForeignKey S])))
    as H1.
  { rewrite Hstep. apply list_lookup_insert_eq. by eapply lookup_lt_Some. }
  (* the tables after all the relationships *)
  assert (rels = (pre ++ [r]) ++ post) as Hrels
    by (unfold rels; by rewrite <- app_assoc).
  pose proof (transformRelationships_extends post (tablesAfter entities (pre ++ [r])))
    as Hext.
  rewrite <- tablesAfter_app, <- Hrels in Hext.
  destruct (Forall2_lookup_l _ _ _ _ _ Hext H1) as (T2 & HT2 & Hext2).
  assert (expectedForeignKey S ∈ Table.columns T2) as Hin2.
  { eapply extends_elem; [exact Hext2|]. cbn [withColumns Table.columns].
    apply elem_of_app. right. left. }
  (* the identifying post-pass *)
  destruct Hres as (Hs & Ht & Hsi & Hti).
  rewrite resolve_names, Hnames in Hsi. rewrite resolve_names, Hnames in Hti.
  destruct (identifying_pass_keeps names (sourceName r) si ti (Table.name S)
              (expectedForeignKey S)
              (transformRelationships rels (initialTables entities)).1)
    with (ts := tablesAfter entities rels) (T := T2)
    as (T3 & HT3 & Hin3); try done.
  { by rewrite <- (Hnames pre), namesOf_lookup, HS. }
  { intros y Hy Hyid.
    destruct (transformRelationships_origin _ _ _ Hy) as (x & six & tix & Hx & Htr).
    exists x, six, tix. split; [done|]. intros [-> ->].
    destruct Htr as (Hxs & Hxt & Hxsi & Hxti & _ & _ & Hxid).
    apply (Hid x Hx); [congruence|].
    unfold resolvesTo. by rewrite !resolve_names. }
  rewrite generateSchema_tables.
  destruct (detectLookupTables_lookup _ _ _ HT3) as (T4 & HT4 & Hcols).
  exists T4. split; [done|]. by rewrite Hcols.
Qed.

End ForeignKeys.

(** C3 (as amended).  For a relationship [r] of type ONE_TO_MANY whose ends
    resolve to the tables [S] and [T], [T] having no column of the name of
    the foreign key when [r] is processed: the foreign key is named after
    [S] with the suffix [_id], has the data type of the primary key of [S],
    is nullable, is not a primary key, and references that primary key with
    CASCADE on delete and on update; processing [r] pushes exactly this
    column at the end of [T] and changes nothing else; and the column is
    still in the table of the returned schema provided that no identifying
    relationship of the input joins the same two tables (the identifying
    post-pass turns the column of such a relationship into a non-nullable
    part of the primary key). *)
Theorem one_to_many_adds_foreign_key (entities : list Entity.t)
    (pre : list RelIn.t) (r : RelIn.t) (post : list RelIn.t)
    (options : SchemaGenerator.Options) (now : string)
    (si ti : nat) (S T : Table.t) :
  RelIn.type r = Some "ONE_TO_MANY" →
  NormalizerSpec.resolvesTo r (NormalizerSpec.tablesAfter entities pre) si ti →
  NormalizerSpec.tablesAfter entities pre !! si = Some S →
  NormalizerSpec.tablesAfter entities pre !! ti = Some T →
  SchemaGenerator.hasColumnNamed
    (Column.name (NormalizerSpec.expectedForeignKey S)) (Table.columns T) = false →
  let fk := NormalizerSpec.expectedForeignKey S in
  let pk := SchemaGenerator.primaryKeyOr (SchemaGenerator.bareIdColumn None) S in
  (pk ∈ Table.columns S ∧ Column.isPrimaryKey pk = true
   ∧ Column.name fk = Table.name S +:+ "_id"
   ∧ Column.dataType fk = Column.dataType pk
   ∧ Column.isNullable fk = Some true
   ∧ Column.isPrimaryKey fk = false
   ∧ Column.isForeignKey fk = true
   ∧ Column.references fk
     = Some {| Reference.table := Table.name S;
               Reference.column := Column.name pk;
               Reference.onDelete := Some "CASCADE";
               Reference.onUpdate := Some "CASCADE" |})
  ∧ NormalizerSpec.tablesAfter entities (pre ++ [r])
    = <[ti := SchemaGenerator.withColumns T (Table.columns T ++ [fk])]>
        (NormalizerSpec.tablesAfter entities pre)
  ∧ ((∀ x, x ∈ pre ++ r :: post → RelIn.isIdentifying x = true →
           ¬ NormalizerSpec.resolvesTo x (NormalizerSpec.initialTables entities) si ti) →
     ∃ T', Schema.tables
             (SchemaGenerator.generateSchema entities (pre ++ r :: post) options now)
           !! ti = Some T'
           ∧ fk ∈ Table.columns T').
Proof.
  intros Hty Hres HS HT Hno fk pk.
  pose proof (tablesAfter_keyed _ _ _ _ HS) as Hk.
  destruct (primaryKeyOr_keyed (SchemaGenerator.bareIdColumn None) S Hk)
    as (Hpk & Hpk' & _).
  split; [|split].
  - split; [done|]. split; [done|]. split.
    + destruct (tablesAfter_name _ _ _ _ HS) as (e & _ & Hn).
      unfold fk, NormalizerSpec.expectedForeignKey, SchemaGenerator.foreignKeyColumn.
      cbn [Column.name]. by rewrite Hn, transformTableName_lower.
    + split; [by apply expectedForeignKey_dataType|]. done.
  - rewrite tablesAfter_snoc.
    by apply (transformRelationship_one_to_many r _ si ti S T).
  - intros Hid. by apply (foreign_key_survives entities pre r post options now si ti S T).
Qed.

Lemma one_to_many_adds_foreign_key_witness :
  ∃ T', Schema.tables
          (SchemaGenerator.generateSchema [Samples.author; Samples.book]
             [NormalizerSpec.writes false] Samples.noOptions "2024-05-01")
        !! 1 = Some T'
        ∧ NormalizerSpec.expectedForeignKey
            (SchemaGenerator.tableOfEntity Samples.author) ∈ Table.columns T'.
Proof.
  apply (one_to_many_adds_foreign_key [Samples.author; Samples.book] []
           (NormalizerSpec.writes false) [] Samples.noOptions "2024-05-01" 0 1
           (SchemaGenerator.tableOfEntity Samples.author)
           (SchemaGenerator.tableOfEntity Samples.book)).
  - reflexivity.
  - repeat split; vm_compute; reflexivity.
  - reflexivity.
  - reflexivity.
  - vm_compute. reflexivity.
  - intros x Hx Hid. apply list_elem_of_singleton in Hx. subst x.
    simpl in Hid. discriminate.
Defined.

(** C3 as stated fails for an identifying relationship: Author owns Book
    through an identifying one-to-many relationship, and the book table of
    the returned schema has no nullable, non-key foreign key to author. *)
Lemma identifying_foreign_key_is_promoted :
  ¬ NormalizerSpec.gainsForeignKey [Samples.author; Samples.book] []
      (NormalizerSpec.writes true) [] Samples.noOptions "2024-05-01".
Proof.
  intros H.
  destruct (H 0 1 (SchemaGenerator.tableOfEntity Samples.author)
              (SchemaGenerator.tableOfEntity Samples.book))
    as (T' & HT' & Hin).
  - repeat split; vm_compute; reflexivity.
  - reflexivity.
  - reflexivity.
  - vm_compute. reflexivity.
  - vm_compute in HT'. injection HT' as <-.
    apply list_elem_of_In in Hin. vm_compute in Hin.
    repeat destruct Hin as [Hin|Hin]; try discriminate Hin. exact Hin.
Qed.

(** What the schema holds instead: the foreign key of the book table is
    part of its primary key and not nullable. *)
Lemma identifying_relationship_key_columns :
  (λ t, (λ c, (Column.name c, Column.isPrimaryKey c, Column.isNullable c))
          <$> Table.columns t)
    <$> (Schema.tables
           (SchemaGenerator.generateSchema [Samples.author; Samples.book]
              [NormalizerSpec.writes true] Samples.noOptions "2024-05-01")
         !! 1)
  = Some [("id", true, Some false); ("title", false, Some true);
          ("created_at", false, Some false); ("updated_at", false, Some false);
          ("author_id", true, Some false)].
Proof. vm_compute. reflexivity. Qed.

(** ** The matcher returns matches *)

Section MatcherSound.
  Import Regex RegexSemantics.

Lemma rmatch_sound {A} (r : regex) :
  ∀ (s : list ascii) (c : caps) (k : list ascii → caps → option A) (x : A),
    rmatch r s c k = Some x →
    ∃ s' c', matches r s c s' c' ∧ k s' c' = Some x.
Proof.
  induction r as [p| |r1 IH1 r2 IH2|r1 IH1 r2 IH2|r1 IH1|i r1 IH1| |];
    intros s c k x H; cbn [rmatch] in H.
  - destruct s as [|a s]; [done|]. destruct (p a) eqn:E; [|done].
    exists s, c. split; [by constructor|done].
  - exists s, c. split; [constructor|done].
  - apply IH1 in H as (s1 & c1 & H1 & H).
    apply IH2 in H as (s2 & c2 & H2 & H).
    exists s2, c2. split; [by econstructor|done].
  - destruct (rmatch r1 s c k) as [y|] eqn:E.
    + injection H as ->. apply IH1 in E as (s1 & c1 & H1 & E).
      exists s1, c1. split; [by apply MAltL|done].
    + apply IH2 in H as (s1 & c1 & H1 & H).
      exists s1, c1. split; [by apply MAltR|done].
  - revert H. generalize (length s) as n. intros n. revert s c.
    induction n as [|n IHn]; intros s c H.
    + exists s, c. split; [constructor|done].
    + match type of H with
      | match ?m with _ => _ end = _ => destruct m as [y|] eqn:E
      end.
      * injection H as ->. apply IH1 in E as (s1 & c1 & H1 & E).
        destruct (length s1 <? length s) eqn:Hlt; [|done].
        apply Nat.ltb_lt in Hlt.
        apply IHn in E as (s2 & c2 & H2 & E).
        exists s2, c2. split; [by eapply MStarStep|done].
      * exists s, c. split; [constructor|done].
  - apply IH1 in H as (s1 & c1 & H1 & H).
    eexists _, _. split; [by constructor|done].
  - destruct s as [|a s].
    + exists [], c. split; [constructor|done].
    + destruct (JS.isLineTerminator a) eqn:E; [|done].
      exists (a :: s), c. split; [by constructor|done].
  - destruct s as [|a s]; [|done].
    exists [], c. split; [constructor|done].
Qed.

Lemma matchHere_sound (r : regex) (s : list ascii) (n : nat) (c : caps) :
  matchHere r s = Some (n, c) →
  ∃ s', matches r s noCaps s' c ∧ n = length s - length s'.
Proof.
  unfold matchHere. intros (s' & c' & Hm & [= <- <-])%rmatch_sound.
  by exists s'.
Qed.

(** A replacement that is quiet at every position changes nothing. *)
Lemma replaceGo_quiet (r : regex) (f : caps → list ascii) (s : list ascii) :
  allQuiet r f s → ∀ k, replaceGo r f k s = drop k s.
Proof.
  induction s as [|a s IH]; intros Hq k.
  - destruct k; [|done]. cbn [replaceGo].
    destruct (matchHere r []) as [[n c]|] eqn:E; [|done].
    apply matchHere_sound in E as (s' & Hm & ->).
    rewrite (Hq [] [] eq_refl _ _ Hm). by rewrite take_nil.
  - assert (allQuiet r f s) as Hq'.
    { intros u v ->. by apply (Hq (a :: u) v). }
    destruct k as [|k]; [|cbn [replaceGo]; by rewrite IH].
    cbn [replaceGo].
    destruct (matchHere r (a :: s)) as [[n c]|] eqn:E.
    + apply matchHere_sound in E as (s' & Hm & ->).
      rewrite (Hq [] (a :: s) eq_refl _ _ Hm).
      destruct (length (a :: s) - length s') as [|n]; simpl.
      * by rewrite IH.
      * by rewrite IH, take_drop.
    + by rewrite IH.
Qed.

Lemma replaceAll_quiet (r : regex) (f : caps → list ascii) (s : list ascii) :
  allQuiet r f s → replaceAll r f s = s.
Proof. intros H. unfold replaceAll. by rewrite replaceGo_quiet. Qed.

Lemma allQuiet_nil (r : regex) (f : caps → list ascii) :
  quiet r f [] → allQuiet r f [].
Proof. intros H u v Huv. symmetry in Huv. by apply app_nil in Huv as [-> ->]. Qed.

Lemma allQuiet_app (r : regex) (f : caps → list ascii) (u rest : list ascii) :
  quietIn r f u rest → allQuiet r f rest → allQuiet r f (u ++ rest).
Proof.
  intros Hu Hrest u1 v Heq.
  apply app_eq_inv in Heq as [(k & -> & ->)|(k & -> & ->)].
  - destruct k as [|a k].
    + rewrite app_nil_l. by apply (Hrest [] rest).
    + by apply (Hu u1 (a :: k)).
  - by apply (Hrest k v).
Qed.

Lemma quietIn_nil (r : regex) (f : caps → list ascii) (rest : list ascii) :
  quietIn r f [] rest.
Proof. intros u1 u2 Heq Hne. symmetry in Heq. by apply app_nil in Heq as [_ ->]. Qed.

Lemma quietIn_cons (r : regex) (f : caps → list ascii) (a : ascii)
    (u rest : list ascii) :
  quiet r f (a :: u ++ rest) → quietIn r f u rest → quietIn r f (a :: u) rest.
Proof.
  intros Ha Hu [|b u1] u2 Heq Hne.
  - simpl in Heq. by subst u2.
  - injection Heq as -> ->. by apply (Hu u1 u2).
Qed.

Lemma quietIn_app (r : regex) (f : caps → list ascii) (u v rest : list ascii) :
  quietIn r f u (v ++ rest) → quietIn r f v rest → quietIn r f (u ++ v) rest.
Proof.
  intros Hu Hv u1 u2 Heq Hne.
  apply app_eq_inv in Heq as [(k & -> & ->)|(k & -> & ->)].
  - destruct k as [|a k].
    + rewrite app_nil_l. by apply (Hv [] v).
    + rewrite <- app_assoc. by apply (Hu u1 (a :: k)).
  - by apply (Hv k u2).
Qed.

(** Inside a run of characters of a class, the positions are the nonempty
    runs of the class. *)
Lemma quietIn_run (r : regex) (f : caps → list ascii) (p : ascii → bool)
    (u rest : list ascii) :
  Forall (λ a, p a = true) u →
  (∀ a v, p a = true → Forall (λ b, p b = true) v → quiet r f (a :: v ++ rest)) →
  quietIn r f u rest.
Proof.
  intros Hu H u1 u2 -> Hne.
  apply Forall_app in Hu as [_ Hu].
  destruct u2 as [|a v]; [done|]. apply Forall_cons in Hu as [Ha Hv].
  by apply H.
Qed.

End MatcherSound.

(** ** Shapes of matches *)

Section MatchShapes.
  Import Regex RegexSemantics.

Lemma matches_chr p s c s' c' :
  matches (RChr p) s c s' c' → ∃ a, s = a :: s' ∧ p a = true ∧ c' = c.
Proof. inversion 1; subst. by eexists. Qed.

Lemma matches_seq r1 r2 s c s' c' :
  matches (RSeq r1 r2) s c s' c' →
  ∃ s1 c1, matches r1 s c s1 c1 ∧ matches r2 s1 c1 s' c'.
Proof. inversion 1; subst. by eexists _, _. Qed.

Lemma matches_alt r1 r2 s c s' c' :
  matches (RAlt r1 r2) s c s' c' → matches r1 s c s' c' ∨ matches r2 s c s' c'.
Proof. inversion 1; subst; auto. Qed.

Lemma matches_group i r s c s' c' :
  matches (RGroup i r) s c s' c' →
  ∃ c1, matches r s c s' c1
        ∧ c' = setCap i (take (length s - length s') s) c1.
Proof. inversion 1; subst. by eexists. Qed.

Lemma matches_eol s c s' c' :
  matches REol s c s' c' →
  s' = s ∧ c' = c ∧ (s = [] ∨ headIs JS.isLineTerminator s = true).
Proof. inversion 1; subst; auto. Qed.

Lemma matches_end s c s' c' :
  matches REnd s c s' c' → s = [] ∧ s' = [] ∧ c' = c.
Proof. by inversion 1. Qed.

Lemma matches_eps s c s' c' : matches REps s c s' c' → s' = s ∧ c' = c.
Proof. by inversion 1. Qed.

(** An iterated class consumes a run of the class. *)
Lemma matches_star_class p s c s' c' :
  matches (RStar (RChr p)) s c s' c' →
  ∃ w, s = w ++ s' ∧ Forall (λ a, p a = true) w ∧ c' = c.
Proof.
  remember (RStar (RChr p)) as r eqn:Hr. intros H.
  induction H as [| | | | |r0 s c|r0 s c s1 c1 s2 c2 H1 _ Hlt H2 IH| | | |];
    try discriminate Hr.
  - by exists [].
  - injection Hr as ->.
    apply matches_chr in H1 as (a & -> & Ha & ->).
    destruct (IH eq_refl) as (w & -> & Hw & ->).
    exists (a :: w). split; [done|]. split; [by constructor|done].
Qed.

Lemma matches_plus_class p s c s' c' :
  matches (plus (RChr p)) s c s' c' →
  ∃ a w, s = a :: w ++ s' ∧ p a = true ∧ Forall (λ b, p b = true) w ∧ c' = c.
Proof.
  intros (s1 & c1 & (a & -> & Ha & ->)%matches_chr
            & (w & -> & Hw & ->)%matches_star_class)%matches_seq.
  by exists a, w.
Qed.

Lemma matches_lit l s c s' c' :
  matches (lit l) s c s' c' → s = l ++ s' ∧ c' = c.
Proof.
  revert s. induction l as [|a l IH]; intros s; cbn [lit].
  - by intros [-> ->]%matches_eps.
  - intros (s1 & c1 & (b & -> & Hb & ->)%matches_chr & [-> ->]%IH)%matches_seq.
    apply Ascii.eqb_eq in Hb as ->. done.
Qed.

Lemma matches_cardinalitySymbol s c s' c' :
  matches MermaidGeneratorService.cardinalitySymbol s c s' c' →
  c' = c ∧ ∃ sym, s = sym ++ s'
                  ∧ (sym = JS.chars "||" ∨ sym = JS.chars "}o" ∨ sym = JS.chars "o{").
Proof.
  unfold MermaidGeneratorService.cardinalitySymbol.
  intros [H|[H|H]%matches_alt]%matches_alt;
    apply matches_lit in H as [-> ->]; (split; [done|]); eexists; split; eauto.
Qed.

(** Scanners. *)
Lemma dropClass_app p w x :
  Forall (λ a, p a = true) w → dropClass p (w ++ x) = dropClass p x.
Proof. induction 1 as [|a w Ha _ IH]; [done|]. simpl. by rewrite Ha. Qed.

Lemma dropClass_stop p x : headIs p x = false → dropClass p x = x.
Proof. destruct x as [|a x]; [done|]. simpl. by intros ->. Qed.

Lemma dropClass_run p w x :
  Forall (λ a, p a = true) w → headIs p x = false → dropClass p (w ++ x) = x.
Proof. intros Hw Hx. by rewrite dropClass_app, dropClass_stop. Qed.

Lemma headIs_app p a w x : headIs p ((a :: w) ++ x) = p a.
Proof. done. Qed.

(** Two ways of cutting a text after a run of a class agree. *)
Lemma run_unique p u u' x x' :
  Forall (λ a, p a = true) u → Forall (λ a, p a = true) u' →
  headIs p x = false → headIs p x' = false →
  u ++ x = u' ++ x' → u = u' ∧ x = x'.
Proof.
  intros Hu Hu' Hx Hx' Heq.
  assert (x = x') as <-.
  { apply (f_equal (dropClass p)) in Heq.
    by rewrite !dropClass_run in Heq. }
  split; [|done]. by apply app_inv_tail in Heq.
Qed.

Lemma isWord_not_space a : JS.isWord a = true → JS.isSpace a = false.
Proof. destruct a as [[] [] [] [] [] [] [] []]; vm_compute; done. Qed.

Lemma isSpace_not_word a : JS.isSpace a = true → JS.isWord a = false.
Proof. destruct a as [[] [] [] [] [] [] [] []]; vm_compute; done. Qed.

End MatchShapes.

Section FirstCharacter.
  Import Regex RegexSemantics.

Lemma matches_first r s c s' c' :
  matches r s c s' c' →
  (s' = s ∧ nullable r = true) ∨ headIs (first r) s = true.
Proof.
  induction 1 as [p a s c Ha|s c|r1 r2 s c s1 c1 s2 c2 _ IH1 _ IH2
                 |r1 r2 s c s1 c1 _ IH|r1 r2 s c s1 c1 _ IH|r s c
                 |r s c s1 c1 s2 c2 _ IH1 Hlt _ _|i r s c s1 c1 _ IH
                 |c|a s c Ha|c]; cbn [nullable first].
  - by right.
  - by left.
  - destruct IH1 as [[-> Hn1]|Hf1].
    + destruct IH2 as [[-> Hn2]|Hf2].
      * left. by rewrite Hn1, Hn2.
      * right. destruct s as [|a s]; [done|]. simpl in *.
        rewrite Hn1, Hf2. by rewrite orb_true_r.
    + right. destruct s as [|a s]; [done|]. simpl in *. by rewrite Hf1.
  - destruct IH as [[-> Hn]|Hf]; [left; by rewrite Hn|right].
    destruct s as [|a s]; [done|]. simpl in *. by rewrite Hf.
  - destruct IH as [[-> Hn]|Hf]; [left; by rewrite Hn, orb_true_r|right].
    destruct s as [|a s]; [done|]. simpl in *. by rewrite Hf, orb_true_r.
  - by left.
  - destruct IH1 as [[-> _]|Hf]; [lia|by right].
  - destruct IH as [[-> Hn]|Hf]; [by left|by right].
  - by left.
  - by left.
  - by left.
Qed.

(** No match starts with a character outside the first characters. *)
Lemma quiet_first r f s :
  nullable r = false → headIs (first r) s = false → quiet r f s.
Proof.
  intros Hn Hf s' c' [[_ H]|H]%matches_first; congruence.
Qed.

(** A literal replaced by itself. *)
Lemma quiet_lit l s : quiet (lit l) (λ _, l) s.
Proof.
  intros s' c' [-> _]%matches_lit.
  rewrite length_app, Nat.add_sub. by rewrite take_app_length.
Qed.

Lemma allQuiet_lit l s : allQuiet (lit l) (λ _, l) s.
Proof. intros u v _. apply quiet_lit. Qed.

End FirstCharacter.

(** ** Positions of a diagram text *)

Section DiagramPositions.
  Import Regex RegexSemantics DiagramText.

  Variable r : regex.
  Variable f : caps → list ascii.

  Hypothesis quiet_end : quiet r f [].
  Hypothesis quiet_title :
    ∀ rest, afterEntity rest → quietIn r f titleLine rest.
  Hypothesis quiet_header :
    ∀ name rest, isWordRun name → afterAttribute rest →
                 quietIn r f (headerText name) rest.
  Hypothesis quiet_attribute :
    ∀ a rest, wfAttribute a → afterAttribute rest →
              quietIn r f (attributeText a) rest.
  Hypothesis quiet_closing :
    ∀ rest, afterEntity rest → quietIn r f closingLines rest.
  Hypothesis quiet_relationship :
    ∀ rel rest, wfRelationship rel → afterRelationship rest →
                quietIn r f (relationshipText rel) rest.

Lemma allQuiet_relationships rs :
  Forall wfRelationship rs → allQuiet r f (relationshipsText rs).
Proof.
  induction 1 as [|rel rs Hrel Hrs IH].
  - by apply allQuiet_nil.
  - unfold relationshipsText. rewrite fmap_cons. cbn [concat].
    apply allQuiet_app; [|exact IH].
    apply quiet_relationship; [done|]. by exists rs.
Qed.

Lemma allQuiet_attributes attrs rest :
  Forall wfAttribute attrs → afterEntity rest →
  allQuiet r f rest →
  allQuiet r f (attributesText attrs ++ closingLines ++ rest).
Proof.
  intros Hattrs Hrest Hq.
  induction Hattrs as [|a attrs Ha Hattrs IH].
  - change (attributesText [] ++ closingLines ++ rest)
      with (closingLines ++ rest).
    apply allQuiet_app; [by apply quiet_closing|done].
  - unfold attributesText. rewrite fmap_cons. cbn [concat].
    rewrite <- app_assoc.
    apply allQuiet_app; [|exact IH].
    apply quiet_attribute; [done|]. by exists attrs, rest.
Qed.

Lemma allQuiet_body es rs :
  Forall wfEntity es → Forall wfRelationship rs →
  allQuiet r f (bodyText es rs).
Proof.
  intros Hes Hrs. unfold bodyText.
  induction Hes as [|e es [Hname Hattrs] Hes IH].
  - change (concat (entityText <$> []) ++ relationshipsText rs)
      with (relationshipsText rs).
    by apply allQuiet_relationships.
  - rewrite fmap_cons. cbn [concat]. unfold entityText at 1.
    rewrite <- !app_assoc.
    assert (afterEntity (concat (entityText <$> es) ++ relationshipsText rs))
      as Hafter by (by exists es, rs).
    apply allQuiet_app.
    + apply quiet_header; [done|]. by eexists _, _.
    + by apply allQuiet_attributes.
Qed.

Lemma allQuiet_diagram d : wfDiagram d → allQuiet r f (diagramChars d).
Proof.
  intros [Hes Hrs]. unfold diagramChars.
  apply allQuiet_app.
  - apply quiet_title. by eexists _, _.
  - by apply allQuiet_body.
Qed.

End DiagramPositions.

(** ** Characters of words and labels *)

Section Characters.
  Import Regex RegexSemantics DiagramText.

Lemma word_char a :
  JS.isWord a = true →
  JS.isSpace a = false ∧ JS.isNewline a = false
  ∧ Ascii.eqb "}" a = false ∧ Ascii.eqb "{" a = false
  ∧ Ascii.eqb ":" a = false ∧ Ascii.eqb "|" a = false
  ∧ Ascii.eqb "034" a = false ∧ Ascii.eqb a "}" = false.
Proof. destruct a as [[] [] [] [] [] [] [] []]; vm_compute; intuition congruence. Qed.

Lemma label_char a :
  labelChar a = true →
  JS.isNewline a = false ∧ JS.isLineTerminator a = false
  ∧ Ascii.eqb "}" a = false ∧ Ascii.eqb "{" a = false
  ∧ Ascii.eqb ":" a = false ∧ Ascii.eqb "|" a = false
  ∧ Ascii.eqb "034" a = false ∧ Ascii.eqb a "034" = false
  ∧ Ascii.eqb a "}" = false.
Proof. destruct a as [[] [] [] [] [] [] [] []]; vm_compute; intuition congruence. Qed.

Lemma quietIn_none r f u rest :
  nullable r = false → Forall (λ a, first r a = false) u → quietIn r f u rest.
Proof.
  intros Hn Hu u1 u2 -> Hne. apply Forall_app in Hu as [_ Hu].
  destruct u2 as [|a u2]; [done|]. apply Forall_cons in Hu as [Ha _].
  by apply quiet_first.
Qed.

Lemma quiet_nil r f : nullable r = false → quiet r f [].
Proof. intros Hn. by apply quiet_first. Qed.

(** The matched text, when the text is the match followed by the rest. *)
Lemma take_matched (pre s' : list ascii) :
  take (length (pre ++ s') - length s') (pre ++ s') = pre.
Proof. rewrite length_app, Nat.add_sub. by rewrite take_app_length. Qed.

End Characters.

(** A text none of whose characters can start the pattern. *)
Ltac no_start Hword Hlabel :=
  repeat first
    [ apply Forall_nil_2
    | apply Forall_cons; split; [vm_compute; reflexivity|]
    | apply Forall_app; split
    | match goal with
      | H : DiagramText.isWordRun ?w |- Forall _ ?w =>
          eapply Forall_impl; [exact (proj2 H)|];
          let a := fresh "a" in let Ha := fresh "Ha" in
          intros a Ha; simpl in Ha; apply Hword, Ha
      | H : Forall (λ a, DiagramText.labelChar a = true) ?w |- Forall _ ?w =>
          eapply Forall_impl; [exact H|];
          let a := fresh "a" in let Ha := fresh "Ha" in
          intros a Ha; simpl in Ha; apply Hlabel, Ha
      end ].

(** Walks along a text, closing the positions at which the pattern cannot
    start and leaving the others. *)
Ltac walk Hword Hlabel :=
  repeat first
    [ apply quietIn_nil
    | apply quietIn_none; [reflexivity|solve [no_start Hword Hlabel]]
    | apply quietIn_cons;
      [ try (apply quiet_first;
             [reflexivity|cbn [RegexSemantics.headIs app]; vm_compute; reflexivity])
      | ]
    | apply quietIn_app ].

Ltac flatten := cbn [app]; repeat (rewrite <- app_assoc; cbn [app]).

Ltac walk0 :=
  repeat first
    [ apply quietIn_nil
    | apply quietIn_cons;
      [ try (apply quiet_first;
             [reflexivity|cbn [RegexSemantics.headIs app]; vm_compute; reflexivity])
      | ]
    | apply quietIn_app ].

(** ** The label substitutions *)

Section Labels.
  Import Regex RegexSemantics DiagramText MermaidGeneratorService.

Lemma reQuotedLabel_shape s c s' c' :
  matches reQuotedLabel s c s' c' →
  ∃ sp l, s = ":"%char :: sp ++ "034"%char :: l ++ "034"%char :: s'
          ∧ Forall (λ a, JS.isSpace a = true) sp
          ∧ Forall (λ a, notQuote a = true) l
          ∧ c' 1 = l.
Proof.
  unfold reQuotedLabel.
  intros (s1 & c1 & (a & -> & Ha & ->)%matches_chr & H)%matches_seq.
  apply Ascii.eqb_eq in Ha as <-.
  apply matches_seq in H as (s2 & c2 & (sp & -> & Hsp & ->)%matches_star_class & H).
  apply matches_seq in H as (s3 & c3 & (a & -> & Ha & ->)%matches_chr & H).
  apply Ascii.eqb_eq in Ha as <-.
  apply matches_seq in H as (s4 & c4 & H4 & H).
  apply matches_group in H4 as (c5 & (l & -> & Hl & ->)%matches_star_class & ->).
  apply matches_seq in H as (s5 & c6 & (a & -> & Ha & ->)%matches_chr & H).
  apply Ascii.eqb_eq in Ha as <-.
  apply matches_eol in H as (-> & -> & _).
  exists sp, l. split; [done|]. split; [done|]. split; [done|].
  unfold setCap. cbn [Nat.eqb]. rewrite length_app, Nat.add_sub.
  by rewrite take_app_length.
Qed.

Lemma reBareLabel_shape s c s' c' :
  matches reBareLabel s c s' c' →
  ∃ sp a l, s = ":"%char :: sp ++ a :: l ++ s'
            ∧ Forall (λ a, JS.isSpace a = true) sp
            ∧ Forall (λ a, notQuote a = true) (a :: l)
            ∧ (s' = [] ∨ headIs JS.isLineTerminator s' = true).
Proof.
  unfold reBareLabel.
  intros (s1 & c1 & (a & -> & Ha & ->)%matches_chr & H)%matches_seq.
  apply Ascii.eqb_eq in Ha as <-.
  apply matches_seq in H as (s2 & c2 & (sp & -> & Hsp & ->)%matches_star_class & H).
  apply matches_seq in H as (s3 & c3 & H3 & H).
  apply matches_group in H3 as (c5 & (a & l & -> & Ha & Hl & ->)%matches_plus_class & ->).
  apply matches_eol in H as (-> & -> & Hend).
  exists sp, a, l. split; [done|]. split; [done|]. split; [|done].
  constructor.
  - unfold notQuote. by destruct (Ascii.eqb a "034").
  - eapply Forall_impl; [exact Hl|]. intros b Hb. simpl in Hb.
    unfold notQuote. by destruct (Ascii.eqb b "034").
Qed.

Lemma label_notQuote l :
  Forall (λ a, labelChar a = true) l → Forall (λ a, notQuote a = true) l.
Proof.
  intros H. eapply Forall_impl; [exact H|]. intros a Ha. simpl in Ha.
  unfold notQuote. apply label_char in Ha.
  destruct Ha as (_ & _ & _ & _ & _ & _ & _ & -> & _). done.
Qed.

(** At the colon of a relationship line, the quoted label is replaced by
    itself. *)
Lemma quiet_quoted_colon label rest :
  Forall (λ a, labelChar a = true) label →
  quiet reQuotedLabel quotedLabel
    (":"%char :: " "%char :: "034"%char :: label ++ "034"%char :: "010"%char :: rest).
Proof.
  intros Hl%label_notQuote s' c' (sp & l & Heq & Hsp & Hl' & Hc)%reQuotedLabel_shape.
  injection Heq as Heq.
  apply (run_unique JS.isSpace [" "%char] sp) in Heq as [<- Heq];
    [|by repeat constructor|done|done|done].
  injection Heq as Heq.
  apply (run_unique notQuote label l) in Heq as [<- Heq]; [|done..].
  injection Heq as <-.
  unfold quotedLabel. rewrite Hc.
  assert (∀ x, ":"%char :: " "%char :: "034"%char :: label ++ "034"%char :: x
               = (":"%char :: " "%char :: "034"%char :: label ++ ["034"%char]) ++ x)
    as Hs by (intros x; simpl; by rewrite <- app_assoc).
  by rewrite Hs, take_matched.
Qed.

(** ... and the pattern of unquoted labels does not match. *)
Lemma quiet_bare_colon f label rest :
  Forall (λ a, labelChar a = true) label →
  quiet reBareLabel f
    (":"%char :: " "%char :: "034"%char :: label ++ "034"%char :: "010"%char :: rest).
Proof.
  intros Hl s' c' (sp & a & l & Heq & Hsp & Hal & Hend)%reBareLabel_shape.
  exfalso. injection Heq as Heq.
  apply Forall_cons in Hal as [Ha Hl'].
  destruct sp as [|b [|b' sp]]; simpl in Heq.
  - injection Heq as <- Heq.
    destruct l as [|b l]; simpl in Heq.
    + subst s'. by destruct Hend.
    + injection Heq as <- _. by apply Forall_cons in Hl' as [? _].
  - injection Heq as <- <- _. done.
  - injection Heq as <- <- _.
    by apply Forall_cons in Hsp as [_ [? _]%Forall_cons].
Qed.

Lemma first_label_word (r : regex) a :
  (r = reQuotedLabel ∨ r = reBareLabel) →
  JS.isWord a = true → first r a = false.
Proof.
  intros [-> | ->]; destruct a as [[] [] [] [] [] [] [] []]; vm_compute; congruence.
Qed.

Lemma first_label_label (r : regex) a :
  (r = reQuotedLabel ∨ r = reBareLabel) →
  labelChar a = true → first r a = false.
Proof.
  intros [-> | ->]; destruct a as [[] [] [] [] [] [] [] []]; vm_compute; congruence.
Qed.

(** The two label substitutions leave a diagram text alone. *)
Lemma allQuiet_label (r : regex) f d :
  (r = reQuotedLabel ∧ f = quotedLabel) ∨ r = reBareLabel →
  wfDiagram d → allQuiet r f (diagramChars d).
Proof.
  intros Hr.
  assert (r = reQuotedLabel ∨ r = reBareLabel) as Hr' by tauto.
  assert (nullable r = false) as Hn by (by destruct Hr' as [-> | ->]).
  assert (∀ a, JS.isWord a = true → first r a = false) as Hw
    by (intros; by apply first_label_word).
  assert (∀ a, labelChar a = true → first r a = false) as Hl
    by (intros; by apply first_label_label).
  apply allQuiet_diagram.
  - by apply quiet_nil.
  - intros rest _. apply quietIn_none; [done|].
    destruct Hr' as [-> | ->]; vm_compute; repeat constructor.
  - intros name rest Hname _. apply quietIn_none; [done|].
    unfold headerText. clear Hr. destruct Hr' as [-> | ->]; no_start Hw Hl.
  - intros a rest (Hty & Hna & Hkey) _. apply quietIn_none; [done|].
    unfold attributeText. clear Hr.
    destruct Hkey as [-> | [-> | ->]]; destruct Hr' as [-> | ->]; no_start Hw Hl.
  - intros rest _. apply quietIn_none; [done|].
    clear Hr. destruct Hr' as [-> | ->]; vm_compute; repeat constructor.
  - intros rel rest (Hsrc & Htgt & Hss & Hts & Hlab) _.
    unfold relationshipText.
    destruct Hr as [[-> ->] | ->]; destruct Hss as [-> | ->]; destruct Hts as [-> | ->];
      cbn [JS.chars String.list_ascii_of_string app]; walk Hw Hl;
      cbn [app]; rewrite <- app_assoc; cbn [app];
      first [by apply quiet_quoted_colon | by apply quiet_bare_colon].
Qed.

End Labels.


(** ** The operator substitutions *)

Section Operators.
  Import Regex RegexSemantics DiagramText MermaidGeneratorService.

Lemma reOperator_shape sep s c s' c' :
  isSeparator sep → matches (reOperator sep) s c s' c' → operatorStart s = true.
Proof.
  intros Hsep. unfold reOperator.
  intros (s1 & c1 & H1 & H)%matches_seq.
  apply matches_group in H1 as (c2 & (-> & sym & -> & Hsym)%matches_cardinalitySymbol & ->).
  apply matches_seq in H as (s2 & c3 & [-> ->]%matches_lit & _).
  destruct Hsym as [-> | [-> | ->]]; destruct Hsep as [-> | [-> | ->]]; reflexivity.
Qed.

Lemma quiet_operator sep f s :
  isSeparator sep → operatorStart s = false → quiet (reOperator sep) f s.
Proof.
  intros Hsep Hs s' c' Hm%reOperator_shape; [congruence|done].
Qed.

(** Inside a word or a label that is not followed by an opening brace. *)
Lemma quiet_operator_run sep f (p : ascii → bool) a v x :
  isSeparator sep →
  (∀ b, p b = true →
        Ascii.eqb b "|" = false ∧ Ascii.eqb b "}" = false ∧ Ascii.eqb b "{" = false) →
  p a = true → Forall (λ b, p b = true) v →
  headIs (λ b, Ascii.eqb b "{") x = false →
  quiet (reOperator sep) f (a :: v ++ x).
Proof.
  intros Hsep Hp Ha Hv Hx. apply quiet_operator; [done|].
  destruct (Hp a Ha) as (Ha1 & Ha2 & _).
  unfold operatorStart.
  destruct (v ++ x) as [|b y] eqn:E; [done|].
  rewrite Ha1, Ha2. cbn [andb orb].
  assert (Ascii.eqb b "{" = false) as ->; [|by rewrite andb_false_r].
  destruct v as [|b' v]; simpl in E.
  - subst x. exact Hx.
  - injection E as -> _. apply Forall_cons in Hv as [Hb _].
    by destruct (Hp b Hb) as (_ & _ & ?).
Qed.

Lemma word_operator b :
  JS.isWord b = true →
  Ascii.eqb b "|" = false ∧ Ascii.eqb b "}" = false ∧ Ascii.eqb b "{" = false.
Proof. destruct b as [[] [] [] [] [] [] [] []]; vm_compute; intuition congruence. Qed.

Lemma label_operator b :
  labelChar b = true →
  Ascii.eqb b "|" = false ∧ Ascii.eqb b "}" = false ∧ Ascii.eqb b "{" = false.
Proof. destruct b as [[] [] [] [] [] [] [] []]; vm_compute; intuition congruence. Qed.

Lemma quietIn_operator_word sep f w x :
  isSeparator sep → isWordRun w →
  headIs (λ b, Ascii.eqb b "{") x = false →
  quietIn (reOperator sep) f w x.
Proof.
  intros Hsep [_ Hw] Hx. apply (quietIn_run _ _ JS.isWord); [done|].
  intros a v Ha Hv. by apply (quiet_operator_run sep f JS.isWord), Hx; [|apply word_operator|..].
Qed.

Lemma quietIn_operator_label sep f l x :
  isSeparator sep → Forall (λ a, labelChar a = true) l →
  headIs (λ b, Ascii.eqb b "{") x = false →
  quietIn (reOperator sep) f l x.
Proof.
  intros Hsep Hl Hx. apply (quietIn_run _ _ labelChar); [done|].
  intros a v Ha Hv. by apply (quiet_operator_run sep f labelChar), Hx; [|apply label_operator|..].
Qed.

End Operators.

Ltac operator_positions Hsep :=
  first
    [ apply quietIn_operator_word; [exact Hsep|assumption|reflexivity]
    | apply quietIn_operator_label; [exact Hsep|assumption|reflexivity]
    | apply quiet_operator; [exact Hsep|vm_compute; reflexivity] ].

Section OperatorsQuiet.
  Import Regex RegexSemantics DiagramText MermaidGeneratorService.

(** The operator substitutions leave a diagram text alone. *)
Lemma allQuiet_operator sep f d :
  isSeparator sep → wfDiagram d → allQuiet (reOperator sep) f (diagramChars d).
Proof.
  intros Hsep.
  assert (nullable (reOperator sep) = false) as Hn by done.
  apply allQuiet_diagram.
  - by apply quiet_nil.
  - intros rest _. unfold titleLine.
    cbn [JS.chars String.list_ascii_of_string app].
    destruct Hsep as [-> | [-> | ->]]; walk0.
  - intros name rest Hname _. unfold headerText.
    cbn [JS.chars String.list_ascii_of_string app].
    pose proof Hsep as Hsep'.
    destruct Hsep as [-> | [-> | ->]]; walk0;
      operator_positions Hsep'.
  - intros a rest (Hty & Hna & Hkey) _. unfold attributeText.
    pose proof Hsep as Hsep'.
    destruct Hkey as [-> | [-> | ->]]; destruct Hsep as [-> | [-> | ->]];
      cbn [JS.chars String.list_ascii_of_string app];
      walk0; operator_positions Hsep'.
  - intros rest _. unfold closingLines.
    cbn [JS.chars String.list_ascii_of_string app].
    pose proof Hsep as Hsep'.
    destruct Hsep as [-> | [-> | ->]]; walk0;
      operator_positions Hsep'.
  - intros rel rest (Hsrc & Htgt & Hss & Hts & Hlab) _.
    unfold relationshipText.
    pose proof Hsep as Hsep'.
    destruct Hss as [-> | ->]; destruct Hts as [-> | ->];
      destruct Hsep as [-> | [-> | ->]];
      cbn [JS.chars String.list_ascii_of_string app];
      walk0; operator_positions Hsep'.
Qed.

End OperatorsQuiet.

(** ** Runs of word characters and of white space *)

Section Runs.
  Import Regex RegexSemantics DiagramText.

Lemma word_head w x : isWordRun w → headIs JS.isWord (w ++ x) = true.
Proof. intros [Hne Hw]. destruct w as [|a w]; [done|]. by apply Forall_cons in Hw as [? _]. Qed.

Lemma word_head_space w x : isWordRun w → headIs JS.isSpace (w ++ x) = false.
Proof.
  intros [Hne Hw]. destruct w as [|a w]; [done|].
  apply Forall_cons in Hw as [Ha _]. by apply isWord_not_space.
Qed.

Lemma word_head_brace w x : isWordRun w → headIs (Ascii.eqb "{") (w ++ x) = false.
Proof.
  intros [Hne Hw]. destruct w as [|a w]; [done|].
  apply Forall_cons in Hw as [Ha _]. by apply word_char in Ha as (_ & _ & _ & ? & _).
Qed.

Lemma dropWord w x :
  isWordRun w → headIs JS.isWord x = false → dropClass JS.isWord (w ++ x) = x.
Proof. intros [_ Hw] Hx. by apply dropClass_run. Qed.

Lemma dropSpace sp x :
  Forall (λ a, JS.isSpace a = true) sp → headIs JS.isSpace x = false →
  dropClass JS.isSpace (sp ++ x) = x.
Proof. apply dropClass_run. Qed.

Lemma spaces_head_word sp x :
  Forall (λ a, JS.isSpace a = true) sp → headIs JS.isWord x = false →
  headIs JS.isWord (sp ++ x) = false.
Proof.
  intros Hsp Hx. destruct sp as [|a sp]; [done|].
  apply Forall_cons in Hsp as [Ha _]. by apply isSpace_not_word.
Qed.

End Runs.

(** ** The substitution between adjacent blocks *)

Section AdjacentBlocks.
  Import Regex RegexSemantics DiagramText MermaidGeneratorService.

Lemma reAdjacentBlocks_shape s c s' c' :
  matches reAdjacentBlocks s c s' c' →
  ∃ sp w sp', s = "}"%char :: sp ++ w ++ sp' ++ "{"%char :: s'
              ∧ Forall (λ a, JS.isSpace a = true) sp
              ∧ isWordRun w
              ∧ Forall (λ a, JS.isSpace a = true) sp'
              ∧ c' 1 = w.
Proof.
  unfold reAdjacentBlocks.
  intros (s1 & c1 & (a & -> & Ha & ->)%matches_chr & H)%matches_seq.
  apply Ascii.eqb_eq in Ha as <-.
  apply matches_seq in H as (s2 & c2 & (sp & -> & Hsp & ->)%matches_star_class & H).
  apply matches_seq in H as (s3 & c3 & H3 & H).
  apply matches_group in H3 as (c4 & (a & w & -> & Ha & Hw & ->)%matches_plus_class & ->).
  apply matches_seq in H as (s4 & c5 & (sp' & -> & Hsp' & ->)%matches_star_class & H).
  apply matches_chr in H as (b & -> & Hb & ->).
  apply Ascii.eqb_eq in Hb as <-.
  exists sp, (a :: w), sp'. split; [done|]. split; [done|].
  split; [split; [done|by constructor]|]. split; [done|].
  unfold setCap. cbn [Nat.eqb].
  change (a :: w ++ sp' ++ "{"%char :: s') with ((a :: w) ++ sp' ++ "{"%char :: s').
  rewrite length_app, Nat.add_sub. by rewrite take_app_length.
Qed.

Lemma reAdjacentBlocks_scan s c s' c' :
  matches reAdjacentBlocks s c s' c' → adjacentBlocks s = true.
Proof.
  intros (sp & w & sp' & -> & Hsp & Hw & Hsp' & _)%reAdjacentBlocks_shape.
  unfold adjacentBlocks. cbn [Ascii.eqb Bool.eqb andb].
  rewrite (dropSpace sp) by (done || by apply word_head_space).
  rewrite word_head by done.
  rewrite dropWord; [|done|by apply spaces_head_word].
  by rewrite (dropSpace sp').
Qed.

Lemma quiet_adjacent f s : adjacentBlocks s = false → quiet reAdjacentBlocks f s.
Proof. intros Hs s' c' Hm%reAdjacentBlocks_scan. congruence. Qed.

(** After the closing brace of a block: the next header is replaced by
    itself, and nothing else matches. *)
Lemma quiet_adjacent_header name x :
  isWordRun name →
  quiet reAdjacentBlocks separated
    ("}"%char :: "010"%char :: "010"%char :: headerText name ++ x).
Proof.
  intros Hname s' c' (sp & w & sp' & Heq & Hsp & Hw & Hsp' & Hc)%reAdjacentBlocks_shape.
  injection Heq as Heq. unfold headerText in Heq. rewrite <- !app_assoc in Heq.
  apply (run_unique JS.isSpace ["010"; "010"; " "; " "; " "; " "]%char sp
           (name ++ [" "; "{"; "010"]%char ++ x)) in Heq as [<- Heq];
    [|by repeat constructor|done|by apply word_head_space..].
  apply (run_unique JS.isWord) in Heq as [<- Heq];
    [|apply Hname|apply Hw|done|by apply spaces_head_word].
  apply (run_unique JS.isSpace [" "%char] sp' ("{"%char :: "010"%char :: x))
    in Heq as [<- Heq]; [|by repeat constructor|done|done|done].
  injection Heq as <-.
  unfold separated. rewrite Hc. unfold headerText.
  assert (∀ y, "}"%char :: "010"%char :: "010"%char
                 :: (JS.chars "    " ++ name ++ [" "; "{"; "010"]%char) ++ y
               = (JS.chars ("}" +:+ JS.nl +:+ JS.nl +:+ "    ") ++ name ++ JS.chars " {")
                   ++ "010"%char :: y) as Hs.
  { intros y. cbn [JS.chars String.list_ascii_of_string app].
    rewrite <- !app_assoc. done. }
  by rewrite Hs, take_matched.
Qed.

Lemma quiet_adjacent_relationship f rel x :
  wfRelationship rel →
  quiet reAdjacentBlocks f
    ("}"%char :: "010"%char :: "010"%char :: relationshipText rel ++ x).
Proof.
  intros (Hsrc & _ & Hss & _). apply quiet_adjacent.
  unfold adjacentBlocks, relationshipText. cbn [Ascii.eqb Bool.eqb andb].
  rewrite <- !app_assoc.
  change ("010"%char :: "010"%char :: JS.chars "    " ++ ?y)
    with ((["010"; "010"]%char ++ JS.chars "    ") ++ y).
  rewrite dropSpace; [|by repeat constructor|by apply word_head_space].
  rewrite word_head by done.
  rewrite dropWord; [|done|done].
  rewrite dropSpace; [|by repeat constructor|by destruct Hss as [-> | ->]].
  by destruct Hss as [-> | ->].
Qed.

Lemma quiet_adjacent_closing rest :
  afterEntity rest →
  quiet reAdjacentBlocks separated ("}"%char :: "010"%char :: "010"%char :: rest).
Proof.
  intros (es & rs & Hes & Hrs & ->). unfold bodyText.
  destruct Hes as [|e es [Hname _] _].
  - destruct Hrs as [|rel rs Hrel _].
    + by apply quiet_adjacent.
    + unfold relationshipsText. rewrite fmap_cons. cbn [concat app].
      by apply quiet_adjacent_relationship.
  - rewrite fmap_cons. cbn [concat]. unfold entityText at 1.
    rewrite <- !app_assoc. by apply quiet_adjacent_header.
Qed.

Lemma first_adjacent_word a :
  JS.isWord a = true → first reAdjacentBlocks a = false.
Proof. destruct a as [[] [] [] [] [] [] [] []]; vm_compute; congruence. Qed.

Lemma first_adjacent_label a :
  labelChar a = true → first reAdjacentBlocks a = false.
Proof. destruct a as [[] [] [] [] [] [] [] []]; vm_compute; congruence. Qed.

(** The substitution between adjacent blocks leaves a diagram text alone. *)
Lemma allQuiet_adjacent d :
  wfDiagram d → allQuiet reAdjacentBlocks separated (diagramChars d).
Proof.
  apply allQuiet_diagram.
  - by apply quiet_nil.
  - intros rest _. apply quietIn_none; [done|]. vm_compute. repeat constructor.
  - intros name rest Hname _. apply quietIn_none; [done|].
    unfold headerText. no_start first_adjacent_word first_adjacent_label.
  - intros a rest (Hty & Hna & Hkey) _. apply quietIn_none; [done|].
    unfold attributeText.
    destruct Hkey as [-> | [-> | ->]];
      no_start first_adjacent_word first_adjacent_label.
  - intros rest Hrest. unfold closingLines.
    cbn [JS.chars String.list_ascii_of_string app].
    walk0. cbn [app]. by apply quiet_adjacent_closing.
  - intros rel rest (Hsrc & Htgt & Hss & Hts & Hlab) _.
    unfold relationshipText.
    destruct Hss as [-> | ->]; destruct Hts as [-> | ->];
      cbn [JS.chars String.list_ascii_of_string app];
      walk first_adjacent_word first_adjacent_label;
      apply quiet_adjacent; vm_compute; reflexivity.
Qed.

End AdjacentBlocks.

(** ** The substitution before a closing brace *)

Section MissingNewline.
  Import Regex RegexSemantics DiagramText MermaidGeneratorService.

Lemma tailWords_skip k b x :
  JS.isSpace b = true → headIs JS.isSpace x = true →
  tailWords k (b :: x) = tailWords k x.
Proof.
  intros Hb Hx. destruct k; cbn [tailWords dropClass headIs]; rewrite Hb; [done|].
  by rewrite Hx.
Qed.

(** A word after white space counts for one. *)
Lemma tailWords_word k b sp w x :
  JS.isSpace b = true → Forall (λ a, JS.isSpace a = true) sp →
  isWordRun w → headIs JS.isWord x = false →
  tailWords k (b :: sp ++ w ++ x)
  = match k with 0 => false | S k' => tailWords k' x end.
Proof.
  intros Hb Hsp Hw Hx.
  assert (dropClass JS.isSpace (b :: sp ++ w ++ x) = w ++ x) as Hd.
  { change (b :: sp ++ w ++ x) with ((b :: sp) ++ w ++ x).
    apply dropSpace; [by constructor|by apply word_head_space]. }
  destruct k; cbn [tailWords]; rewrite Hd.
  - destruct Hw as [Hne Hw]. destruct w as [|a w]; [done|].
    apply Forall_cons in Hw as [Ha _].
    apply word_char in Ha as (_ & _ & _ & _ & _ & _ & _ & Ha).
    cbn [app]. destruct (w ++ x); [done|]. by rewrite Ha.
  - cbn [headIs]. rewrite Hb, word_head, dropWord by done. done.
Qed.

Lemma tailWords_word_app k sp w x :
  sp ≠ [] → Forall (λ a, JS.isSpace a = true) sp →
  isWordRun w → headIs JS.isWord x = false →
  tailWords k (sp ++ w ++ x)
  = match k with 0 => false | S k' => tailWords k' x end.
Proof.
  intros Hne Hsp Hw Hx. destruct sp as [|b sp]; [done|].
  apply Forall_cons in Hsp as [Hb Hsp]. by apply tailWords_word.
Qed.

Lemma tailWords_word1 k b w x :
  JS.isSpace b = true → isWordRun w → headIs JS.isWord x = false →
  tailWords k (b :: w ++ x)
  = match k with 0 => false | S k' => tailWords k' x end.
Proof. intros Hb Hw Hx. by apply (tailWords_word k b []). Qed.

(** The end of an attribute line: the key, if any, and the line break. *)
Lemma key_blocked k key rest :
  key = JS.chars "PK" ∨ key = JS.chars "FK" ∨ key = [] →
  (∀ k, tailWords k ("010"%char :: rest) = false) →
  tailWords k (" "%char :: key ++ "010"%char :: rest) = false.
Proof.
  intros [-> | [-> | ->]] Hrest.
  - rewrite tailWords_word1; [|done|by split; [|repeat constructor]|done].
    by destruct k.
  - rewrite tailWords_word1; [|done|by split; [|repeat constructor]|done].
    by destruct k.
  - cbn [app]. by rewrite tailWords_skip.
Qed.

Lemma name_blocked k name key rest :
  isWordRun name →
  key = JS.chars "PK" ∨ key = JS.chars "FK" ∨ key = [] →
  (∀ k, tailWords k ("010"%char :: rest) = false) →
  tailWords k (" "%char :: name ++ " "%char :: key ++ "010"%char :: rest) = false.
Proof.
  intros Hname Hkey Hrest.
  rewrite tailWords_word1; [|done|done|done].
  destruct k; [done|]. by apply key_blocked.
Qed.

Lemma reMissingNewline_shape s c s' c' :
  matches reMissingNewline s c s' c' → threeWords s = true.
Proof.
  unfold reMissingNewline.
  intros (s1 & c1 & H1 & H)%matches_seq.
  apply matches_group in H1 as (c2 & H1 & ->).
  apply matches_seq in H1 as (t1 & d1 & (a1 & w1 & -> & Ha1 & Hw1 & ->)%matches_plus_class & H1).
  apply matches_seq in H1 as (t2 & d2 & (b1 & p1 & -> & Hb1 & Hp1 & ->)%matches_plus_class & H1).
  apply matches_seq in H1 as (t3 & d3 & (a2 & w2 & -> & Ha2 & Hw2 & ->)%matches_plus_class & H1).
  apply matches_seq in H1 as (t4 & d4 & (b2 & p2 & -> & Hb2 & Hp2 & ->)%matches_plus_class & H1).
  apply matches_plus_class in H1 as (a3 & w3 & -> & Ha3 & Hw3 & ->).
  apply matches_seq in H as (s2 & c3 & (p3 & -> & Hp3 & ->)%matches_star_class & H).
  apply matches_seq in H as (s3 & c4 & (b & -> & Hb & ->)%matches_chr & H).
  apply Ascii.eqb_eq in Hb as <-.
  apply matches_group in H as (c5 & (a4 & w4 & -> & Ha4 & _ & ->)%matches_plus_class & ->).
  unfold threeWords. cbn [headIs]. rewrite Ha1. cbn [andb].
  change (a1 :: w1 ++ ?x) with ((a1 :: w1) ++ x).
  rewrite dropWord; [|split; [done|by constructor]|by apply isSpace_not_word].
  change (a2 :: w2 ++ ?x) with ([a2] ++ w2 ++ x).
  change (a3 :: w3 ++ ?x) with ([a3] ++ w3 ++ x).
  rewrite (app_assoc [a2]), (app_assoc [a3]).
  rewrite tailWords_word; [|done|done|split; [done|by constructor]
                           |by apply isSpace_not_word].
  rewrite tailWords_word; [|done|done|split; [done|by constructor]|].
  - cbn [tailWords]. rewrite dropSpace by done. by rewrite Ha4.
  - apply spaces_head_word; done.
Qed.

Lemma quiet_three f s : threeWords s = false → quiet reMissingNewline f s.
Proof. intros Hs s' c' Hm%reMissingNewline_shape. congruence. Qed.

(** Inside a word that is followed by [x]. *)
Lemma quietIn_three_word f w x :
  Forall (λ a, JS.isWord a = true) w →
  headIs JS.isWord x = false → tailWords 2 x = false →
  quietIn reMissingNewline f w x.
Proof.
  intros Hw Hx Ht. apply (quietIn_run _ _ JS.isWord); [done|].
  intros a v Ha Hv. apply quiet_three. unfold threeWords.
  change (a :: v ++ x) with ((a :: v) ++ x).
  rewrite dropWord; [|split; [done|by constructor]|done].
  by rewrite Ht, andb_false_r.
Qed.

(** What stops the scan: the first character that is neither of a word nor
    white space. *)
Lemma dropClass_within (p q : ascii → bool) s :
  (∀ a, p a = true → q a = true) →
  dropClass q (dropClass p s) = dropClass q s.
Proof.
  intros Hpq. induction s as [|a s IH]; [done|]. cbn [dropClass].
  destruct (p a) eqn:Ea; [|done]. by rewrite IH, (Hpq a Ea).
Qed.

Lemma tailWords_blocker k s :
  tailWords k s = true →
  headIs (λ b, Ascii.eqb b "}") (dropClass wordOrSpace s) = true.
Proof.
  assert (∀ a, JS.isWord a = true → wordOrSpace a = true) as Hw
    by (intros a Ha; unfold wordOrSpace; by rewrite Ha).
  assert (∀ a, JS.isSpace a = true → wordOrSpace a = true) as Hs
    by (intros a Ha; unfold wordOrSpace; by rewrite Ha, orb_true_r).
  revert s. induction k as [|k IH]; intros s; cbn [tailWords].
  - rewrite <- (dropClass_within JS.isSpace wordOrSpace s) by done.
    destruct (dropClass JS.isSpace s) as [|a [|b y]]; [done..|].
    intros [Ha Hb]%andb_true_iff. apply Ascii.eqb_eq in Ha as ->. done.
  - intros [_ H]%andb_true_iff. apply IH in H.
    by rewrite !dropClass_within in H.
Qed.

Lemma threeWords_blocker s :
  threeWords s = true →
  headIs (λ b, Ascii.eqb b "}") (dropClass wordOrSpace s) = true.
Proof.
  unfold threeWords. intros [_ H%tailWords_blocker]%andb_true_iff.
  rewrite dropClass_within in H; [done|].
  intros a Ha. unfold wordOrSpace. by rewrite Ha.
Qed.

Lemma label_blocker l x :
  Forall (λ a, labelChar a = true) l →
  headIs (λ b, Ascii.eqb b "}") (dropClass wordOrSpace (l ++ "034"%char :: x)) = false.
Proof.
  induction 1 as [|a l Ha _ IH]; [done|].
  cbn [app dropClass]. destruct (wordOrSpace a); [done|].
  cbn [headIs]. by apply label_char in Ha as (_ & _ & _ & _ & _ & _ & _ & _ & ?).
Qed.

Lemma quietIn_three_label f l x :
  Forall (λ a, labelChar a = true) l →
  quietIn reMissingNewline f l ("034"%char :: x).
Proof.
  intros Hl. apply (quietIn_run _ _ labelChar); [done|].
  intros a v Ha Hv. apply quiet_three.
  destruct (threeWords _) eqn:E; [|done].
  apply threeWords_blocker in E.
  change (a :: v ++ "034"%char :: x) with ((a :: v) ++ "034"%char :: x) in E.
  rewrite label_blocker in E; [done|by constructor].
Qed.

End MissingNewline.

Section MissingNewlineQuiet.
  Import Regex RegexSemantics DiagramText MermaidGeneratorService.

(** From the end of a header or of an attribute line, the scan is stopped
    by the closing brace of the block, which a line break follows. *)
Lemma attributes_blocked rest :
  afterAttribute rest → ∀ k, tailWords k ("010"%char :: rest) = false.
Proof.
  intros (attrs & rest' & Hattrs & _ & ->).
  induction Hattrs as [|a attrs (Hty & Hna & Hkey) _ IH]; intros k.
  - destruct k; reflexivity.
  - unfold attributesText. rewrite fmap_cons. cbn [concat].
    fold (attributesText attrs). rewrite <- app_assoc.
    set (R := attributesText attrs ++ closingLines ++ rest') in *.
    unfold attributeText. rewrite <- !app_assoc.
    rewrite (tailWords_word k "010" (JS.chars "        ")); [|done|by repeat constructor|done|done].
    destruct k as [|k]; [done|].
    cbn [JS.chars String.list_ascii_of_string app].
    by apply name_blocked.
Qed.

(** From the title, the scan meets two words at most. *)
Lemma body_blocked rest :
  afterEntity rest → tailWords 2 ("010"%char :: rest) = false.
Proof.
  intros (es & rs & Hes & Hrs & ->). unfold bodyText.
  destruct Hes as [|e es [Hname _] _].
  - change (concat (entityText <$> []) ++ relationshipsText rs)
      with (relationshipsText rs).
    destruct Hrs as [|rel rs (Hsrc & _ & Hss & _) _]; [reflexivity|].
    unfold relationshipsText. rewrite fmap_cons. cbn [concat].
    unfold relationshipText at 1. rewrite <- !app_assoc.
    rewrite (tailWords_word 2 "010" (JS.chars "    ")); [|done|by repeat constructor|done|done].
    by destruct Hss as [-> | ->].
  - rewrite fmap_cons. cbn [concat]. unfold entityText at 1, headerText.
    rewrite <- !app_assoc.
    rewrite (tailWords_word 2 "010" (JS.chars "    ")); [|done|by repeat constructor|done|done].
    reflexivity.
Qed.

(** The substitution before a closing brace leaves a diagram text alone. *)
Lemma allQuiet_three f d :
  wfDiagram d → allQuiet reMissingNewline f (diagramChars d).
Proof.
  apply allQuiet_diagram.
  - by apply quiet_nil.
  - intros rest Hrest. unfold titleLine. apply quietIn_app.
    + apply quietIn_three_word; [by repeat constructor|done|].
      by apply body_blocked.
    + walk0.
  - intros name rest Hname Hrest. unfold headerText.
    cbn [JS.chars String.list_ascii_of_string app]. walk0.
    apply quietIn_three_word; [apply Hname|done|reflexivity].
  - intros a rest (Hty & Hna & Hkey) Hrest. unfold attributeText.
    pose proof (attributes_blocked rest Hrest) as Hblocked.
    cbn [JS.chars String.list_ascii_of_string app]. walk0; flatten.
    + apply quietIn_three_word; [apply Hty|done|]. by apply name_blocked.
    + apply quietIn_three_word; [apply Hna|done|]. by apply key_blocked.
    + apply quietIn_three_word; [|done|apply Hblocked].
      destruct Hkey as [-> | [-> | ->]]; by repeat constructor.
  - intros rest _. unfold closingLines.
    cbn [JS.chars String.list_ascii_of_string app]. walk0.
  - intros rel rest (Hsrc & Htgt & Hss & Hts & Hlab) _.
    unfold relationshipText.
    destruct Hss as [-> | ->]; destruct Hts as [-> | ->];
      cbn [JS.chars String.list_ascii_of_string app]; walk0;
      first [ apply quietIn_three_word; [apply Hsrc|done|reflexivity]
            | apply quietIn_three_word; [apply Htgt|done|reflexivity]
            | by apply quietIn_three_label
            | apply quiet_three; vm_compute; reflexivity ].
Qed.

End MissingNewlineQuiet.

(** ** Lines *)

Section Lines.
  Import Regex RegexSemantics DiagramText.

Lemma joinLines_cons l ls :
  ls ≠ [] → JS.joinLines (l :: ls) = l ++ "010"%char :: JS.joinLines ls.
Proof. by destruct ls. Qed.

Lemma splitLines_nonempty s : JS.splitLines s ≠ [].
Proof.
  induction s as [|a s IH]; [done|]. simpl.
  destruct (JS.isNewline a); [done|]. by destruct (JS.splitLines s).
Qed.

(** Joining the lines of a text gives the text back. *)
Lemma joinLines_splitLines s : JS.joinLines (JS.splitLines s) = s.
Proof.
  induction s as [|a s IH]; [done|]. cbn [JS.splitLines].
  destruct (JS.isNewline a) eqn:Ea.
  - rewrite joinLines_cons by apply splitLines_nonempty.
    rewrite IH. cbn [app]. f_equal.
    destruct a as [[] [] [] [] [] [] [] []]; vm_compute in Ea; congruence.
  - pose proof (splitLines_nonempty s) as Hne.
    destruct (JS.splitLines s) as [|l ls]; [done|].
    destruct ls as [|l' ls].
    + simpl in *. by rewrite IH.
    + rewrite joinLines_cons in IH by done.
      rewrite joinLines_cons by done. cbn [app]. by rewrite IH.
Qed.

Lemma splitLines_line l rest :
  Forall (λ a, JS.isNewline a = false) l →
  JS.splitLines (l ++ "010"%char :: rest) = l :: JS.splitLines rest.
Proof.
  induction 1 as [|a l Ha _ IH]; [done|].
  cbn [app JS.splitLines]. by rewrite Ha, IH.
Qed.

Lemma word_no_newline w :
  Forall (λ a, JS.isWord a = true) w → Forall (λ a, JS.isNewline a = false) w.
Proof.
  intros H. eapply Forall_impl; [exact H|]. intros a Ha. simpl in Ha.
  by apply word_char in Ha as (_ & ? & _).
Qed.

Lemma label_no_newline l :
  Forall (λ a, labelChar a = true) l → Forall (λ a, JS.isNewline a = false) l.
Proof.
  intros H. eapply Forall_impl; [exact H|]. intros a Ha. simpl in Ha.
  by apply label_char in Ha as (? & _).
Qed.

Lemma attributeText_line a : attributeText a = attributeLine a ++ ["010"%char].
Proof. unfold attributeText, attributeLine. by rewrite <- !app_assoc. Qed.

Lemma headerText_line name : headerText name = headerLine name ++ ["010"%char].
Proof. unfold headerText, headerLine. by rewrite <- !app_assoc. Qed.

Lemma relationshipText_line r :
  relationshipText r = relationshipLine r ++ ["010"%char].
Proof. unfold relationshipText, relationshipLine. by rewrite <- !app_assoc. Qed.

Lemma diagramLine_no_newline l :
  diagramLine l → Forall (λ a, JS.isNewline a = false) l.
Proof.
  destruct 1 as [| | |name [_ Hname]|a ([_ Hty] & [_ Hna] & Hkey)
                |r ([_ Hsrc] & [_ Htgt] & Hss & Hts & Hlab)].
  - by repeat constructor.
  - constructor.
  - by repeat constructor.
  - unfold headerLine. repeat (apply Forall_app; split);
      first [by apply word_no_newline | by repeat constructor].
  - unfold attributeLine. repeat (apply Forall_app; split);
      first [by apply word_no_newline | by repeat constructor | idtac].
    destruct Hkey as [-> | [-> | ->]]; by repeat constructor.
  - unfold relationshipLine. repeat (apply Forall_app; split);
      first [by apply word_no_newline | by apply label_no_newline
            | by repeat constructor | idtac].
    + destruct Hss as [-> | ->]; by repeat constructor.
    + destruct Hts as [-> | ->]; by repeat constructor.
Qed.

Lemma splitLines_diagramLine l rest :
  diagramLine l →
  JS.splitLines (l ++ "010"%char :: rest) = l :: JS.splitLines rest.
Proof. intros H. by apply splitLines_line, diagramLine_no_newline. Qed.

(** The lines of a diagram text are diagram lines. *)
Lemma relationships_lines rs :
  Forall wfRelationship rs →
  Forall diagramLine (JS.splitLines (relationshipsText rs)).
Proof.
  induction 1 as [|r rs Hr _ IH].
  - repeat constructor.
  - unfold relationshipsText. rewrite fmap_cons. cbn [concat].
    rewrite relationshipText_line, <- app_assoc. cbn [app].
    rewrite splitLines_diagramLine by (by constructor).
    constructor; [by constructor|exact IH].
Qed.

Lemma attributes_lines attrs rest :
  Forall wfAttribute attrs →
  Forall diagramLine (JS.splitLines rest) →
  Forall diagramLine (JS.splitLines (attributesText attrs ++ closingLines ++ rest)).
Proof.
  intros Hattrs Hrest. induction Hattrs as [|a attrs Ha _ IH].
  - change (attributesText [] ++ closingLines ++ rest)
      with (JS.chars "    }" ++ "010"%char :: [] ++ "010"%char :: rest).
    rewrite splitLines_diagramLine by constructor.
    rewrite splitLines_diagramLine by constructor.
    repeat constructor. exact Hrest.
  - unfold attributesText. rewrite fmap_cons. cbn [concat].
    fold (attributesText attrs).
    rewrite attributeText_line, <- !app_assoc. cbn [app].
    rewrite splitLines_diagramLine by (by constructor).
    constructor; [by constructor|exact IH].
Qed.

Lemma body_lines es rs :
  Forall wfEntity es → Forall wfRelationship rs →
  Forall diagramLine (JS.splitLines (bodyText es rs)).
Proof.
  intros Hes Hrs. unfold bodyText.
  induction Hes as [|e es [Hname Hattrs] _ IH].
  - by apply relationships_lines.
  - rewrite fmap_cons. cbn [concat]. unfold entityText at 1.
    rewrite headerText_line, <- !app_assoc. cbn [app].
    rewrite splitLines_diagramLine by (by constructor).
    constructor; [by constructor|].
    by apply attributes_lines.
Qed.

Lemma diagram_lines d :
  wfDiagram d → Forall diagramLine (JS.splitLines (diagramChars d)).
Proof.
  intros [Hes Hrs]. unfold diagramChars, titleLine.
  rewrite <- app_assoc. cbn [app].
  rewrite splitLines_diagramLine by constructor.
  constructor; [constructor|]. by apply body_lines.
Qed.

End Lines.

(** ** One line at a time *)

Section MatchExtension.
  Import Regex RegexSemantics.

Lemma matches_consumed r s c s' c' :
  matches r s c s' c' → ∃ u, s = u ++ s'.
Proof.
  induction 1 as [p a s c Ha|s c|r1 r2 s c s1 c1 s2 c2 _ IH1 _ IH2
                 |r1 r2 s c s1 c1 _ IH|r1 r2 s c s1 c1 _ IH|r s c
                 |r s c s1 c1 s2 c2 _ IH1 Hlt _ IH2|i r s c s1 c1 _ IH
                 |c|a s c Ha|c];
    try (by exists []); try done.
  - by exists [a].
  - destruct IH1 as [u1 ->], IH2 as [u2 ->]. exists (u1 ++ u2). by rewrite app_assoc.
  - destruct IH1 as [u1 ->], IH2 as [u2 ->]. exists (u1 ++ u2). by rewrite app_assoc.
Qed.

(** A match of a pattern without the dollar is a match in any longer text. *)
Lemma matches_extend r s c s' c' y :
  anchorFree r = true → matches r s c s' c' → matches r (s ++ y) c (s' ++ y) c'.
Proof.
  intros Hr H. revert Hr.
  induction H as [p a s c Ha|s c|r1 r2 s c s1 c1 s2 c2 _ IH1 _ IH2
                 |r1 r2 s c s1 c1 _ IH|r1 r2 s c s1 c1 _ IH|r s c
                 |r s c s1 c1 s2 c2 _ IH1 Hlt H2 IH2|i r s c s1 c1 H IH
                 |c|a s c Ha|c]; cbn [anchorFree]; intros Hr; try done.
  - by constructor.
  - constructor.
  - apply andb_true_iff in Hr as [Hr1 Hr2]. eapply MSeq; eauto.
  - apply andb_true_iff in Hr as [Hr1 Hr2]. apply MAltL; eauto.
  - apply andb_true_iff in Hr as [Hr1 Hr2]. apply MAltR; eauto.
  - constructor.
  - eapply MStarStep; [by apply IH1| |by apply IH2].
    rewrite !length_app. lia.
  - destruct (matches_consumed _ _ _ _ _ H) as [u ->].
    replace (take (length (u ++ s1) - length s1) (u ++ s1))
      with (take (length ((u ++ s1) ++ y) - length (s1 ++ y)) ((u ++ s1) ++ y)).
    + constructor. by apply IH.
    + rewrite <- app_assoc, (take_matched u (s1 ++ y)), (take_matched u s1). done.
Qed.

Lemma allQuiet_suffix r f u v : allQuiet r f (u ++ v) → allQuiet r f v.
Proof. intros H u1 v1 ->. apply (H (u ++ u1) v1). by rewrite app_assoc. Qed.

Lemma allQuiet_prefix r f u v :
  anchorFree r = true → allQuiet r f (u ++ v) → allQuiet r f u.
Proof.
  intros Hr H u1 x -> s' c' Hm.
  destruct (matches_consumed _ _ _ _ _ Hm) as [w ->].
  pose proof (matches_extend _ _ _ _ _ v Hr Hm) as Hm'.
  apply (H u1 ((w ++ s') ++ v)) in Hm'; [|by rewrite <- !app_assoc].
  rewrite Hm'. rewrite <- app_assoc, (take_matched w (s' ++ v)).
  by rewrite take_matched.
Qed.

End MatchExtension.

Section LinePass.
  Import Regex RegexSemantics DiagramText MermaidGeneratorService.

Lemma spaceOperators_quiet s :
  (∀ sep, isSeparator sep → allQuiet (reOperator sep) spacedOperator s) →
  spaceOperators s = s.
Proof.
  intros H. unfold spaceOperators.
  rewrite (replaceAll_quiet (reOperator doubleDash)) by (apply H; by left).
  rewrite (replaceAll_quiet (reOperator singleDash)) by (apply H; right; by left).
  by rewrite (replaceAll_quiet (reOperator emDash)) by (apply H; right; by right).
Qed.

(** The six substitutions leave a diagram text alone. *)
Lemma substitute_diagram d :
  wfDiagram d → substitute (diagramChars d) = diagramChars d.
Proof.
  intros Hd. unfold substitute.
  rewrite (replaceAll_quiet reMissingNewline) by (by apply allQuiet_three).
  rewrite (replaceAll_quiet reAdjacentBlocks) by (by apply allQuiet_adjacent).
  rewrite spaceOperators_quiet by (intros; by apply allQuiet_operator).
  rewrite (replaceAll_quiet reBareLabel) by (apply allQuiet_label; [by right|done]).
  rewrite (replaceAll_quiet reQuotedLabel) by (apply allQuiet_label; [by left|done]).
  rewrite (replaceAll_quiet (lit (JS.chars "}o"))) by apply allQuiet_lit.
  by rewrite (replaceAll_quiet (lit (JS.chars "o{"))) by apply allQuiet_lit.
Qed.

Lemma allQuiet_operator_entity sep name attrs :
  isSeparator sep → isWordRun name → Forall wfAttribute attrs →
  allQuiet (reOperator sep) spacedOperator
    (headerText name ++ attributesText attrs ++ closingLines).
Proof.
  intros Hsep Hname Hattrs.
  pose proof (allQuiet_operator sep spacedOperator
                (mkDiagram [mkEntity name attrs] []) Hsep) as H.
  unfold diagramChars, bodyText, entityText in H.
  cbn [entities relationships entName entAttributes fmap list_fmap concat
         relationshipsText] in H.
  rewrite !app_nil_r in H.
  apply (allQuiet_suffix _ _ titleLine), H.
  split; [|constructor]. constructor; [by split|constructor].
Qed.

Lemma allQuiet_operator_relationship sep r :
  isSeparator sep → wfRelationship r →
  allQuiet (reOperator sep) spacedOperator (relationshipText r).
Proof.
  intros Hsep Hr.
  pose proof (allQuiet_operator sep spacedOperator (mkDiagram [] [r]) Hsep) as H.
  unfold diagramChars, bodyText, relationshipsText in H.
  cbn [entities relationships fmap list_fmap concat app] in H.
  rewrite app_nil_r in H.
  apply (allQuiet_suffix _ _ titleLine), H.
  split; [constructor|]. constructor; [done|constructor].
Qed.

(** The operator substitutions leave each line of a diagram alone. *)
Lemma spaceOperators_line l : diagramLine l → spaceOperators l = l.
Proof.
  intros Hl. apply spaceOperators_quiet. intros sep Hsep.
  assert (anchorFree (reOperator sep) = true) as Hfree
    by (by destruct Hsep as [-> | [-> | ->]]).
  assert (isWordRun (JS.chars "x")) as Hx by (by split; [|repeat constructor]).
  destruct Hl as [| | |name Hname|a Ha|r Hr].
  - apply (allQuiet_prefix _ _ _ ["010"%char]); [done|].
    apply (allQuiet_operator sep _ (mkDiagram [] [])); [done|by split].
  - apply allQuiet_nil, quiet_nil. by destruct Hsep as [-> | [-> | ->]].
  - apply (allQuiet_prefix _ _ _ ["010"; "010"]%char); [done|].
    apply (allQuiet_suffix _ _ (headerText (JS.chars "x"))).
    apply (allQuiet_operator_entity sep (JS.chars "x") []); [done..|constructor].
  - apply (allQuiet_prefix _ _ _ ("010"%char :: closingLines)); [done|].
    pose proof (allQuiet_operator_entity sep name [] Hsep Hname) as H.
    rewrite headerText_line, <- app_assoc in H. apply H. constructor.
  - apply (allQuiet_prefix _ _ _ ("010"%char :: closingLines)); [done|].
    apply (allQuiet_suffix _ _ (headerText (JS.chars "x"))).
    pose proof (allQuiet_operator_entity sep (JS.chars "x") [a] Hsep Hx) as H.
    unfold attributesText in H. cbn [fmap list_fmap concat] in H.
    rewrite app_nil_r, attributeText_line, <- !app_assoc in H.
    apply H. constructor; [done|constructor].
  - apply (allQuiet_prefix _ _ _ ["010"%char]); [done|].
    rewrite <- relationshipText_line.
    by apply allQuiet_operator_relationship.
Qed.

Lemma prefixb_app_l xs ys l :
  JS.prefixb xs ys = true → JS.prefixb xs (ys ++ l) = true.
Proof.
  revert ys. induction xs as [|x xs IH]; intros [|y ys]; simpl; try done.
  intros [-> H]%andb_true_iff. by rewrite IH.
Qed.

Lemma trimStart_dropClass l : JS.trimStart l = dropClass JS.isSpace l.
Proof. induction l as [|a l IH]; [done|]. simpl. by rewrite IH. Qed.

(** Trimming removes the indentation of a line that ends with a visible
    character. *)
Lemma trimChars_core sp x :
  Forall (λ a, JS.isSpace a = true) sp →
  headIs JS.isSpace x = false → headIs JS.isSpace (reverse x) = false →
  JS.trimChars (sp ++ x) = x.
Proof.
  intros Hsp Hx Hr. unfold JS.trimChars. rewrite !trimStart_dropClass.
  rewrite dropSpace by done. rewrite dropClass_stop by done.
  apply reverse_involutive.
Qed.

Lemma reAttribute_shape s c s' c' :
  matches reAttribute s c s' c' → attributeStart s = true.
Proof.
  unfold reAttribute.
  intros (s1 & c1 & (sp & -> & Hsp & ->)%matches_star_class & H)%matches_seq.
  apply matches_seq in H as (s2 & c2 & (a1 & w1 & -> & Ha1 & Hw1 & ->)%matches_plus_class & H).
  apply matches_seq in H as (s3 & c3 & (b1 & p1 & -> & Hb1 & Hp1 & ->)%matches_plus_class & H).
  apply matches_plus_class in H as (a2 & w2 & -> & Ha2 & Hw2 & ->).
  unfold attributeStart.
  rewrite dropSpace; [|done|by apply isWord_not_space].
  cbn [headIs]. rewrite Ha1.
  change (a1 :: w1 ++ ?x) with ((a1 :: w1) ++ x).
  rewrite dropWord; [|split; [done|by constructor]|by apply isSpace_not_word].
  cbn [headIs]. rewrite Hb1.
  change (b1 :: p1 ++ ?x) with ((b1 :: p1) ++ x).
  rewrite dropSpace; [|by constructor|by apply isWord_not_space].
  cbn [headIs]. by rewrite Ha2.
Qed.

Lemma testAnchored_attribute s :
  attributeStart s = false → testAnchored reAttribute s = false.
Proof.
  intros Hs. unfold testAnchored.
  destruct (matchHere reAttribute s) as [[n c]|] eqn:E; [|done].
  apply matchHere_sound in E as (s' & Hm%reAttribute_shape & _). congruence.
Qed.

(** A line that is indented already and that the operator substitutions
    leave alone is left alone. *)
Lemma formatLine_indented prev line :
  JS.prefixb indent4 line = true →
  JS.prefixb indent8 line = true
  ∨ testAnchored reAttribute (JS.trimChars line) = false →
  spaceOperators line = line →
  formatLine prev line = line.
Proof.
  intros H4 H8 Hop. unfold formatLine.
  rewrite H4. cbn [negb]. rewrite andb_false_r.
  rewrite H4. cbn [negb]. rewrite andb_false_r.
  assert ((testAnchored reAttribute (JS.trimChars line)
           && negb (JS.prefixb indent8 line)) = false) as ->.
  { destruct H8 as [-> | ->]; [by rewrite andb_false_r|done]. }
  rewrite H4. cbn [negb]. rewrite Hop.
  by destruct (testAnchored reRelationship _).
Qed.

Lemma formatLine_line prev l : diagramLine l → formatLine prev l = l.
Proof.
  intros Hl. pose proof (spaceOperators_line l Hl) as Hop.
  destruct Hl as [| | |name Hname|a Ha|r (Hsrc & Htgt & Hss & Hts & Hlab)].
  - vm_compute. reflexivity.
  - vm_compute. reflexivity.
  - vm_compute. reflexivity.
  - apply formatLine_indented; [by apply prefixb_app_l| |done].
    right. apply testAnchored_attribute.
    unfold headerLine. rewrite trimChars_core;
      [|by repeat constructor|by apply word_head_space
       |by rewrite reverse_app].
    unfold attributeStart.
    rewrite (dropClass_stop JS.isSpace) by (by apply word_head_space).
    rewrite word_head, dropWord by done. reflexivity.
  - apply formatLine_indented; [by apply prefixb_app_l| |done].
    left. by apply prefixb_app_l.
  - apply formatLine_indented; [by apply prefixb_app_l| |done].
    right. apply testAnchored_attribute.
    unfold relationshipLine. rewrite trimChars_core;
      [|by repeat constructor|by apply word_head_space
       |by rewrite !reverse_app].
    unfold attributeStart.
    rewrite (dropClass_stop JS.isSpace) by (by apply word_head_space).
    rewrite word_head, dropWord by done.
    by destruct Hss as [-> | ->].
Qed.

Lemma formatLines_lines prev ls :
  Forall diagramLine ls → formatLines prev ls = ls.
Proof.
  intros H. revert prev. induction H as [|l ls Hl _ IH]; intros prev; [done|].
  cbn [formatLines]. by rewrite formatLine_line, IH.
Qed.

Lemma autoFormatChars_diagram d :
  wfDiagram d → autoFormatChars (diagramChars d) = diagramChars d.
Proof.
  intros Hd. unfold autoFormatChars.
  destruct (diagramChars d) as [|a s] eqn:E; [done|]. rewrite <- E.
  rewrite substitute_diagram by done.
  rewrite formatLines_lines by (by apply diagram_lines).
  apply joinLines_splitLines.
Qed.

End LinePass.

(** C8 (as amended).  The auto-formatter of the Mermaid generator service
    returns every well-formed diagram text unchanged: the title line, entity
    blocks of a header, attribute lines and a closing brace followed by an
    empty line, then relationship lines with spaced operators and quoted
    labels.  Such a text is therefore output of the formatter, and
    formatting it any number of times gives the same text. *)
Theorem autoFormat_fixes_diagram_text (d : DiagramText.diagram) :
  DiagramText.wfDiagram d →
  MermaidGeneratorService.autoFormatMermaidSyntax (DiagramText.diagramText d)
  = DiagramText.diagramText d
  ∧ MermaidGeneratorService.autoFormatMermaidSyntax
      (MermaidGeneratorService.autoFormatMermaidSyntax (DiagramText.diagramText d))
    = MermaidGeneratorService.autoFormatMermaidSyntax (DiagramText.diagramText d).
Proof.
  intros Hd.
  assert (MermaidGeneratorService.autoFormatMermaidSyntax (DiagramText.diagramText d)
          = DiagramText.diagramText d) as H.
  { unfold MermaidGeneratorService.autoFormatMermaidSyntax, DiagramText.diagramText.
    by rewrite chars_str, autoFormatChars_diagram. }
  by rewrite !H.
Qed.

Lemma autoFormat_fixes_diagram_text_witness :
  MermaidGeneratorService.autoFormatMermaidSyntax
    (DiagramText.diagramText DiagramText.sampleDiagram)
  = DiagramText.diagramText DiagramText.sampleDiagram.
Proof.
  apply (autoFormat_fixes_diagram_text DiagramText.sampleDiagram).
  split.
  - repeat constructor; try done; right; by right.
  - repeat constructor; try done; by right.
Defined.

(** What the formatter does with [||-||-||]: a substitution under the g
    flag does not see a match that overlaps the previous one, so the second
    operator is spaced only when the text is formatted again. *)
Lemma autoFormat_output_is_reformatted :
  MermaidGeneratorService.autoFormatMermaidSyntax "||-||-||" = "|| -- ||-||"
  ∧ MermaidGeneratorService.autoFormatMermaidSyntax "|| -- ||-||" = "|| -- || -- ||".
Proof. split; vm_compute; reflexivity. Qed.

(** C8 as stated fails: the text that the formatter returns for
    [||-||-||] is changed when it is formatted again. *)
Lemma autoFormat_not_idempotent :
  ¬ fixesItsOutput MermaidGeneratorService.autoFormatMermaidSyntax.
Proof. intros H. specialize (H "||-||-||"). vm_compute in H. discriminate H. Qed.

(** The copy of the formatter in the export controller is not idempotent
    either: removing [required] can uncover another [required]. *)
Lemma controller_autoFormat_output_is_reformatted :
  ExportControllerMermaid.autoFormatMermaidSyntax " requi requiredred" = " required"
  ∧ ExportControllerMermaid.autoFormatMermaidSyntax " required" = "".
Proof. split; vm_compute; reflexivity. Qed.

Lemma controller_autoFormat_not_idempotent :
  ¬ fixesItsOutput ExportControllerMermaid.autoFormatMermaidSyntax.
Proof. intros H. specialize (H " requi requiredred"). vm_compute in H. discriminate H. Qed.

(** ** The text that the generator writes is a well-formed diagram text *)

Section SanitizedNames.
  Import Regex RegexSemantics DiagramText MermaidGeneratorService.

Lemma replaceAll_none r f s :
  nullable r = false → Forall (λ a, first r a = false) s → replaceAll r f s = s.
Proof.
  intros Hn Hs. apply replaceAll_quiet.
  rewrite <- (app_nil_r s). apply allQuiet_app.
  - by apply quietIn_none.
  - by apply allQuiet_nil, quiet_nil.
Qed.

Lemma matchHere_group_class i p a s :
  matchHere (RGroup i (RChr p)) (a :: s)
  = if p a then Some (1, setCap i [a] noCaps) else None.
Proof.
  unfold matchHere. cbn [rmatch]. destruct (p a); [|done].
  replace (length (a :: s) - length s) with 1 by (simpl; lia). done.
Qed.

(** Replacing the characters of a captured class one by one. *)
Lemma replaceAll_group_class i p f s :
  replaceAll (RGroup i (RChr p)) f s
  = concat ((λ a, if p a then f (setCap i [a] noCaps) else [a]) <$> s).
Proof.
  unfold replaceAll. induction s as [|a s IH]; [done|].
  cbn [replaceGo]. rewrite matchHere_group_class, fmap_cons. cbn [concat].
  destruct (p a); by rewrite IH.
Qed.

Lemma search_class p s : search (RChr p) s = existsb p s.
Proof.
  induction s as [|a s IH]; [done|]. cbn [search existsb].
  rewrite matchHere_class. destruct (p a); [done|]. by rewrite IH.
Qed.

Lemma lower_word a : JS.isWord a = true → JS.isWord (JS.lowerChar a) = true.
Proof. destruct a as [[] [] [] [] [] [] [] []]; vm_compute; congruence. Qed.

Lemma lower_of_upper_word a : JS.isUpper a = true → JS.isWord (JS.lowerChar a) = true.
Proof. destruct a as [[] [] [] [] [] [] [] []]; vm_compute; congruence. Qed.

Lemma isWordRun_lower w : isWordRun w → isWordRun (JS.lowerChar <$> w).
Proof.
  intros [Hne Hw]. split.
  - by destruct w.
  - apply Forall_fmap. eapply Forall_impl; [exact Hw|].
    intros a Ha. by apply lower_word.
Qed.

Lemma isWordRun_app w w' :
  isWordRun w → Forall (λ a, JS.isWord a = true) w' → isWordRun (w ++ w').
Proof.
  intros [Hne Hw] Hw'. split; [by destruct w|by apply Forall_app].
Qed.

(** The upper-case letters of a name, each replaced by an underscore and
    the lower-case letter. *)
Lemma split_upper_word s :
  Forall (λ a, JS.isWord a = true) s →
  let t := concat ((λ a, if JS.isUpper a
                         then "_"%char :: (JS.lowerChar <$> setCap 1 [a] noCaps 1)
                         else [a]) <$> s) in
  Forall (λ a, JS.isWord a = true) t
  ∧ length s + (if existsb JS.isUpper s then 1 else 0) ≤ length t.
Proof.
  induction 1 as [|a s Ha Hs [IH1 IH2]]; [by split|].
  rewrite fmap_cons. cbn [concat existsb]. cbv zeta in *.
  destruct (JS.isUpper a) eqn:Ea; cbn [orb].
  - change (setCap 1 [a] noCaps 1) with [a]. split.
    + constructor; [done|]. constructor; [by apply lower_of_upper_word|done].
    + cbn [fmap list_fmap app length]. destruct (existsb JS.isUpper s); lia.
  - split; [by constructor|]. cbn [app length]. lia.
Qed.

Lemma replaceAnchored_underscore t :
  replaceAnchored (chr "_") (λ _, []) t
  = match t with a :: t' => if Ascii.eqb "_" a then t' else t | [] => [] end.
Proof.
  unfold replaceAnchored, chr. destruct t as [|a t']; [done|].
  rewrite matchHere_class. by destruct (Ascii.eqb "_" a).
Qed.

(** A sanitized name is a word. *)
Lemma sanitizeName_word n : isWordRun (JS.chars (sanitizeName n)).
Proof.
  unfold sanitizeName.
  destruct (JS.truthy n) eqn:Hn; cbn [negb]; [|by split; [|repeat constructor]].
  rewrite replaceAll_class_map.
  set (s1 := (λ a, if negb (JS.isWord a) then "_"%char else a) <$> JS.chars (tmpl n)).
  assert (Forall (λ a, JS.isWord a = true) s1) as Hs1.
  { apply Forall_fmap, Forall_true. intros a. simpl.
    by destruct (JS.isWord a) eqn:E. }
  assert (s1 ≠ []) as Hne1.
  { unfold s1. destruct n as [n|]; [|done]. simpl in Hn.
    destruct n; [done|]. done. }
  set (s2 := if search _ s1 then _ else s1).
  assert (isWordRun s2) as Hs2.
  { unfold s2. rewrite search_class.
    destruct (existsb JS.isUpper s1) eqn:Eu; [|done].
    rewrite replaceAll_group_class, replaceAnchored_underscore.
    destruct (split_upper_word s1 Hs1) as [Hw Hlen]. cbv zeta in Hw, Hlen.
    rewrite Eu in Hlen.
    match goal with
    | |- isWordRun (match ?x with _ => _ end) => destruct x as [|a t] eqn:Et
    end.
    { simpl in Hlen. lia. }
    apply Forall_cons in Hw as [Ha Ht].
    destruct (Ascii.eqb "_" a); [|by split; [|constructor]].
    split; [|done]. destruct t; [|done]. simpl in Hlen.
    destruct s1; [done|]. simpl in Hlen. lia. }
  match goal with
  | |- isWordRun (JS.chars (if ?b then _ else _)) => destruct b
  end.
  - rewrite chars_app, chars_str. apply isWordRun_app; [done|].
    by repeat constructor.
  - by rewrite chars_str.
Qed.

Lemma sanitizeName_lower_word n :
  isWordRun (JS.chars (JS.toLowerCase (sanitizeName n))).
Proof. rewrite toLowerCase_chars. apply isWordRun_lower, sanitizeName_word. Qed.

Lemma mapDataType_word dt : isWordRun (JS.chars (mapDataType dt)).
Proof.
  unfold mapDataType.
  repeat match goal with
         | |- context [if ?b then _ else _] => destruct b
         end; by split; [|repeat constructor].
Qed.

Lemma cardinalities_symbols r :
  ((cardinalities r).1 = "||" ∨ (cardinalities r).1 = "}o")
  ∧ ((cardinalities r).2 = "||" ∨ (cardinalities r).2 = "o{").
Proof.
  unfold cardinalities.
  destruct (Relationship.cardinality r) as [c|].
  - cbn [fst snd].
    destruct (optStrEq (Cardinality.source c) "many"),
             (optStrEq (Cardinality.target c) "many"); auto.
  - repeat match goal with
           | |- context [if ?b then _ else _] => destruct b
           end; cbn [fst snd]; auto.
Qed.

End SanitizedNames.

Section GeneratedText.
  Import Regex RegexSemantics DiagramText MermaidGeneratorService GeneratedDiagram.

Lemma chars_concat (l : list string) :
  JS.chars (String.concat "" l) = concat (JS.chars <$> l).
Proof.
  induction l as [|x l IH]; [done|].
  rewrite fmap_cons. cbn [concat]. rewrite <- IH.
  destruct l as [|y l].
  - simpl. by rewrite app_nil_r.
  - change (String.concat "" (x :: y :: l))
      with (x +:+ "" +:+ String.concat "" (y :: l)).
    by rewrite !chars_app.
Qed.

Lemma concat_omap {A B} (g : A → option B) (h : B → list ascii) (l : list A) :
  concat ((λ x, match g x with Some y => h y | None => [] end) <$> l)
  = concat (h <$> omap g l).
Proof.
  induction l as [|x l IH]; [done|].
  rewrite fmap_cons. cbn [concat omap list_omap]. rewrite IH.
  by destruct (g x).
Qed.

Lemma attributeLine_text suffix c :
  JS.chars (MermaidGeneratorService.attributeLine
              (mapDataType (Column.dataType c))
              (sanitizeName (Some (Column.name c))) suffix)
  = attributeText (attributeOf suffix c).
Proof. unfold MermaidGeneratorService.attributeLine. by rewrite !chars_app. Qed.

Lemma attributeLines_text suffix cols :
  JS.chars (String.concat ""
              ((λ c, MermaidGeneratorService.attributeLine
                       (mapDataType (Column.dataType c))
                       (sanitizeName (Some (Column.name c))) suffix) <$> cols))
  = attributesText (attributeOf suffix <$> cols).
Proof.
  rewrite chars_concat. unfold attributesText. rewrite <- !list_fmap_compose.
  f_equal. apply list_fmap_ext. intros i c _. apply attributeLine_text.
Qed.

Lemma generateEntityDefinition_text t :
  JS.chars (generateEntityDefinition t)
  = match entityOf t with Some e => entityText e | None => [] end.
Proof.
  unfold generateEntityDefinition, entityOf.
  destruct (String.eqb (Table.name t) ""); [done|].
  unfold entityText, headerText, closingLines. cbn [entName entAttributes].
  unfold attributesOf, attributesText.
  rewrite !fmap_app, !concat_app.
  fold (attributesText
          (attributeOf "FK" <$>
             List.filter (λ c, negb (Column.isPrimaryKey c) && Column.isForeignKey c)
               (Table.columns t))).
  fold (attributesText
          (attributeOf "" <$>
             List.filter (λ c, negb (Column.isPrimaryKey c) && negb (Column.isForeignKey c))
               (Table.columns t))).
  rewrite <- !attributeLines_text.
  change [" "; "{"; "010"]%char with (JS.chars " {" ++ JS.chars JS.nl).
  change ["010"; "010"]%char with (JS.chars JS.nl ++ JS.chars JS.nl).
  rewrite !chars_app, <- !app_assoc.
  do 4 f_equal. f_equal.
  destruct (List.filter Column.isPrimaryKey (Table.columns t)) as [|c cs].
  - unfold MermaidGeneratorService.attributeLine. rewrite !chars_app.
    cbn [fmap list_fmap concat]. by rewrite app_nil_r.
  - by rewrite attributeLines_text.
Qed.

Lemma generateRelationshipDefinition_text r :
  Forall (λ a, labelChar a = true) (JS.chars (labelOf r)) →
  JS.chars (generateRelationshipDefinition r)
  = match relationshipOf r with Some x => relationshipText x | None => [] end.
Proof.
  intros Hlabel. unfold generateRelationshipDefinition, relationshipOf, drawn.
  destruct (JS.truthy (Relationship.sourceEntity r)); [|done].
  destruct (JS.truthy (Relationship.targetEntity r)); [|done].
  cbn [negb orb andb].
  destruct (cardinalities r) as [sc tc]. cbn [fst snd].
  unfold relationshipText. cbn [relSource relSourceSymbol relTargetSymbol relTarget relLabel].
  unfold strReplaceAll. fold (labelOf r).
  rewrite (replaceAll_none (chr "034")); [|done|].
  - change [" "; ":"; " "; "034"]%char with (JS.chars " : " ++ JS.chars JS.dq).
    change ["034"; "010"]%char with (JS.chars JS.dq ++ JS.chars JS.nl).
    by rewrite str_chars, !chars_app, <- ?app_assoc.
  - eapply Forall_impl; [exact Hlabel|]. intros a Ha. simpl in Ha.
    by apply label_char in Ha as (_ & _ & _ & _ & _ & _ & ? & _).
Qed.

(** The text that the generator writes, as a diagram text. *)
Lemma emitDiagram_text schema :
  plainLabels schema →
  emitDiagram schema = diagramText (diagramOf schema).
Proof.
  intros Hplain. apply chars_inj.
  unfold emitDiagram, diagramText, diagramOf, diagramChars, bodyText.
  rewrite chars_str, !chars_app, !chars_concat, <- !list_fmap_compose.
  cbn [entities relationships].
  rewrite <- (concat_omap entityOf entityText).
  unfold relationshipsText. rewrite <- (concat_omap relationshipOf relationshipText).
  unfold titleLine. rewrite <- app_assoc.
  change ["010"%char] with (JS.chars JS.nl).
  do 2 f_equal. f_equal.
  - f_equal. apply list_fmap_ext. intros i t _. apply generateEntityDefinition_text.
  - f_equal. apply Forall_fmap_ext_1, Forall_forall. intros r Hr.
    simpl. destruct (drawn r) eqn:Hd.
    + apply generateRelationshipDefinition_text. by apply Hplain.
    + unfold generateRelationshipDefinition, relationshipOf. rewrite Hd.
      unfold drawn in Hd.
      destruct (JS.truthy (Relationship.sourceEntity r)); [|done].
      by destruct (JS.truthy (Relationship.targetEntity r)).
Qed.

Lemma attributeOf_wf suffix c :
  suffix = "PK" ∨ suffix = "FK" ∨ suffix = "" → wfAttribute (attributeOf suffix c).
Proof.
  intros Hs. split; [apply mapDataType_word|]. split; [apply sanitizeName_word|].
  cbn [attrKey attributeOf]. destruct Hs as [-> | [-> | ->]]; auto.
Qed.

Lemma attributesOf_wf cols : Forall wfAttribute (attributesOf cols).
Proof.
  unfold attributesOf. repeat (apply Forall_app; split).
  - destruct (List.filter Column.isPrimaryKey cols) as [|c cs].
    + constructor; [|constructor].
      split; [by split; [|repeat constructor]|].
      split; [apply sanitizeName_word|by left].
    + apply Forall_fmap, Forall_true. intros c'. apply attributeOf_wf. by left.
  - apply Forall_fmap, Forall_true. intros c'. apply attributeOf_wf. right. by left.
  - apply Forall_fmap, Forall_true. intros c'. apply attributeOf_wf. right. by right.
Qed.

Lemma diagramOf_wf schema : plainLabels schema → wfDiagram (diagramOf schema).
Proof.
  intros Hplain. split; apply Forall_forall.
  - intros e (t & _ & He)%list_elem_of_omap. unfold entityOf in He.
    destruct (String.eqb (Table.name t) ""); [done|]. injection He as <-.
    split; [apply sanitizeName_lower_word|apply attributesOf_wf].
  - intros x (r & Hr & Hx)%list_elem_of_omap. unfold relationshipOf in Hx.
    destruct (drawn r) eqn:Hd; [|done]. injection Hx as <-.
    destruct (cardinalities_symbols r) as [Hs Ht].
    split; [apply sanitizeName_lower_word|].
    split; [apply sanitizeName_lower_word|].
    cbn [relSourceSymbol relTargetSymbol relLabel].
    split; [by destruct Hs as [-> | ->]; auto|].
    split; [by destruct Ht as [-> | ->]; auto|].
    by apply Hplain.
Qed.

(** X25.  The formatter leaves the text that the generator hands to it
    alone: for every schema whose relationship names hold no double quote,
    colon, bar, brace or line break, formatting the text built from the
    entity blocks and the relationship lines returns this text. *)
Theorem autoFormat_fixes_generated_text schema :
  plainLabels schema →
  autoFormatMermaidSyntax (emitDiagram schema) = emitDiagram schema.
Proof.
  intros Hplain. rewrite emitDiagram_text by done.
  unfold autoFormatMermaidSyntax, diagramText.
  rewrite chars_str, autoFormatChars_diagram; [done|].
  by apply diagramOf_wf.
Qed.

End GeneratedText.

(** For the schema of Author and Book with one relationship, the generator
    writes a text that the formatter returns unchanged. *)
Lemma autoFormat_fixes_author_book :
  let schema :=
    SchemaGenerator.generateSchema [Samples.author; Samples.book]
      [NormalizerSpec.writes false] Samples.noOptions "2024-05-01" in
  MermaidGeneratorService.autoFormatMermaidSyntax
    (MermaidGeneratorService.emitDiagram schema)
  = MermaidGeneratorService.emitDiagram schema.
Proof.
  apply autoFormat_fixes_generated_text.
  intros r Hr _. vm_compute in Hr.
  apply list_elem_of_singleton in Hr as ->.
  vm_compute. repeat constructor.
Defined.

(* ===================================================================== *)
(** * Part IV: further properties of the code                             *)
(* ===================================================================== *)

(** ** Table names *)

Section TableNames.
  Import Regex RegexSemantics SchemaGenerator NormalizerSpec.

Lemma replaceAnchored_leading_digit (s : list ascii) :
  replaceAnchored reLeadingDigit (λ c, "_"%char :: c 0) s
  = if headIs JS.isDigit s then "_"%char :: s else s.
Proof.
  destruct s as [|a s]; [done|].
  unfold replaceAnchored, reLeadingDigit. rewrite matchHere_group_class.
  cbn [headIs]. by destruct (JS.isDigit a).
Qed.

Lemma allQuiet_camel (f : caps → list ascii) (s : list ascii) :
  Forall (λ a, JS.isUpper a = false) s → allQuiet reCamel f s.
Proof.
  intros Hs u v -> s' c'.
  intros (s1 & c1 & (c2 & (a & -> & _)%matches_chr & _)%matches_group
                  & (c3 & (b & -> & Hb & _)%matches_chr & _)%matches_group)%matches_seq.
  exfalso. apply Forall_app in Hs as [_ Hs].
  apply Forall_cons in Hs as [_ Hs]. apply Forall_cons in Hs as [Hs _].
  congruence.
Qed.

Lemma identChar_not_space (a : ascii) : identChar a = true → JS.isSpace a = false.
Proof. destruct a as [[] [] [] [] [] [] [] []]; vm_compute; congruence. Qed.

(** A name that is already in the normal form is returned as it is. *)
Lemma transformTableName_fixed (n : string) :
  n ≠ "" → Forall (λ a, identChar a = true) (JS.chars n) →
  headIs JS.isDigit (JS.chars n) = false →
  transformTableName (Some n) = n.
Proof.
  intros Hne Hid Hd. unfold transformTableName.
  rewrite (eqb_false_of_ne _ _ Hne).
  assert (Forall (λ a, JS.isUpper a = false) (JS.chars n)) as Hup.
  { eapply Forall_impl; [exact Hid|]. apply identChar_not_upper. }
  rewrite (replaceAll_quiet reCamel) by by apply allQuiet_camel.
  rewrite (lowerChars_fixed _ Hup).
  rewrite (replaceAll_none reSpaces); [|done|].
  2:{ eapply Forall_impl; [exact Hid|]. intros a Ha.
      unfold reSpaces, plus, space. cbn [first nullable andb].
      by rewrite (identChar_not_space a Ha). }
  rewrite (replaceAll_none reNotIdent); [|done|].
  2:{ eapply Forall_impl; [exact Hid|]. intros a Ha. cbn [first reNotIdent].
      unfold identChar in Ha. by rewrite Ha. }
  rewrite replaceAnchored_leading_digit, Hd. apply str_chars.
Qed.

Lemma transformTableName_no_digit (e : option string) :
  headIs JS.isDigit (JS.chars (transformTableName e)) = false.
Proof.
  unfold transformTableName. destruct e as [n|]; [|done].
  destruct (String.eqb n ""); [done|].
  rewrite chars_str, replaceAnchored_leading_digit.
  match goal with
  | |- context [if headIs JS.isDigit ?x then _ else _] =>
      destruct (headIs JS.isDigit x) eqn:E; [by vm_compute|exact E]
  end.
Qed.

End TableNames.

(** X1.  The table name derived from any entity name consists of lower-case
    letters, digits and underscores only, and does not start with a digit. *)
Theorem table_name_is_identifier (e : option string) :
  Forall (λ a, NormalizerSpec.identChar a = true)
    (JS.chars (SchemaGenerator.transformTableName e))
  ∧ RegexSemantics.headIs JS.isDigit
      (JS.chars (SchemaGenerator.transformTableName e)) = false.
Proof.
  split; [apply transformTableName_chars|apply transformTableName_no_digit].
Qed.

(** X2.  Normalising a table name twice gives the same name as normalising
    it once, unless the first pass leaves nothing of the name (the empty
    name is then replaced by the default). *)
Theorem table_name_is_stable (e : option string) :
  SchemaGenerator.transformTableName e ≠ "" →
  SchemaGenerator.transformTableName (Some (SchemaGenerator.transformTableName e))
  = SchemaGenerator.transformTableName e.
Proof.
  intros Hne. apply transformTableName_fixed; [done| |].
  - apply transformTableName_chars.
  - apply transformTableName_no_digit.
Qed.

Lemma table_name_is_stable_witness :
  SchemaGenerator.transformTableName (Some "OrderItem 2") = "order_item_2"
  ∧ SchemaGenerator.transformTableName
      (Some (SchemaGenerator.transformTableName (Some "OrderItem 2")))
    = SchemaGenerator.transformTableName (Some "OrderItem 2").
Proof.
  split; [by vm_compute|].
  apply (table_name_is_stable (Some "OrderItem 2")). by vm_compute.
Defined.

(** ** Column types *)

Section ColumnTypes.
  Import SchemaGenerator NormalizerSpec.

Lemma toLowerCase_empty (n : string) :
  String.eqb (JS.toLowerCase n) "" = String.eqb n "".
Proof. by destruct n. Qed.

Lemma inferDataType_lower (n : string) :
  inferDataType (JS.toLowerCase n) = inferDataType n.
Proof.
  unfold inferDataType. by rewrite toLowerCase_empty, toLowerCase_idemp.
Qed.

End ColumnTypes.

(** X3.  The data type inferred from an attribute name does not depend on
    the case of its letters. *)
Theorem inferred_type_ignores_case (n m : string) :
  JS.toLowerCase n = JS.toLowerCase m →
  SchemaGenerator.inferDataType n = SchemaGenerator.inferDataType m.
Proof.
  intros H. by rewrite <- (inferDataType_lower n), <- (inferDataType_lower m), H.
Qed.

Lemma inferred_type_ignores_case_witness :
  SchemaGenerator.inferDataType "Unit_PRICE" = "DECIMAL(10,2)"
  ∧ SchemaGenerator.inferDataType "Unit_PRICE"
    = SchemaGenerator.inferDataType "unit_Price".
Proof.
  split; [by vm_compute|].
  apply (inferred_type_ignores_case "Unit_PRICE" "unit_Price"). by vm_compute.
Defined.

(** ** The tables of a generated schema *)

Section GeneratedTables.
  Import SchemaGenerator NormalizerSpec.

Lemma some_elem {A} (p : A → bool) (l : list A) (x : A) :
  x ∈ l → p x = true → Arr.some p l = true.
Proof.
  intros Hx Hp. unfold Arr.some. apply existsb_exists. exists x.
  split; [by apply list_elem_of_In|done].
Qed.

Lemma some_insertAt {A} (p : A → bool) (i : nat) (x : A) (l : list A) :
  Arr.some p (Arr.insertAt i x l) = p x || Arr.some p l.
Proof.
  unfold Arr.insertAt. rewrite <- (take_drop i l) at 3.
  rewrite !some_app. unfold Arr.some at 2. cbn [existsb].
  fold (Arr.some p (drop i l)).
  destruct (Arr.some p (take i l)), (p x), (Arr.some p (drop i l)); done.
Qed.

Lemma makeWeak_keyed (owner T : Table.t) :
  Forall typed (Table.columns owner) → Forall typed (Table.columns T) →
  keyed (makeWeak owner T).
Proof.
  intros Ho HT. unfold makeWeak, keyed. cbn [Table.columns].
  set (isFk := λ c : Column.t, String.eqb (Column.name c) _).
  match goal with
  | |- context [Arr.find _ ?l] => set (cols1 := l)
  end.
  assert (Arr.some Column.isPrimaryKey cols1 = true ∧ Forall typed cols1)
    as [Hk Ht].
  { unfold cols1.
    destruct (Arr.findIndex isFk (Table.columns T)) as [i|] eqn:Ei.
    - apply findIndex_lookup in Ei as (c & Hc & _). split.
      + rewrite (alter_insert _ _ _ _ Hc).
        apply (some_elem _ _ (promoteColumn (Table.name owner) c)); [|done].
        apply list_elem_of_lookup. exists i.
        apply list_lookup_insert_eq. by eapply lookup_lt_Some.
      + apply Forall_alter; [done|]. by intros x _ Hx.
    - split; [done|]. constructor; [|done].
      unfold typed, identifyingKeyColumn, primaryKeyOr. cbn [Column.dataType].
      destruct (Arr.find _ (Table.columns owner)) as [pk|] eqn:E; [|done].
      apply find_Some in E as [Hin _]. simpl.
      by eapply Forall_forall in Ho. }
  destruct (Arr.find _ cols1); [done|].
  rewrite some_insertAt. split; [done|].
  unfold Arr.insertAt. apply Forall_app. split; [by apply Forall_take|].
  constructor; [done|by apply Forall_drop].
Qed.

Lemma identifyingStep_keyed (ts : list Table.t) (y : Relationship.t) :
  Forall keyed ts → Forall keyed (identifyingStep ts y).
Proof.
  intros Hts. unfold identifyingStep.
  destruct (Arr.find _ ts) as [owner|] eqn:Eo; [|done].
  destruct (Arr.findIndex _ ts) as [di|]; [|done].
  apply find_Some in Eo as [Hin _].
  apply Forall_alter; [done|]. intros T HT [_ HTt].
  apply makeWeak_keyed; [|done].
  by destruct (proj1 (Forall_forall _ _) Hts owner Hin).
Qed.

Lemma processIdentifyingRelationships_keyed (ys : list Relationship.t)
    (ts : list Table.t) :
  Forall keyed ts → Forall keyed (processIdentifyingRelationships ys ts).
Proof.
  unfold processIdentifyingRelationships.
  generalize (List.filter Relationship.isIdentifying ys). intros l.
  revert ts. induction l as [|y l IH]; intros ts Hts; [done|].
  rewrite foldl_cons_eq. by apply IH, identifyingStep_keyed.
Qed.

Lemma processIdentifyingRelationships_names (ys : list Relationship.t)
    (ts : list Table.t) :
  namesOf (processIdentifyingRelationships ys ts) = namesOf ts.
Proof.
  unfold processIdentifyingRelationships.
  generalize (List.filter Relationship.isIdentifying ys). intros l.
  revert ts. induction l as [|y l IH]; intros ts; [done|].
  rewrite foldl_cons_eq. by rewrite IH, identifyingStep_names.
Qed.

Lemma detectLookupTables_names (ts : list Table.t) :
  namesOf (detectLookupTables ts) = namesOf ts.
Proof.
  unfold namesOf, detectLookupTables. rewrite <- list_fmap_compose.
  apply list_fmap_ext. intros i t _. apply detectLookupTable_columns.
Qed.

Lemma detectLookupTables_keyed (ts : list Table.t) :
  Forall keyed ts → Forall keyed (detectLookupTables ts).
Proof.
  intros Hts. unfold detectLookupTables. apply Forall_fmap.
  eapply Forall_impl; [exact Hts|]. intros t Ht. unfold keyed, compose.
  by rewrite (proj1 (detectLookupTable_columns t)).
Qed.

Lemma tablesAfter_all_keyed (entities : list Entity.t) (rels : list RelIn.t) :
  Forall keyed (tablesAfter entities rels).
Proof.
  apply Forall_lookup. intros i t. apply tablesAfter_keyed.
Qed.

Lemma generateSchema_names (entities : list Entity.t) (rels : list RelIn.t)
    (options : Options) (now : string) :
  namesOf (Schema.tables (generateSchema entities rels options now))
  = namesOf (initialTables entities).
Proof.
  rewrite generateSchema_tables, detectLookupTables_names,
    processIdentifyingRelationships_names.
  apply extends_names, tablesAfter_extends.
Qed.

Lemma generateSchema_relationships (entities : list Entity.t)
    (rels : list RelIn.t) (options : Options) (now : string) :
  Schema.relationships (generateSchema entities rels options now)
  = (transformRelationships rels (initialTables entities)).1.
Proof.
  unfold generateSchema, initialTables.
  by destruct (transformRelationships rels _).
Qed.

Lemma resolvesTo_names (r : RelIn.t) (ts ts' : list Table.t) (si ti : nat) :
  namesOf ts = namesOf ts' → resolvesTo r ts si ti → resolvesTo r ts' si ti.
Proof.
  intros Hn (Hs & Ht & Hsi & Hti). unfold resolvesTo.
  by rewrite !resolve_names, <- Hn, <- !resolve_names.
Qed.

Lemma transformRelationship_unresolved (r : RelIn.t) (ts : list Table.t) :
  (∀ si ti, ¬ resolvesTo r ts si ti) → transformRelationship r ts = (None, ts).
Proof.
  intros Hno. unfold transformRelationship, resolvesTo in *.
  fold (sourceName r) (targetName r).
  destruct (JS.truthy (sourceName r)) eqn:Hs; [|done].
  destruct (JS.truthy (targetName r)) eqn:Ht; [|done].
  cbn [andb negb].
  destruct (resolve (sourceName r) ts) as [si|] eqn:Hsi; [|done].
  destruct (resolve (targetName r) ts) as [ti|] eqn:Hti; [|done].
  by destruct (Hno si ti).
Qed.

End GeneratedTables.

(** X4.  Every table of a generated schema has a primary-key column, and
    every one of its columns has a data type, whatever the entities and the
    relationships are. *)
Theorem generated_tables_are_keyed (entities : list Entity.t)
    (rels : list RelIn.t) (options : SchemaGenerator.Options) (now : string) :
  Forall NormalizerSpec.keyed
    (Schema.tables (SchemaGenerator.generateSchema entities rels options now)).
Proof.
  rewrite generateSchema_tables.
  apply detectLookupTables_keyed, processIdentifyingRelationships_keyed,
    tablesAfter_all_keyed.
Qed.

(** X5.  A generated schema has one table for each entity, in the order of
    the entities, named by the normalised name of the entity: relationships
    add no table, remove none and rename none. *)
Theorem generated_tables_follow_entities (entities : list Entity.t)
    (rels : list RelIn.t) (options : SchemaGenerator.Options) (now : string) :
  Table.name
    <$> Schema.tables (SchemaGenerator.generateSchema entities rels options now)
  = (λ e, SchemaGenerator.transformTableName (Entity.name e)) <$> entities.
Proof.
  pose proof (generateSchema_names entities rels options now) as H.
  unfold NormalizerSpec.namesOf, NormalizerSpec.initialTables in H.
  rewrite H, <- list_fmap_compose. done.
Qed.

(** X7.  A relationship one of whose ends names no entity is ignored: the
    generated schema is the one that the input without this relationship
    gives. *)
Theorem unresolved_relationship_is_ignored (entities : list Entity.t)
    (pre : list RelIn.t) (r : RelIn.t) (post : list RelIn.t)
    (options : SchemaGenerator.Options) (now : string) :
  (∀ si ti,
     ¬ NormalizerSpec.resolvesTo r (NormalizerSpec.initialTables entities) si ti) →
  SchemaGenerator.generateSchema entities (pre ++ r :: post) options now
  = SchemaGenerator.generateSchema entities (pre ++ post) options now.
Proof.
  intros Hno.
  assert (SchemaGenerator.transformRelationships (pre ++ r :: post)
            (SchemaGenerator.tableOfEntity <$> entities)
          = SchemaGenerator.transformRelationships (pre ++ post)
              (SchemaGenerator.tableOfEntity <$> entities)) as H.
  { rewrite !transformRelationships_app. cbn [SchemaGenerator.transformRelationships].
    rewrite transformRelationship_unresolved.
    - by destruct (SchemaGenerator.transformRelationships post _).
    - intros si ti Hr. apply (Hno si ti).
      eapply resolvesTo_names; [|exact Hr].
      apply extends_names, transformRelationships_extends. }
  unfold SchemaGenerator.generateSchema. by rewrite H.
Qed.

Lemma unresolved_relationship_is_ignored_witness :
  SchemaGenerator.generateSchema [Samples.author; Samples.book]
    ([NormalizerSpec.writes false]
       ++ Samples.relIn "Publisher" "Book" (Some "ONE_TO_MANY") false :: [])
    (SchemaGenerator.mkOptions None None) "now"
  = SchemaGenerator.generateSchema [Samples.author; Samples.book]
      ([NormalizerSpec.writes false] ++ [])
      (SchemaGenerator.mkOptions None None) "now".
Proof.
  apply unresolved_relationship_is_ignored.
  intros si ti (_ & _ & H & _). by vm_compute in H.
Defined.

(** ** Relationship types *)

Section RelationshipTypes.
  Import SchemaGenerator NormalizerSpec.

(** The tables after [setupForeignKeys], by the upper-cased type. *)
Lemma setupForeignKeys_tables r si ti (S T : Table.t) sc tc (ts : list Table.t) :
  (setupForeignKeys r si ti S T sc tc ts).2
  = let ty := JS.toUpperCase (JS.orElse (RelIn.type r) "ONE_TO_MANY") in
    if String.eqb ty "MANY_TO_ONE" then addForeignKey si (Table.name T) tc ts
    else if String.eqb ty "MANY_TO_MANY" then ts
    else addForeignKey ti (Table.name S) sc ts.
Proof.
  unfold setupForeignKeys. cbn [snd].
  assert (tmpl (RelIn.type (if JS.truthy (RelIn.type r) then r
                            else withType r (Some "ONE_TO_MANY")))
          = JS.orElse (RelIn.type r) "ONE_TO_MANY") as ->.
  { unfold JS.truthy, JS.orElse. destruct (RelIn.type r) as [s|] eqn:Et; [|done].
    destruct (String.eqb s "") eqn:E; [done|]. cbn [negb]. by rewrite Et. }
  cbv zeta.
  destruct (String.eqb _ "ONE_TO_MANY") eqn:E1.
  { apply String.eqb_eq in E1 as ->. done. }
  destruct (String.eqb _ "MANY_TO_ONE") eqn:E2; [done|].
  destruct (String.eqb _ "ONE_TO_ONE") eqn:E3.
  { apply String.eqb_eq in E3 as ->. cbn. by destruct (RelIn.isIdentifying _). }
  by destruct (String.eqb _ "MANY_TO_MANY").
Qed.

(** The tables after a relationship that resolves. *)
Lemma transformRelationship_tables (r : RelIn.t) (ts : list Table.t)
    (si ti : nat) (S T : Table.t) :
  resolvesTo r ts si ti → ts !! si = Some S → ts !! ti = Some T →
  (transformRelationship r ts).2
  = (setupForeignKeys r si ti S T (primaryKeyOr (bareIdColumn None) S)
       (primaryKeyOr (bareIdColumn None) T) ts).2.
Proof.
  intros (Hs & Ht & Hsi & Hti) HS HT.
  unfold sourceName, targetName in *.
  unfold transformRelationship. rewrite Hs, Ht, Hsi, Hti, HS, HT.
  cbn [andb negb]. by destruct (setupForeignKeys _ _ _ _ _ _ _ _).
Qed.

(** A relationship either resolves to two tables or changes nothing. *)
Lemma transformRelationship_resolved (r : RelIn.t) (ts : list Table.t) :
  transformRelationship r ts = (None, ts)
  ∨ ∃ si ti S T, resolvesTo r ts si ti ∧ ts !! si = Some S ∧ ts !! ti = Some T.
Proof.
  destruct (JS.truthy (sourceName r)) eqn:Hs.
  2:{ left. apply transformRelationship_unresolved. intros si ti (H & _).
      congruence. }
  destruct (JS.truthy (targetName r)) eqn:Ht.
  2:{ left. apply transformRelationship_unresolved. intros si ti (_ & H & _).
      congruence. }
  destruct (resolve (sourceName r) ts) as [si|] eqn:Hsi.
  2:{ left. apply transformRelationship_unresolved. intros si ti (_ & _ & H & _).
      congruence. }
  destruct (resolve (targetName r) ts) as [ti|] eqn:Hti.
  2:{ left. apply transformRelationship_unresolved. intros si' ti (_ & _ & _ & H).
      congruence. }
  right.
  destruct (findIndex_lookup _ _ _ Hsi) as (S & HS & _).
  destruct (findIndex_lookup _ _ _ Hti) as (T & HT & _).
  by exists si, ti, S, T.
Qed.

Lemma resolvesTo_withType (r : RelIn.t) (ty : option string)
    (ts : list Table.t) (si ti : nat) :
  resolvesTo (withType r ty) ts si ti ↔ resolvesTo r ts si ti.
Proof. done. Qed.

Lemma hasColumnNamed_app (n : string) (cols1 cols2 : list Column.t) :
  hasColumnNamed n (cols1 ++ cols2)
  = hasColumnNamed n cols1 || hasColumnNamed n cols2.
Proof. apply some_app. Qed.

Lemma addForeignKeyTo_again (n : string) (c c' : Column.t) (t : Table.t) :
  addForeignKeyTo n c' (addForeignKeyTo n c t) = addForeignKeyTo n c t.
Proof.
  unfold addForeignKeyTo at 2.
  destruct (hasColumnNamed _ (Table.columns t)) eqn:E.
  - unfold addForeignKeyTo. by rewrite E.
  - unfold addForeignKeyTo. cbn [withColumns Table.columns].
    rewrite hasColumnNamed_app, E. cbn [orb].
    unfold hasColumnNamed, Arr.some. cbn [existsb foreignKeyColumn Column.name].
    by rewrite String.eqb_refl.
Qed.

Lemma addForeignKeyTo_primaryKey (n : string) (c fallback : Column.t) (t : Table.t) :
  primaryKeyOr fallback (addForeignKeyTo n c t) = primaryKeyOr fallback t.
Proof.
  unfold addForeignKeyTo. destruct (hasColumnNamed _ _); [done|].
  unfold primaryKeyOr. cbn [withColumns Table.columns].
  generalize (Table.columns t). intros cols.
  induction cols as [|x cols IH]; [done|].
  cbn [app Arr.find]. by destruct (Column.isPrimaryKey x).
Qed.

Lemma addForeignKeyTo_name (n : string) (c : Column.t) (t : Table.t) :
  Table.name (addForeignKeyTo n c t) = Table.name t.
Proof. unfold addForeignKeyTo. by destruct (hasColumnNamed _ _). Qed.

Lemma alter_alter_same {A} (f g : A → A) (i : nat) (l : list A) :
  (∀ x, g (f x) = f x) → alter g i (alter f i l) = alter f i l.
Proof.
  intros H. rewrite list_alter_alter_eq. apply list_alter_ext; [|done].
  intros x _. apply H.
Qed.

(** The table at a position after a foreign key was added somewhere. *)
Lemma addForeignKey_lookup (i j : nat) (n : string) (c : Column.t)
    (ts : list Table.t) (t : Table.t) :
  ts !! j = Some t →
  ∃ t', addForeignKey i n c ts !! j = Some t'
        ∧ Table.name t' = Table.name t
        ∧ ∀ fallback, primaryKeyOr fallback t' = primaryKeyOr fallback t.
Proof.
  intros Hj. unfold addForeignKey. destruct (decide (i = j)) as [->|Hne].
  - exists (addForeignKeyTo n c t). rewrite list_lookup_alter_eq, Hj.
    split; [done|]. split; [apply addForeignKeyTo_name|].
    intros. apply addForeignKeyTo_primaryKey.
  - exists t. by rewrite list_lookup_alter_ne.
Qed.

End RelationshipTypes.

(** X8.  A relationship whose type, upper-cased, is neither MANY_TO_ONE nor
    MANY_TO_MANY changes the tables as a ONE_TO_MANY relationship does; a
    missing or empty type counts as ONE_TO_MANY. *)
Theorem other_types_act_as_one_to_many (r : RelIn.t) (ts : list Table.t) :
  JS.toUpperCase (JS.orElse (RelIn.type r) "ONE_TO_MANY") ≠ "MANY_TO_ONE" →
  JS.toUpperCase (JS.orElse (RelIn.type r) "ONE_TO_MANY") ≠ "MANY_TO_MANY" →
  (SchemaGenerator.transformRelationship r ts).2
  = (SchemaGenerator.transformRelationship
       (SchemaGenerator.withType r (Some "ONE_TO_MANY")) ts).2.
Proof.
  intros H1 H2.
  destruct (transformRelationship_resolved r ts)
    as [Hno|(si & ti & S & T & Hres & HS & HT)].
  - rewrite Hno. cbn [snd].
    unfold SchemaGenerator.transformRelationship in *.
    cbn [SchemaGenerator.withType RelIn.sourceEntity RelIn.sourceTable
           RelIn.targetEntity RelIn.targetTable].
    destruct (negb _); [done|].
    destruct (SchemaGenerator.resolve _ ts) as [si|]; [|done].
    destruct (SchemaGenerator.resolve (orOpt (RelIn.targetEntity r) _) ts)
      as [ti|]; [|done].
    destruct (ts !! si) as [S|]; [|done].
    destruct (ts !! ti) as [T|]; [|done].
    by destruct (SchemaGenerator.setupForeignKeys r _ _ _ _ _ _ _).
  - rewrite (transformRelationship_tables r ts si ti S T Hres HS HT).
    rewrite (transformRelationship_tables _ ts si ti S T
               (proj2 (resolvesTo_withType r _ ts si ti) Hres) HS HT).
    rewrite !setupForeignKeys_tables. cbv zeta.
    rewrite (eqb_false_of_ne _ _ H1), (eqb_false_of_ne _ _ H2). done.
Qed.

Lemma other_types_act_as_one_to_many_witness :
  (SchemaGenerator.transformRelationship
     (Samples.relIn "Author" "Book" (Some "one_to_one") false)
     (NormalizerSpec.initialTables [Samples.author; Samples.book])).2
  = (SchemaGenerator.transformRelationship
       (SchemaGenerator.withType
          (Samples.relIn "Author" "Book" (Some "one_to_one") false)
          (Some "ONE_TO_MANY"))
       (NormalizerSpec.initialTables [Samples.author; Samples.book])).2.
Proof.
  apply other_types_act_as_one_to_many; by vm_compute.
Defined.

(** A many-to-many relationship leaves the tables as they are in the
    relationship pass. *)
Lemma transformRelationship_many_to_many (r : RelIn.t) (ts : list Table.t)
    (ty : string) :
  RelIn.type r = Some ty → JS.toUpperCase ty = "MANY_TO_MANY" →
  (SchemaGenerator.transformRelationship r ts).2 = ts.
Proof.
  intros Hty Hup.
  destruct (transformRelationship_resolved r ts)
    as [Hno|(si & ti & S & T & Hres & HS & HT)]; [by rewrite Hno|].
  rewrite (transformRelationship_tables r ts si ti S T Hres HS HT).
  by eapply setupForeignKeys_many_to_many.
Qed.

(** X9.  A MANY_TO_MANY relationship, in any mix of upper and lower case,
    leaves every table as it is in the relationship pass: it gets no foreign
    key and no junction table there.  When the relationship is not flagged
    as identifying, this holds for the normaliser as a whole: the tables of
    the returned schema are those that the normaliser returns for the input
    without this relationship.  (For a relationship flagged as identifying
    the post-pass for weak entities still puts the key of the owner into the
    dependent table, whatever the type.) *)
Theorem many_to_many_changes_no_table (entities : list Entity.t)
    (pre post : list RelIn.t) (r : RelIn.t)
    (options : SchemaGenerator.Options) (now : string) (ty : string) :
  RelIn.type r = Some ty → JS.toUpperCase ty = "MANY_TO_MANY" →
  (∀ ts, (SchemaGenerator.transformRelationship r ts).2 = ts)
  ∧ (RelIn.isIdentifying r = false →
     Schema.tables
       (SchemaGenerator.generateSchema entities (pre ++ r :: post) options now)
     = Schema.tables
         (SchemaGenerator.generateSchema entities (pre ++ post) options now)).
Proof.
  intros Hty Hup.
  split; [intros ts; by eapply transformRelationship_many_to_many|].
  intros Hid. unfold SchemaGenerator.generateSchema.
  rewrite !transformRelationships_app.
  set (ts0 := SchemaGenerator.tableOfEntity <$> entities).
  destruct (SchemaGenerator.transformRelationships pre ts0) as [xs1 t1].
  cbn [fst snd SchemaGenerator.transformRelationships].
  pose proof (transformRelationship_many_to_many r t1 ty Hty Hup) as Hr.
  destruct (SchemaGenerator.transformRelationship r t1) as [y t1'] eqn:Ey.
  cbn [snd] in Hr. subst t1'.
  destruct (SchemaGenerator.transformRelationships post t1) as [xs2 t2].
  cbn [fst snd Schema.tables]. f_equal.
  unfold SchemaGenerator.processIdentifyingRelationships. f_equal.
  rewrite !List.filter_app. f_equal.
  destruct y as [y|]; [|done].
  apply transformRelationship_origin in Ey as (si & ti & Hy).
  destruct Hy as (_ & _ & _ & _ & _ & _ & Hy).
  cbn [List.filter]. by rewrite Hy, Hid.
Qed.

Lemma many_to_many_changes_no_table_witness :
  Schema.tables
    (SchemaGenerator.generateSchema [Samples.author; Samples.book]
       [Samples.relIn "Author" "Book" (Some "Many_To_Many") false]
       Samples.noOptions "now")
  = Schema.tables
      (SchemaGenerator.generateSchema [Samples.author; Samples.book] []
         Samples.noOptions "now").
Proof.
  apply (many_to_many_changes_no_table [Samples.author; Samples.book] [] []
           (Samples.relIn "Author" "Book" (Some "Many_To_Many") false)
           Samples.noOptions "now" "Many_To_Many"); by vm_compute.
Defined.

(** An identifying relationship of type MANY_TO_MANY does change a table:
    the post-pass for weak entities puts [author_id] into [book]. *)
Lemma identifying_many_to_many_adds_key :
  Schema.tables
    (SchemaGenerator.generateSchema [Samples.author; Samples.book]
       [Samples.relIn "Author" "Book" (Some "MANY_TO_MANY") true]
       Samples.noOptions "now")
  ≠ Schema.tables
      (SchemaGenerator.generateSchema [Samples.author; Samples.book] []
         Samples.noOptions "now").
Proof. by vm_compute. Qed.

(** X10.  A MANY_TO_ONE relationship puts the foreign key on its source:
    when the source table has no column of the name of the key, it gains
    the nullable column that refers to the primary key of the target, and
    no other table changes. *)
Theorem many_to_one_adds_key_to_source (r : RelIn.t) (ts : list Table.t)
    (ty : string) (si ti : nat) (S T : Table.t) :
  RelIn.type r = Some ty → JS.toUpperCase ty = "MANY_TO_ONE" →
  NormalizerSpec.resolvesTo r ts si ti →
  ts !! si = Some S → ts !! ti = Some T →
  SchemaGenerator.hasColumnNamed
    (Column.name (NormalizerSpec.expectedForeignKey T)) (Table.columns S) = false →
  (SchemaGenerator.transformRelationship r ts).2
  = <[si := SchemaGenerator.withColumns S
              (Table.columns S ++ [NormalizerSpec.expectedForeignKey T])]> ts.
Proof.
  intros Hty Hup Hres HS HT Hno.
  rewrite (transformRelationship_tables r ts si ti S T Hres HS HT).
  rewrite setupForeignKeys_tables. cbv zeta. rewrite Hty.
  assert (JS.orElse (Some ty) "ONE_TO_MANY" = ty) as ->.
  { unfold JS.orElse. destruct (String.eqb ty "") eqn:E; [|done].
    apply String.eqb_eq in E as ->. by vm_compute in Hup. }
  rewrite Hup. cbn [String.eqb Ascii.eqb Bool.eqb]. cbn iota.
  unfold SchemaGenerator.addForeignKey. rewrite (alter_insert _ _ _ _ HS).
  unfold SchemaGenerator.addForeignKeyTo.
  change (JS.toLowerCase (Table.name T) +:+ "_id")
    with (Column.name (NormalizerSpec.expectedForeignKey T)).
  by rewrite Hno.
Qed.

Lemma many_to_one_adds_key_to_source_witness :
  (SchemaGenerator.transformRelationship
     (Samples.relIn "Book" "Author" (Some "many_to_one") false)
     (NormalizerSpec.initialTables [Samples.author; Samples.book])).2
  = <[1 := SchemaGenerator.withColumns (SchemaGenerator.tableOfEntity Samples.book)
             (Table.columns (SchemaGenerator.tableOfEntity Samples.book)
                ++ [NormalizerSpec.expectedForeignKey
                      (SchemaGenerator.tableOfEntity Samples.author)])]>
      (NormalizerSpec.initialTables [Samples.author; Samples.book]).
Proof.
  apply (many_to_one_adds_key_to_source _ _ "many_to_one" 1 0); by vm_compute.
Defined.

(** X11.  Processing a relationship a second time changes nothing: the
    foreign key is added once, however often the relationship is listed. *)
Theorem repeated_relationship_adds_nothing (r : RelIn.t) (ts : list Table.t) :
  (SchemaGenerator.transformRelationship r
     (SchemaGenerator.transformRelationship r ts).2).2
  = (SchemaGenerator.transformRelationship r ts).2.
Proof.
  destruct (transformRelationship_resolved r ts)
    as [Hno|(si & ti & S & T & Hres & HS & HT)]; [rewrite Hno; cbn [snd]; by rewrite Hno|].
  rewrite (transformRelationship_tables r ts si ti S T Hres HS HT).
  rewrite setupForeignKeys_tables. cbv zeta.
  assert (∀ ts1, NormalizerSpec.namesOf ts1 = NormalizerSpec.namesOf ts →
            NormalizerSpec.resolvesTo r ts1 si ti) as Hres1.
  { intros ts1 Hn. by eapply resolvesTo_names. }
  destruct (String.eqb _ "MANY_TO_ONE") eqn:E1;
    [|destruct (String.eqb _ "MANY_TO_MANY") eqn:E2].
  - set (pk := SchemaGenerator.primaryKeyOr _ T).
    destruct (addForeignKey_lookup si si (Table.name T) pk ts S HS)
      as (S1 & HS1 & HnS & HpS).
    destruct (addForeignKey_lookup si ti (Table.name T) pk ts T HT)
      as (T1 & HT1 & HnT & HpT).
    rewrite (transformRelationship_tables r _ si ti S1 T1); [|apply Hres1|done|done].
    2:{ apply extends_names, alter_extends.
        intros. apply addForeignKeyTo_extends. }
    rewrite setupForeignKeys_tables. cbv zeta. rewrite E1, HnT, HpT.
    apply alter_alter_same. intros. apply addForeignKeyTo_again.
  - rewrite (transformRelationship_tables r ts si ti S T Hres HS HT).
    rewrite setupForeignKeys_tables. cbv zeta. by rewrite E1, E2.
  - set (pk := SchemaGenerator.primaryKeyOr _ S).
    destruct (addForeignKey_lookup ti si (Table.name S) pk ts S HS)
      as (S1 & HS1 & HnS & HpS).
    destruct (addForeignKey_lookup ti ti (Table.name S) pk ts T HT)
      as (T1 & HT1 & HnT & HpT).
    rewrite (transformRelationship_tables r _ si ti S1 T1); [|apply Hres1|done|done].
    2:{ apply extends_names, alter_extends.
        intros. apply addForeignKeyTo_extends. }
    rewrite setupForeignKeys_tables. cbv zeta. rewrite E1, E2, HnS, HpS.
    apply alter_alter_same. intros. apply addForeignKeyTo_again.
Qed.

(** ** Lookup tables *)

Section LookupTables.
  Import SchemaGenerator NormalizerSpec.

Lemma detectLookupTable_flagged (t : Table.t) :
  Table.isLookupTable t = true → detectLookupTable t = t.
Proof. unfold detectLookupTable. by intros ->. Qed.

Lemma detectLookupTable_again (t : Table.t) :
  detectLookupTable (detectLookupTable t) = detectLookupTable t.
Proof.
  destruct (Table.isLookupTable (detectLookupTable t)) eqn:E;
    [by apply detectLookupTable_flagged|].
  assert (detectLookupTable t = t) as H; [|by rewrite !H].
  unfold detectLookupTable in *.
  destruct (Table.isLookupTable t); [done|].
  match goal with
  | |- (if ?b then _ else _) = _ => destruct b; [done|done]
  end.
Qed.

End LookupTables.

(** X12.  Lookup detection only sets the flag and the description: it keeps
    the name, the columns and the other flags of every table, leaves a table
    that is already flagged untouched, and running it a second time changes
    nothing. *)
Theorem lookup_detection_is_stable (ts : list Table.t) :
  SchemaGenerator.detectLookupTables (SchemaGenerator.detectLookupTables ts)
  = SchemaGenerator.detectLookupTables ts
  ∧ Forall2
      (λ t t', Table.name t' = Table.name t
               ∧ Table.columns t' = Table.columns t
               ∧ Table.isWeakEntity t' = Table.isWeakEntity t
               ∧ Table.isJunctionTable t' = Table.isJunctionTable t
               ∧ (Table.isLookupTable t = true → t' = t))
      ts (SchemaGenerator.detectLookupTables ts).
Proof.
  unfold SchemaGenerator.detectLookupTables. split.
  - rewrite <- list_fmap_compose. apply list_fmap_ext. intros i t _.
    apply detectLookupTable_again.
  - apply Forall2_fmap_r, Forall_Forall2_diag, Forall_forall. intros t _.
    destruct (detectLookupTable_columns t) as [Hc Hn].
    split; [done|]. split; [done|].
    split; [|split; [|apply detectLookupTable_flagged]].
    + unfold SchemaGenerator.detectLookupTable.
      repeat match goal with
             | |- context [if ?b then _ else _] => destruct b
             end; done.
    + unfold SchemaGenerator.detectLookupTable.
      repeat match goal with
             | |- context [if ?b then _ else _] => destruct b
             end; done.
Qed.

(** ** Weak entities *)

Section WeakEntities.
  Import SchemaGenerator NormalizerSpec.

Lemma findIndex_alter_same {A} (p : A → bool) (f : A → A) (i : nat) (l : list A) :
  (∀ x, p (f x) = p x) → Arr.findIndex p (alter f i l) = Arr.findIndex p l.
Proof.
  intros H. revert i. induction l as [|x l IH]; intros [|i]; try done.
  - change (alter f 0 (x :: l)) with (f x :: l). cbn [Arr.findIndex].
    by rewrite H.
  - change (alter f (S i) (x :: l)) with (x :: alter f i l).
    cbn [Arr.findIndex]. by rewrite IH.
Qed.

Lemma filter_length_elem {A} (p : A → bool) (l : list A) (x : A) :
  x ∈ l → p x = true → 1 ≤ length (List.filter p l).
Proof.
  intros Hx Hp. assert (In x (List.filter p l)) as Hin.
  { apply filter_In. split; [by apply list_elem_of_In|done]. }
  destruct (List.filter p l); [done|]. simpl. lia.
Qed.

Lemma filter_length_two {A} (p : A → bool) (l : list A) (x y : A) :
  x ∈ l → y ∈ l → x ≠ y → p x = true → p y = true →
  2 ≤ length (List.filter p l).
Proof.
  intros Hx Hy Hne Hpx Hpy.
  assert (In x (List.filter p l)) as Hinx.
  { apply filter_In. split; [by apply list_elem_of_In|done]. }
  assert (In y (List.filter p l)) as Hiny.
  { apply filter_In. split; [by apply list_elem_of_In|done]. }
  destruct (List.filter p l) as [|a [|b l']]; simpl in *; [done| |lia].
  destruct Hinx as [<-|[]], Hiny as [<-|[]]. done.
Qed.

(** The columns of a table that has been made weak: the key that refers to
    the owner, the composite primary key, and the columns that were there. *)
Lemma makeWeak_columns (owner T : Table.t) :
  let fkName := JS.toLowerCase (Table.name owner) +:+ "_id" in
  let cols := Table.columns (makeWeak owner T) in
  (∃ c, c ∈ cols ∧ Column.name c = fkName ∧ Column.isPrimaryKey c = true
        ∧ Column.isNullable c = Some false)
  ∧ 2 ≤ length (List.filter Column.isPrimaryKey cols)
  ∧ ∀ c, c ∈ Table.columns T →
      ∃ c', c' ∈ cols ∧ Column.name c' = Column.name c
            ∧ Column.dataType c' = Column.dataType c.
Proof.
  intros fkName. unfold makeWeak. cbn [Table.columns]. fold fkName.
  set (isFk := λ c : Column.t, String.eqb (Column.name c) fkName).
  match goal with
  | |- context [Arr.find _ ?l] => set (cols1 := l)
  end.
  (* the key to the owner in the columns after the first step *)
  assert (∃ i c, cols1 !! i = Some c ∧ isFk c = true
                 ∧ Column.isPrimaryKey c = true
                 ∧ Column.isNullable c = Some false
                 ∧ Arr.findIndex isFk cols1 = Some i) as (i & k & Hi & Hfk & Hpk & Hnull & Hidx).
  { unfold cols1.
    destruct (Arr.findIndex isFk (Table.columns T)) as [i|] eqn:Ei.
    - destruct (findIndex_lookup _ _ _ Ei) as (c & Hc & Hfk).
      exists i, (promoteColumn (Table.name owner) c).
      rewrite list_lookup_alter_eq, Hc. repeat split; try done.
      by rewrite findIndex_alter_same.
    - exists 0, (identifyingKeyColumn (Table.name owner)
                   (primaryKeyOr (bareIdColumn (Some "INTEGER")) owner)).
      assert (isFk (identifyingKeyColumn (Table.name owner)
                      (primaryKeyOr (bareIdColumn (Some "INTEGER")) owner)) = true)
        as Hfk by apply String.eqb_refl.
      repeat split; try done. cbn [Arr.findIndex]. by rewrite Hfk. }
  (* the columns that were there *)
  assert (∀ c, c ∈ Table.columns T →
            ∃ c', c' ∈ cols1 ∧ Column.name c' = Column.name c
                  ∧ Column.dataType c' = Column.dataType c) as Hold.
  { intros c Hc. unfold cols1.
    destruct (Arr.findIndex isFk (Table.columns T)) as [j|];
      [|exists c; split; [by right|done]].
    apply list_elem_of_lookup in Hc as [n Hn].
    destruct (decide (j = n)) as [->|Hne].
    - exists (promoteColumn (Table.name owner) c). split; [|done].
      apply list_elem_of_lookup. exists n. by rewrite list_lookup_alter_eq, Hn.
    - exists c. split; [|done].
      apply list_elem_of_lookup. exists n. by rewrite list_lookup_alter_ne. }
  assert (k ∈ cols1) as Hk by by eapply list_elem_of_lookup_2.
  destruct (Arr.find _ cols1) as [c'|] eqn:E.
  - apply find_Some in E as [Hin Hc'].
    apply andb_true_iff in Hc' as [Hpk' Hfk'%negb_true_iff].
    split; [|split; [|done]].
    + exists k. repeat split; try done. by apply String.eqb_eq in Hfk.
    + apply (filter_length_two _ _ k c'); try done. intros ->.
      unfold isFk in Hfk. congruence.
  - rewrite Hidx. unfold Arr.insertAt.
    assert (∀ c, c ∈ cols1 → c ∈ take (S i) cols1 ++ partialKey :: drop (S i) cols1)
      as Hsub.
    { intros c Hc. rewrite <- (take_drop (S i) cols1) in Hc.
      apply elem_of_app. apply elem_of_app in Hc as [Hc|Hc]; [by left|].
      right. by right. }
    split; [|split].
    + exists k. repeat split; try done; [by apply Hsub|].
      by apply String.eqb_eq in Hfk.
    + rewrite List.filter_app, length_app. cbn [List.filter partialKey Column.isPrimaryKey length].
      assert (1 ≤ length (List.filter Column.isPrimaryKey (take (S i) cols1))); [|lia].
      apply (filter_length_elem _ _ k); [|done].
      apply list_elem_of_lookup. exists i. rewrite lookup_take_lt; [done|lia].
    + intros c Hc. destruct (Hold c Hc) as (c' & Hc' & Hn).
      exists c'. split; [by apply Hsub|done].
Qed.

End WeakEntities.

(** X13.  An identifying relationship whose two tables are found turns the
    target into a weak entity: the table is flagged, it has a primary-key,
    non-nullable column named after the owner, its primary key has at least
    two columns, every column it had is still there under its name and
    type, and no other table changes. *)
Theorem identifying_relationship_makes_weak_entity (ts : list Table.t)
    (y : Relationship.t) (owner T : Table.t) (di : nat) :
  Relationship.isIdentifying y = true →
  Arr.find (λ t, optStrEq (Relationship.sourceTable y) (Table.name t)) ts
  = Some owner →
  Arr.findIndex (λ t, optStrEq (Relationship.targetTable y) (Table.name t)) ts
  = Some di →
  ts !! di = Some T →
  ∃ T', SchemaGenerator.processIdentifyingRelationships [y] ts = <[di := T']> ts
        ∧ Table.name T' = Table.name T
        ∧ Table.isWeakEntity T' = true
        ∧ (∃ c, c ∈ Table.columns T'
                ∧ Column.name c = JS.toLowerCase (Table.name owner) +:+ "_id"
                ∧ Column.isPrimaryKey c = true
                ∧ Column.isNullable c = Some false)
        ∧ 2 ≤ length (List.filter Column.isPrimaryKey (Table.columns T'))
        ∧ ∀ c, c ∈ Table.columns T →
            ∃ c', c' ∈ Table.columns T' ∧ Column.name c' = Column.name c
                  ∧ Column.dataType c' = Column.dataType c.
Proof.
  intros Hid Ho Hdi HT. exists (SchemaGenerator.makeWeak owner T).
  split.
  { unfold SchemaGenerator.processIdentifyingRelationships.
    cbn [List.filter]. rewrite Hid. cbn [foldl].
    unfold SchemaGenerator.identifyingStep. rewrite Ho, Hdi.
    by apply alter_insert. }
  split; [done|]. split; [done|].
  apply makeWeak_columns.
Qed.

Lemma identifying_relationship_makes_weak_entity_witness :
  ∃ T', SchemaGenerator.processIdentifyingRelationships [MoreSamples.ownedBy]
          MoreSamples.library
        = <[1 := T']> MoreSamples.library
        ∧ Table.name T' = Table.name (SchemaGenerator.tableOfEntity Samples.book)
        ∧ Table.isWeakEntity T' = true
        ∧ (∃ c, c ∈ Table.columns T'
                ∧ Column.name c
                  = JS.toLowerCase
                      (Table.name (SchemaGenerator.tableOfEntity Samples.author))
                    +:+ "_id"
                ∧ Column.isPrimaryKey c = true
                ∧ Column.isNullable c = Some false)
        ∧ 2 ≤ length (List.filter Column.isPrimaryKey (Table.columns T'))
        ∧ ∀ c, c ∈ Table.columns (SchemaGenerator.tableOfEntity Samples.book) →
            ∃ c', c' ∈ Table.columns T' ∧ Column.name c' = Column.name c
                  ∧ Column.dataType c' = Column.dataType c.
Proof.
  apply (identifying_relationship_makes_weak_entity MoreSamples.library
           MoreSamples.ownedBy (SchemaGenerator.tableOfEntity Samples.author)
           (SchemaGenerator.tableOfEntity Samples.book) 1);
    by vm_compute.
Defined.

(** ** Column names *)

Section ColumnNames.
  Import Regex RegexSemantics SchemaGenerator NormalizerSpec.

Lemma rmatch_star_total {A} (r : regex) (s : list ascii) (c : caps)
    (k : list ascii → caps → option A) :
  (∀ s' c', k s' c' ≠ None) → rmatch (RStar r) s c k ≠ None.
Proof.
  intros Hk. cbn [rmatch]. generalize (length s). intros n.
  destruct n as [|n]; [apply Hk|].
  match goal with
  | |- match ?x with _ => _ end ≠ None => destruct x; [done|apply Hk]
  end.
Qed.

Lemma matchHere_plus_class (p : ascii → bool) (a : ascii) (s : list ascii) :
  p a = true → matchHere (plus (RChr p)) (a :: s) ≠ None.
Proof.
  intros Hp. unfold matchHere, plus.
  change (rmatch (RSeq (RChr p) (RStar (RChr p))) (a :: s) noCaps ?k)
    with (if p a then rmatch (RStar (RChr p)) s noCaps k else None).
  rewrite Hp. by apply rmatch_star_total.
Qed.

(** Replacing every run of a class by a character outside the class leaves
    no character of the class. *)
Lemma replaceGo_plus_class (p : ascii → bool) (b : ascii) (Q : ascii → Prop) :
  p b = false → Q b →
  ∀ s k, Forall Q s →
    Forall (λ a, p a = false ∧ Q a) (replaceGo (plus (RChr p)) (λ _, [b]) k s).
Proof.
  intros Hb HQ. induction s as [|a s IH]; intros k Hs.
  - destruct k; [|done]. cbn [replaceGo].
    destruct (matchHere _ []) as [[n c]|] eqn:E; [|done].
    apply matchHere_sound in E as (s' & (a & w & Heq & _)%matches_plus_class & _).
    done.
  - apply Forall_cons in Hs as [Ha Hs].
    destruct k as [|k]; [|by apply IH]. cbn [replaceGo].
    destruct (matchHere _ (a :: s)) as [[n c]|] eqn:E.
    + apply matchHere_sound in E
        as (s' & (a' & w & Heq & _)%matches_plus_class & ->).
      rewrite Heq. cbn [length]. rewrite length_app.
      replace (S (length w + length s') - length s') with (S (length w)) by lia.
      cbn [app]. constructor; [done|]. by apply IH.
    + constructor; [|by apply IH]. split; [|done].
      destruct (p a) eqn:Hp; [|done].
      by destruct (matchHere_plus_class p a s Hp).
Qed.

Lemma orElse_nonempty (o : option string) (d : string) :
  d ≠ "" → JS.orElse o d ≠ "".
Proof.
  intros Hd. unfold JS.orElse. destruct o as [s|]; [|done].
  destruct (String.eqb s "") eqn:E; [done|]. by intros ->.
Qed.

Lemma columnName_chars (n : string) :
  Forall (λ a, JS.isSpace a = false ∧ JS.isUpper a = false)
    (JS.chars (columnName n)).
Proof.
  unfold columnName. rewrite chars_str.
  apply (replaceGo_plus_class JS.isSpace "_" (λ a, JS.isUpper a = false));
    [done|done|].
  rewrite <- toLowerCase_chars. apply toLowerCase_no_upper.
Qed.

Lemma nameOfDescription_chars (d : string) :
  Forall (λ a, identChar a = true) (JS.chars (nameOfDescription d))
  ∧ length (JS.chars (nameOfDescription d)) ≤ 30.
Proof.
  unfold nameOfDescription. rewrite chars_str. split; [|rewrite length_take; lia].
  apply Forall_take.
  eapply Forall_impl.
  - apply (replaceGo_plus_class JS.isSpace "_"
             (λ a, identChar a || JS.isSpace a = true)); [done|done|].
    unfold reNotNameChar. rewrite replaceAll_class_delete. apply Forall_forall.
    intros a [_ Ha]%list_elem_of_In%filter_In.
    apply negb_true_iff, negb_false_iff in Ha. exact Ha.
  - intros a [Hs Ha]. cbn beta in Ha. by rewrite Hs, orb_false_r in Ha.
Qed.

End ColumnNames.

(** X14.  The columns made from the attributes of an entity are well
    formed: a column name has neither white space nor upper-case letters,
    every column has a data type, and a primary-key column is unique. *)
Theorem attribute_columns_are_well_formed (attributes : list Attr.t) :
  Forall
    (λ c, Forall (λ a, JS.isSpace a = false ∧ JS.isUpper a = false)
            (JS.chars (Column.name c))
          ∧ NormalizerSpec.typed c
          ∧ (Column.isPrimaryKey c = true → Column.isUnique c = true))
    (SchemaGenerator.generateColumnsFromAttributes attributes).
Proof.
  destruct attributes as [|a attributes].
  - repeat constructor; by vm_compute.
  - unfold SchemaGenerator.generateColumnsFromAttributes.
    apply Forall_fmap, Forall_true. intros x.
    split; [|split; [apply columnOfAttribute_typed|]].
    + unfold compose, SchemaGenerator.columnOfAttribute. cbn [Column.name].
      destruct (JS.truthy (Attr.name x)); [apply columnName_chars|].
      repeat constructor.
    + unfold compose, SchemaGenerator.columnOfAttribute.
      cbn [Column.isPrimaryKey Column.isUnique]. intros ->. apply orb_true_r.
Qed.

(** X15.  A relationship attribute always leaves the normaliser with a
    name and a data type.  When it came without a name but with a
    description, the name is made from the description: at most thirty
    characters, all of them lower-case letters, digits or underscores. *)
Theorem relationship_attribute_is_named (attr : RelAttrIn.t) :
  let out := SchemaGenerator.processRelationshipAttribute attr in
  RelAttr.name out ≠ ""
  ∧ JS.truthy (RelAttr.dataType out) = true
  ∧ (JS.truthy (RelAttrIn.name attr) = false →
     JS.truthy (RelAttrIn.description attr) = true →
     Forall (λ a, NormalizerSpec.identChar a = true) (JS.chars (RelAttr.name out))
     ∧ length (JS.chars (RelAttr.name out)) ≤ 30).
Proof.
  cbv zeta. unfold SchemaGenerator.processRelationshipAttribute.
  cbn [RelAttr.name RelAttr.dataType].
  split; [|split].
  - by apply orElse_nonempty.
  - apply orElse_truthy, inferDataType_nonempty.
  - intros Hn Hd. rewrite Hn, Hd. cbn [negb andb].
    destruct (nameOfDescription_chars (tmpl (RelAttrIn.description attr)))
      as [Hc Hl].
    unfold JS.orElse.
    destruct (String.eqb _ ""); [|done].
    cbn [JS.chars String.list_ascii_of_string length].
    split; [|lia]. repeat (constructor; [reflexivity|]). constructor.
Qed.

Lemma relationship_attribute_is_named_witness :
  RelAttr.name (SchemaGenerator.processRelationshipAttribute MoreSamples.unnamedAttribute)
  = "date_on_which_the_book_was_bor"
  ∧ Forall (λ a, NormalizerSpec.identChar a = true)
      (JS.chars (RelAttr.name
         (SchemaGenerator.processRelationshipAttribute MoreSamples.unnamedAttribute)))
  ∧ length (JS.chars (RelAttr.name
      (SchemaGenerator.processRelationshipAttribute MoreSamples.unnamedAttribute)))
    ≤ 30.
Proof.
  split; [by vm_compute|].
  destruct (relationship_attribute_is_named MoreSamples.unnamedAttribute)
    as (_ & _ & H).
  apply H; by vm_compute.
Defined.

(** ** The columns that relationships name *)

Section RelationshipColumns.
  Import SchemaGenerator NormalizerSpec SchemaIntegrity.

Lemma keepsColumns_refl (t : Table.t) : keepsColumns t t.
Proof. by split. Qed.

Lemma keepsColumns_trans (t1 t2 t3 : Table.t) :
  keepsColumns t1 t2 → keepsColumns t2 t3 → keepsColumns t1 t3.
Proof. intros [Hn1 H1] [Hn2 H2]. split; [congruence|auto]. Qed.

Lemma extends_keepsColumns (t t' : Table.t) : extends t t' → keepsColumns t t'.
Proof.
  intros Hext. split; [apply Hext|]. intros n (c & Hc & Hn).
  exists c. split; [by eapply extends_elem|done].
Qed.

Lemma keepsColumns_all_trans (ts1 ts2 ts3 : list Table.t) :
  Forall2 keepsColumns ts1 ts2 → Forall2 keepsColumns ts2 ts3 →
  Forall2 keepsColumns ts1 ts3.
Proof.
  intros H12 H23. eapply Forall2_trans; [| exact H12 | exact H23].
  intros x y z. apply keepsColumns_trans.
Qed.

Lemma extends_all_keepsColumns (ts ts' : list Table.t) :
  Forall2 extends ts ts' → Forall2 keepsColumns ts ts'.
Proof.
  intros H. eapply Forall2_impl; [exact H|]. apply extends_keepsColumns.
Qed.

Lemma extends_all_keyed (ts ts' : list Table.t) :
  Forall2 extends ts ts' → Forall keyed ts → Forall keyed ts'.
Proof.
  induction 1 as [|t t' ts ts' Ht _ IH]; [done|].
  intros [Hk Hks]%Forall_cons. constructor; [by eapply extends_keyed|auto].
Qed.

Lemma makeWeak_keepsColumns (owner T : Table.t) : keepsColumns T (makeWeak owner T).
Proof.
  split; [done|]. intros n (c & Hc & Hn).
  destruct (makeWeak_columns owner T) as (_ & _ & H).
  destruct (H c Hc) as (c' & Hc' & Hn' & _). exists c'. split; [done|congruence].
Qed.

Lemma alter_keepsColumns (f : Table.t → Table.t) (i : nat) (ts : list Table.t) :
  (∀ t, keepsColumns t (f t)) → Forall2 keepsColumns ts (alter f i ts).
Proof.
  intros Hf. revert i. induction ts as [|t ts IH]; intros [|i].
  - constructor.
  - constructor.
  - change (alter f 0 (t :: ts)) with (f t :: ts).
    constructor; [apply Hf|]. apply Forall_Forall2_diag, Forall_true.
    apply keepsColumns_refl.
  - change (alter f (S i) (t :: ts)) with (t :: alter f i ts).
    constructor; [apply keepsColumns_refl|apply IH].
Qed.

Lemma keepsColumns_all_refl (ts : list Table.t) : Forall2 keepsColumns ts ts.
Proof. apply Forall_Forall2_diag, Forall_true, keepsColumns_refl. Qed.

Lemma identifyingStep_keepsColumns (ts : list Table.t) (y : Relationship.t) :
  Forall2 keepsColumns ts (identifyingStep ts y).
Proof.
  unfold identifyingStep.
  destruct (Arr.find _ ts) as [owner|]; [|apply keepsColumns_all_refl].
  destruct (Arr.findIndex _ ts) as [di|]; [|apply keepsColumns_all_refl].
  apply alter_keepsColumns. intros. apply makeWeak_keepsColumns.
Qed.

Lemma processIdentifyingRelationships_keepsColumns (ys : list Relationship.t)
    (ts : list Table.t) :
  Forall2 keepsColumns ts (processIdentifyingRelationships ys ts).
Proof.
  unfold processIdentifyingRelationships.
  generalize (List.filter Relationship.isIdentifying ys). intros l.
  revert ts. induction l as [|y l IH]; intros ts; [apply keepsColumns_all_refl|].
  rewrite foldl_cons_eq. eapply keepsColumns_all_trans; [|apply IH].
  apply identifyingStep_keepsColumns.
Qed.

Lemma detectLookupTables_keepsColumns (ts : list Table.t) :
  Forall2 keepsColumns ts (detectLookupTables ts).
Proof.
  unfold detectLookupTables. apply Forall2_fmap_r, Forall_Forall2_diag, Forall_true.
  intros t. destruct (detectLookupTable_columns t) as [Hc Hn].
  split; [done|]. unfold hasColumn. by rewrite Hc.
Qed.

Lemma joins_keepsColumns (y : Relationship.t) (S T S' T' : Table.t) :
  keepsColumns S S' → keepsColumns T T' → joins y S T → joins y S' T'.
Proof.
  intros [HnS HS] [HnT HT] (Hs & Ht & (sc & Hsc & Hcs) & (tc & Htc & Hct)).
  unfold joins. rewrite HnS, HnT. repeat split; try done.
  - exists sc. auto.
  - exists tc. auto.
Qed.

Lemma addForeignKeyTo_hasColumn (n : string) (c : Column.t) (t : Table.t) :
  hasColumn (addForeignKeyTo n c t) (JS.toLowerCase n +:+ "_id").
Proof.
  unfold addForeignKeyTo.
  destruct (hasColumnNamed _ (Table.columns t)) eqn:E.
  - apply existsb_exists in E as (x & Hx & Hn).
    exists x. split; [by apply list_elem_of_In|by apply String.eqb_eq].
  - exists (foreignKeyColumn n c). split; [|done].
    cbn [withColumns Table.columns]. apply elem_of_app. right. left.
Qed.

Lemma keyed_hasColumn (t : Table.t) (fallback : Column.t) :
  keyed t → hasColumn t (Column.name (primaryKeyOr fallback t)).
Proof.
  intros Hk. destruct (primaryKeyOr_keyed fallback t Hk) as (Hin & _).
  by exists (primaryKeyOr fallback t).
Qed.

(** The relationship that a step returns joins the tables that the step
    leaves, through columns that they have. *)
Lemma transformRelationship_joins (x : RelIn.t) (ts ts' : list Table.t)
    (y : Relationship.t) :
  Forall keyed ts →
  transformRelationship x ts = (Some y, ts') →
  ∃ si ti S T, ts' !! si = Some S ∧ ts' !! ti = Some T ∧ joins y S T.
Proof.
  intros Hkeyed Hstep.
  destruct (transformRelationship_resolved x ts)
    as [Hno|(si & ti & S & T & Hres & HS & HT)]; [congruence|].
  pose proof (transformRelationship_tables x ts si ti S T Hres HS HT) as Htables.
  rewrite Hstep, setupForeignKeys_tables in Htables. cbn [snd] in Htables.
  cbv zeta in Htables.
  pose proof (transformRelationship_extends x ts) as Hext.
  rewrite Hstep in Hext. cbn [snd] in Hext.
  destruct (Forall2_lookup_l _ _ _ _ _ Hext HS) as (S' & HS' & HextS).
  destruct (Forall2_lookup_l _ _ _ _ _ Hext HT) as (T' & HT' & HextT).
  assert (keyed S ∧ keyed T) as [HkS HkT].
  { split; eapply Forall_lookup_1; eauto. }
  assert (keyed T') as HkT' by by eapply extends_keyed.
  exists si, ti, S', T'. split; [done|]. split; [done|].
  (* the relationship *)
  destruct Hres as (Hs & Ht & Hsi & Hti).
  unfold sourceName, targetName in *.
  unfold transformRelationship in Hstep.
  rewrite Hs, Ht, Hsi, Hti, HS, HT in Hstep. cbn [andb negb] in Hstep.
  unfold setupForeignKeys in Hstep.
  injection Hstep as <- Hts'.
  unfold joins.
  cbn [Relationship.sourceTable Relationship.targetTable
         Relationship.sourceColumn Relationship.targetColumn].
  rewrite (proj1 HextS), (proj1 HextT).
  split; [done|]. split; [done|]. split.
  { eexists. split; [done|].
    apply (extends_keepsColumns _ _ HextS). by apply keyed_hasColumn. }
  eexists. split; [done|].
  rewrite Hts', HT'. cbn [default]. clear Hts'.
  set (r' := if JS.truthy (RelIn.type x) then x
             else withType x (Some "ONE_TO_MANY")).
  assert (RelIn.type r' = Some (JS.orElse (RelIn.type x) "ONE_TO_MANY")) as Hty.
  { unfold r', JS.truthy, JS.orElse.
    destruct (RelIn.type x) as [s|] eqn:Et; [|done].
    destruct (String.eqb s "") eqn:E; [done|]. cbn [negb]. by rewrite Et. }
  assert (JS.toUpperCase (JS.orElse (RelIn.type x) "ONE_TO_MANY") ≠ "MANY_TO_ONE" →
          JS.toUpperCase (JS.orElse (RelIn.type x) "ONE_TO_MANY") ≠ "MANY_TO_MANY" →
          hasColumn T' (JS.toLowerCase (Table.name S) +:+ "_id")) as Hfk.
  { intros H1 H2.
    rewrite (eqb_false_of_ne _ _ H1), (eqb_false_of_ne _ _ H2) in Htables.
    rewrite Htables in HT'. unfold addForeignKey in HT'.
    rewrite list_lookup_alter_eq, HT in HT'. injection HT' as <-.
    apply addForeignKeyTo_hasColumn. }
  pose proof (keyed_hasColumn T' (bareIdColumn None) HkT') as Hpk.
  clear Htables.
  unfold getTargetColumnName. rewrite Hty. cbn [optStrEq].
  destruct (String.eqb _ "ONE_TO_MANY") eqn:E1.
  { apply String.eqb_eq in E1. apply Hfk; by rewrite E1. }
  destruct (String.eqb _ "MANY_TO_ONE") eqn:E2; [done|].
  destruct (String.eqb _ "ONE_TO_ONE") eqn:E3; [|done].
  destruct (RelIn.isIdentifying r'); [|done].
  apply String.eqb_eq in E3. apply Hfk; by rewrite E3.
Qed.

Lemma transformRelationships_joins (rs : list RelIn.t) (ts : list Table.t)
    (y : Relationship.t) :
  Forall keyed ts →
  y ∈ (transformRelationships rs ts).1 →
  ∃ si ti S T, (transformRelationships rs ts).2 !! si = Some S
               ∧ (transformRelationships rs ts).2 !! ti = Some T
               ∧ joins y S T.
Proof.
  revert ts. induction rs as [|r rs IH]; intros ts Hk.
  - simpl. by intros ?%elem_of_nil.
  - cbn [transformRelationships].
    pose proof (transformRelationship_joins r ts) as H1.
    pose proof (transformRelationship_extends r ts) as Hext1.
    destruct (transformRelationship r ts) as [o ts1].
    pose proof (IH ts1) as H2.
    pose proof (transformRelationships_extends rs ts1) as Hext2.
    destruct (transformRelationships rs ts1) as [ys ts2].
    cbn [fst snd] in *.
    assert (Forall keyed ts1) as Hk1 by by eapply extends_all_keyed.
    destruct o as [y0|]; [|by apply H2].
    intros [->|Hy]%elem_of_cons; [|by apply H2].
    destruct (H1 ts1 y0 Hk eq_refl) as (si & ti & S & T & HS & HT & Hj).
    destruct (Forall2_lookup_l _ _ _ _ _ Hext2 HS) as (S' & HS' & HextS).
    destruct (Forall2_lookup_l _ _ _ _ _ Hext2 HT) as (T' & HT' & HextT).
    exists si, ti, S', T'. split; [done|]. split; [done|].
    eapply joins_keepsColumns; [| |exact Hj]; by apply extends_keepsColumns.
Qed.

End RelationshipColumns.

(** X6.  Every relationship of a generated schema joins two tables of that
    schema through columns that these tables have: its [sourceTable] and
    [targetTable] are names of tables of the schema, [sourceColumn] names a
    column of the first and [targetColumn] a column of the second. *)
Theorem generated_relationships_join_tables (entities : list Entity.t)
    (rels : list RelIn.t) (options : SchemaGenerator.Options) (now : string)
    (y : Relationship.t) :
  let schema := SchemaGenerator.generateSchema entities rels options now in
  y ∈ Schema.relationships schema →
  ∃ S T, S ∈ Schema.tables schema ∧ T ∈ Schema.tables schema
         ∧ SchemaIntegrity.joins y S T.
Proof.
  intros schema Hy. unfold schema in *.
  rewrite generateSchema_relationships in Hy.
  apply transformRelationships_joins in Hy
    as (si & ti & S & T & HS & HT & Hj).
  2:{ apply Forall_fmap, Forall_true. intros e. apply tableOfEntity_keyed. }
  rewrite generateSchema_tables.
  fold (NormalizerSpec.tablesAfter entities rels) in HS, HT.
  set (ys := (SchemaGenerator.transformRelationships rels _).1).
  assert (Forall2 SchemaIntegrity.keepsColumns (NormalizerSpec.tablesAfter entities rels)
            (SchemaGenerator.detectLookupTables
               (SchemaGenerator.processIdentifyingRelationships ys
                  (NormalizerSpec.tablesAfter entities rels)))) as Hkeep.
  { eapply keepsColumns_all_trans;
      [apply processIdentifyingRelationships_keepsColumns
      |apply detectLookupTables_keepsColumns]. }
  destruct (Forall2_lookup_l _ _ _ _ _ Hkeep HS) as (S' & HS' & HkS).
  destruct (Forall2_lookup_l _ _ _ _ _ Hkeep HT) as (T' & HT' & HkT).
  exists S', T'.
  split; [by eapply list_elem_of_lookup_2|].
  split; [by eapply list_elem_of_lookup_2|].
  by eapply joins_keepsColumns.
Qed.

Lemma generated_relationships_join_tables_witness :
  ∃ S T,
    S ∈ Schema.tables
          (SchemaGenerator.generateSchema [Samples.author; Samples.book]
             [NormalizerSpec.writes true]
             (SchemaGenerator.mkOptions None None) "now")
    ∧ T ∈ Schema.tables
          (SchemaGenerator.generateSchema [Samples.author; Samples.book]
             [NormalizerSpec.writes true]
             (SchemaGenerator.mkOptions None None) "now")
    ∧ SchemaIntegrity.joins MoreSamples.ownedBy S T.
Proof.
  apply (generated_relationships_join_tables [Samples.author; Samples.book]
           [NormalizerSpec.writes true]
           (SchemaGenerator.mkOptions None None) "now" MoreSamples.ownedBy).
  vm_compute. left.
Defined.

(** ** The junction-table rewrite as a whole *)

Section JunctionTables.
  Import SchemaGenerator SqlPreprocess.

Lemma junctionStep_tables (st : list Table.t * list Relationship.t)
    (r : Relationship.t) :
  ∃ extra, (junctionStep st r).1 = st.1 ++ extra
           ∧ length extra ≤ 1
           ∧ Forall (λ t, Table.isJunctionTable t = true) extra
           ∧ Forall (λ t, Table.name t ∉ Table.name <$> st.1) extra.
Proof.
  destruct st as [ts rs]. unfold junctionStep. cbn [fst].
  assert (∃ extra : list Table.t, ts = ts ++ extra ∧ length extra ≤ 1
            ∧ Forall (λ t, Table.isJunctionTable t = true) extra
            ∧ Forall (λ t, Table.name t ∉ Table.name <$> ts) extra) as Hsame.
  { exists []. rewrite app_nil_r. repeat split; try done. simpl. lia. }
  destruct (Arr.find _ ts) as [S|]; [|done].
  destruct (Arr.find _ ts) as [T|]; [|done].
  destruct (Arr.some _ ts) eqn:E; [done|].
  cbn [fst]. eexists. split; [done|]. split; [done|].
  split; [by repeat constructor|]. constructor; [|done].
  cbn [junctionTable Table.name].
  intros (t & Hn & Ht)%list_elem_of_fmap.
  apply some_false in E. rewrite Forall_forall in E.
  specialize (E t Ht). cbn beta in E. rewrite <- Hn, String.eqb_refl in E. done.
Qed.

Lemma junctionLoop_tables (ms : list Relationship.t)
    (st : list Table.t * list Relationship.t) :
  ∃ extra, (foldl junctionStep st ms).1 = st.1 ++ extra
           ∧ length extra ≤ length ms
           ∧ Forall (λ t, Table.isJunctionTable t = true) extra
           ∧ (NoDup (Table.name <$> st.1) →
              NoDup (Table.name <$> (foldl junctionStep st ms).1)).
Proof.
  revert st. induction ms as [|r ms IH]; intros st.
  - exists []. rewrite app_nil_r. repeat split; try done.
  - rewrite foldl_cons_eq.
    destruct (junctionStep_tables st r) as (e1 & H1 & Hl1 & Hj1 & Hn1).
    destruct (IH (junctionStep st r)) as (e2 & H2 & Hl2 & Hj2 & Hn2).
    exists (e1 ++ e2). rewrite H2, H1, app_assoc.
    split; [done|]. split; [rewrite length_app; simpl; lia|].
    split; [by apply Forall_app|].
    intros Hnd. rewrite <- H1, <- H2. apply Hn2.
    rewrite H1, fmap_app. apply NoDup_app. split; [done|].
    split.
    + intros n Hn (t & -> & Ht)%list_elem_of_fmap.
      rewrite Forall_forall in Hn1. by apply (Hn1 t Ht).
    + destruct e1 as [|a [|b e1]]; [constructor| |simpl in Hl1; lia].
      apply NoDup_singleton.
Qed.

End JunctionTables.

(** X16.  The junction-table rewrite keeps every table of the schema, in
    place and unchanged, and only appends junction tables, at most one for
    each MANY_TO_MANY relationship; it introduces no duplicate table name,
    and it keeps the name of the schema. *)
Theorem preprocess_only_appends_junction_tables (schema : Schema.t) :
  let processed := SqlPreprocess.preprocessSchema schema in
  ∃ added,
    Schema.tables processed = Schema.tables schema ++ added
    ∧ Forall (λ t, Table.isJunctionTable t = true) added
    ∧ length added
      ≤ length (List.filter SqlPreprocess.isManyToMany (Schema.relationships schema))
    ∧ (NoDup (Table.name <$> Schema.tables schema) →
       NoDup (Table.name <$> Schema.tables processed))
    ∧ Schema.name processed = Schema.name schema.
Proof.
  cbv zeta. unfold SqlPreprocess.preprocessSchema.
  cbn [SqlPreprocess.withArrays Schema.tables Schema.name].
  destruct (junctionLoop_tables
              (List.filter SqlPreprocess.isManyToMany (Schema.relationships schema))
              (Schema.tables schema, Schema.relationships schema))
    as (added & H & Hl & Hj & Hn).
  exists added. done.
Qed.

(** The rewrite looks for the type MANY_TO_MANY in exactly this spelling: a
    schema none of whose relationships has it is returned as it is. *)
Lemma preprocessSchema_no_many_to_many (schema : Schema.t) :
  Forall (λ r, Relationship.type r ≠ Some "MANY_TO_MANY")
    (Schema.relationships schema) →
  SqlPreprocess.preprocessSchema schema = schema.
Proof.
  intros H. unfold SqlPreprocess.preprocessSchema.
  assert (List.filter SqlPreprocess.isManyToMany (Schema.relationships schema) = [])
    as ->.
  { induction H as [|r rs Hr _ IH]; [done|]. cbn [List.filter].
    rewrite IH. unfold SqlPreprocess.isManyToMany.
    destruct (optStrEq (Relationship.type r) "MANY_TO_MANY") eqn:E; [|done].
    apply optStrEq_eq in E. done. }
  by destruct schema.
Qed.

(** ** When a script is produced *)

Section Scripts.
  Import SqlGenerator.
  Variables mysql postgresql sqlite sqlserver : Generator.
  Variable format : string → string → option string.

Lemma getDialectGenerator_inherited (dialect : string) :
  (∃ key, getDialectGenerator mysql postgresql sqlite sqlserver dialect
          = Inherited key)
  ↔ JS.toLowerCase dialect = "constructor" ∨ JS.toLowerCase dialect = "__proto__".
Proof.
  unfold getDialectGenerator, generatorsGet.
  set (k := JS.toLowerCase dialect). split.
  - intros [key H].
    destruct (String.eqb k "mysql"); [done|].
    destruct (String.eqb k "postgresql"); [done|].
    destruct (String.eqb k "sqlite"); [done|].
    destruct (String.eqb k "sqlserver"); [done|].
    destruct (Arr.includes objectPrototypeKeys k) eqn:I; [|done].
    by apply includes_true, inherited_lowercase_keys in I.
  - intros [-> | ->]; eexists; reflexivity.
Qed.

Lemma getDialectGenerator_supported (dialect : string) :
  Arr.includes ExportController.supportedDialects (JS.toLowerCase dialect) = true →
  ∃ g, getDialectGenerator mysql postgresql sqlite sqlserver dialect = Backend g.
Proof.
  intros H. apply includes_true in H.
  unfold getDialectGenerator, generatorsGet.
  set (k := JS.toLowerCase dialect) in *.
  repeat (apply elem_of_cons in H as [->|H]; [eexists; reflexivity|]).
  by apply elem_of_nil in H.
Qed.

Lemma generateSQL_result (h : Store.heap) (l : Store.loc) (dialect : string)
    (s : Schema.t) (g : Generator) :
  Store.readSchema h l = Some s →
  getDialectGenerator mysql postgresql sqlite sqlserver dialect = Backend g →
  ∃ h', generateSQL mysql postgresql sqlite sqlserver format h l dialect
        = (h', inl (render format dialect
                      (statements g dialect s (SqlPreprocess.preprocessSchema s)))).
Proof.
  intros Hs Hg.
  pose proof (generateSQL_uses_rewritten_copy mysql postgresql sqlite sqlserver g
                format h l dialect s Hs Hg) as H.
  destruct (generateSQL _ _ _ _ _ h l dialect) as [h' r]. cbn [snd] in H.
  exists h'. by rewrite H.
Qed.

Lemma statements_common (g : Generator) (dialect : string) (s p : Schema.t) :
  dialect ≠ "postgresql" → dialect ≠ "sqlserver" → dialect ≠ "sqlite" →
  statements g dialect s p = SqlSpec.commonStatements g s p.
Proof.
  intros H1 H2 H3. unfold statements, SqlSpec.commonStatements.
  by rewrite !eqb_false_of_ne.
Qed.

End Scripts.

(** X18.  [generateSQL] fails in two cases only: the schema is not a
    readable object with its two arrays, or the dialect, in lower case,
    spells [constructor] or [__proto__].  In every other case it returns a
    script. *)
Theorem generateSQL_fails_only_on
    (mysql postgresql sqlite sqlserver : SqlGenerator.Generator)
    (format : string → string → option string)
    (h : Store.heap) (l : Store.loc) (dialect : string) :
  (∃ failure,
     (SqlGenerator.generateSQL mysql postgresql sqlite sqlserver format
        h l dialect).2 = inr failure)
  ↔ Store.readSchema h l = None
    ∨ JS.toLowerCase dialect = "constructor"
    ∨ JS.toLowerCase dialect = "__proto__".
Proof.
  destruct (Store.readSchema h l) as [s|] eqn:Hs.
  2:{ split; [by left|]. intros _. unfold SqlGenerator.generateSQL.
      rewrite Hs. by eexists. }
  destruct (SqlGenerator.getDialectGenerator mysql postgresql sqlite sqlserver dialect)
    as [g|key] eqn:Hg.
  - destruct (generateSQL_result mysql postgresql sqlite sqlserver format
                h l dialect s g Hs Hg) as [h' ->].
    split; [by intros [f Hf]|].
    intros [H|H]; [done|].
    apply (getDialectGenerator_inherited mysql postgresql sqlite sqlserver) in H
      as [key Hk]. congruence.
  - split.
    + intros _. right.
      apply (getDialectGenerator_inherited mysql postgresql sqlite sqlserver).
      by exists key.
    + intros _. unfold SqlGenerator.generateSQL. rewrite Hs, Hg. by eexists.
Qed.

(** X19.  The backend is chosen by the lower-cased dialect, but the
    statements that only some dialects get are chosen by the dialect as it
    is written: for [sqlite] or [sqlserver] written with a capital letter,
    the script comes from the backend of that dialect and has none of the
    separate foreign-key statements. *)
Theorem capitalised_dialect_gets_no_foreign_keys
    (mysql postgresql sqlite sqlserver : SqlGenerator.Generator)
    (format : string → string → option string)
    (h : Store.heap) (l : Store.loc) (dialect : string) (s : Schema.t) :
  Store.readSchema h l = Some s →
  JS.toLowerCase dialect = "sqlite" ∨ JS.toLowerCase dialect = "sqlserver" →
  dialect ≠ JS.toLowerCase dialect →
  (SqlGenerator.generateSQL mysql postgresql sqlite sqlserver format h l dialect).2
  = inl (SqlGenerator.render format dialect
           (SqlSpec.commonStatements
              (if String.eqb (JS.toLowerCase dialect) "sqlite"
               then sqlite else sqlserver)
              s (SqlPreprocess.preprocessSchema s))).
Proof.
  intros Hs Hd Hne.
  assert (dialect ≠ "postgresql" ∧ dialect ≠ "sqlserver" ∧ dialect ≠ "sqlite")
    as (H1 & H2 & H3).
  { repeat split; intros ->; destruct Hd as [Hd|Hd]; by vm_compute in Hd, Hne. }
  rewrite <- (statements_common _ dialect) by done.
  apply generateSQL_uses_rewritten_copy; [done|].
  unfold SqlGenerator.getDialectGenerator, SqlGenerator.generatorsGet.
  by destruct Hd as [-> | ->].
Qed.

Lemma capitalised_dialect_gets_no_foreign_keys_witness :
  (SqlGenerator.generateSQL (SampleBackends.backend "mysql")
     (SampleBackends.backend "postgresql") (SampleBackends.backend "sqlite")
     (SampleBackends.backend "sqlserver") SampleBackends.format
     SqlSpec.store 3%positive "SQLite").2
  = inl "-- sqlite: tree

CREATE TABLE node;"
  ∧ (SqlGenerator.generateSQL (SampleBackends.backend "mysql")
       (SampleBackends.backend "postgresql") (SampleBackends.backend "sqlite")
       (SampleBackends.backend "sqlserver") SampleBackends.format
       SqlSpec.store 3%positive "sqlite").2
    = inl "-- sqlite: tree

CREATE TABLE node;

ALTER TABLE node;".
Proof.
  split; [|by vm_compute].
  rewrite (capitalised_dialect_gets_no_foreign_keys _ _ _ _ _
             SqlSpec.store 3%positive "SQLite"
             SqlSpec.tree);
    try by vm_compute.
  by left.
Defined.

(** ** The handler of the SQL export *)

(** X20.  With a map whose schemas are readable objects, the status of the
    answer of the SQL export handler is decided by the two members of the
    request body alone.  It is 400 when [schemaId] is falsy (absent, null,
    the empty string or a falsy value of another kind); 404 when it is no
    key of the map, which holds for every value that is no string; and for a
    key of the map it depends on [dialect]: 200 when it is absent (the
    default [mysql] is taken), 200 when it is a string that is one of the
    four names in any mix of case, 400 when it is another string (so
    [constructor], which makes the service fail, does not reach it), and
    500 when it is null or no string, since [dialect.toLowerCase()] throws.
    Hence the service itself never makes the handler answer 500.  An
    answer 200 carries a script and the dialect as it was given. *)
Theorem export_handler_status
    (mysql postgresql sqlite sqlserver : SqlGenerator.Generator)
    (format : string → string → option string)
    (stored : SchemaModel.schemas) (h : Store.heap)
    (schemaId dialect : ExportController.Member) :
  SqlSpec.allReadable stored h →
  let response :=
    (ExportController.generateSQL mysql postgresql sqlite sqlserver format
       stored h schemaId dialect).2 in
  ExportController.status response
  = match schemaId with
    | ExportController.Absent | ExportController.Null => 400
    | ExportController.Other false => 400
    | ExportController.Other true => 404
    | ExportController.Text id =>
        if String.eqb id "" then 400
        else if SchemaModel.findById stored id is Some _
             then match dialect with
                  | ExportController.Absent => 200
                  | ExportController.Text d =>
                      if Arr.includes ["mysql"; "postgresql"; "sqlite"; "sqlserver"]
                           (JS.toLowerCase d)
                      then 200 else 400
                  | ExportController.Null | ExportController.Other _ => 500
                  end
             else 404
    end
  ∧ (ExportController.status response = 200 →
     ∃ sql, ExportController.body response
            = ExportController.Script "SQL script generated successfully" sql
                (match dialect with
                 | ExportController.Text d => d
                 | _ => "mysql"
                 end))
  ∧ (ExportController.status response = 500 →
     ExportController.body response
     = ExportController.Failed "Failed to generate SQL script"
         ExportController.NoToLowerCase).
Proof.
  intros Hread. cbv zeta. unfold ExportController.generateSQL.
  destruct schemaId as [| |id|[|]]; cbn [ExportController.truthy negb
    ExportController.findSchema ExportController.status ExportController.body snd];
    try (split; [done|]; split; done).
  destruct (String.eqb id ""); cbn [negb];
    [cbn [ExportController.status snd]; split; [done|]; split; done|].
  destruct (SchemaModel.findById stored id) as [l|] eqn:Hl;
    [|cbn [ExportController.status snd]; split; [done|]; split; done].
  assert (Hok : ∀ d,
    Arr.includes ExportController.supportedDialects (JS.toLowerCase d) = true →
    ∃ h' sql,
      SqlGenerator.generateSQL mysql postgresql sqlite sqlserver format h l d
      = (h', inl sql)).
  { intros d Hd. destruct (Hread _ _ Hl) as [s Hs].
    destruct (getDialectGenerator_supported mysql postgresql sqlite sqlserver
                _ Hd) as [g Hg].
    destruct (generateSQL_result mysql postgresql sqlite sqlserver format
                h l _ s g Hs Hg) as [h' E].
    by eexists _, _. }
  destruct dialect as [| |d|b];
    try (cbn [ExportController.status ExportController.body snd];
         split; [done|]; split; done).
  - destruct (Hok "mysql" eq_refl) as (h' & sql & E).
    change (Arr.includes ExportController.supportedDialects (JS.toLowerCase "mysql"))
      with true. cbn [negb]. rewrite E.
    cbn [ExportController.status ExportController.body snd].
    split; [done|]. split; [by eexists|done].
  - change ["mysql"; "postgresql"; "sqlite"; "sqlserver"]
      with ExportController.supportedDialects.
    destruct (Arr.includes _ (JS.toLowerCase d)) eqn:Hd; cbn [negb].
    + destruct (Hok d Hd) as (h' & sql & E). rewrite E.
      cbn [ExportController.status ExportController.body snd].
      split; [done|]. split; [by eexists|done].
    + cbn [ExportController.status ExportController.body snd].
      split; [done|]. split; done.
Qed.

Lemma export_handler_status_witness :
  ExportController.status
    (ExportController.generateSQL (SampleBackends.backend "mysql")
       (SampleBackends.backend "postgresql") (SampleBackends.backend "sqlite")
       (SampleBackends.backend "sqlserver") SampleBackends.format
       SqlSpec.stored SqlSpec.store
       (ExportController.Text "7") ExportController.Null).2
  = 500.
Proof.
  refine (proj1 (export_handler_status _ _ _ _ _
                   SqlSpec.stored SqlSpec.store
                   (ExportController.Text "7") ExportController.Null _)).
  intros id l Hl. unfold SchemaModel.findById, SqlSpec.stored in Hl.
  apply lookup_singleton_Some in Hl as [_ <-].
  eexists. by vm_compute.
Defined.

(** The dialect [constructor] is turned away with 400 before the service is
    called, and a schema id that is a number finds nothing. *)
Lemma export_handler_examples :
  ExportController.status
    (ExportController.generateSQL (SampleBackends.backend "mysql")
       (SampleBackends.backend "postgresql") (SampleBackends.backend "sqlite")
       (SampleBackends.backend "sqlserver") SampleBackends.format
       SqlSpec.stored SqlSpec.store
       (ExportController.Text "7") (ExportController.Text "constructor")).2
  = 400
  ∧ ExportController.status
      (ExportController.generateSQL (SampleBackends.backend "mysql")
         (SampleBackends.backend "postgresql") (SampleBackends.backend "sqlite")
         (SampleBackends.backend "sqlserver") SampleBackends.format
         SqlSpec.stored SqlSpec.store
         (ExportController.Other true) ExportController.Absent).2
    = 404.
Proof. split; by vm_compute. Qed.

(** ** Names in a diagram *)

Section DiagramNames.
  Import Regex DiagramText MermaidGeneratorService.

Lemma toLowerCase_app (a b : string) :
  JS.toLowerCase (a +:+ b) = JS.toLowerCase a +:+ JS.toLowerCase b.
Proof.
  apply chars_inj. by rewrite chars_app, !toLowerCase_chars, chars_app, fmap_app.
Qed.

Lemma keyword_with_suffix (k : string) :
  k ∈ reservedKeywords →
  Arr.includes reservedKeywords (k +:+ "_entity") = false.
Proof.
  intros H. unfold reservedKeywords in H.
  repeat (apply elem_of_cons in H as [->|H]; [by vm_compute|]).
  by apply elem_of_nil in H.
Qed.

End DiagramNames.

(** X21.  A sanitised name is a non-empty run of letters, digits and
    underscores, and in lower case, as the diagram shows it, it is never
    one of the reserved words. *)
Theorem sanitised_name_is_safe (name : option string) :
  DiagramText.isWordRun (JS.chars (MermaidGeneratorService.sanitizeName name))
  ∧ Arr.includes MermaidGeneratorService.reservedKeywords
      (JS.toLowerCase (MermaidGeneratorService.sanitizeName name)) = false.
Proof.
  split; [apply sanitizeName_word|].
  unfold MermaidGeneratorService.sanitizeName.
  destruct (negb (JS.truthy name)); [by vm_compute|]. cbv zeta.
  match goal with
  | |- context [if Arr.includes ?ks ?k then _ else _] =>
      destruct (Arr.includes ks k) eqn:E; [|exact E]
  end.
  apply includes_true in E.
  rewrite toLowerCase_app. change (JS.toLowerCase "_entity") with "_entity".
  by apply keyword_with_suffix.
Qed.

(** ** Entity blocks *)

Section EntityBlocks.
  Import MermaidGeneratorService BlockSpec.

Lemma filter_three {A} (p q : A → bool) (l : list A) :
  List.filter p l
    ++ List.filter (λ x, negb (p x) && q x) l
    ++ List.filter (λ x, negb (p x) && negb (q x)) l
  ≡ₚ l.
Proof.
  induction l as [|x l IH]; [done|]. cbn [List.filter].
  destruct (p x), (q x); cbn [negb andb app].
  - by constructor.
  - by constructor.
  - symmetry. apply Permutation_cons_app. by symmetry.
  - symmetry. rewrite app_assoc. apply Permutation_cons_app.
    rewrite <- app_assoc. by symmetry.
Qed.

Lemma fmap_filter_ext {A B} (p : A → bool) (f g : A → B) (l : list A) :
  (∀ x, p x = true → f x = g x) →
  f <$> List.filter p l = g <$> List.filter p l.
Proof.
  intros H. induction l as [|x l IH]; [done|]. cbn [List.filter].
  destruct (p x) eqn:E; [|done]. rewrite !fmap_cons, IH. f_equal. by apply H.
Qed.

Lemma filter_nil_some {A} (p : A → bool) (l : list A) :
  List.filter p l = [] → Arr.some p l = false.
Proof.
  induction l as [|x l IH]; [done|]. cbn [List.filter Arr.some existsb].
  destruct (p x); [done|]. exact IH.
Qed.

Lemma filter_cons_some {A} (p : A → bool) (l : list A) (x : A) (xs : list A) :
  List.filter p l = x :: xs → Arr.some p l = true.
Proof.
  intros H. assert (In x (List.filter p l)) as Hin by (rewrite H; by left).
  apply filter_In in Hin as [Hin Hp].
  apply existsb_exists. by exists x.
Qed.

End EntityBlocks.

(** X22.  The block of a table with a name lists the columns of the table in
    this order: the primary keys, then the foreign keys that are no primary
    keys, then the other columns, each group in the order of the table; this
    is a rearrangement of the columns, so that every column is listed
    exactly once.  Each line has the mapped type, the sanitised name and the
    key marker; a table without a primary key gets the line [number id PK]
    in front. *)
Theorem entity_block_lists_every_column (table : Table.t) :
  Table.name table ≠ "" →
  BlockSpec.order (Table.columns table)
  = List.filter Column.isPrimaryKey (Table.columns table)
    ++ List.filter (λ c, negb (Column.isPrimaryKey c) && Column.isForeignKey c)
         (Table.columns table)
    ++ List.filter (λ c, negb (Column.isPrimaryKey c) && negb (Column.isForeignKey c))
         (Table.columns table)
  ∧ BlockSpec.order (Table.columns table) ≡ₚ Table.columns table
  ∧ MermaidGeneratorService.generateEntityDefinition table
    = "    "
      +:+ JS.toLowerCase
            (MermaidGeneratorService.sanitizeName (Some (Table.name table)))
      +:+ " {" +:+ JS.nl
      +:+ (if Arr.some Column.isPrimaryKey (Table.columns table) then ""
           else "        number id PK" +:+ JS.nl)
      +:+ String.concat "" (BlockSpec.lineOf <$> BlockSpec.order (Table.columns table))
      +:+ "    }" +:+ JS.nl +:+ JS.nl.
Proof.
  intros Hne. split; [reflexivity|]. split; [apply filter_three|].
  unfold BlockSpec.order, MermaidGeneratorService.generateEntityDefinition.
  rewrite (eqb_false_of_ne _ _ Hne). cbv zeta.
  apply chars_inj. rewrite !chars_app. f_equal. f_equal. f_equal. f_equal.
  rewrite !chars_concat, !fmap_app, !concat_app, <- !app_assoc.
  rewrite (fmap_filter_ext Column.isPrimaryKey BlockSpec.lineOf
             (λ c, MermaidGeneratorService.attributeLine
                     (MermaidGeneratorService.mapDataType (Column.dataType c))
                     (MermaidGeneratorService.sanitizeName (Some (Column.name c)))
                     "PK")).
  2:{ intros c Hc. unfold BlockSpec.lineOf, BlockSpec.keyOf. by rewrite Hc. }
  rewrite (fmap_filter_ext _ BlockSpec.lineOf
             (λ c, MermaidGeneratorService.attributeLine
                     (MermaidGeneratorService.mapDataType (Column.dataType c))
                     (MermaidGeneratorService.sanitizeName (Some (Column.name c)))
                     "FK")).
  2:{ intros c [Hp%negb_true_iff Hf]%andb_true_iff.
      unfold BlockSpec.lineOf, BlockSpec.keyOf. by rewrite Hp, Hf. }
  rewrite (fmap_filter_ext _ BlockSpec.lineOf
             (λ c, MermaidGeneratorService.attributeLine
                     (MermaidGeneratorService.mapDataType (Column.dataType c))
                     (MermaidGeneratorService.sanitizeName (Some (Column.name c)))
                     "")).
  2:{ intros c [Hp%negb_true_iff Hf%negb_true_iff]%andb_true_iff.
      unfold BlockSpec.lineOf, BlockSpec.keyOf. by rewrite Hp, Hf. }
  destruct (List.filter Column.isPrimaryKey (Table.columns table))
    as [|pk pks] eqn:E.
  - rewrite (filter_nil_some _ _ E). cbn [fmap list_fmap concat app].
    reflexivity.
  - rewrite (filter_cons_some _ _ _ _ E). by rewrite chars_concat.
Qed.

Lemma entity_block_lists_every_column_witness :
  MermaidGeneratorService.generateEntityDefinition (SqlSpec.selfReferring "node")
  = "    node {" +:+ JS.nl
    +:+ "        number id PK" +:+ JS.nl
    +:+ "        number node_id FK" +:+ JS.nl
    +:+ "    }" +:+ JS.nl +:+ JS.nl.
Proof.
  destruct (entity_block_lists_every_column (SqlSpec.selfReferring "node"))
    as (_ & _ & ->); [by vm_compute|].
  by vm_compute.
Defined.

(** ** Foreign-key constraints *)

Section Constraints.
  Import SqlGenerator NameSpec.

Lemma getForeignKeyConstraints_columns (t : Table.t) :
  columnName <$> getForeignKeyConstraints t
  = Column.name <$> List.filter constrained (Table.columns t).
Proof.
  unfold getForeignKeyConstraints. generalize (Table.columns t). intros cols.
  induction cols as [|c cols IH]; [done|].
  cbn [omap list_omap List.filter]. unfold constrained at 1.
  destruct (Column.isForeignKey c); [|exact IH].
  destruct (Column.references c) as [ref|]; [|exact IH].
  cbn [mbind option_bind andb]. by rewrite !fmap_cons, <- IH.
Qed.

Lemma getForeignKeyConstraints_names (t : Table.t) :
  constraintName <$> getForeignKeyConstraints t
  = (λ n, "fk_" +:+ Table.name t +:+ "_" +:+ n)
      <$> (columnName <$> getForeignKeyConstraints t).
Proof.
  unfold getForeignKeyConstraints. generalize (Table.columns t). intros cols.
  induction cols as [|c cols IH]; [done|].
  cbn [omap list_omap].
  destruct (Column.isForeignKey c); [|exact IH].
  destruct (Column.references c) as [ref|]; [|exact IH].
  cbn [mbind option_bind]. by rewrite !fmap_cons, <- IH.
Qed.

Lemma str_app_inv_head (a b c : string) : a +:+ b = a +:+ c → b = c.
Proof.
  intros H. apply chars_inj.
  apply (f_equal JS.chars) in H. rewrite !chars_app in H.
  by apply app_inv_head in H.
Qed.

Lemma NoDup_filter_names (p : Column.t → bool) (cols : list Column.t) :
  NoDup (Column.name <$> cols) → NoDup (Column.name <$> List.filter p cols).
Proof.
  induction cols as [|c cols IH]; [done|].
  rewrite fmap_cons. intros [Hc Hnd]%NoDup_cons. cbn [List.filter].
  destruct (p c); [|by apply IH].
  rewrite fmap_cons. apply NoDup_cons. split; [|by apply IH].
  intros (x & Hx & Hin)%list_elem_of_fmap. apply Hc.
  apply list_elem_of_fmap. exists x. split; [done|].
  apply list_elem_of_In. apply list_elem_of_In in Hin.
  by apply filter_In in Hin as [Hin _].
Qed.

End Constraints.

(** X23.  A table yields one foreign-key constraint for each column that is
    flagged as a foreign key and carries a reference, in the order of the
    columns; a missing action is NO ACTION, never empty; and when the column
    names of the table are distinct, so are the names of its constraints. *)
Theorem constraints_follow_columns (table : Table.t) :
  let constraints := SqlGenerator.getForeignKeyConstraints table in
  SqlGenerator.columnName <$> constraints
  = Column.name <$> List.filter NameSpec.constrained (Table.columns table)
  ∧ Forall (λ fk, SqlGenerator.onDelete fk ≠ "" ∧ SqlGenerator.onUpdate fk ≠ "")
      constraints
  ∧ (NoDup (Column.name <$> Table.columns table) →
     NoDup (SqlGenerator.constraintName <$> constraints)).
Proof.
  cbv zeta. split; [apply getForeignKeyConstraints_columns|]. split.
  - unfold SqlGenerator.getForeignKeyConstraints. apply Forall_forall.
    intros fk (c & Hc & Hfk)%list_elem_of_omap.
    destruct (Column.isForeignKey c); [|done].
    destruct (Column.references c) as [ref|]; [|done].
    injection Hfk as <-. cbn [SqlGenerator.onDelete SqlGenerator.onUpdate].
    split; by apply orElse_nonempty.
  - intros Hnd. rewrite getForeignKeyConstraints_names.
    apply NoDup_fmap_2.
    + intros a b H. by do 3 apply str_app_inv_head in H.
    + rewrite getForeignKeyConstraints_columns. by apply NoDup_filter_names.
Qed.

(** ** The names of the controller copy *)

Section ControllerNames.
  Import Regex RegexSemantics ExportControllerMermaid NameSpec.

Lemma replaceGo_skip (r : regex) (f : caps → list ascii) (n : nat)
    (s : list ascii) :
  n ≤ length s → replaceGo r f n s = replaceGo r f 0 (drop n s).
Proof.
  revert s. induction n as [|n IH]; intros s Hn; [done|].
  destruct s as [|a s]; [simpl in Hn; lia|].
  cbn [replaceGo drop]. apply IH. simpl in Hn. lia.
Qed.

(** The greedy star over a class takes the whole run. *)
Lemma rmatch_star_class_run {A} (p : ascii → bool) (w x : list ascii)
    (c : caps) (k : list ascii → caps → option A) :
  Forall (λ a, p a = true) w → headIs p x = false → is_Some (k x c) →
  rmatch (RStar (RChr p)) (w ++ x) c k = k x c.
Proof.
  intros Hw Hx [y Hy]. cbn [rmatch].
  match goal with
  | |- ?star (length ?s) ?s c = _ => set (F := star)
  end.
  assert (∀ w n, Forall (λ a, p a = true) w → length w ≤ n →
            F n (w ++ x) c = k x c) as HF.
  { clear w Hw. intros w. induction w as [|a w IH]; intros n Hw Hn.
    - destruct n as [|n]; [done|]. cbn [app F].
      destruct x as [|b x]; [done|]. cbn [headIs] in Hx. by rewrite Hx.
    - apply Forall_cons in Hw as [Ha Hw].
      destruct n as [|n]; [simpl in Hn; lia|].
      cbn [app F]. rewrite Ha.
      assert (Nat.ltb (length (w ++ x)) (length (a :: w ++ x)) = true) as ->.
      { apply Nat.ltb_lt. simpl. lia. }
      fold F. rewrite (IH n Hw); [by rewrite Hy|]. simpl in Hn. lia. }
  apply HF; [done|]. rewrite length_app. lia.
Qed.

Lemma matchHere_underscores (n : nat) (x : list ascii) :
  headIs (Ascii.eqb "_") x = false →
  matchHere reUnderscores (replicate (S (S n)) "_"%char ++ x)
  = Some (S (S n), noCaps).
Proof.
  intros Hx. unfold matchHere, reUnderscores, chr.
  change (replicate (S (S n)) "_"%char ++ x)
    with ("_"%char :: "_"%char :: replicate n "_"%char ++ x).
  change (rmatch (RSeq (RChr (Ascii.eqb "_"))
                    (RSeq (RChr (Ascii.eqb "_")) (RStar (RChr (Ascii.eqb "_")))))
            ("_"%char :: "_"%char :: ?s) noCaps ?k)
    with (rmatch (RStar (RChr (Ascii.eqb "_"))) s noCaps k).
  rewrite rmatch_star_class_run; [| |done|done].
  - f_equal. f_equal. cbn [length]. rewrite !length_app, length_replicate. lia.
  - apply Forall_forall. by intros a ->%elem_of_replicate_inv.
Qed.

Lemma matchHere_underscores_none (s : list ascii) :
  headIs (Ascii.eqb "_") s = false
  ∨ (∃ x, s = "_"%char :: x ∧ headIs (Ascii.eqb "_") x = false) →
  matchHere reUnderscores s = None.
Proof.
  intros H. destruct (matchHere reUnderscores s) as [[n c]|] eqn:E; [|done].
  exfalso. apply matchHere_sound in E as (s' & Hm & _).
  unfold reUnderscores in Hm.
  apply matches_seq in Hm as (s1 & c1 & (a & -> & Ha & _)%matches_chr & Hm).
  apply matches_seq in Hm as (s2 & c2 & (b & -> & Hb & _)%matches_chr & _).
  destruct H as [H|(x & Heq & H)].
  - cbn [headIs] in H. congruence.
  - injection Heq as _ <-. cbn [headIs] in H. congruence.
Qed.

Lemma underscores_split (t : list ascii) :
  ∃ k x, t = replicate k "_"%char ++ x ∧ headIs (Ascii.eqb "_") x = false.
Proof.
  induction t as [|a t (k & x & -> & Hx)]; [by exists 0, []|].
  destruct ((Ascii.eqb "_") a) eqn:Ha.
  - apply Ascii.eqb_eq in Ha as <-. by exists (S k), x.
  - by exists 0, (a :: replicate k "_"%char ++ x).
Qed.

Lemma squeeze_run (k : nat) (x : list ascii) :
  headIs (Ascii.eqb "_") x = false →
  replaceAll reUnderscores (λ _, ["_"%char]) (replicate (S k) "_"%char ++ x)
  = "_"%char :: replaceAll reUnderscores (λ _, ["_"%char]) x.
Proof.
  intros Hx. unfold replaceAll. destruct k as [|k].
  - cbn [replicate app replaceGo].
    rewrite matchHere_underscores_none; [done|]. right. by exists x.
  - change (replicate (S (S k)) "_"%char ++ x)
      with ("_"%char :: replicate (S k) "_"%char ++ x).
    cbn [replaceGo].
    change ("_"%char :: replicate (S k) "_"%char ++ x)
      with (replicate (S (S k)) "_"%char ++ x).
    rewrite matchHere_underscores by done. cbn [app]. f_equal.
    rewrite replaceGo_skip.
    + by rewrite drop_app_length'; [|rewrite length_replicate].
    + rewrite length_app, length_replicate. lia.
Qed.

Lemma squeeze_other (a : ascii) (s : list ascii) :
  (Ascii.eqb "_") a = false →
  replaceAll reUnderscores (λ _, ["_"%char]) (a :: s)
  = a :: replaceAll reUnderscores (λ _, ["_"%char]) s.
Proof.
  intros Ha. unfold replaceAll. cbn [replaceGo].
  rewrite matchHere_underscores_none; [done|]. by left.
Qed.

(** What squeezing the runs of underscores achieves. *)
Lemma squeeze_spec (Q : ascii → Prop) (s : list ascii) :
  let out := replaceAll reUnderscores (λ _, ["_"%char]) s in
  noDoubleUnderscore out = true
  ∧ (headIs (Ascii.eqb "_") s = false → headIs (Ascii.eqb "_") out = false)
  ∧ (Forall Q s → Forall Q out)
  ∧ (s ≠ [] → out ≠ []).
Proof.
  cbv zeta. remember (length s) as n eqn:Hn. revert s Hn.
  induction n as [n IH] using lt_wf_ind. intros s Hn.
  destruct s as [|a t].
  - unfold replaceAll. cbn [replaceGo].
    rewrite matchHere_underscores_none by by left. done.
  - destruct ((Ascii.eqb "_") a) eqn:Ha.
    + apply Ascii.eqb_eq in Ha as <-.
      destruct (underscores_split t) as (k & x & -> & Hx).
      change ("_"%char :: replicate k "_"%char ++ x)
        with (replicate (S k) "_"%char ++ x).
      rewrite squeeze_run by done.
      destruct (IH (length x)) with (s := x) as (H1 & H2 & H3 & _); [|done|].
      { rewrite Hn. cbn [length]. rewrite length_app. lia. }
      split; [|split; [done|split; [|done]]].
      * cbn [noDoubleUnderscore]. rewrite (H2 Hx), H1. by rewrite andb_false_r.
      * intros HQ. apply Forall_app in HQ as [Hr HQ].
        apply Forall_cons in Hr as [Hu _]. constructor; [done|auto].
    + rewrite squeeze_other by done.
      destruct (IH (length t)) with (s := t) as (H1 & H2 & H3 & _); [|done|].
      { rewrite Hn. simpl. lia. }
      split; [|split; [done|split; [|done]]].
      * cbn [noDoubleUnderscore]. by rewrite Ha, H1.
      * intros [Ha' HQ]%Forall_cons. constructor; [done|auto].
Qed.

End ControllerNames.

(** X24.  The controller copy of [sanitizeName] returns a non-empty run of
    letters, digits and underscores in which no two underscores follow each
    other. *)
Theorem controller_sanitised_name_is_squeezed (name : option string) :
  DiagramText.isWordRun (JS.chars (ExportControllerMermaid.sanitizeName name))
  ∧ NameSpec.noDoubleUnderscore
      (JS.chars (ExportControllerMermaid.sanitizeName name)) = true.
Proof.
  unfold ExportControllerMermaid.sanitizeName.
  destruct (JS.truthy name) eqn:Hn; cbn [negb].
  2:{ split; [|by vm_compute]. split; [done|].
      cbn [JS.chars String.list_ascii_of_string].
      repeat (constructor; [reflexivity|]). constructor. }
  rewrite chars_str.
  destruct (squeeze_spec (λ a, JS.isWord a = true)
              (Regex.replaceAll (Regex.RChr (λ a, negb (JS.isWord a)))
                 (λ _, ["_"%char]) (JS.chars (tmpl name))))
    as (H1 & _ & H3 & H4).
  split; [|done]. split.
  - apply H4. rewrite replaceAll_class_map.
    destruct name as [[|a n]|]; [done| |done]. done.
  - apply H3. rewrite replaceAll_class_map. apply Forall_fmap, Forall_true.
    intros a. unfold compose. by destruct (JS.isWord a) eqn:E.
Qed.

(** ** The references of a generated schema *)

Section References.
  Import SchemaGenerator NormalizerSpec SchemaIntegrity ReferenceSpec.

Lemma satisfied_keepsColumns (ts ts' : list Table.t) (ref : Reference.t) :
  Forall2 keepsColumns ts ts' → satisfied ts ref → satisfied ts' ref.
Proof.
  intros Hk (S & HS & Hn & Hc).
  apply list_elem_of_lookup in HS as [i Hi].
  destruct (Forall2_lookup_l _ _ _ _ _ Hk Hi) as (S' & Hi' & [Hn' Hc']).
  exists S'. split; [by eapply list_elem_of_lookup_2|].
  split; [congruence|auto].
Qed.

(** A step that keeps the columns, and whose new references hold in the
    tables it leaves, keeps the references. *)
Lemma referencesHold_step (ts ts' : list Table.t) :
  Forall2 keepsColumns ts ts' →
  (∀ i t t' c ref,
     ts !! i = Some t → ts' !! i = Some t' →
     c ∈ Table.columns t' → Column.references c = Some ref →
     (∃ c0, c0 ∈ Table.columns t ∧ Column.references c0 = Some ref)
     ∨ satisfied ts' ref) →
  referencesHold ts → referencesHold ts'.
Proof.
  intros Hk Hnew Hold t' c ref Ht' Hc Href.
  apply list_elem_of_lookup in Ht' as [i Hi'].
  destruct (Forall2_lookup_r _ _ _ _ _ Hk Hi') as (t & Hi & _).
  destruct (Hnew i t t' c ref Hi Hi' Hc Href) as [(c0 & Hc0 & Href0)|Hs]; [|done].
  eapply satisfied_keepsColumns; [exact Hk|].
  eapply Hold; [|exact Hc0|exact Href0]. by eapply list_elem_of_lookup_2.
Qed.

Lemma addForeignKey_referencesHold (ts : list Table.t) (si ti : nat) (S : Table.t) :
  ts !! si = Some S → keyed S →
  referencesHold ts →
  referencesHold
    (addForeignKey ti (Table.name S) (primaryKeyOr (bareIdColumn None) S) ts).
Proof.
  intros HS HkS Hold. unfold addForeignKey.
  set (pk := primaryKeyOr (bareIdColumn None) S).
  assert (Forall2 extends ts (alter (addForeignKeyTo (Table.name S) pk) ti ts))
    as Hext by (apply alter_extends; intros; apply addForeignKeyTo_extends).
  apply (referencesHold_step ts); [by apply extends_all_keepsColumns| |done].
  intros i t t' c ref Hi Hi' Hc Href.
  destruct (decide (ti = i)) as [->|Hne].
  2:{ rewrite list_lookup_alter_ne, Hi in Hi' by done. injection Hi' as <-.
      left. by exists c. }
  rewrite list_lookup_alter_eq, Hi in Hi'. injection Hi' as <-.
  unfold addForeignKeyTo in Hc.
  destruct (hasColumnNamed _ (Table.columns t)); [left; by exists c|].
  cbn [withColumns Table.columns] in Hc.
  apply elem_of_app in Hc as [Hc|Hc]; [left; by exists c|].
  apply list_elem_of_singleton in Hc as ->.
  injection Href as <-. right.
  destruct (Forall2_lookup_l _ _ _ _ _ Hext HS) as (S' & HS' & HextS).
  exists S'. split; [by eapply list_elem_of_lookup_2|].
  split; [apply HextS|].
  apply (extends_keepsColumns _ _ HextS). by apply keyed_hasColumn.
Qed.

Lemma transformRelationship_referencesHold (r : RelIn.t) (ts : list Table.t) :
  Forall keyed ts → referencesHold ts →
  referencesHold (transformRelationship r ts).2.
Proof.
  intros Hk Hold.
  destruct (transformRelationship_resolved r ts)
    as [Hno|(si & ti & S & T & Hres & HS & HT)]; [by rewrite Hno|].
  rewrite (transformRelationship_tables r ts si ti S T Hres HS HT).
  rewrite setupForeignKeys_tables. cbv zeta.
  assert (keyed S ∧ keyed T) as [HkS HkT].
  { split; eapply Forall_lookup_1; eauto. }
  destruct (String.eqb _ "MANY_TO_ONE");
    [|destruct (String.eqb _ "MANY_TO_MANY")]; [|done|];
    by eapply addForeignKey_referencesHold.
Qed.

Lemma transformRelationships_referencesHold (rs : list RelIn.t)
    (ts : list Table.t) :
  Forall keyed ts → referencesHold ts →
  referencesHold (transformRelationships rs ts).2.
Proof.
  revert ts. induction rs as [|r rs IH]; intros ts Hk Hold; [done|].
  cbn [transformRelationships].
  pose proof (transformRelationship_referencesHold r ts Hk Hold) as H1.
  pose proof (transformRelationship_extends r ts) as Hext.
  destruct (transformRelationship r ts) as [o ts1]. cbn [snd] in *.
  pose proof (IH ts1 (extends_all_keyed _ _ Hext Hk) H1) as H2.
  by destruct (transformRelationships rs ts1) as [ys ts2].
Qed.

(** The columns of a table that has been made weak carry the references
    that the columns of the table carried, and a reference to the primary
    key of the owner. *)
Lemma makeWeak_references (owner T : Table.t) (c : Column.t) (ref : Reference.t) :
  c ∈ Table.columns (makeWeak owner T) → Column.references c = Some ref →
  (∃ c0, c0 ∈ Table.columns T ∧ Column.references c0 = Some ref)
  ∨ ref = cascadeReference (Table.name owner)
            (Column.name (primaryKeyOr (bareIdColumn (Some "INTEGER")) owner)).
Proof.
  unfold makeWeak. cbn [Table.columns].
  set (isFk := λ c : Column.t, String.eqb (Column.name c) _).
  match goal with
  | |- context [Arr.find _ ?l] => set (cols1 := l)
  end.
  intros Hc Href.
  assert (c ∈ cols1 ∨ c = partialKey) as [Hc1| ->]; [| |done].
  { destruct (Arr.find _ cols1); [by left|].
    unfold Arr.insertAt in Hc.
    apply elem_of_app in Hc as [Hc|Hc].
    - left. by eapply subseteq_take.
    - apply elem_of_cons in Hc as [->|Hc]; [by right|].
      left. by eapply subseteq_drop. }
  clear Hc. unfold cols1 in Hc1.
  destruct (Arr.findIndex isFk (Table.columns T)) as [i|].
  - apply list_elem_of_lookup in Hc1 as [j Hj].
    destruct (decide (i = j)) as [->|Hne].
    + rewrite list_lookup_alter_eq in Hj.
      destruct (Table.columns T !! j) as [c0|] eqn:E; [|done].
      injection Hj as <-. left. exists c0.
      split; [by eapply list_elem_of_lookup_2|done].
    + rewrite list_lookup_alter_ne in Hj by done.
      left. exists c. split; [by eapply list_elem_of_lookup_2|done].
  - apply elem_of_cons in Hc1 as [->|Hc1]; [|left; by exists c].
    right. by injection Href as <-.
Qed.

Lemma identifyingStep_referencesHold (ts : list Table.t) (y : Relationship.t) :
  Forall keyed ts → referencesHold ts → referencesHold (identifyingStep ts y).
Proof.
  intros Hk Hold. unfold identifyingStep.
  destruct (Arr.find _ ts) as [owner|] eqn:Eo; [|done].
  destruct (Arr.findIndex _ ts) as [di|]; [|done].
  apply find_Some in Eo as [Hin _].
  assert (keyed owner) as Hko by by eapply Forall_forall in Hk.
  assert (Forall2 keepsColumns ts (alter (makeWeak owner) di ts)) as Hkeep.
  { apply alter_keepsColumns. intros. apply makeWeak_keepsColumns. }
  apply (referencesHold_step ts); [done| |done].
  intros i t t' c ref Hi Hi' Hc Href.
  destruct (decide (di = i)) as [->|Hne].
  2:{ rewrite list_lookup_alter_ne, Hi in Hi' by done. injection Hi' as <-.
      left. by exists c. }
  rewrite list_lookup_alter_eq, Hi in Hi'. injection Hi' as <-.
  destruct (makeWeak_references owner t c ref Hc Href) as [H| ->]; [by left|].
  right. apply list_elem_of_lookup in Hin as [oi Hoi].
  destruct (Forall2_lookup_l _ _ _ _ _ Hkeep Hoi) as (owner' & Ho' & [Hn Hcols]).
  exists owner'. split; [by eapply list_elem_of_lookup_2|].
  split; [done|]. apply Hcols. by apply keyed_hasColumn.
Qed.

Lemma processIdentifyingRelationships_referencesHold
    (ys : list Relationship.t) (ts : list Table.t) :
  Forall keyed ts → referencesHold ts →
  referencesHold (processIdentifyingRelationships ys ts).
Proof.
  unfold processIdentifyingRelationships.
  generalize (List.filter Relationship.isIdentifying ys). intros l.
  revert ts. induction l as [|y l IH]; intros ts Hk Hold; [done|].
  rewrite foldl_cons_eq. apply IH.
  - by apply identifyingStep_keyed.
  - by apply identifyingStep_referencesHold.
Qed.

Lemma detectLookupTables_referencesHold (ts : list Table.t) :
  referencesHold ts → referencesHold (detectLookupTables ts).
Proof.
  intros Hold. apply (referencesHold_step ts);
    [apply detectLookupTables_keepsColumns| |done].
  intros i t t' c ref Hi Hi' Hc Href. left. exists c. split; [|done].
  unfold detectLookupTables in Hi'. rewrite list_lookup_fmap, Hi in Hi'.
  injection Hi' as <-. by rewrite (proj1 (detectLookupTable_columns t)) in Hc.
Qed.

Lemma audit_columns_elem (c : Column.t) (cols : list Column.t) :
  c ∈ (if hasColumnNamed "updated_at"
            (if hasColumnNamed "created_at" cols then cols
             else cols ++ [createdAtColumn])
       then (if hasColumnNamed "created_at" cols then cols
             else cols ++ [createdAtColumn])
       else (if hasColumnNamed "created_at" cols then cols
             else cols ++ [createdAtColumn]) ++ [updatedAtColumn]) →
  c ∈ cols ∨ c = createdAtColumn ∨ c = updatedAtColumn.
Proof.
  intros H.
  destruct (hasColumnNamed "created_at" cols);
    destruct (hasColumnNamed "updated_at" _);
    repeat (apply elem_of_app in H as [H|H]);
    try (apply list_elem_of_singleton in H); auto.
Qed.

Lemma initialTables_referencesHold (entities : list Entity.t) :
  plainAttributes entities → referencesHold (initialTables entities).
Proof.
  intros Hplain t c ref (e & -> & He)%list_elem_of_fmap Hc Href. exfalso.
  unfold tableOfEntity in Hc. cbn [Table.columns] in Hc.
  apply audit_columns_elem in Hc as [Hc|[->| ->]]; [|done|done].
  assert (c ∈ generateColumnsFromAttributes (default [] (Entity.attributes e))
          ∨ c = idColumn) as [Hc'| ->]; [|clear Hc|done].
  { destruct (Arr.some Column.isPrimaryKey _); [by left|].
    apply elem_of_cons in Hc as [->|Hc]; auto. }
  destruct (Entity.attributes e) as [attrs|] eqn:Ea; cbn [default] in Hc'.
  2:{ cbn in Hc'. repeat (apply elem_of_cons in Hc' as [->|Hc']; [done|]).
      by apply elem_of_nil in Hc'. }
  destruct attrs as [|a attrs].
  { cbn in Hc'. repeat (apply elem_of_cons in Hc' as [->|Hc']; [done|]).
    by apply elem_of_nil in Hc'. }
  unfold generateColumnsFromAttributes in Hc'.
  apply list_elem_of_fmap in Hc' as (x & -> & Hx).
  cbn [columnOfAttribute Column.references] in Href.
  by rewrite (Hplain e _ x He Ea Hx) in Href.
Qed.

End References.

(** X26.  When the attributes of the entities carry no reference of their
    own, every foreign-key constraint that the SQL generator reads off a
    table of the generated schema refers to a table of this schema and to a
    column that this table has. *)
Theorem generated_constraints_refer_to_schema (entities : list Entity.t)
    (rels : list RelIn.t) (options : SchemaGenerator.Options) (now : string)
    (T : Table.t) (fk : SqlGenerator.ForeignKey) :
  ReferenceSpec.plainAttributes entities →
  let schema := SchemaGenerator.generateSchema entities rels options now in
  T ∈ Schema.tables schema →
  fk ∈ SqlGenerator.getForeignKeyConstraints T →
  ∃ S, S ∈ Schema.tables schema
       ∧ Table.name S = SqlGenerator.referenceTable fk
       ∧ SchemaIntegrity.hasColumn S (SqlGenerator.referenceColumn fk).
Proof.
  intros Hplain schema HT Hfk. unfold schema in *.
  assert (ReferenceSpec.referencesHold
            (Schema.tables (SchemaGenerator.generateSchema entities rels options now)))
    as Hold.
  { rewrite generateSchema_tables.
    apply detectLookupTables_referencesHold,
      processIdentifyingRelationships_referencesHold;
      [apply tablesAfter_all_keyed|].
    apply transformRelationships_referencesHold.
    - apply Forall_fmap, Forall_true. intros e. apply tableOfEntity_keyed.
    - by apply initialTables_referencesHold. }
  unfold SqlGenerator.getForeignKeyConstraints in Hfk.
  apply list_elem_of_omap in Hfk as (c & Hc & Hfk).
  destruct (Column.isForeignKey c); [|done].
  destruct (Column.references c) as [ref|] eqn:Href; [|done].
  injection Hfk as <-.
  cbn [SqlGenerator.referenceTable SqlGenerator.referenceColumn].
  by apply (Hold T c ref).
Qed.

Lemma generated_constraints_refer_to_schema_witness :
  ∃ S, S ∈ Schema.tables
             (SchemaGenerator.generateSchema [Samples.author; Samples.book]
                [NormalizerSpec.writes false] Samples.noOptions "2024-05-01")
       ∧ Table.name S = "author"
       ∧ SchemaIntegrity.hasColumn S "id".
Proof.
  eapply (generated_constraints_refer_to_schema [Samples.author; Samples.book]
            [NormalizerSpec.writes false] Samples.noOptions "2024-05-01"
            _ ReferenceSpec.bookToAuthor).
  - intros e attrs a He Ha Hin.
    repeat (apply elem_of_cons in He as [->|He];
            [injection Ha as <-; apply list_elem_of_singleton in Hin as ->; done|]).
    by apply elem_of_nil in He.
  - vm_compute. right. left.
  - vm_compute. left.
Defined.

(** ** The types of generated relationships *)

Section GeneratedTypes.
  Import SchemaGenerator NormalizerSpec.

Lemma transformRelationship_type (x : RelIn.t) (ts ts' : list Table.t)
    (y : Relationship.t) :
  transformRelationship x ts = (Some y, ts') →
  Relationship.type y = Some (JS.orElse (RelIn.type x) "ONE_TO_MANY").
Proof.
  unfold transformRelationship.
  destruct (negb _); [done|].
  destruct (resolve _ ts) as [si|]; [|done].
  destruct (resolve (orOpt (RelIn.targetEntity x) _) ts) as [ti|]; [|done].
  destruct (ts !! si) as [S|]; [|done].
  destruct (ts !! ti) as [T|]; [|done].
  unfold setupForeignKeys. intros [= <- _]. cbn [Relationship.type].
  unfold JS.truthy, JS.orElse.
  destruct (RelIn.type x) as [s|] eqn:Et; [|done].
  destruct (String.eqb s "") eqn:E; [done|]. cbn [negb]. by rewrite Et, E.
Qed.

Lemma transformRelationships_type (rs : list RelIn.t) (ts : list Table.t)
    (y : Relationship.t) :
  y ∈ (transformRelationships rs ts).1 →
  ∃ x, x ∈ rs
       ∧ Relationship.type y = Some (JS.orElse (RelIn.type x) "ONE_TO_MANY").
Proof.
  revert ts. induction rs as [|r rs IH]; intros ts.
  - simpl. by intros ?%elem_of_nil.
  - cbn [transformRelationships].
    pose proof (transformRelationship_type r ts) as H1.
    destruct (transformRelationship r ts) as [o ts1].
    pose proof (IH ts1) as H2.
    destruct (transformRelationships rs ts1) as [ys ts2]. cbn [fst] in *.
    assert (y ∈ ys → ∃ x, x ∈ r :: rs
              ∧ Relationship.type y = Some (JS.orElse (RelIn.type x) "ONE_TO_MANY"))
      as Hrest.
    { intros (x & Hx & Hty)%H2. exists x. split; [by right|done]. }
    destruct o as [y0|]; [|done].
    intros [->|Hy]%elem_of_cons; [|auto].
    exists r. split; [left|]. by eapply H1.
Qed.

End GeneratedTypes.

(** X17.  The junction-table rewrite looks for the type MANY_TO_MANY in
    exactly this spelling, and the normaliser hands the type on as it was
    written: when no relationship of the input is typed MANY_TO_MANY in
    capitals, the rewrite returns the generated schema as it is, without a
    junction table, also for a relationship typed [many_to_many]. *)
Theorem generated_schema_without_many_to_many_is_kept
    (entities : list Entity.t) (rels : list RelIn.t)
    (options : SchemaGenerator.Options) (now : string) :
  Forall (λ r, RelIn.type r ≠ Some "MANY_TO_MANY") rels →
  SqlPreprocess.preprocessSchema
    (SchemaGenerator.generateSchema entities rels options now)
  = SchemaGenerator.generateSchema entities rels options now.
Proof.
  intros Hrels. apply preprocessSchema_no_many_to_many.
  rewrite generateSchema_relationships. apply Forall_forall.
  intros y (x & Hx & Hy)%transformRelationships_type.
  rewrite Forall_forall in Hrels. specialize (Hrels x Hx).
  rewrite Hy. intros [= Heq]. apply Hrels. unfold JS.orElse in Heq.
  destruct (RelIn.type x) as [s|]; [|done].
  destruct (String.eqb s ""); [done|]. by rewrite Heq.
Qed.

Lemma generated_schema_without_many_to_many_is_kept_witness :
  SqlPreprocess.preprocessSchema
    (SchemaGenerator.generateSchema [Samples.author; Samples.book]
       [SqlSpec.lowerCaseWrites] Samples.noOptions "2024-05-01")
  = SchemaGenerator.generateSchema [Samples.author; Samples.book]
      [SqlSpec.lowerCaseWrites] Samples.noOptions "2024-05-01".
Proof.
  apply generated_schema_without_many_to_many_is_kept.
  repeat constructor. by vm_compute.
Defined.

(** ** The schemas kept by the model *)

Section Model.
  Import Store SchemaModel ModelSpec.

Lemma ofNat_inj (a b : nat) : JS.ofNat a = JS.ofNat b → a = b.
Proof.
  unfold JS.ofNat. intros H.
  apply (f_equal NilEmpty.uint_of_string) in H.
  rewrite !NilEmpty.usu in H. injection H as H.
  apply (f_equal Nat.of_uint) in H. by rewrite !DecimalNat.Unsigned.of_to in H.
Qed.

Lemma ofNat_nonempty (n : nat) : JS.ofNat n ≠ "".
Proof.
  unfold JS.ofNat. intros H.
  apply (f_equal NilEmpty.uint_of_string) in H.
  rewrite NilEmpty.usu in H. cbn in H. injection H as H.
  pose proof (DecimalNat.Unsigned.of_to n) as E. rewrite H in E.
  cbn in E. subst n. by vm_compute in H.
Qed.

(** What [new Schema(data)] and [save()] leave: three fresh cells, the new
    object filed under the id taken from the counter. *)
Lemma create_spec (data : Schema.t) (built saved : string) (st st' : state)
    (h h' : heap) (id : string) (l : loc) :
  create data built saved st h = (id, l, st', h') →
  id = JS.ofNat (nextId st)
  ∧ st' = mkState (<[id := l]> (stored st)) (S (nextId st))
  ∧ h !! l = None
  ∧ h ⊆ h'
  ∧ readSchema h' l = Some (construct data built saved).
Proof.
  unfold create, alloc.
  set (s := construct data built saved).
  set (lt := fresh (dom h)).
  set (h1 := <[lt := TableArray (Schema.tables s)]> h).
  set (lr := fresh (dom h1)).
  set (h2 := <[lr := RelationshipArray (Schema.relationships s)]> h1).
  set (lo := fresh (dom h2)).
  intros [= <- <- <- <-].
  assert (F1 : h !! lt = None) by apply not_elem_of_dom, is_fresh.
  assert (F2 : h1 !! lr = None) by apply not_elem_of_dom, is_fresh.
  assert (F3 : h2 !! lo = None) by apply not_elem_of_dom, is_fresh.
  unfold h2, h1 in *.
  assert (lt ≠ lr) by (intros E; rewrite <- E, lookup_insert_eq in F2; done).
  assert (lr ≠ lo) by (intros E; rewrite <- E, lookup_insert_eq in F3; done).
  assert (lt ≠ lo).
  { intros E. rewrite <- E, lookup_insert_ne, lookup_insert_eq in F3; done. }
  rewrite lookup_insert_ne in F2 by done.
  rewrite !lookup_insert_ne in F3 by done.
  split; [done|]. split; [done|]. split; [done|]. split.
  - apply map_subseteq_spec. intros l0 c Hl0.
    assert (l0 ≠ lt) by (intros ->; congruence).
    assert (l0 ≠ lr) by (intros ->; congruence).
    assert (l0 ≠ lo) by (intros ->; congruence).
    by rewrite !lookup_insert_ne.
  - unfold readSchema, tablesAt, relationshipsAt.
    rewrite lookup_insert_eq.
    rewrite (lookup_insert_ne _ lo lt) by done.
    rewrite (lookup_insert_ne _ lr lt) by done.
    rewrite lookup_insert_eq.
    rewrite (lookup_insert_ne _ lo lr) by done.
    rewrite lookup_insert_eq. subst s. reflexivity.
Qed.

Lemma idsBelowCounter_fresh (st : state) :
  idsBelowCounter st → findById (stored st) (JS.ofNat (nextId st)) = None.
Proof.
  intros Hids. destruct (findById _ _) as [l|] eqn:E; [|done].
  destruct (Hids _ _ E) as (k & Hk & Heq). apply ofNat_inj in Heq. lia.
Qed.

End Model.

(** X27.  Saving a generated schema and finding it again.  When the ids of
    the map were all taken from the counter and the language service returns
    entities and relationships for a prompt, the handler answers 201 with
    an id that was not in use; the schema found under this id is the
    generated schema with the stamps of the model; every schema that was
    stored before is still found under its id and reads as before; and the
    ids of the map are again all taken from the counter. *)
Theorem generated_schema_is_saved_and_found
    (extractEntities : string → SchemaController.Extraction)
    (now built saved : string) (st : SchemaModel.state) (h : Store.heap)
    (prompt name description : option string)
    (entities : list Entity.t) (rels : list RelIn.t) :
  ModelSpec.idsBelowCounter st →
  JS.truthy prompt = true →
  extractEntities (tmpl prompt) = SchemaController.Extracted entities rels →
  ∃ st' h' id l,
    SchemaController.generateSchema extractEntities now built saved st h
      prompt name description
    = (st', h',
       SchemaController.mkResponse 201
         (SchemaController.Created "Schema generated successfully" id l))
    ∧ SchemaModel.findById (SchemaModel.stored st) id = None
    ∧ SchemaModel.findById (SchemaModel.stored st') id = Some l
    ∧ Store.readSchema h' l
      = Some (SchemaModel.construct
                (SchemaGenerator.generateSchema entities rels
                   (SchemaGenerator.mkOptions (Some (default "New Schema" name))
                      (Some (default "" description))) now)
                built saved)
    ∧ (∀ id0 l0, SchemaModel.findById (SchemaModel.stored st) id0 = Some l0 →
         SchemaModel.findById (SchemaModel.stored st') id0 = Some l0
         ∧ ∀ s, Store.readSchema h l0 = Some s → Store.readSchema h' l0 = Some s)
    ∧ ModelSpec.idsBelowCounter st'.
Proof.
  intros Hids Hp He. unfold SchemaController.generateSchema.
  rewrite Hp, He. cbn [negb].
  destruct (SchemaModel.create _ built saved st h) as [[[id l] st'] h'] eqn:Hc.
  apply create_spec in Hc as (-> & -> & Hl & Hsub & Hr).
  eexists _, h', _, l. split; [done|].
  pose proof (idsBelowCounter_fresh st Hids) as Hfresh.
  split; [done|]. cbn [SchemaModel.stored].
  unfold SchemaModel.findById in *.
  split; [by rewrite lookup_insert_eq|]. split; [done|]. split.
  - intros id0 l0 H0. split.
    + rewrite lookup_insert_ne; [done|]. intros <-. congruence.
    + intros s. by apply readSchema_subseteq.
  - intros id0 l0 H0. cbn [SchemaModel.stored SchemaModel.nextId] in *.
    destruct (decide (id0 = JS.ofNat (SchemaModel.nextId st))) as [->|Hne].
    + exists (SchemaModel.nextId st). split; [lia|done].
    + unfold SchemaModel.findById in H0. rewrite lookup_insert_ne in H0 by done.
      destruct (Hids _ _ H0) as (k & Hk & ->). exists k. split; [lia|done].
Qed.

Lemma generated_schema_is_saved_and_found_witness :
  ∃ st' h' id l,
    SchemaController.generateSchema ModelSpec.library "2024-05-01" "2024-05-01"
      "2024-05-02" ModelSpec.initial ∅ (Some "a library") None None
    = (st', h',
       SchemaController.mkResponse 201
         (SchemaController.Created "Schema generated successfully" id l))
    ∧ SchemaModel.findById (SchemaModel.stored ModelSpec.initial) id = None
    ∧ SchemaModel.findById (SchemaModel.stored st') id = Some l
    ∧ Store.readSchema h' l
      = Some (SchemaModel.construct
                (SchemaGenerator.generateSchema [Samples.author; Samples.book]
                   [NormalizerSpec.writes false]
                   (SchemaGenerator.mkOptions (Some "New Schema") (Some ""))
                   "2024-05-01")
                "2024-05-01" "2024-05-02")
    ∧ (∀ id0 l0,
         SchemaModel.findById (SchemaModel.stored ModelSpec.initial) id0 = Some l0 →
         SchemaModel.findById (SchemaModel.stored st') id0 = Some l0
         ∧ ∀ s, Store.readSchema ∅ l0 = Some s → Store.readSchema h' l0 = Some s)
    ∧ ModelSpec.idsBelowCounter st'.
Proof.
  apply (generated_schema_is_saved_and_found ModelSpec.library
           "2024-05-01" "2024-05-01" "2024-05-02" ModelSpec.initial ∅
           (Some "a library") None None
           [Samples.author; Samples.book] [NormalizerSpec.writes false]);
    [|done|done].
  intros id l H. unfold SchemaModel.findById, ModelSpec.initial in H.
  cbn [SchemaModel.stored] in H. by rewrite lookup_empty in H.
Defined.

(** X28.  From the prompt to the script.  A schema that the handler of the
    schema controller has saved can be exported: with the id that the
    handler returned and a dialect that is one of the four names in any mix
    of case, the handler of the SQL export answers 200, and the script is
    the one of the backend of that dialect for the generated schema as the
    model keeps it. *)
Theorem saved_schema_can_be_exported
    (mysql postgresql sqlite sqlserver : SqlGenerator.Generator)
    (format : string → string → option string)
    (extractEntities : string → SchemaController.Extraction)
    (now built saved : string) (st st' : SchemaModel.state) (h h' : Store.heap)
    (prompt name description : option string)
    (id : string) (l : Store.loc) (message dialect : string) :
  SchemaController.generateSchema extractEntities now built saved st h
    prompt name description
  = (st', h', SchemaController.mkResponse 201
                (SchemaController.Created message id l)) →
  Arr.includes ExportController.supportedDialects (JS.toLowerCase dialect) = true →
  ∃ entities rels g,
    extractEntities (tmpl prompt) = SchemaController.Extracted entities rels
    ∧ SqlGenerator.getDialectGenerator mysql postgresql sqlite sqlserver dialect
      = SqlGenerator.Backend g
    ∧ let schema :=
        SchemaModel.construct
          (SchemaGenerator.generateSchema entities rels
             (SchemaGenerator.mkOptions (Some (default "New Schema" name))
                (Some (default "" description))) now)
          built saved in
      (ExportController.generateSQL mysql postgresql sqlite sqlserver format
         (SchemaModel.stored st') h'
         (ExportController.Text id) (ExportController.Text dialect)).2
      = ExportController.mkResponse 200
          (ExportController.Script "SQL script generated successfully"
             (SqlGenerator.render format dialect
                (SqlGenerator.statements g dialect schema
                   (SqlPreprocess.preprocessSchema schema)))
             dialect).
Proof.
  intros Hgen Hd. unfold SchemaController.generateSchema in Hgen.
  destruct (JS.truthy prompt); [|done]. cbn [negb] in Hgen.
  destruct (extractEntities (tmpl prompt)) as [entities rels|m] eqn:He.
  2:{ by destruct (SchemaController.classify m). }
  destruct (SchemaModel.create _ built saved st h) as [[[id1 l1] st1] h1] eqn:Hc.
  injection Hgen as <- <- _ <- <-.
  apply create_spec in Hc as (-> & -> & Hl & Hsub & Hr).
  destruct (getDialectGenerator_supported mysql postgresql sqlite sqlserver
              _ Hd) as [g Hg].
  exists entities, rels, g. split; [done|]. split; [done|]. cbv zeta.
  unfold ExportController.generateSQL. cbv zeta.
  assert (ExportController.truthy
            (ExportController.Text (JS.ofNat (SchemaModel.nextId st))) = true) as ->.
  { apply negb_true_iff, eqb_false_of_ne, ofNat_nonempty. }
  cbn [negb SchemaModel.stored ExportController.findSchema].
  unfold SchemaModel.findById.
  rewrite lookup_insert_eq, Hd. cbn [negb].
  destruct (generateSQL_result mysql postgresql sqlite sqlserver format
              h1 l1 dialect _ g Hr Hg) as [h2 ->].
  done.
Qed.

Lemma saved_schema_can_be_exported_witness :
  ∃ st' h' sql,
    SchemaController.generateSchema ModelSpec.library "2024-05-01" "2024-05-01"
      "2024-05-02" ModelSpec.initial ∅ (Some "a library") None None
    = (st', h',
       SchemaController.mkResponse 201
         (SchemaController.Created "Schema generated successfully" "1" 3%positive))
    ∧ (ExportController.generateSQL (SampleBackends.backend "mysql")
         (SampleBackends.backend "postgresql") (SampleBackends.backend "sqlite")
         (SampleBackends.backend "sqlserver") SampleBackends.format
         (SchemaModel.stored st') h'
         (ExportController.Text "1") (ExportController.Text "PostgreSQL")).2
      = ExportController.mkResponse 200
          (ExportController.Script "SQL script generated successfully" sql
             "PostgreSQL").
Proof.
  set (r := SchemaController.generateSchema ModelSpec.library "2024-05-01"
              "2024-05-01" "2024-05-02" ModelSpec.initial ∅
              (Some "a library") None None).
  destruct (saved_schema_can_be_exported (SampleBackends.backend "mysql")
              (SampleBackends.backend "postgresql") (SampleBackends.backend "sqlite")
              (SampleBackends.backend "sqlserver") SampleBackends.format
              ModelSpec.library "2024-05-01" "2024-05-01" "2024-05-02"
              ModelSpec.initial r.1.1 ∅ r.1.2 (Some "a library") None None
              "1" 3%positive "Schema generated successfully" "PostgreSQL")
    as (entities & rels & g & _ & _ & H); [by vm_compute|by vm_compute|].
  exists r.1.1, r.1.2. eexists. split; [by vm_compute|exact H].
Defined.
